(* ===== verification/_CoqProject ===== *)
-Q . S2P
Prelude.v
Utf8.v
Json.v
Float64.v
FloatExact.v
Metrics.v
Format.v
Runtime.v
Path.v
Policy.v
Thompson.v
Stream.v
Probe.v
Manager.v
Sha256.v
Chunker.v
Codec.v
Lru.v
Bloom.v
Store.v
Csv.v
Signing.v
Stats.v
Replication.v
Erasure.v
BlockTransfer.v
CacheSummary.v
Node.v
Fetch.v
Providers.v
Transport.v
ProbeLoop.v
Lifecycle.v
Cluster.v
Api.v
Handlers.v
Http.v
Client.v
Root.v
System.v
Daemon.v
Bench.v
Suite.v
Report.v
