(* ===== verification/Prelude.v ===== *)
(** * PathAware-libp2p: a verification library

    The program under [src/] is a peer-to-peer node: it splits files into
    content-addressed blocks, stores and caches them, finds and fetches
    blocks from other peers, replicates popular ones (whole or erasure
    coded), and chooses among network paths by measuring them with probes.
    Commands talk to it over HTTP, and benchmarks run clusters of nodes.  This
    library models the program, function by function, in executable
    definitions, and proves what makes each part correct and what makes the
    parts work together.

    ** Parts, files and sources

    Every file under this directory opens with what it holds; definitions
    keep the names of the Go code.

    - [Prelude]: Go errors, results and panics ([outcome]), 64-bit wrap-around,
      byte strings, fixed-width integers on the wire, list lemmas, tactics
      and the hint database [pathaware].
    - [Utf8], [Json], [Codec]: runes of a byte string; the text that
      encoding/json writes and reads, with its nesting limit and its repair
      of ill-formed UTF-8; manifests, pins and request bodies as JSON, with
      the struct tags of the source.
    - [Float64], [FloatExact]: binary64 arithmetic on the Standard Library's
      [spec_float], with the order, sign and rounding lemmas the scores need;
      exact arithmetic on dyadic numbers for the statistics.
    - [Format], [Csv]: what strconv and fmt make of numbers and columns; the
      records that encoding/csv writes and RFC 4180 reads.
    - [Metrics] ([internal/metrics/]): the Prometheus collectors, their
      registration and the metrics server.
    - [Runtime]: what the Go runtime chooses: map iteration orders ([order]),
      the order of equal elements under a sort that is not stable ([sorter])
      and random draws ([rng], the monad [Rand]).
    - [Path], [Policy], [Manager] ([internal/pathpolicy/]): path metrics and
      sets; the ten selection policies with their state; the manager that
      probes, prunes and picks paths.
    - [Thompson] ([internal/pathpolicy/policy.go]): long runs of Thompson
      sampling.
    - [Stream], [Probe] ([internal/protocol/ping.go], [probe.go]): a libp2p
      stream between a client and a handler, with faults at every call; the
      ping and probe protocols.
    - [Sha256], [Chunker] ([internal/content/chunker.go]): an executable
      SHA-256, chunking, adaptive chunk sizes and manifests.
    - [Lru], [Bloom] ([internal/cache/]): the block cache with its
      second-chance eviction and pins; Bloom filters and the filters of peers.
    - [Store] ([internal/content/store.go]): blocks, manifests, fragments and
      pins on a disk of files and directories, with torn writes.
    - [Signing], [Replication] ([internal/content/]): manifest signatures; the
      fetch counters and their interleavings.
    - [Erasure] ([internal/erasure/]): encoding and decoding over a
      Reed-Solomon library.
    - [BlockTransfer], [CacheSummary] ([internal/protocol/]): the block
      fetch and push protocols; the exchange of cache summaries.
    - [Node] ([internal/node/config.go], [node.go]): the configuration and the
      replication cycle, plain and erasure coded.
    - [Stats] ([internal/bench/bench.go]): the statistics of the benchmark
      harness, with the Wilcoxon signed-rank test.
    - [Fetch], [Providers], [Api] ([internal/node/api.go],
      [internal/content/routing.go]): the fetch handler as interleaved
      goroutines, the ordering and racing of providers, and the handlers that
      publish, pin and look up content.
    - [Transport] ([internal/transport/]): the key file, host options,
      bootstrap addresses and the enumeration of relays.
    - [ProbeLoop] ([manager.go], [relay.go]): the background loop of probes
      and prunings over a sequence of ticks.
    - [Lifecycle] ([node.go], [ids.go], [cmd/daemon.go]): start and stop as
      operations that leave a trace of what was opened and closed.
    - [Handlers] ([api.go]): the routes and the handlers that report peers,
      pings, paths and the state of the node.
    - [Http] ([net/http], [net/url]): the query of a URL as the handler gets
      it, bodies and statuses as the command gets them.
    - [Client] ([cmd/publish.go], [fetch.go], [find.go], [pin.go], [ping.go],
      [peers.go], [paths.go]): the commands that call the HTTP API.
    - [Root] ([cmd/root.go], [main.go]): log level, configuration file, exit.
    - [Daemon]: the multiplexer, the handlers and the content of the node as
      one server, with the commands in front of it.
    - [Cluster] ([testutil/cluster.go]): clusters of nodes in one process,
      made, connected, waited for and cleaned up.
    - [System]: a node as a whole, its requests as sequences of atomic steps
      on the disk and the cache, restarts included.
    - [Bench], [Suite] ([internal/bench/bench.go]): the experiments on one
      cluster; the suites that repeat them and the series they write.
    - [Report] ([bench.go], [cmd/bench.go]): the rows as CSV, JSON and tables,
      and the command [bench].

    ** How the parts interact

    [Manager] runs [Probe.SendProbe] and keeps [Path] metrics; [Policy]
    chooses among them.  [BlockTransfer] serves from [Lru] and [Store];
    [CacheSummary] sends the content of [Lru] as a [Bloom] filter, which
    [Providers] consults.  [Node] reads popular blocks counted by
    [Replication] from [Store] and pushes them, or their [Erasure] fragments,
    with [BlockTransfer].  [Api.handlePublish] runs [Chunker], [Store] and
    [Signing]; [Fetch.handleFetch] reads [Store] and [Lru] and falls back to
    [Providers.fetchBlockFromNetwork], which [Api.network] plugs in.
    [Lifecycle.Start] puts the parts together: the key of [Transport], the
    [Store], the [Lru] cache, the DHT and the [Manager], whose [ProbeLoop]
    enumerates relays with [Transport.EnumerateRelayPeers].  [System] runs the
    handlers of [Api], [Fetch], [BlockTransfer] and [Node] on the node that
    [Lifecycle] starts, and refines each to atomic steps, so that one
    invariant serves all.  A command of [Client] builds a request with [Http];
    [Daemon] routes it with [Handlers.route] to a handler of [Api], [Fetch] or
    [Handlers], and the reply goes back through [Http] to the command, which
    decodes what the handler encoded.  [Cluster] starts several such nodes, [Bench] lets
    their block-transfer handlers and clients talk, and [Suite] makes, uses
    and cleans up a cluster for every run; [Report] prints the results and
    writes them with [Csv] and [Json] on the disk of the process.

    ** Groups of theorems

    - End to end: what is published can be fetched, byte for byte, whatever
      requests and restarts come in between, if they tear none of its files
      ([System.published_content_lasts]);
      two nodes that answer a fetch of the same root answer with the same bytes
      ([System.fetches_agree]); requests refine atomic steps
      ([System.requests_refine_atoms]); every body a fetch returns is made of blocks
      that hash to the manifest's identifiers, over the real network client
      and any interleaving ([Api.fetch_integrity]); every fair schedule ends
      with a reply unless the cache's lock or the network keeps a goroutine
      waiting, and only then ([Fetch.handleFetch_completes]); when the network
      fetch finds what a provider serves, and when it waits for ever
      ([Providers.fetchBlockFromNetwork_spec]); erasure
      fragments survive the loss of peers ([Node.erasure_survives_peer_loss]);
      a broadcast summary informs its receivers
      ([CacheSummary.broadcast_informs_peers]).
    - From command to command: a file that is published is fetched, byte for
      byte, through the HTTP API ([Daemon.published_file_is_fetched]); every
      request to the daemon keeps its content valid
      ([Daemon.daemon_keeps_content]); pins are listed after a restart until
      they are removed ([Daemon.pin_command_lasts]); an argument reaches its
      handler unchanged exactly when it has no separator and no escape
      ([Client.arguments_arrive_iff]); how many pings a command sends, and what
      it prints by the time they take ([Daemon.ping_command_sends]).
    - Life of a node: a start that succeeds puts every part in its initial
      state ([Lifecycle.Start_establishes]), a stop closes what it opened but
      for the metrics server, the relay service, a DHT that failed and what
      does not close ([Lifecycle.Stop_after_Start]), a restart keeps the peer ID
      ([Lifecycle.restart_keeps_peer_ID]).
    - Invariants: the cache ([Lru.reachable_wf]), the fetch counters
      ([Replication.RecordFetch_exactly_once]), the path manager under any
      probes, prunings and queries ([ProbeLoop.reachable_manager_wf]), the
      UCB1 counters, the beliefs of Thompson sampling over any run
      ([Thompson.Thompson_stays_usable]), the registry of collectors
      ([Metrics.New_registers]).
    - Statistics: the rank sums of the optimised tie handling are those of the
      pairwise definition ([Stats.Wilcoxon_counts]), and when the loop ends
      ([Stats.Wilcoxon_terminates_iff]); bounds of percentile and fairness.
    - Benchmarks: what the experiments depend on.  The fault-injection table
      is that of runs without kills and churn
      ([Suite.RunFaultInjection_kills_in_vain]), the cache experiment does not
      depend on the popularity it draws ([Bench.popularity_in_vain]), a
      comparison never fails ([Suite.RunComparison_rows]).
    - Files of results: a reader of RFC 4180 gets back the fields that were
      written, unless the disk fails ([Csv.csv_round_trip], [Csv.write_rows_outcome]);
      the file of [bench compare] ([Report.compare_command_file]).
    - Functional behaviour on every branch of cache, chunker, store, policies,
      manager and protocols; wire round trips; bounds of scores, rates and
      averages in floating point.
    - Where the code does not do what it means to, the theorem says what it
      does: [Lru.Put_terminates_iff], [Providers.hostile_summary_crashes_fetch],
      [Manager.relay_paths_collapse], [Store.torn_write_is_served],
      [Cluster.cluster_gives_up] and others.

    ** Conventions, bounds and fuel

    A Go [int], [int64] or [time.Duration] is a [Z] that wraps to 64 bits
    where the code computes with it ([wrap64]); strings and byte slices are
    Rocq strings and lists of bytes.  State is passed explicitly; a call that
    can fail returns an [outcome]; a map iteration takes an [order], and
    theorems quantify over all orders.  Concurrency is modelled where the code
    has it: [Replication.tracker_step] and [Fetch.worker_step] are the atomic
    steps between synchronisation points, schedules and finishing orders are
    arguments.  Faults of disk and network are arguments, per call.

    [os.WriteFile] truncates in place, so a write that fails part way leaves a
    torn file ([Store.WriteFile], [flt_written]).  The theorems about content
    are for a set [whole] of identifiers, any set, whose files no write of the
    requests in question tears ([Fetch.clean_writes]); all other files may be
    torn at any time.
    [Store.torn_write_is_served] is what happens otherwise.  A write is one
    step of a history: that another goroutine reads a file half written is not
    in the model.

    The source sets no deadline on a stream, so a peer that neither sends nor
    closes keeps its reader waiting.  A call that may never return has a result
    in [blocking], with [None] for never: [BlockTransfer.FetchBlock] and
    [PushBlock], the network fetch, the push of replicas, the experiments of
    [Bench], and a fetch request, which ends as [Fetch.fetch_end] says: with a
    reply, waiting, or in a panic.  The lock of the cache, which an endless
    eviction never releases, is an argument of the fetch.  Pings and probes of
    [Probe] are those that return.

    Time passes in requests ([Daemon.su_took]) and on both sides of them: the
    server drops a reply after its write deadline ([Http.on_the_wire]), the
    commands have their own ([Client.Do]; a deadline that passes while the body
    is read is reported there too).

    [Lru.Put] runs its eviction loop on fuel; [Lru.Put_terminates_iff] says
    exactly when some fuel is enough, and that then the number of entries is.
    [Fetch.fetch_batches] gets one unit per chunk and one more, which is always
    enough for fair schedules ([Fetch.handleFetch_completes]).  [Chunker]
    loops on the length of the data.  [Stats.assign_ranks] runs on one unit
    more than the pairs, enough exactly when no difference is NaN.  The JSON
    reader descends on Go's own nesting limit of 10000 ([maxNestingDepth]) and
    reads the items of a list on the length of the text, which each item
    shortens.  [Format.digits] has a unit for each binary digit of a number,
    more than it has decimal digits.  No other definition takes fuel.

    Code outside [src/] is a class parameter with the documented laws the code
    relies on, and every class has a concrete instance used by the witnesses:
    [PeerID], [PeerDecode], [Multiaddrs], [Crypto], [Multiformats],
    [Providers.DHT] (libp2p), [ReedSolomon], [LinAlg] (gonum), and, of the
    Standard Library, [Ed25519], [MathLib] and [MathExp] (logarithm and
    exponential, whose results the language does not fix), [JSONErrors] and
    [URLErrors] (the texts of errors), [JSONFloats] (the shortest decimal form
    of a float) and [TimeFormat] (time zones).  [Prometheus] is the client
    library of the metrics.

    ** Not modelled

    The listening sockets of the API and metrics servers belong to net/http,
    and the parsing of flags and arguments to cobra: handlers start from a
    request and commands from their flags.  The updates of the Prometheus
    collectors change nothing the program reads and are left out of the
    functions that make them.  So are log lines and what commands note on the
    standard error.  Of the replication and the summary loop of a node the
    cycles are modelled and not their tickers; no cycle runs during an
    experiment. *)

From Stdlib Require Export ZArith Lia.
From Stdlib Require Strings.Byte.
From stdpp Require Export base tactics option list list_numbers gmap strings pretty.
From coqutil Require Export Byte.
From coqutil Require Import Word.LittleEndianList.

#[global] Set Default Goal Selector "1".

Declare Scope go_scope.
Delimit Scope go_scope with go.

(** ** Hint database of the development *)

Create HintDb pathaware discriminated.
Create Rewrite HintDb pathaware.

(** ** Go errors, results and panics *)

(** A Go [error]: a message built by [fmt.Errorf], or a context wrapped
    around an inner error ([%w]). *)
Inductive error :=
  | Errorf (msg : string)
  | Wrapf (ctx : string) (inner : error)
  | Stalled.   (* no value of the program: how a read ends that never returns *)

#[export] Instance error_eq_dec : EqDecision error.
Proof. solve_decision. Defined.

(** [io.EOF] and [io.ErrUnexpectedEOF], compared by identity in the code. *)
Definition EOF : error := Errorf "EOF".
Definition ErrUnexpectedEOF : error := Errorf "unexpected EOF".

(** The outcome of a Go call: a value, an error value, or a run-time panic. *)
Inductive outcome (A : Type) :=
  | Ok (a : A)
  | Err (e : error)
  | Panic (why : string).
Arguments Ok {A} a.
Arguments Err {A} e.
Arguments Panic {A} why.

#[export] Instance outcome_eq_dec {A} {dec : EqDecision A} : EqDecision (outcome A).
Proof. solve_decision. Defined.

#[export] Instance outcome_ret : MRet outcome := @Ok.
#[export] Instance outcome_bind : MBind outcome :=
  λ A B k m, match m with
             | Ok a => k a
             | Err e => Err e
             | Panic w => Panic w
             end.
#[export] Instance outcome_fmap : FMap outcome :=
  λ A B f m, match m with
             | Ok a => Ok (f a)
             | Err e => Err e
             | Panic w => Panic w
             end.

(** [wrap_err ctx m] is the idiom
    [if err != nil { return fmt.Errorf("ctx: %w", err) }]. *)
Definition wrap_err {A} (ctx : string) (m : outcome A) : outcome A :=
  match m with Err e => Err (Wrapf ctx e) | _ => m end.

(** A call that may never return: [None] when it does not. *)
Definition blocking (A : Type) : Type := option (outcome A).

#[export] Instance blocking_ret : MRet blocking := λ A a, Some (Ok a).
#[export] Instance blocking_bind : MBind blocking :=
  λ A B k m, match m with
             | Some (Ok a) => k a
             | Some (Err e) => Some (Err e)
             | Some (Panic w) => Some (Panic w)
             | None => None
             end.

(** A call that returns at once. *)
Definition now {A} (m : outcome A) : blocking A := Some m.

(** It returns, and without an error. *)
Definition succeeded {A} (r : blocking A) : bool := match r with Some (Ok _) => true | _ => false end.

(** [is_ok m]: the call returned a nil error. *)
Definition is_ok {A} (m : outcome A) : bool :=
  match m with Ok _ => true | _ => false end.

Lemma bind_Ok {A B} (k : A → outcome B) (a : A) : (Ok a ≫= k) = k a.
Proof. done. Qed.

Lemma bind_Ok_inv {A B} (k : A → outcome B) (m : outcome A) (b : B) :
  (m ≫= k) = Ok b → ∃ a, m = Ok a ∧ k a = Ok b.
Proof. destruct m; simpl; try discriminate; eauto. Qed.

Lemma bind_now {A B} (k : A → blocking B) (a : A) : (now (Ok a) ≫= k) = k a.
Proof. done. Qed.

Lemma blocking_bind_Ok_inv {A B} (k : A → blocking B) (m : blocking A) (b : B) :
  (m ≫= k) = Some (Ok b) → ∃ a, m = Some (Ok a) ∧ k a = Some (Ok b).
Proof. destruct m as [[a|e|w]|]; simpl; try discriminate; eauto. Qed.

Lemma wrap_err_Ok {A} ctx (m : outcome A) (a : A) :
  wrap_err ctx m = Ok a ↔ m = Ok a.
Proof. destruct m; simpl; split; congruence. Qed.

(** ** Machine integers *)

Open Scope Z_scope.

(** Go's [int] and [int64] (two's complement, 64 bits) and the unsigned
    types: conversion to the type keeps the low bits. *)
Definition wrap64 (z : Z) : Z := (z + 2 ^ 63) mod 2 ^ 64 - 2 ^ 63.
Definition uwrap (w z : Z) : Z := z mod 2 ^ w.

Definition int64_ok (z : Z) : Prop := - 2 ^ 63 ≤ z < 2 ^ 63.

Lemma wrap64_small z : int64_ok z → wrap64 z = z.
Proof. unfold int64_ok, wrap64. intros. rewrite Z.mod_small; lia. Qed.

Lemma wrap64_ok z : int64_ok (wrap64 z).
Proof.
  unfold int64_ok, wrap64.
  pose proof (Z.mod_pos_bound (z + 2 ^ 63) (2 ^ 64) ltac:(lia)). lia.
Qed.

Lemma wrap64_idem_add_l a b : wrap64 (wrap64 a + b) = wrap64 (a + b).
Proof.
  unfold wrap64. f_equal.
  replace ((a + 2 ^ 63) mod 2 ^ 64 - 2 ^ 63 + b + 2 ^ 63)
    with ((a + 2 ^ 63) mod 2 ^ 64 + b) by lia.
  rewrite Zplus_mod_idemp_l. f_equal. lia.
Qed.

Lemma uwrap_small w z : 0 ≤ z < 2 ^ w → uwrap w z = z.
Proof. apply Z.mod_small. Qed.

#[export] Hint Resolve wrap64_ok : pathaware.
#[export] Hint Rewrite @wrap64_idem_add_l : pathaware.

(** ** Byte slices, strings and wire integers *)

Abbreviation bytes := (list byte).

#[export] Instance byte_eq_dec : EqDecision byte := Strings.Byte.byte_eq_dec.

(** [[]byte(s)] and [string(b)]. *)
Definition to_bytes (s : string) : bytes := String.list_byte_of_string s.
Definition to_string (b : bytes) : string := String.string_of_list_byte b.

Lemma to_string_to_bytes s : to_string (to_bytes s) = s.
Proof. apply String.string_of_list_byte_of_string. Qed.

Lemma to_bytes_to_string b : to_bytes (to_string b) = b.
Proof. apply String.list_byte_of_string_of_list_byte. Qed.

Lemma to_bytes_inj s t : to_bytes s = to_bytes t → s = t.
Proof. intros H. by rewrite <-(to_string_to_bytes s), H, to_string_to_bytes. Qed.

#[export] Instance to_bytes_Inj : Inj (=) (=) to_bytes := to_bytes_inj.

Lemma to_bytes_app s t : to_bytes (s +:+ t) = to_bytes s ++ to_bytes t.
Proof.
  induction s as [|c s IH]; [done|].
  change (to_bytes (String c s +:+ t)) with (Ascii.byte_of_ascii c :: to_bytes (s +:+ t)).
  by rewrite IH.
Qed.

Lemma string_length_app s t : String.length (s +:+ t) = (String.length s + String.length t)%nat.
Proof. induction s as [|c s IH]; [done|]. simpl. by rewrite IH. Qed.

(** [encoding/binary]: [n]-byte little- and big-endian integers. *)
Definition le_put (n : nat) (z : Z) : bytes := le_split n z.
Definition le_get (b : bytes) : Z := le_combine b.
Definition be_put (n : nat) (z : Z) : bytes := rev (le_split n z).
Definition be_get (b : bytes) : Z := le_combine (rev b).

#[global] Arguments le_put : simpl never.
#[global] Arguments le_get : simpl never.
#[global] Arguments be_put : simpl never.
#[global] Arguments be_get : simpl never.

Lemma length_le_put n z : length (le_put n z) = n.
Proof. apply length_le_split. Qed.

Lemma length_be_put n z : length (be_put n z) = n.
Proof. unfold be_put. by rewrite length_rev, length_le_split. Qed.

Lemma le_get_put n z : le_get (le_put n z) = z mod 2 ^ (Z.of_nat n * 8).
Proof. apply le_combine_split. Qed.

Lemma be_get_put n z : be_get (be_put n z) = z mod 2 ^ (Z.of_nat n * 8).
Proof. unfold be_get, be_put. rewrite rev_involutive. apply le_combine_split. Qed.

Lemma le_put_get b : le_put (length b) (le_get b) = b.
Proof. apply split_le_combine. Qed.

Lemma be_put_get b : be_put (length b) (be_get b) = b.
Proof.
  unfold be_put, be_get.
  rewrite <-length_rev, split_le_combine. apply rev_involutive.
Qed.

Lemma be_put_mod n z : be_put n (z mod 2 ^ (Z.of_nat n * 8)) = be_put n z.
Proof. rewrite <-be_get_put, <-(length_be_put n z) at 1. apply be_put_get. Qed.

Lemma le_get_bound b : 0 ≤ le_get b < 2 ^ (8 * Z.of_nat (length b)).
Proof. apply le_combine_bound. Qed.

Lemma be_get_bound b : 0 ≤ be_get b < 2 ^ (8 * Z.of_nat (length b)).
Proof. unfold be_get. rewrite <-length_rev. apply le_combine_bound. Qed.

#[export] Hint Rewrite length_le_put length_be_put : pathaware.

(** [len(x)] as a Go [int]. *)
Abbreviation zlen l := (Z.of_nat (length l)).

(** ** Generic list lemmas *)

Section lists.
Context {A : Type}.
Implicit Types l : list A.

(** [filter_viable] and other Go filters keep order and membership;
    a [for] loop appending to a slice is [filter]. *)
Lemma filter_nil_Forall (P : A → bool) l :
  List.filter P l = [] ↔ Forall (λ x, P x = false) l.
Proof.
  induction l as [|x l IH]; simpl; [naive_solver|].
  destruct (P x) eqn:E.
  - split; [done|]. intros H. inversion H; congruence.
  - rewrite IH. split; [by constructor|]. by inversion 1.
Qed.

Lemma elem_of_filter_bool (P : A → bool) l x :
  x ∈ List.filter P l ↔ x ∈ l ∧ P x = true.
Proof. rewrite !list_elem_of_In. apply filter_In. Qed.

Lemma NoDup_filter_bool (P : A → bool) l : NoDup l → NoDup (List.filter P l).
Proof.
  induction 1 as [|x l Hx Hl IH]; simpl; [constructor|].
  destruct (P x); [|done]. constructor; [|done]. by rewrite elem_of_filter_bool; intros [].
Qed.

Lemma sum_list_with_perm (f : A → Z) l1 l2 :
  l1 ≡ₚ l2 → foldr (λ x a, f x + a) 0 l1 = foldr (λ x a, f x + a) 0 l2.
Proof. induction 1; simpl; lia. Qed.
End lists.

(** [zsum f l] is the sum of [f] over [l]. *)
Definition zsum {A} (f : A → Z) (l : list A) : Z := foldr (λ x a, f x + a) 0 l.
Arguments zsum : simpl never.

Section zsum.
Context {A : Type} (f : A → Z).
Implicit Types l : list A.

Lemma zsum_nil : zsum f [] = 0.
Proof. done. Qed.

Lemma zsum_cons x l : zsum f (x :: l) = f x + zsum f l.
Proof. done. Qed.

Lemma zsum_app l1 l2 : zsum f (l1 ++ l2) = zsum f l1 + zsum f l2.
Proof. induction l1 as [|x l1 IH]; [done|]. simpl. rewrite !zsum_cons, IH. lia. Qed.

Lemma zsum_rev l : zsum f (rev l) = zsum f l.
Proof. induction l as [|x l IH]; [done|]. simpl. rewrite zsum_app, zsum_cons, zsum_nil, zsum_cons, IH. lia. Qed.

Lemma zsum_nonneg l : Forall (λ x, 0 ≤ f x) l → 0 ≤ zsum f l.
Proof. induction 1; simpl; [done|]. rewrite zsum_cons. lia. Qed.

#[global] Instance zsum_proper : Proper ((≡ₚ) ==> (=)) (zsum f).
Proof. intros l1 l2 H. by apply sum_list_with_perm. Qed.
End zsum.

#[export] Hint Rewrite @zsum_nil @zsum_cons @zsum_app @zsum_rev : pathaware.

(** ** Tactics *)

(** Case analysis on the innermost [match]/[if] of the goal, remembering it. *)
Ltac case_if :=
  match goal with
  | |- context [if ?b then _ else _] => destruct b eqn:?
  end.

(** Normalise Boolean comparisons in the context to propositions. *)
Ltac zbool :=
  repeat match goal with
  | H : (_ <? _) = true |- _ => apply Z.ltb_lt in H
  | H : (_ <? _) = false |- _ => apply Z.ltb_ge in H
  | H : (_ <=? _) = true |- _ => apply Z.leb_le in H
  | H : (_ <=? _) = false |- _ => apply Z.leb_gt in H
  | H : (_ =? _) = true |- _ => apply Z.eqb_eq in H
  | H : (_ =? _) = false |- _ => apply Z.eqb_neq in H
  | H : (_ && _)%bool = true |- _ => apply andb_true_iff in H as [? ?]
  | H : (_ || _)%bool = false |- _ => apply orb_false_iff in H as [? ?]
  | H : negb _ = true |- _ => apply negb_true_iff in H
  | H : negb _ = false |- _ => apply negb_false_iff in H
  end.

(** Rewrite with the development's equations. *)
Ltac pw := autorewrite with pathaware in *.
