(* ===== verification/Utf8.v ===== *)
(** * UTF-8 ([unicode/utf8])

    A Go string is a byte sequence; the functions that read it rune by rune
    take a byte that starts no well-formed rune as [RuneError] and go on with
    the next byte.  [runes] is that decomposition, [ToValidUTF8] replaces
    every such byte by U+FFFD, as [encoding/json] does. *)

From Stdlib Require Import Init.Byte ZifyBool.
From S2P Require Import Prelude.

Abbreviation code := byte.unsigned (only parsing).

Definition between (lo hi : Z) (b : byte) : bool := (lo <=? code b) && (code b <=? hi).
Definition cont (b : byte) : bool := between 128 191 b.
Definition ascii_byte (b : byte) : bool := code b <? 128.

(** The well-formed runes of two, three and four bytes: no overlong forms, no
    surrogates, nothing above U+10FFFF. *)
Definition rune2 (a b : byte) : bool := between 194 223 a && cont b.
Definition rune3 (a b c : byte) : bool :=
  ((code a =? 224) && between 160 191 b ||
   (between 225 236 a || between 238 239 a) && cont b ||
   (code a =? 237) && between 128 159 b) && cont c.
Definition rune4 (a b c d : byte) : bool :=
  ((code a =? 240) && between 144 191 b ||
   between 241 243 a && cont b ||
   (code a =? 244) && between 128 143 b) && cont c && cont d.

Definition valid_rune (r : bytes) : bool :=
  match r with
  | [a] => ascii_byte a
  | [a; b] => rune2 a b
  | [a; b; c] => rune3 a b c
  | [a; b; c; d] => rune4 a b c d
  | _ => false
  end.

(** The runes of a string; a byte that starts none is on its own. *)
Fixpoint runes (s : bytes) : list bytes :=
  match s with
  | [] => []
  | a :: s1 =>
      match s1 with
      | b :: s2 =>
          if rune2 a b then [a; b] :: runes s2 else
          match s2 with
          | c :: s3 =>
              if rune3 a b c then [a; b; c] :: runes s3 else
              match s3 with
              | d :: s4 => if rune4 a b c d then [a; b; c; d] :: runes s4 else [a] :: runes s1
              | [] => [a] :: runes s1
              end
          | [] => [a] :: runes s1
          end
      | [] => [a] :: runes s1
      end
  end.

Definition ValidString (s : bytes) : bool := forallb valid_rune (runes s).

(** U+FFFD *)
Definition RuneError : bytes := [xef; xbf; xbd].

Definition fix_rune (r : bytes) : bytes := if valid_rune r then r else RuneError.
Definition ToValidUTF8 (s : bytes) : bytes := concat (fix_rune <$> runes s).

(** [utf8.AppendRune] of a code point that is not a surrogate. *)
Definition of_code (z : Z) : byte := byte.of_Z z.
Definition EncodeRune (r : Z) : bytes :=
  if r <? 128 then [of_code r]
  else if r <? 2048 then [of_code (192 + r / 64); of_code (128 + r mod 64)]
  else if r <? 65536 then
    [of_code (224 + r / 4096); of_code (128 + r / 64 mod 64); of_code (128 + r mod 64)]
  else
    [of_code (240 + r / 262144); of_code (128 + r / 4096 mod 64); of_code (128 + r / 64 mod 64);
     of_code (128 + r mod 64)].

(** ** The decomposition *)

Ltac bytes_lia :=
  unfold valid_rune, rune2, rune3, rune4, cont, ascii_byte, between in *; lia.

Lemma runes_app r s : valid_rune r = true → runes (r ++ s) = r :: runes s.
Proof.
  destruct r as [|a [|b [|c [|d [|]]]]]; try discriminate; intros H; simpl app; cbn [runes].
  - destruct s as [|b s2]; [done|]. assert (rune2 a b = false) as -> by bytes_lia.
    destruct s2 as [|c s3]; [done|]. assert (rune3 a b c = false) as -> by bytes_lia.
    destruct s3 as [|d s4]; [done|]. assert (rune4 a b c d = false) as -> by bytes_lia. done.
  - by rewrite (H : rune2 a b = true).
  - assert (rune2 a b = false) as -> by bytes_lia. by rewrite (H : rune3 a b c = true).
  - assert (rune2 a b = false) as -> by bytes_lia. assert (rune3 a b c = false) as -> by bytes_lia.
    by rewrite (H : rune4 a b c d = true).
Qed.

(** The first rune of a string, or the byte that starts none. *)
Lemma runes_head a s :
  (∃ r s', a :: s = r ++ s' ∧ valid_rune r = true) ∨
  (ascii_byte a = false ∧ runes (a :: s) = [a] :: runes s).
Proof.
  destruct (ascii_byte a) eqn:Ea; [left; by exists [a], s|].
  cbn [runes]. destruct s as [|b s2]; [by right|].
  destruct (rune2 a b) eqn:E2; [left; by exists [a; b], s2|].
  destruct s2 as [|c s3]; [by right|].
  destruct (rune3 a b c) eqn:E3; [left; by exists [a; b; c], s3|].
  destruct s3 as [|d s4]; [by right|].
  destruct (rune4 a b c d) eqn:E4; [left; by exists [a; b; c; d], s4|by right].
Qed.

(** Induction along the runes of a string. *)
Lemma runes_ind (P : bytes → Prop) :
  P [] → (∀ r s, valid_rune r = true → P s → P (r ++ s)) →
  (∀ a s, ascii_byte a = false → runes (a :: s) = [a] :: runes s → P s → P (a :: s)) →
  ∀ s, P s.
Proof.
  intros H0 Hr Hb s. induction s as [s IH] using (well_founded_induction (Wf_nat.well_founded_ltof _ (@length byte))).
  unfold Wf_nat.ltof in IH.
  destruct s as [|a s]; [done|].
  destruct (runes_head a s) as [(r & s' & E & Hv)|[Ha E]].
  - rewrite E in *. apply Hr; [done|]. apply IH. rewrite length_app.
    destruct r; [done|simpl; lia].
  - apply Hb; [done|done|]. apply IH. simpl. lia.
Qed.

Lemma runes_shape s :
  Forall (λ r, valid_rune r = true ∨ ∃ a, r = [a] ∧ ascii_byte a = false) (runes s).
Proof.
  induction s as [|r s Hv IH|a s Ha E IH] using runes_ind; [constructor|..].
  - rewrite runes_app by done. constructor; [by left|done].
  - rewrite E. constructor; [right; by exists a|done].
Qed.

Lemma runes_concat s : concat (runes s) = s.
Proof.
  induction s as [|r s Hv IH|a s Ha E IH] using runes_ind; [done|..].
  - rewrite runes_app by done. simpl. by rewrite IH.
  - rewrite E. simpl. by rewrite IH.
Qed.

Lemma fix_rune_valid r : valid_rune (fix_rune r) = true.
Proof. unfold fix_rune. by destruct (valid_rune r) eqn:E. Qed.

Lemma runes_valid l :
  Forall (λ r, valid_rune r = true) l → runes (concat l) = l.
Proof.
  induction 1 as [|r l Hr _ IH]; [done|]. simpl. by rewrite runes_app, IH.
Qed.

Lemma ToValidUTF8_app r s : valid_rune r = true → ToValidUTF8 (r ++ s) = r ++ ToValidUTF8 s.
Proof.
  intros Hr. unfold ToValidUTF8. rewrite runes_app by done. rewrite fmap_cons. simpl.
  unfold fix_rune at 1. by rewrite Hr.
Qed.

Lemma ToValidUTF8_idemp s : ToValidUTF8 (ToValidUTF8 s) = ToValidUTF8 s.
Proof.
  unfold ToValidUTF8. rewrite runes_valid.
  - f_equal. rewrite <-list_fmap_compose. apply list_fmap_ext. intros i r _. simpl.
    unfold fix_rune at 1. by rewrite fix_rune_valid.
  - apply Forall_fmap, Forall_forall. intros r _. apply fix_rune_valid.
Qed.

Lemma ToValidUTF8_valid s : ValidString s = true → ToValidUTF8 s = s.
Proof.
  intros H. unfold ToValidUTF8, ValidString in *. rewrite <-(runes_concat s) at 2. f_equal.
  rewrite forallb_forall in H. rewrite <-(list_fmap_id (runes s)) at 2.
  apply list_fmap_ext. intros i r Hr. unfold fix_rune. simpl.
  by rewrite H by by eapply list_elem_of_In, list_elem_of_lookup_2.
Qed.

Lemma ToValidUTF8_ValidString s : ValidString (ToValidUTF8 s) = true.
Proof.
  unfold ToValidUTF8, ValidString. rewrite runes_valid.
  - apply forallb_forall. intros r (r' & -> & _)%list_elem_of_In%list_elem_of_fmap.
    apply fix_rune_valid.
  - apply Forall_fmap, Forall_forall. intros r _. apply fix_rune_valid.
Qed.

(** ASCII strings are valid. *)
Lemma ascii_ValidString s : forallb ascii_byte s = true → ValidString s = true.
Proof.
  unfold ValidString. induction s as [|a s IH]; [done|]. intros [Ha Hs]%andb_true_iff.
  change (a :: s) with ([a] ++ s). rewrite runes_app by done.
  cbn [forallb]. rewrite IH by done. simpl. by rewrite Ha.
Qed.

(** A rune is not empty and, unless it is one ASCII byte, has none. *)
Lemma valid_rune_cases r :
  valid_rune r = true →
  (∃ a, r = [a] ∧ ascii_byte a = true) ∨ (r ≠ [] ∧ Forall (λ b, ascii_byte b = false) r).
Proof.
  destruct r as [|a [|b [|c [|d [|]]]]]; try discriminate; intros H; [left; by exists a|right..];
    (split; [done|]); repeat constructor; bytes_lia.
Qed.

(** Runes of code points that are not surrogates are valid. *)
Lemma EncodeRune_valid r :
  0 ≤ r < 55296 ∨ 57344 ≤ r < 1114112 → valid_rune (EncodeRune r) = true.
Proof.
  intros Hr. unfold EncodeRune.
  assert (∀ z, 0 ≤ z < 256 → code (of_code z) = z) as Hc.
  { intros z Hz. unfold of_code. rewrite byte.unsigned_of_Z. by apply Z.mod_small. }
  pose proof (Z.mod_pos_bound r 64 ltac:(lia)). pose proof (Z.mod_pos_bound (r / 64) 64 ltac:(lia)).
  pose proof (Z.mod_pos_bound (r / 4096) 64 ltac:(lia)).
  pose proof (Z_div_mod_eq_full r 64). pose proof (Z_div_mod_eq_full (r / 64) 64).
  pose proof (Z_div_mod_eq_full (r / 4096) 64).
  change 262144 with (64 * 4096). rewrite <-!Z.div_div by lia.
  change 4096 with (64 * 64) in *. rewrite <-!Z.div_div in * by lia.
  destruct (r <? 128) eqn:E1; [|destruct (r <? 2048) eqn:E2; [|destruct (r <? 65536) eqn:E3]]; zbool;
    unfold valid_rune, rune2, rune3, rune4, cont, ascii_byte, between;
    repeat match goal with |- context [code (of_code ?z)] => rewrite (Hc z) by lia end; lia.
Qed.
