(* ===== verification/Json.v ===== *)
(** * JSON ([encoding/json])

    The encoder and the decoder of Go's [encoding/json], as far as the
    program uses them: strings with escapes and the replacement of ill-formed
    UTF-8, numbers, arrays, objects, compact and indented output, the nesting
    limit.  The text of a decoding error is not part of the model: the class
    [JSONErrors] gives it.  Decoding a value into a Go type is in the files
    that declare the type. *)

From Stdlib Require Import Init.Byte ZifyBool.
From S2P Require Import Prelude Utf8.

(** What the decoder's error says about an input. *)
Class JSONErrors := json_error : bytes → error.

Inductive json :=
  | JNull
  | JBool (b : bool)
  | JNumber (lit : bytes)
  | JString (s : string)
  | JArray (l : list json)
  | JObject (l : list (string * json)).

Definition QUOTE : byte := x22.
Definition BACKSLASH : byte := x5c.

(** ** Strings *)

Definition hex_char (n : Z) : byte := of_code (if n <? 10 then 48 + n else 87 + n).

(** Bytes that need no escape, with HTML escaping on: printable ASCII but for
    the quote, the backslash, [<], [>] and [&]. *)
Definition html_safe (b : byte) : bool :=
  (32 <=? code b) && (code b <? 128) &&
  negb (existsb (λ c, bool_decide (b = c)) [QUOTE; BACKSLASH; x3c; x3e; x26]).

(** The two-character escapes, as the encoder writes them ... *)
Definition short_escape (b : byte) : option byte :=
  if decide (b = BACKSLASH) then Some BACKSLASH
  else if decide (b = QUOTE) then Some QUOTE
  else if decide (b = x08) then Some x62
  else if decide (b = x0c) then Some x66
  else if decide (b = x0a) then Some x6e
  else if decide (b = x0d) then Some x72
  else if decide (b = x09) then Some x74
  else None.

Definition escape_byte (b : byte) : bytes :=
  if html_safe b then [b]
  else match short_escape b with
       | Some e => [BACKSLASH; e]
       | None => [BACKSLASH; x75; x30; x30; hex_char (code b / 16); hex_char (code b mod 16)]
       end.

(** U+2028 and U+2029 are escaped; other well-formed runes are copied. *)
Definition escape_rune (r : bytes) : bytes :=
  if decide (r = [xe2; x80; xa8]) then [BACKSLASH; x75; x32; x30; x32; x38]
  else if decide (r = [xe2; x80; xa9]) then [BACKSLASH; x75; x32; x30; x32; x39]
  else match r with
       | [a] => if ascii_byte a then escape_byte a else [BACKSLASH; x75; x66; x66; x66; x64]
       | _ => r
       end.

Definition print_string (s : string) : bytes :=
  QUOTE :: concat (escape_rune <$> runes (to_bytes s)) ++ [QUOTE].

(** ... and as the decoder reads them: the slash may be escaped too. *)
Definition read_escape (e : byte) : option byte :=
  if decide (e = BACKSLASH) then Some BACKSLASH
  else if decide (e = QUOTE) then Some QUOTE
  else if decide (e = x2f) then Some x2f
  else if decide (e = x62) then Some x08
  else if decide (e = x66) then Some x0c
  else if decide (e = x6e) then Some x0a
  else if decide (e = x72) then Some x0d
  else if decide (e = x74) then Some x09
  else None.

Definition hex_digit_value (b : byte) : option Z :=
  let c := code b in
  if between 48 57 b then Some (c - 48)
  else if between 97 102 b then Some (c - 87)
  else if between 65 70 b then Some (c - 55)
  else None.

Definition hex4 (a b c d : byte) : option Z :=
  va ← hex_digit_value a; vb ← hex_digit_value b; vc ← hex_digit_value c; vd ← hex_digit_value d;
  Some (((va * 16 + vb) * 16 + vc) * 16 + vd).

Definition surrogate (r : Z) : bool := (55296 <=? r) && (r <? 57344).

(** [utf16.DecodeRune] of a pair: a high and a low surrogate. *)
Definition pair_rune (r1 r2 : Z) : option Z :=
  if (55296 <=? r1) && (r1 <? 56320) && (56320 <=? r2) && (r2 <? 57344)
  then Some ((r1 - 55296) * 1024 + (r2 - 56320) + 65536) else None.

(** A string after its opening quote: the bytes it stands for, before
    ill-formed UTF-8 is replaced, and what follows the closing quote. *)
Fixpoint string_body (s : bytes) : option (bytes * bytes) :=
  let put (b : bytes) (r : option (bytes * bytes)) := '(t, rest) ← r; Some (b ++ t, rest) in
  match s with
  | [] => None
  | c :: s1 =>
      if decide (c = QUOTE) then Some ([], s1)
      else if decide (c = BACKSLASH) then
        match s1 with
        | [] => None
        | e :: s2 =>
            if decide (e = x75) then
              match s2 with
              | h1 :: h2 :: h3 :: h4 :: s3 =>
                  r ← hex4 h1 h2 h3 h4;
                  if surrogate r then
                    match s3 with
                    | b :: u :: k1 :: k2 :: k3 :: k4 :: s4 =>
                        match (if decide (b = BACKSLASH ∧ u = x75)
                               then r2 ← hex4 k1 k2 k3 k4; pair_rune r r2 else None) with
                        | Some rr => put (EncodeRune rr) (string_body s4)
                        | None => put RuneError (string_body s3)
                        end
                    | _ => put RuneError (string_body s3)
                    end
                  else put (EncodeRune r) (string_body s3)
              | _ => None
              end
            else b ← read_escape e; put [b] (string_body s2)
        end
      else if code c <? 32 then None
      else put [c] (string_body s1)
  end.

Definition read_string (s : bytes) : option (string * bytes) :=
  '(b, rest) ← string_body s; Some (to_string (ToValidUTF8 b), rest).

(** ** Numbers *)

Definition digit (b : byte) : bool := between 48 57 b.

Fixpoint span_digits (s : bytes) : bytes * bytes :=
  match s with
  | c :: s1 => if digit c then let '(d, r) := span_digits s1 in (c :: d, r) else ([], s)
  | [] => ([], [])
  end.

(** At least one digit. *)
Definition digits1 (s : bytes) : option (bytes * bytes) :=
  match span_digits s with ([], _) => None | r => Some r end.

Definition int_part (s : bytes) : option (bytes * bytes) :=
  match s with
  | c :: s1 => if decide (c = x30) then Some ([c], s1) else digits1 s
  | [] => None
  end.

Definition frac_part (s : bytes) : option (bytes * bytes) :=
  match s with
  | c :: s1 => if decide (c = x2e) then '(d, r) ← digits1 s1; Some (c :: d, r) else Some ([], s)
  | [] => Some ([], [])
  end.

Definition exp_part (s : bytes) : option (bytes * bytes) :=
  match s with
  | c :: s1 =>
      if decide (c = x65 ∨ c = x45) then
        match s1 with
        | g :: s2 =>
            if decide (g = x2b ∨ g = x2d) then '(d, r) ← digits1 s2; Some (c :: g :: d, r)
            else '(d, r) ← digits1 s1; Some (c :: d, r)
        | [] => None
        end
      else Some ([], s)
  | [] => Some ([], [])
  end.

(** A number literal and what follows it. *)
Definition read_number (s : bytes) : option (bytes * bytes) :=
  let '(sign, s0) := match s with
                     | c :: s1 => if decide (c = x2d) then ([c], s1) else ([], s)
                     | [] => ([], [])
                     end in
  '(i, s1) ← int_part s0;
  '(f, s2) ← frac_part s1;
  '(e, s3) ← exp_part s2;
  Some (sign ++ i ++ f ++ e, s3).

(** ** Values *)

Definition space (b : byte) : bool :=
  bool_decide (b = x20 ∨ b = x09 ∨ b = x0a ∨ b = x0d).

Fixpoint skip_space (s : bytes) : bytes :=
  match s with
  | c :: s1 => if space c then skip_space s1 else s
  | [] => []
  end.

(** [s] after a given prefix. *)
Fixpoint expect (p s : bytes) : option bytes :=
  match p, s with
  | [], _ => Some s
  | a :: p', b :: s' => if decide (a = b) then expect p' s' else None
  | _, [] => None
  end.

(** The elements of an array or the members of an object, up to the closing
    character [fin]; each is read by [item], at a character that is no space.
    Every item takes at least a byte, so the length of the input is fuel
    enough. *)
Fixpoint items {A} (fin : byte) (item : bytes → option (A * bytes)) (fuel : nat) (s : bytes)
  : option (list A * bytes) :=
  match fuel with
  | O => None
  | S fuel' =>
      '(v, s1) ← item (skip_space s);
      match skip_space s1 with
      | c :: s2 =>
          if decide (c = x2c) then '(l, s3) ← items fin item fuel' s2; Some (v :: l, s3)
          else if decide (c = fin) then Some ([v], s2) else None
      | [] => None
      end
  end.

Definition items_or_none {A} (fin : byte) (item : bytes → option (A * bytes)) (s : bytes)
  : option (list A * bytes) :=
  match skip_space s with
  | c :: s1 => if decide (c = fin) then Some ([], s1) else items fin item (length s) s
  | [] => None
  end.

(** A member of an object: a key, a colon and a value. *)
Definition member (value : bytes → option (json * bytes)) (s : bytes)
  : option ((string * json) * bytes) :=
  match s with
  | c :: s1 =>
      if decide (c = QUOTE) then
        '(k, s2) ← read_string s1;
        s3 ← expect [x3a] (skip_space s2);
        '(v, s4) ← value (skip_space s3);
        Some ((k, v), s4)
      else None
  | [] => None
  end.

(** A value at a character that is no space; [depth] more arrays and objects
    may be opened. *)
Fixpoint read_value (depth : nat) (s : bytes) : option (json * bytes) :=
  match s with
  | [] => None
  | c :: s1 =>
      if decide (c = QUOTE) then '(t, r) ← read_string s1; Some (JString t, r)
      else if decide (c = x5b) then
        match depth with
        | O => None
        | S d => '(l, r) ← items_or_none x5d (read_value d) s1; Some (JArray l, r)
        end
      else if decide (c = x7b) then
        match depth with
        | O => None
        | S d => '(l, r) ← items_or_none x7d (member (read_value d)) s1; Some (JObject l, r)
        end
      else if decide (c = x6e) then r ← expect [x75; x6c; x6c] s1; Some (JNull, r)
      else if decide (c = x74) then r ← expect [x72; x75; x65] s1; Some (JBool true, r)
      else if decide (c = x66) then r ← expect [x61; x6c; x73; x65] s1; Some (JBool false, r)
      else '(n, r) ← read_number s; Some (JNumber n, r)
  end.

Definition maxNestingDepth : nat := Z.to_nat 10000.

(** [json.Unmarshal] of one value: nothing but space around it. *)
Definition Parse (data : bytes) : option json :=
  '(v, rest) ← read_value maxNestingDepth (skip_space data);
  match skip_space rest with [] => Some v | _ => None end.

(** [Decoder.Decode]: the first value of a stream; what follows is left. *)
Definition Decode (data : bytes) : option json :=
  fst <$> read_value maxNestingDepth (skip_space data).

(** ** Printing *)

(** [nl k] separates the parts of a value nested [k] deep, [sp] follows a
    colon. *)
Section print.
Context (nl : nat → bytes) (sp : bytes).

Fixpoint separated (sep : bytes) (l : list bytes) : bytes :=
  match l with
  | [] => []
  | [x] => x
  | x :: l' => x ++ sep ++ separated sep l'
  end.

Definition bracket (a z : byte) (level : nat) (l : list bytes) : bytes :=
  match l with
  | [] => [a; z]
  | _ => a :: nl (S level) ++ separated (x2c :: nl (S level)) l ++ nl level ++ [z]
  end.

Fixpoint print_value (level : nat) (v : json) : bytes :=
  match v with
  | JNull => [x6e; x75; x6c; x6c]
  | JBool true => [x74; x72; x75; x65]
  | JBool false => [x66; x61; x6c; x73; x65]
  | JNumber lit => lit
  | JString s => print_string s
  | JArray l => bracket x5b x5d level (List.map (print_value (S level)) l)
  | JObject l =>
      bracket x7b x7d level
        (List.map (λ '(k, v), print_string k ++ x3a :: sp ++ print_value (S level) v) l)
  end.
End print.

(** [json.Marshal], and [json.MarshalIndent] with no prefix and two blanks. *)
Definition Marshal (v : json) : bytes := print_value (λ _, []) [] 0 v.
Definition indent (k : nat) : bytes := x0a :: replicate (2 * k) x20.
Definition MarshalIndent (v : json) : bytes := print_value indent [x20] 0 v.

(** ** Integers: [strconv.AppendInt] and [strconv.ParseInt], base ten *)

(** Twenty digits are enough for 64 bits. *)
Fixpoint decimal (fuel : nat) (n : Z) : bytes :=
  match fuel with
  | O => []
  | S fuel' => if n <? 10 then [of_code (48 + n)]
               else decimal fuel' (n / 10) ++ [of_code (48 + n mod 10)]
  end.

Definition FormatInt (z : Z) : bytes :=
  if z <? 0 then x2d :: decimal 20 (- z) else decimal 20 z.

Definition digits_value (ds : bytes) : option Z :=
  foldl (λ acc c, a ← acc; if digit c then Some (10 * a + (code c - 48)) else None) (Some 0) ds.

(** A JSON number as an [int64]: digits only, within the range. *)
Definition ParseInt (lit : bytes) : option Z :=
  let '(neg, ds) := match lit with
                    | c :: ds => if decide (c = x2d) then (true, ds) else (false, lit)
                    | [] => (false, [])
                    end in
  v ← digits_value ds;
  let z := if neg : bool then - v else v in
  if (- 2 ^ 63 <=? z) && (z <? 2 ^ 63) then Some z else None.

(** ** Round trips *)

(** What a string becomes on its way through JSON. *)
Definition fix_string (s : string) : string := to_string (ToValidUTF8 (to_bytes s)).

Definition valid_string (s : string) : bool := ValidString (to_bytes s).

Lemma fix_string_valid s : valid_string s = true → fix_string s = s.
Proof. intros H. unfold fix_string. by rewrite ToValidUTF8_valid, to_string_to_bytes. Qed.

Lemma fix_string_is_valid s : valid_string (fix_string s) = true.
Proof. unfold valid_string, fix_string. rewrite to_bytes_to_string. apply ToValidUTF8_ValidString. Qed.

Definition put (b : bytes) (r : option (bytes * bytes)) : option (bytes * bytes) :=
  '(t, rest) ← r; Some (b ++ t, rest).

Lemma put_app a b r : put a (put b r) = put (a ++ b) r.
Proof. destruct r as [[t rest]|]; [|done]. simpl. by rewrite app_assoc. Qed.

Lemma put_nil r : put [] r = r.
Proof. by destruct r as [[t rest]|]. Qed.

Lemma string_body_high r s :
  Forall (λ b, ascii_byte b = false) r → string_body (r ++ s) = put r (string_body s).
Proof.
  induction 1 as [|c r Hc _ IH]; simpl app; [by rewrite put_nil|].
  cbn [string_body]. unfold ascii_byte in Hc.
  assert (∀ q, code q < 128 → c ≠ q) as Hne by (intros q Hq ->; lia).
  rewrite !decide_False by (apply Hne; done).
  assert (code c <? 32 = false) as -> by lia.
  rewrite IH. apply (put_app [c] r).
Qed.

Lemma string_body_ascii a s :
  ascii_byte a = true → string_body (escape_byte a ++ s) = put [a] (string_body s).
Proof. destruct a; intros H; first [discriminate H|reflexivity]. Qed.

Lemma escape_rune_cases r :
  (2 ≤ length r)%nat → escape_rune r = r ∨ r = [xe2; x80; xa8] ∨ r = [xe2; x80; xa9].
Proof.
  intros Hl. unfold escape_rune. do 2 (case_decide; [auto|]). left.
  by destruct r as [|a [|b r]]; simpl in Hl; [lia..|].
Qed.

Lemma escape_rune_one a :
  escape_rune [a] = if ascii_byte a then escape_byte a else [BACKSLASH; x75; x66; x66; x66; x64].
Proof. unfold escape_rune. by rewrite !decide_False by done. Qed.

Lemma string_body_rune r s :
  (valid_rune r = true ∨ ∃ a, r = [a] ∧ ascii_byte a = false) →
  string_body (escape_rune r ++ s) = put (fix_rune r) (string_body s).
Proof.
  intros [Hv|(a & -> & Ha)].
  - unfold fix_rune. rewrite Hv. destruct (valid_rune_cases r Hv) as [(a & -> & Ha)|[Hne Hh]].
    + rewrite escape_rune_one, Ha. by apply string_body_ascii.
    + assert (2 ≤ length r)%nat as Hl.
      { destruct r as [|a [|b r]]; [done| |simpl; lia]. apply Forall_inv in Hh. simpl in Hv. congruence. }
      destruct (escape_rune_cases r Hl) as [->|[->| ->]]; [by apply string_body_high|reflexivity..].
  - unfold fix_rune, valid_rune. rewrite escape_rune_one, Ha. reflexivity.
Qed.

Lemma string_body_print s rest :
  string_body (concat (escape_rune <$> runes s) ++ QUOTE :: rest) = Some (ToValidUTF8 s, rest).
Proof.
  unfold ToValidUTF8. induction (runes_shape s) as [|r l Hr _ IH]; [done|].
  rewrite !fmap_cons. cbn [concat]. rewrite <-app_assoc, string_body_rune by done. by rewrite IH.
Qed.

(** Every string comes back with its ill-formed bytes replaced. *)
Lemma read_string_print s rest :
  read_string (concat (escape_rune <$> runes (to_bytes s)) ++ QUOTE :: rest)
  = Some (fix_string s, rest).
Proof. unfold read_string. rewrite string_body_print. simpl. by rewrite ToValidUTF8_idemp. Qed.

(** *** Numbers *)

(** A number ends where no character can continue it. *)
Definition number_end (rest : bytes) : bool :=
  match rest with
  | c :: _ => negb (digit c || bool_decide (c = x2e ∨ c = x65 ∨ c = x45))
  | [] => true
  end.

Definition number_ok (lit : bytes) : Prop :=
  ∀ rest, number_end rest = true → read_number (lit ++ rest) = Some (lit, rest).

Lemma span_digits_app ds rest :
  forallb digit ds = true → number_end rest = true → span_digits (ds ++ rest) = (ds, rest).
Proof.
  intros Hd Hr. induction ds as [|c ds IH]; simpl.
  - destruct rest as [|c r]; [done|]. simpl in *. by destruct (digit c).
  - simpl in Hd. apply andb_true_iff in Hd as [-> Hd]. by rewrite IH.
Qed.

(** An integer literal: digits without a leading zero, maybe a sign. *)
Lemma integer_ok (neg : bool) (d : byte) (ds : bytes) :
  digit d = true → forallb digit ds = true → (d = x30 → ds = []) →
  number_ok ((if neg then [x2d] else []) ++ d :: ds).
Proof.
  intros Hd Hds Hz rest Hr. unfold read_number.
  assert (d ≠ x2d) as Hne by (intros ->; discriminate Hd).
  assert (int_part (d :: ds ++ rest) = Some (d :: ds, rest)) as Hi.
  { unfold int_part. case_decide as H0; [by rewrite (Hz H0)|]. unfold digits1.
    change (d :: ds ++ rest) with ((d :: ds) ++ rest).
    by rewrite span_digits_app by (done || by cbn [forallb]; rewrite Hd, Hds). }
  assert (frac_part rest = Some ([], rest)) as Hf.
  { destruct rest as [|c r]; [done|]. simpl in *. rewrite decide_False; [done|].
    intros ->. discriminate Hr. }
  assert (exp_part rest = Some ([], rest)) as He.
  { destruct rest as [|c r]; [done|]. simpl in *. rewrite decide_False; [done|].
    intros [->| ->]; discriminate Hr. }
  destruct neg; cbn [app].
  - rewrite decide_True by done. rewrite Hi. cbn. rewrite Hf. cbn. rewrite He. cbn.
    by rewrite !app_nil_r.
  - rewrite decide_False by done. rewrite Hi. cbn. rewrite Hf. cbn. rewrite He. cbn.
    by rewrite !app_nil_r.
Qed.

Lemma code_digit n : 0 ≤ n < 10 → code (of_code (48 + n)) = 48 + n.
Proof. intros Hn. unfold of_code. rewrite byte.unsigned_of_Z. apply Z.mod_small. lia. Qed.

Lemma digit_of n : 0 ≤ n < 10 → digit (of_code (48 + n)) = true.
Proof. intros Hn. unfold digit, between. rewrite code_digit by done. lia. Qed.

Lemma digits_value_snoc ds n :
  0 ≤ n < 10 →
  digits_value (ds ++ [of_code (48 + n)]) = (λ v, 10 * v + n) <$> digits_value ds.
Proof.
  intros Hn. unfold digits_value. rewrite foldl_app. cbn [foldl].
  destruct (foldl _ _ ds) as [v|]; [|done]. simpl. rewrite digit_of, code_digit by done.
  f_equal. lia.
Qed.

(** The digits of a number: no leading zero, and its value. *)
Lemma decimal_spec fuel n :
  (0 < fuel)%nat → 0 ≤ n < 10 ^ Z.of_nat fuel →
  ∃ d ds, decimal fuel n = d :: ds ∧ digit d = true ∧ forallb digit ds = true ∧
    (d = x30 → ds = []) ∧ digits_value (d :: ds) = Some n.
Proof.
  revert n. induction fuel as [|fuel IH]; intros n Hf Hn; [lia|]. cbn [decimal].
  destruct (n <? 10) eqn:E; zbool.
  { exists (of_code (48 + n)), []. split_and!; [done|apply digit_of; lia|done..|].
    rewrite <-(app_nil_l [_]), digits_value_snoc by lia. done. }
  rewrite Nat2Z.inj_succ, Z.pow_succ_r in Hn by lia.
  destruct (IH (n / 10)) as (d & ds & -> & Hd & Hds & Hz & Hv).
  { destruct fuel; [simpl in Hn; lia|lia]. }
  { split; [apply Z.div_pos; lia|apply Z.div_lt_upper_bound; lia]. }
  pose proof (Z.mod_pos_bound n 10 ltac:(lia)) as Hm. pose proof (Z_div_mod_eq_full n 10) as Hdm.
  exists d, (ds ++ [of_code (48 + n mod 10)]). split_and!; [done|done| | |].
  - rewrite forallb_app, Hds. simpl. by rewrite digit_of.
  - intros ->. specialize (Hz eq_refl). subst ds. exfalso.
    assert (n / 10 = 0) as H0 by (by injection Hv). lia.
  - rewrite app_comm_cons, digits_value_snoc, Hv by done. simpl. f_equal. lia.
Qed.

(** An [int64] is a JSON number and is read back. *)
Lemma FormatInt_spec z :
  int64_ok z → number_ok (FormatInt z) ∧ ParseInt (FormatInt z) = Some z.
Proof.
  intros Hz. unfold int64_ok in Hz. unfold FormatInt.
  assert (2 ^ 63 < 10 ^ Z.of_nat 20) as Hp by (vm_compute; reflexivity).
  destruct (z <? 0) eqn:E; zbool.
  - destruct (decimal_spec 20 (- z)) as (d & ds & -> & Hd & Hds & H0 & Hv); [lia..|].
    split; [by apply (integer_ok true)|]. unfold ParseInt. rewrite decide_True by done.
    rewrite Hv. simpl. rewrite Z.opp_involutive.
    by rewrite (proj2 (andb_true_iff _ _)) by (split; [apply Z.leb_le|apply Z.ltb_lt]; lia).
  - destruct (decimal_spec 20 z) as (d & ds & -> & Hd & Hds & H0 & Hv); [lia..|].
    split; [by apply (integer_ok false)|]. unfold ParseInt.
    rewrite decide_False by (intros ->; discriminate Hd). rewrite Hv. simpl.
    by rewrite (proj2 (andb_true_iff _ _)) by (split; [apply Z.leb_le|apply Z.ltb_lt]; lia).
Qed.

(** *** Values *)

Fixpoint sanitize (v : json) : json :=
  match v with
  | JString s => JString (fix_string s)
  | JArray l => JArray (List.map sanitize l)
  | JObject l => JObject (List.map (λ '(k, x), (fix_string k, sanitize x)) l)
  | _ => v
  end.

(** Induction on values, through arrays and objects. *)
Lemma json_nested_ind (P : json → Prop) :
  P JNull → (∀ b, P (JBool b)) → (∀ lit, P (JNumber lit)) → (∀ s, P (JString s)) →
  (∀ l, Forall P l → P (JArray l)) → (∀ l, Forall P (snd <$> l) → P (JObject l)) →
  ∀ v, P v.
Proof.
  intros H1 H2 H3 H4 H5 H6. fix IH 1. intros [|b|lit|s|l|l]; [apply H1|apply H2|apply H3|apply H4|..].
  - apply H5. induction l as [|v l IHl]; constructor; [apply IH|exact IHl].
  - apply H6. induction l as [|[k v] l IHl]; constructor; [apply IH|exact IHl].
Qed.

Lemma sanitize_idemp v : sanitize (sanitize v) = sanitize v.
Proof.
  induction v as [| | |s|l IH|l IH] using json_nested_ind; try reflexivity; simpl.
  - by rewrite (fix_string_valid (fix_string s)) by apply fix_string_is_valid.
  - f_equal. induction IH as [|v l Hv _ IHl]; [done|]. simpl. by rewrite Hv, IHl.
  - f_equal. induction l as [|[k v] l IHl]; [done|]. apply Forall_cons in IH as [Hv Hl]. simpl in *.
    rewrite Hv, IHl by done. by rewrite (fix_string_valid (fix_string k)) by apply fix_string_is_valid.
Qed.

(** Values that nest at most [d] deep and whose numbers are literals. *)
Fixpoint fits (d : nat) (v : json) : Prop :=
  match v with
  | JNumber lit => number_ok lit
  | JArray l => match d with O => False | S d' => Forall (fits d') l end
  | JObject l => match d with O => False | S d' => Forall (fits d') (snd <$> l) end
  | _ => True
  end.

Definition spaces (w : bytes) : Prop := forallb space w = true.

(** A text that begins like a value: with neither a space nor a closing
    bracket. *)
Definition begins (s : bytes) : bool :=
  match s with c :: _ => negb (space c || bool_decide (c = x5d ∨ c = x7d)) | [] => false end.

Lemma skip_spaces w s : spaces w → skip_space (w ++ s) = skip_space s.
Proof.
  unfold spaces. induction w as [|c w IH]; [done|]. cbn [forallb]. intros [Hc Hw]%andb_true_iff.
  simpl. rewrite Hc. by apply IH.
Qed.

Lemma skip_begins s rest : begins s = true → skip_space (s ++ rest) = s ++ rest.
Proof. destruct s as [|c s]; [done|]. simpl. by destruct (space c). Qed.

Lemma space_number_end w c rest :
  spaces w → number_end (c :: rest) = true → number_end (w ++ c :: rest) = true.
Proof.
  destruct w as [|b w]; [done|]. unfold spaces. cbn [forallb]. intros [Hb _]%andb_true_iff _.
  unfold space in Hb. apply bool_decide_eq_true in Hb. destruct Hb as [->|[->|[->| ->]]]; reflexivity.
Qed.

Lemma read_number_head c s r : read_number (c :: s) = Some r → digit c = true ∨ c = x2d.
Proof.
  unfold read_number. case_decide as Hc; [by right|]. unfold int_part.
  case_decide as H0; [left; by rewrite H0|]. unfold digits1. cbn [span_digits].
  destruct (digit c) eqn:E; [by left|done].
Qed.

Lemma number_head lit : number_ok lit → ∃ c t, lit = c :: t ∧ (digit c = true ∨ c = x2d).
Proof.
  intros H. specialize (H [] eq_refl). rewrite app_nil_r in H.
  destruct lit as [|c t]; [discriminate H|]. exists c, t. split; [done|]. by eapply read_number_head.
Qed.

Section items_print.
Context {A B : Type} (fin : byte) (item : bytes → option (A * bytes)) (pr : B → bytes) (res : B → A).
Context (w z : bytes) (Hw : spaces w) (Hz : spaces z) (Hfin : fin ≠ x2c).
Context (Hend : ∀ rest, number_end (fin :: rest) = true) (Hsp : space fin = false).
Context (Hbeg : ∀ s, begins (fin :: s) = false).

Lemma items_print l rest fuel :
  l ≠ [] → (length l ≤ fuel)%nat → Forall (λ b, begins (pr b) = true) l →
  Forall (λ b, ∀ r, number_end r = true → item (pr b ++ r) = Some (res b, r)) l →
  items fin item fuel (separated (x2c :: w) (pr <$> l) ++ z ++ fin :: rest) = Some (res <$> l, rest).
Proof.
  intros Hne Hf Hb Hi. revert fuel Hne Hf.
  induction Hi as [|b l Hi Hl IH]; intros fuel Hne Hf; [done|].
  apply Forall_cons in Hb as [Hb Hbl].
  destruct fuel as [|fuel]; [simpl in Hf; lia|]. cbn [items].
  destruct l as [|b' l].
  - rewrite !fmap_cons, fmap_nil. cbn [separated]. rewrite skip_begins, Hi
      by (done || by apply space_number_end). cbn.
    rewrite skip_spaces by done. cbn [skip_space]. rewrite Hsp, decide_False, decide_True by done. done.
  - rewrite fmap_cons. change (separated (x2c :: w) (pr b :: (pr <$> b' :: l)))
      with (pr b ++ (x2c :: w) ++ separated (x2c :: w) (pr <$> b' :: l)).
    rewrite <-app_assoc, skip_begins, Hi by done. cbn -[separated fmap list_fmap].
    change (space x2c) with false. cbn iota. rewrite decide_True by done. rewrite <-app_assoc.
    destruct fuel as [|fuel']; [simpl in Hf; lia|].
    assert (∀ s, items fin item (S fuel') (w ++ s) = items fin item (S fuel') s) as Hskip.
    { intros s. cbn [items]. by rewrite skip_spaces. }
    rewrite Hskip, IH by (done || simpl in *; lia). done.
Qed.

Lemma length_separated l :
  Forall (λ b, begins (pr b) = true) l → (length l ≤ length (separated (x2c :: w) (pr <$> l)))%nat.
Proof.
  induction 1 as [|b l Hb _ IH]; [simpl; lia|].
  destruct l as [|b' l].
  - simpl. destruct (pr b); [done|simpl; lia].
  - rewrite fmap_cons. change (separated (x2c :: w) (pr b :: (pr <$> b' :: l)))
      with (pr b ++ (x2c :: w) ++ separated (x2c :: w) (pr <$> b' :: l)).
    rewrite length_app, length_app. cbn [length] in *. lia.
Qed.

(** An array or object after its opening character. *)
Lemma bracket_print (nl : nat → bytes) a level l rest :
  nl (S level) = w → nl level = z →
  Forall (λ b, begins (pr b) = true) l →
  Forall (λ b, ∀ r, number_end r = true → item (pr b ++ r) = Some (res b, r)) l →
  ∃ s, bracket nl a fin level (pr <$> l) ++ rest = a :: s ∧
    items_or_none fin item s = Some (res <$> l, rest).
Proof.
  intros Hw' Hz' Hb Hi. destruct l as [|b l].
  { exists (fin :: rest). split; [done|]. unfold items_or_none. cbn [skip_space].
    rewrite Hsp. by rewrite decide_True. }
  exists (w ++ separated (x2c :: w) (pr <$> b :: l) ++ z ++ fin :: rest). split.
  - rewrite fmap_cons. unfold bracket. rewrite Hw', Hz', <-fmap_cons. rewrite <-!app_comm_cons.
    by rewrite <-!app_assoc.
  - unfold items_or_none. rewrite skip_spaces by done.
    set (body := separated _ _). apply Forall_cons in Hb as [Hb Hbl].
    assert (∃ c t, body ++ z ++ fin :: rest = c :: t ∧ space c = false ∧ c ≠ fin) as (c & t & E & Hc & Hne).
    { unfold body. destruct (pr b) as [|c t] eqn:Ep; [done|].
      assert (c ≠ fin) as Hne by (intros ->; by rewrite Hbeg in Hb).
      destruct l; rewrite ?fmap_cons, ?fmap_nil; cbn [separated]; rewrite Ep;
        (eexists c, _; split; [reflexivity|]); simpl in Hb; by destruct (space c). }
    rewrite E. cbn [skip_space]. rewrite Hc, decide_False by done. rewrite <-E.
    assert (∀ f s, items fin item f (w ++ s) = items fin item f s) as Hskip.
    { intros f s. destruct f; [done|]. cbn [items]. by rewrite skip_spaces. }
    rewrite Hskip. apply items_print; [done| |by constructor|done].
    rewrite !length_app. pose proof (length_separated (b :: l) ltac:(by constructor)) as H.
    fold body in H. lia.
Qed.
End items_print.

Section print_round_trip.
Context (nl : nat → bytes) (sp : bytes) (Hnl : ∀ k, spaces (nl k)) (Hsp : spaces sp).

Lemma digit_tag c : digit c = true ∨ c = x2d →
  space c = false ∧ c ∉ [QUOTE; x5b; x7b; x6e; x74; x66; x5d; x7d].
Proof.
  intros [H| ->]; [|split; [reflexivity|]].
  - split; [|rewrite !not_elem_of_cons; split_and!; try (intros ->; discriminate H)].
    + unfold space. apply bool_decide_eq_false. intros [->|[->|[->| ->]]]; discriminate H.
    + apply not_elem_of_nil.
  - rewrite !not_elem_of_cons. split_and!; try discriminate. apply not_elem_of_nil.
Qed.

Lemma print_begins d lv v : fits d v → begins (print_value nl sp lv v) = true.
Proof.
  destruct v as [|[]|lit|s|l|l]; try reflexivity; intros H.
  - destruct (number_head lit) as (c & t & -> & Hc); [by destruct d|].
    destruct (digit_tag c Hc) as [Hs Ht]. simpl. rewrite Hs. simpl.
    rewrite bool_decide_eq_false_2; [done|]. rewrite !not_elem_of_cons in Ht. naive_solver.
  - by destruct l.
  - by destruct l.
Qed.

Definition print_member (lv : nat) (kv : string * json) : bytes :=
  print_string (fst kv) ++ x3a :: sp ++ print_value nl sp lv (snd kv).

Lemma member_print value k pv v r :
  begins pv = true → value (pv ++ r) = Some (v, r) →
  member value ((print_string k ++ x3a :: sp ++ pv) ++ r) = Some ((fix_string k, v), r).
Proof.
  intros Hb Hv. unfold print_string. rewrite <-app_assoc. cbn [app]. unfold member.
  rewrite decide_True, <-app_assoc by done. cbn [app]. rewrite read_string_print.
  cbn [mbind option_bind].
  change (expect [x3a] (skip_space (x3a :: (sp ++ pv) ++ r))) with (Some ((sp ++ pv) ++ r)).
  cbn [mbind option_bind]. by rewrite <-app_assoc, skip_spaces, skip_begins, Hv.
Qed.

Lemma read_value_number d c s :
  digit c = true ∨ c = x2d →
  read_value d (c :: s) = ('(n, r) ← read_number (c :: s); Some (JNumber n, r)).
Proof.
  intros [_ Ht]%digit_tag. rewrite !not_elem_of_cons in Ht. destruct Ht as (?&?&?&?&?&?&_).
  destruct d; cbn [read_value]; by rewrite !decide_False by done.
Qed.

(** What is printed is read back, with the strings made valid; whatever the
    layout. *)
Lemma read_value_print d lv v rest :
  fits d v → number_end rest = true →
  read_value d (print_value nl sp lv v ++ rest) = Some (sanitize v, rest).
Proof.
  revert lv v rest. induction d as [d IH] using lt_wf_ind. intros lv v rest Hf Hr.
  assert (∀ d' lv' x, (d' < d)%nat → fits d' x → ∀ r, number_end r = true →
    read_value d' (print_value nl sp lv' x ++ r) = Some (sanitize x, r)) as IH' by (intros; by apply IH).
  destruct v as [|[]|lit|s|l|l].
  - destruct d; reflexivity.
  - destruct d; reflexivity.
  - destruct d; reflexivity.
  - destruct (number_head lit) as (c & t & -> & Hc); [by destruct d|].
    assert (number_ok (c :: t)) as Hn by by destruct d.
    change (print_value nl sp lv (JNumber (c :: t)) ++ rest) with (c :: t ++ rest).
    rewrite read_value_number by done. pose proof (Hn rest Hr) as E. cbn [app] in E. by rewrite E.
  - assert (print_value nl sp lv (JString s) ++ rest =
      QUOTE :: concat (escape_rune <$> runes (to_bytes s)) ++ QUOTE :: rest) as ->.
    { cbn [print_value]. unfold print_string. cbn [app]. by rewrite <-app_assoc. }
    destruct d; cbn [read_value]; rewrite decide_True by done; by rewrite read_string_print.
  - destruct d as [|d]; [done|]. cbn [fits] in Hf.
    destruct (bracket_print x5d (read_value d) (print_value nl sp (S lv)) sanitize (nl (S lv)) (nl lv)
      (Hnl _) (Hnl _) ltac:(done) ltac:(done) ltac:(done) ltac:(done) nl x5b lv l rest)
      as (s & E & Hi); [done|done| | |].
    { eapply Forall_impl; [exact Hf|]. intros x. apply print_begins. }
    { eapply Forall_impl; [exact Hf|]. intros x Hx. apply IH'; [lia|done]. }
    change (print_value nl sp lv (JArray l)) with (bracket nl x5b x5d lv (print_value nl sp (S lv) <$> l)).
    rewrite E. cbn [read_value]. rewrite decide_False, decide_True by done. by rewrite Hi.
  - destruct d as [|d]; [done|]. cbn [fits] in Hf. rewrite Forall_fmap in Hf.
    destruct (bracket_print x7d (member (read_value d)) (print_member (S lv))
      (λ kx, (fix_string (fst kx), sanitize (snd kx))) (nl (S lv)) (nl lv)
      (Hnl _) (Hnl _) ltac:(done) ltac:(done) ltac:(done) ltac:(done) nl x7b lv l rest)
      as (s & E & Hi); [done|done| | |].
    { apply Forall_forall. by intros [k x] _. }
    { eapply Forall_impl; [exact Hf|]. intros [k x] Hx r Hrr. simpl in Hx. unfold print_member. cbn [fst snd].
      apply (member_print (read_value d)); [by eapply print_begins|]. apply IH'; [lia|done|done]. }
    assert (print_value nl sp lv (JObject l) = bracket nl x7b x7d lv (print_member (S lv) <$> l)) as ->.
    { cbn [print_value]. f_equal. apply map_ext. by intros []. }
    rewrite E. cbn [read_value]. rewrite !decide_False, decide_True by done. rewrite Hi. simpl.
    do 3 f_equal. apply map_ext. by intros [].
Qed.
End print_round_trip.

Lemma Parse_print nl sp v :
  (∀ k, spaces (nl k)) → spaces sp → fits maxNestingDepth v →
  Parse (print_value nl sp 0 v) = Some (sanitize v).
Proof.
  intros Hnl Hsp Hf. unfold Parse.
  pose proof (skip_begins (print_value nl sp 0 v) [] (print_begins nl sp _ 0 v Hf)) as Hs.
  pose proof (read_value_print nl sp Hnl Hsp maxNestingDepth 0 v [] Hf eq_refl) as Hv.
  rewrite app_nil_r in Hs, Hv. rewrite Hs, Hv. done.
Qed.

Lemma Decode_print v rest :
  fits maxNestingDepth v → number_end rest = true → Decode (Marshal v ++ rest) = Some (sanitize v).
Proof.
  intros Hf Hr. unfold Decode, Marshal. rewrite (skip_begins _ rest (print_begins (λ _, []) [] _ 0 v Hf)).
  by rewrite (read_value_print (λ _, []) []).
Qed.

Lemma spaces_indent k : spaces (indent k).
Proof. unfold spaces, indent. generalize (2 * k)%nat. intros n. by induction n. Qed.

(** JSON round trip: a value that nests within Go's limit and whose numbers
    are literals is read back from its compact text and from its indented
    text, each string with its ill-formed UTF-8 replaced by U+FFFD; values
    with valid strings are read back unchanged. *)
Theorem Parse_Marshal (v : json) :
  fits maxNestingDepth v →
  Parse (Marshal v) = Some (sanitize v) ∧ Parse (MarshalIndent v) = Some (sanitize v) ∧
  sanitize (sanitize v) = sanitize v.
Proof.
  intros Hf. split_and!.
  - by apply Parse_print.
  - apply Parse_print; [apply spaces_indent|done|done].
  - apply sanitize_idemp.
Qed.

(** ** What the decoder returns *)

(** A value whose strings are all valid UTF-8. *)
Definition clean (v : json) : Prop := sanitize v = v.

Lemma read_string_valid s t r : read_string s = Some (t, r) → fix_string t = t.
Proof.
  unfold read_string. intros ([b rest] & _ & [= <- _])%bind_Some.
  apply fix_string_valid. unfold valid_string. rewrite to_bytes_to_string. apply ToValidUTF8_ValidString.
Qed.

Lemma items_Forall {A} fin item fuel s l r (P : A → Prop) :
  (∀ s v r, item s = Some (v, r) → P v) → items fin item fuel s = Some (l, r) → Forall P l.
Proof.
  intros HP. revert s l r. induction fuel as [|fuel IH]; intros s l r; [done|]. cbn [items].
  intros ([v s1] & Hv%HP & H)%bind_Some. destruct (skip_space s1) as [|c s2]; [done|].
  case_decide.
  - apply bind_Some in H as ([l' s3] & Hl & [= <- _]). constructor; [done|]. by eapply IH.
  - case_decide; [|done]. injection H as <- _. by constructor.
Qed.

Lemma items_or_none_Forall {A} fin item s l r (P : A → Prop) :
  (∀ s v r, item s = Some (v, r) → P v) → items_or_none fin item s = Some (l, r) → Forall P l.
Proof.
  intros HP. unfold items_or_none. destruct (skip_space s) as [|c s1]; [done|].
  case_decide; [intros [= <- _]; constructor|by eapply items_Forall].
Qed.

Lemma map_fixed {A} (f : A → A) l : Forall (λ x, f x = x) l → List.map f l = l.
Proof. induction 1 as [|x l Hx _ IH]; [done|]. simpl. by rewrite Hx, IH. Qed.

Lemma read_value_clean d s v r : read_value d s = Some (v, r) → clean v.
Proof.
  revert s v r. induction d as [d IH] using lt_wf_ind. intros s v r.
  assert (∀ d', (d' < d)%nat → ∀ s v r, read_value d' s = Some (v, r) → clean v) as IH' by eauto.
  destruct s as [|c s1]; [by destruct d|].
  destruct d as [|d]; cbn [read_value]; repeat case_decide; try done;
    try (intros ([t rest] & Ht & [= <- _])%bind_Some; try done; unfold clean; cbn [sanitize]);
    try (intros (t & _ & [= <- _])%bind_Some; done).
  - by rewrite (read_string_valid _ _ _ Ht).
  - by rewrite (read_string_valid _ _ _ Ht).
  - f_equal. apply map_fixed. by eapply items_or_none_Forall in Ht; [|intros ? ? ?; apply (IH' d); lia].
  - f_equal. apply map_fixed. eapply items_or_none_Forall in Ht; [exact Ht|].
    intros s [k x] r'. unfold member. destruct s as [|c' s2]; [done|]. case_decide; [|done].
    intros ([k' s3] & Hk%read_string_valid & H')%bind_Some.
    apply bind_Some in H' as (s4 & _ & H'). apply bind_Some in H' as ([x' s5] & Hx & [= <- <- _]).
    rewrite Hk. f_equal. by eapply (IH' d); [lia|].
Qed.

Lemma Decode_clean data v : Decode data = Some v → clean v.
Proof. unfold Decode. intros ([v' r] & H & ->)%fmap_Some. by eapply read_value_clean. Qed.

Lemma Parse_clean data v : Parse data = Some v → clean v.
Proof.
  unfold Parse. intros ([v' r] & Hv & H)%bind_Some. destruct (skip_space r); [|done].
  injection H as <-. by eapply read_value_clean.
Qed.

(** The nesting limit is not to be counted out in proofs. *)
#[global] Opaque maxNestingDepth.
