(* ===== verification/Float64.v ===== *)
(** * Go's [float64] as IEEE-754 binary64

    [float64] is the executable specification of binary64 of the Standard
    Library (precision 53, maximal exponent 1024, round to nearest even);
    every Go operator is the corresponding operation, with no fusing of a
    product into a sum.  The file holds the operators the program uses, the
    conversions to and from [int64], [time.Duration]'s accessors, and two
    groups of lemmas: the comparison is a strict order away from NaN, and
    rounding never crosses a representable bound ([round_le]). *)

From S2P Require Import Prelude.
From Stdlib Require Export SpecFloat.

(** ** Operators *)

Abbreviation float64 := spec_float.
Abbreviation prec64 := 53%Z.
Abbreviation emax64 := 1024%Z.
Abbreviation fexp64 := (fexp prec64 emax64).

Definition fadd : float64 → float64 → float64 := SFadd prec64 emax64.
Definition fsub : float64 → float64 → float64 := SFsub prec64 emax64.
Definition fmul : float64 → float64 → float64 := SFmul prec64 emax64.
Definition fdiv : float64 → float64 → float64 := SFdiv prec64 emax64.
(** [math.Sqrt] and [math.Abs] are exact IEEE operations. *)
Definition fsqrt : float64 → float64 := SFsqrt prec64 emax64.
Definition fabs : float64 → float64 := SFabs.
Definition fneg : float64 → float64 := SFopp.

(** Comparisons: every comparison with a NaN is false. *)
Definition flt (x y : float64) : bool := SFltb x y.
Definition fle (x y : float64) : bool := SFleb x y.
Definition fgt (x y : float64) : bool := SFltb y x.
Definition fge (x y : float64) : bool := SFleb y x.
Definition feq (x y : float64) : bool := SFeqb x y.

Definition f0 : float64 := S754_zero false.
Definition fnan : float64 := S754_nan.
Definition finf (neg : bool) : float64 := S754_infinity neg.

(** [float64(n)] for an integer [n]. *)
Definition of_int (n : Z) : float64 := binary_normalize prec64 emax64 n 0 false.

(** The decimal constant [n/d]; both are exactly representable in every use,
    so the correctly rounded quotient is the constant Go's compiler emits. *)
Definition lit (n d : Z) : float64 := fdiv (of_int n) (of_int d).

Definition f1 : float64 := of_int 1.

(** [int64(x)]: truncation toward zero.  Outside the range of [int64] the
    result is implementation-defined; amd64 yields the minimum. *)
Definition trunc (x : float64) : option Z :=
  match x with
  | S754_zero _ => Some 0
  | S754_finite s m e =>
      let a := if 0 <=? e then Z.pos m * 2 ^ e else Z.pos m / 2 ^ (- e) in
      Some (if s then - a else a)
  | _ => None
  end.
Definition to_int64 (x : float64) : Z :=
  match trunc x with
  | Some z => if (- 2 ^ 63 <=? z) && (z <? 2 ^ 63) then z else - 2 ^ 63
  | None => - 2 ^ 63
  end.

(** [math.Ceil] and [math.Floor]. *)
Definition Ceil (x : float64) : float64 :=
  match x with
  | S754_finite s m e =>
      if 0 <=? e then x else
      let q := Z.pos m / 2 ^ (- e) in
      let r := Z.pos m mod 2 ^ (- e) in
      if s then binary_normalize prec64 emax64 (- q) 0 true
      else of_int (if r =? 0 then q else q + 1)
  | _ => x
  end.
Definition Floor (x : float64) : float64 := fneg (Ceil (fneg x)).

(** ** [time.Duration]: an [int64] count of nanoseconds *)

Abbreviation Duration := Z (only parsing).
Definition Second : Duration := 1000000000.
Definition Millisecond : Duration := 1000000.
Definition Minute : Duration := 60 * Second.

(** [d.Seconds()]: the standard library adds whole seconds and the fraction. *)
Definition Seconds (d : Duration) : float64 :=
  fadd (of_int (Z.quot d Second)) (fdiv (of_int (Z.rem d Second)) (of_int Second)).
(** [d.Milliseconds()] *)
Definition Milliseconds (d : Duration) : Z := Z.quot d Millisecond.

(** ** The comparison is a strict order on numbers *)

Definition is_nan (x : float64) : bool :=
  match x with S754_nan => true | _ => false end.

(** The position of a number in the lexicographic order that the comparison
    of canonical floats uses. *)
Definition rank (x : float64) : Z * Z * Z :=
  match x with
  | S754_nan => (3, 0, 0)
  | S754_infinity true => (-2, 0, 0)
  | S754_finite true m e => (-1, - e, - Z.pos m)
  | S754_zero _ => (0, 0, 0)
  | S754_finite false m e => (1, e, Z.pos m)
  | S754_infinity false => (2, 0, 0)
  end.

Definition rank_lt (a b : Z * Z * Z) : Prop :=
  match a, b with
  | (a1, a2, a3), (b1, b2, b3) =>
      a1 < b1 ∨ a1 = b1 ∧ (a2 < b2 ∨ a2 = b2 ∧ a3 < b3)
  end.

Lemma SFcompare_rank x y :
  is_nan x = false → is_nan y = false →
  ∃ c, SFcompare x y = Some c ∧
    match c with
    | Lt => rank_lt (rank x) (rank y)
    | Gt => rank_lt (rank y) (rank x)
    | Eq => rank x = rank y
    end.
Proof.
  destruct x as [[]|[]| |[] mx ex], y as [[]|[]| |[] my ey]; simpl; try discriminate; intros _ _;
    try (eexists; split; [reflexivity|]; simpl; (done || lia)).
  all: eexists; split; [reflexivity|].
  all: destruct (Z.compare_spec ex ey); simpl; try lia; subst.
  all: change (Pos.compare_cont Eq mx my) with (Pos.compare mx my).
  all: destruct (Pos.compare_spec mx my); simpl; subst; (done || lia).
Qed.

Lemma SFcompare_nan_l y : SFcompare S754_nan y = None.
Proof. done. Qed.
Lemma SFcompare_nan_r x : SFcompare x S754_nan = None.
Proof. by destruct x as [[]|[]| |[]]. Qed.

Lemma fgt_spec x y :
  fgt x y = true ↔ is_nan x = false ∧ is_nan y = false ∧ rank_lt (rank y) (rank x).
Proof.
  unfold fgt, SFltb. destruct (is_nan x) eqn:Hx.
  { destruct x; try discriminate. rewrite SFcompare_nan_r. naive_solver. }
  destruct (is_nan y) eqn:Hy.
  { destruct y; try discriminate. rewrite SFcompare_nan_l. naive_solver. }
  destruct (SFcompare_rank y x Hy Hx) as (c & -> & Hc).
  destruct (rank x) as [[x1 x2] x3], (rank y) as [[y1 y2] y3].
  destruct c; simpl in *; split; (done || lia || (intros (?&?&?); simplify_eq; lia) || naive_solver).
Qed.

Lemma fle_spec x y :
  fle x y = true ↔ is_nan x = false ∧ is_nan y = false ∧ ¬ rank_lt (rank y) (rank x).
Proof.
  unfold fle, SFleb. destruct (is_nan x) eqn:Hx.
  { destruct x; try discriminate. rewrite SFcompare_nan_l. naive_solver. }
  destruct (is_nan y) eqn:Hy.
  { destruct y; try discriminate. rewrite SFcompare_nan_r. naive_solver. }
  destruct (SFcompare_rank x y Hx Hy) as (c & -> & Hc).
  destruct (rank x) as [[x1 x2] x3], (rank y) as [[y1 y2] y3].
  destruct c; simpl in *; split; try done; intros; try (split_and!; [done..|]); simplify_eq; try lia; naive_solver.
Qed.

(** Turn every comparison into an inequality between ranks, for [lia]. *)
Ltac frank :=
  rewrite ?fgt_spec, ?fle_spec in *;
  repeat match goal with
  | H : ¬ (fgt _ _ = true) |- _ => rewrite fgt_spec in H
  | H : fgt _ _ = false |- _ => apply not_true_iff_false in H; rewrite fgt_spec in H
  | H : fle _ _ = false |- _ => apply not_true_iff_false in H; rewrite fle_spec in H
  end;
  unfold rank_lt in *;
  repeat match goal with
  | x : float64 |- context [rank ?y] => destruct (rank y) as [[? ?] ?]
  | x : float64, H : context [rank ?y] |- _ => destruct (rank y) as [[? ?] ?]
  end.

Lemma fgt_irrefl x : fgt x x = false.
Proof. apply not_true_iff_false. frank. lia. Qed.

Lemma fgt_trans x y z : fgt x y = true → fgt y z = true → fgt x z = true.
Proof. intros. frank. intuition lia. Qed.

Lemma fgt_asym x y : fgt x y = true → fgt y x = false.
Proof. intros. apply not_true_iff_false. frank. intuition lia. Qed.

Lemma fle_refl x : is_nan x = false → fle x x = true.
Proof. intros. frank. intuition lia. Qed.

Lemma fle_trans x y z : fle x y = true → fle y z = true → fle x z = true.
Proof. intros. frank. intuition lia. Qed.

Lemma fgt_fle x y : fgt x y = true → fle y x = true.
Proof. intros. frank. intuition lia. Qed.

Lemma fgt_fle_trans x y z : fgt x y = true → fle z y = true → fgt x z = true.
Proof. intros. frank. intuition lia. Qed.

Lemma fle_fgt_trans x y z : fle y x = true → fgt y z = true → fgt x z = true.
Proof. intros. frank. intuition lia. Qed.

(** [!(x > y)] means [x <= y] as soon as neither is NaN. *)
Lemma not_fgt_fle x y :
  is_nan x = false → is_nan y = false → fgt x y = false → fle x y = true.
Proof. intros ?? H. frank. intuition. Qed.

Lemma fle_not_fgt x y : fle x y = true → fgt x y = false.
Proof. intros H. apply not_true_iff_false. frank. intuition lia. Qed.

Lemma fle_not_nan x y : fle x y = true → is_nan x = false ∧ is_nan y = false.
Proof. rewrite fle_spec. naive_solver. Qed.

Lemma fgt_not_nan x y : fgt x y = true → is_nan x = false ∧ is_nan y = false.
Proof. rewrite fgt_spec. naive_solver. Qed.

#[export] Hint Resolve fle_refl fgt_fle : pathaware.

(** ** Rounding never crosses a representable bound

    [val m e] is the dyadic [m * 2^e] scaled by [2^K], an integer for every
    exponent the operations on binary64 produce. *)

Definition K : Z := 2300.
Definition val (m e : Z) : Z := m * 2 ^ (e + K).

(** A finite number is canonical when its exponent is the one the format
    prescribes for its magnitude. *)
Definition canon (m : positive) (e : Z) : Prop :=
  fexp64 (Z.pos (digits2_pos m) + e) = e.

Lemma digits2_pos_log2 m : Z.pos (digits2_pos m) = Z.log2 (Z.pos m) + 1.
Proof.
  induction m as [m IH|m IH|]; cbn [digits2_pos]; [| |reflexivity].
  all: rewrite Pos2Z.inj_succ, IH.
  - rewrite Pos2Z.inj_xI, Z.log2_succ_double by lia. lia.
  - rewrite Pos2Z.inj_xO, Z.log2_double by lia. lia.
Qed.

Lemma Zdigits2_log2 m : 0 < m → Zdigits2 m = Z.log2 m + 1.
Proof. destruct m; try lia. intros _. apply digits2_pos_log2. Qed.

Lemma fexp_unfold x : fexp64 x = Z.max (x - 53) (-1074).
Proof. reflexivity. Qed.

Lemma fexp_mono x y : x ≤ y → fexp64 x ≤ fexp64 y.
Proof. rewrite !fexp_unfold. lia. Qed.

Lemma val_pos m e : 0 ≤ e + K → 0 < m → 0 < val m e.
Proof. intros. unfold val. pose proof (Z.pow_pos_nonneg 2 (e + K)). nia. Qed.

Lemma val_mono m1 m2 e : 0 ≤ e + K → m1 ≤ m2 ↔ val m1 e ≤ val m2 e.
Proof. intros. unfold val. pose proof (Z.pow_pos_nonneg 2 (e + K)). nia. Qed.

Lemma val_mono_lt m1 m2 e : 0 ≤ e + K → m1 < m2 ↔ val m1 e < val m2 e.
Proof. intros. unfold val. pose proof (Z.pow_pos_nonneg 2 (e + K)). nia. Qed.

Lemma val_shift m e n : 0 ≤ n → 0 ≤ e + K → val m (e + n) = val (m * 2 ^ n) e.
Proof.
  intros. unfold val. replace (e + n + K) with (n + (e + K)) by lia.
  rewrite Z.pow_add_r by lia. lia.
Qed.

(** [2^(digits-1) <= m < 2^digits], with the exponent. *)
Lemma val_log2_bounds m e : 0 < m → 0 ≤ e + K →
  2 ^ (Z.log2 m + e + K) ≤ val m e < 2 ^ (Z.log2 m + 1 + e + K).
Proof.
  intros Hm He. pose proof (Z.log2_spec m Hm) as [H1 H2].
  pose proof (Z.log2_nonneg m). unfold val.
  rewrite <-Z.add_assoc, Z.pow_add_r by lia.
  replace (Z.log2 m + 1 + e + K) with (Z.succ (Z.log2 m) + (e + K)) by lia.
  rewrite (Z.pow_add_r 2 (Z.succ _)) by lia.
  pose proof (Z.pow_pos_nonneg 2 (e + K)). nia.
Qed.

Lemma val_le_log2 m1 e1 m2 e2 :
  0 < m1 → 0 < m2 → 0 ≤ e1 + K → 0 ≤ e2 + K →
  val m1 e1 ≤ val m2 e2 → Z.log2 m1 + e1 ≤ Z.log2 m2 + e2.
Proof.
  intros Hm1 Hm2 ?? H.
  pose proof (val_log2_bounds m1 e1 Hm1). pose proof (val_log2_bounds m2 e2 Hm2).
  assert (Z.log2 m1 + e1 + K < Z.log2 m2 + 1 + e2 + K); [|lia].
  pose proof (Z.log2_nonneg m1). pose proof (Z.log2_nonneg m2).
  apply (Z.pow_lt_mono_r_iff 2); lia.
Qed.

Lemma canon_emin m e : canon m e → -1074 ≤ e.
Proof. unfold canon. rewrite fexp_unfold. lia. Qed.

(** Canonical numbers compare by exponent, then mantissa. *)
Lemma canon_compare m1 e1 m2 e2 :
  canon m1 e1 → canon m2 e2 → val (Z.pos m1) e1 ≤ val (Z.pos m2) e2 →
  e1 < e2 ∨ e1 = e2 ∧ Z.pos m1 ≤ Z.pos m2.
Proof.
  intros C1 C2 H. pose proof (canon_emin _ _ C1). pose proof (canon_emin _ _ C2).
  destruct (Z.lt_trichotomy e1 e2) as [|[->|Hgt]]; [by left| |].
  - right. split; [done|]. apply (val_mono _ _ e2); [unfold K; lia|done].
  - exfalso. unfold K in *.
    apply val_le_log2 in H; [|unfold K; lia..].
    unfold canon in *. rewrite digits2_pos_log2 in *.
    pose proof (fexp_mono (Z.log2 (Z.pos m1) + 1 + e1) (Z.log2 (Z.pos m2) + 1 + e2)).
    lia.
Qed.

(** *** Shifting right with sticky bits *)

Definition sticky (r : shr_record) : bool := shr_r r || shr_s r.

Lemma shr_1_spec M n mrs (s0 : bool) :
  0 ≤ M → 0 ≤ n →
  shr_m mrs = M / 2 ^ n →
  sticky mrs = s0 || negb (M mod 2 ^ n =? 0) →
  shr_m (shr_1 mrs) = M / 2 ^ (n + 1) ∧
  sticky (shr_1 mrs) = s0 || negb (M mod 2 ^ (n + 1) =? 0).
Proof.
  intros HM Hn Hm Hs. rewrite Z.pow_add_r, Z.pow_1_r by lia.
  pose proof (Z.pow_pos_nonneg 2 n ltac:(lia) Hn) as HP.
  pose proof (Z.mod_pos_bound M (2 ^ n) HP) as HR.
  rewrite <-Z.div_div by lia. rewrite <-Hm.
  assert (HQ : 0 ≤ shr_m mrs) by (rewrite Hm; apply Z.div_pos; lia).
  assert (Hmod : M mod (2 ^ n * 2) = M mod 2 ^ n + 2 ^ n * (shr_m mrs mod 2)).
  { rewrite Hm. apply Z.rem_mul_r; lia. }
  rewrite Hmod. clear Hmod Hm. revert HR Hs. generalize (M mod 2 ^ n). intros R HR Hs.
  destruct mrs as [m r s]; unfold sticky in *; simpl in HQ, Hs |- *.
  assert (Hev : ∀ x, x mod 2 = 0 → R + 2 ^ n * (x mod 2) = R) by (intros x ->; lia).
  assert (Hod : ∀ x, x mod 2 = 1 → (R + 2 ^ n * (x mod 2) =? 0) = false)
    by (intros x ->; apply Z.eqb_neq; lia).
  destruct m as [|[p|p|]|p]; simpl; [..|lia].
  - rewrite Hev, <-Hs by done. split; [done|]. by destruct r, s.
  - assert (Z.pos p~1 mod 2 = 1) as H by (rewrite Pos2Z.inj_xI, Z.add_comm, Z.mul_comm; apply Z_mod_plus_full).
    rewrite Hod, orb_true_r by done. split; [|done].
    rewrite Pos2Z.inj_xI, Z.mul_comm, Z.div_add_l by lia. change (1 / 2) with 0. lia.
  - assert (Z.pos p~0 mod 2 = 0) as H by (rewrite Pos2Z.inj_xO, Z.mul_comm; apply Z_mod_mult).
    rewrite Hev, <-Hs by done. split; [|by destruct r, s].
    rewrite Pos2Z.inj_xO, Z.mul_comm, Z.div_mul by lia. lia.
  - rewrite Hod, orb_true_r by done. done.
Qed.

Lemma iter_pos_comm {A} (f : A → A) p x : iter_pos f p (f x) = f (iter_pos f p x).
Proof. revert x. induction p as [p IH|p IH|]; intros x; simpl; [| |done]; by rewrite !IH. Qed.

Lemma iter_pos_succ {A} (f : A → A) p x :
  iter_pos f (Pos.succ p) x = iter_pos f p (f x).
Proof.
  revert x. induction p as [p IH|p IH|]; intros x; simpl; [|done..].
  by rewrite !IH, !iter_pos_comm.
Qed.

Definition inexact (l : location) : bool :=
  match l with loc_Exact => false | _ => true end.

(** After [p] shifts the mantissa is the quotient, and the sticky part says
    whether anything was lost. *)
Lemma shr_iter_spec M p l :
  0 ≤ M →
  let mrs := iter_pos shr_1 p (shr_record_of_loc M l) in
  shr_m mrs = M / 2 ^ Z.pos p ∧
  sticky mrs = inexact l || negb (M mod 2 ^ Z.pos p =? 0).
Proof.
  intros HM. cbv zeta.
  assert (∀ n mrs, 0 ≤ n → shr_m mrs = M / 2 ^ n →
    sticky mrs = inexact l || negb (M mod 2 ^ n =? 0) →
    shr_m (iter_pos shr_1 p mrs) = M / 2 ^ (n + Z.pos p) ∧
    sticky (iter_pos shr_1 p mrs) = inexact l || negb (M mod 2 ^ (n + Z.pos p) =? 0)) as Hgen.
  { induction p as [|p IH] using Pos.peano_ind; intros n mrs Hn H1 H2.
    - by apply shr_1_spec.
    - rewrite iter_pos_succ.
      destruct (shr_1_spec M n mrs _ HM Hn H1 H2).
      replace (n + Z.pos (Pos.succ p)) with (n + 1 + Z.pos p) by lia.
      apply IH; auto with lia. }
  apply (Hgen 0); [done|..]; rewrite ?Z.div_1_r, ?Z.mod_1_r; by destruct l as [|[]].
Qed.

(** Rounding the shifted record moves up by at most one unit, and not at all
    when the record is exact. *)
Lemma round_nearest_even_spec mrs :
  let m' := round_nearest_even (shr_m mrs) (loc_of_shr_record mrs) in
  (m' = shr_m mrs ∨ m' = shr_m mrs + 1) ∧ (sticky mrs = false → m' = shr_m mrs).
Proof.
  destruct mrs as [m [] []]; simpl; unfold sticky; simpl; try (split; [lia|done]).
  destruct (Z.even m); (split; [lia|done]).
Qed.

(** One rounding step to the exponent [E = fexp (digits + e)] prescribed for
    [(M + delta) * 2^e], where [0 <= delta < 1] is described by [l]. *)
Definition round_step (M e : Z) (l : location) : Z * Z :=
  let '(mrs, e') := shr_fexp prec64 emax64 M e l in
  (round_nearest_even (shr_m mrs) (loc_of_shr_record mrs), e').

(** [below M l x]: the real [M + delta] described by [M] and [l] is at most
    the integer [x]. *)
Definition below (M : Z) (l : location) (x : Z) : Prop :=
  if inexact l then M < x else M ≤ x.

Lemma round_step_spec M e l :
  0 < M → e ≤ fexp64 (Z.log2 M + 1 + e) →
  let E := fexp64 (Z.log2 M + 1 + e) in
  ∃ m', round_step M e l = (m', E) ∧
    (m' = M / 2 ^ (E - e) ∨ m' = M / 2 ^ (E - e) + 1) ∧
    (∀ k, below M l (k * 2 ^ (E - e)) → m' ≤ k).
Proof.
  intros HM HE E. unfold round_step, shr_fexp.
  rewrite Zdigits2_log2 by done. fold E in HE |- *.
  destruct (E - e) as [|p|p] eqn:Hd; [| |lia].
  - simpl. set (mrs := shr_record_of_loc M l).
    replace E with e by lia.
    pose proof (round_nearest_even_spec mrs) as [Hr Hx].
    assert (shr_m mrs = M) as Hm by (by destruct l as [|[]]).
    assert (sticky mrs = inexact l) as Hst by (by destruct l as [|[]]).
    eexists. split; [reflexivity|]. rewrite Z.div_1_r. rewrite Hm in *.
    split; [done|]. unfold below. intros k ?.
    destruct (inexact l); [lia|]. rewrite Hx by done. lia.
  - simpl shr. unfold shr. set (mrs := iter_pos shr_1 p _).
    replace (e + Z.pos p) with E by lia.
    destruct (shr_iter_spec M p l ltac:(lia)) as (Hm & Hs). fold mrs in Hm, Hs.
    pose proof (round_nearest_even_spec mrs) as [Hr Hx].
    set (m' := round_nearest_even _ _) in *.
    eexists. split; [reflexivity|]. rewrite <-Hm. split; [done|].
    pose proof (Z.pow_pos_nonneg 2 (Z.pos p) ltac:(lia) ltac:(lia)) as HP.
    pose proof (Z.div_mod M (2 ^ Z.pos p) ltac:(lia)).
    pose proof (Z.mod_pos_bound M (2 ^ Z.pos p) HP).
    rewrite <-Hm in *. unfold below. intros k Hk. rewrite Hs in Hx.
    destruct (inexact l); simpl in Hx; [nia|].
    destruct (Z.eqb_spec (M mod 2 ^ Z.pos p) 0) as [Hz|Hz]; [|nia].
    rewrite Hx by done. nia.
Qed.

Definition canonZ (m e : Z) : Prop := fexp64 (Z.log2 m + 1 + e) = e.

Lemma canonZ_canon m e : canonZ (Z.pos m) e ↔ canon m e.
Proof. unfold canonZ, canon. by rewrite digits2_pos_log2. Qed.

Lemma log2_succ_cases q : 0 < q →
  Z.log2 (q + 1) = Z.log2 q ∨ q + 1 = 2 ^ (Z.log2 q + 1) ∧ Z.log2 (q + 1) = Z.log2 q + 1.
Proof.
  intros Hq. pose proof (Z.log2_spec q Hq) as [H1 H2]. pose proof (Z.log2_nonneg q).
  destruct (decide (q + 1 = 2 ^ (Z.log2 q + 1))) as [Heq|Hne].
  - right. split; [done|]. rewrite Heq at 1. apply Z.log2_pow2. lia.
  - left. apply Z.log2_unique; [done|]. unfold Z.succ in *. lia.
Qed.

(** The rounded mantissa is canonical, or zero, or the power of two that the
    final renormalisation halves. *)
Lemma round_step_canon M e m' :
  0 < M → e ≤ fexp64 (Z.log2 M + 1 + e) →
  let E := fexp64 (Z.log2 M + 1 + e) in
  m' = M / 2 ^ (E - e) ∨ m' = M / 2 ^ (E - e) + 1 →
  m' = 0 ∨ 0 < m' ∧ canonZ m' E ∨ m' = 2 ^ 53.
Proof.
  intros HM HE E Hm'. fold E in HE.
  assert (HEu : E = Z.max (Z.log2 M + 1 + e - 53) (-1074)) by done. clearbody E.
  pose proof (Z.log2_spec M HM) as [HM1 HM2]. pose proof (Z.log2_nonneg M).
  unfold canonZ. rewrite fexp_unfold.
  destruct (decide (Z.log2 M < E - e)) as [Hbig|Hsmall].
  - assert (M / 2 ^ (E - e) = 0) as Hq.
    { apply Z.div_small. split; [lia|]. eapply Z.lt_le_trans; [exact HM2|].
      apply Z.pow_le_mono_r; lia. }
    rewrite Hq in Hm'. destruct Hm' as [->| ->]; [by left|]. right; left.
    change (Z.log2 (0 + 1)) with 0. lia.
  - set (q := M / 2 ^ (E - e)) in *.
    assert (Z.log2 q = Z.log2 M - (E - e)) as Hl.
    { unfold q. rewrite <-Z.shiftr_div_pow2, Z.log2_shiftr by lia. lia. }
    assert (0 < q) as Hq.
    { apply Z.div_str_pos. split; [apply Z.pow_pos_nonneg; lia|].
      transitivity (2 ^ Z.log2 M); [apply Z.pow_le_mono_r; lia|done]. }
    destruct Hm' as [->| ->]; [right; left; lia|].
    destruct (log2_succ_cases q Hq) as [Hs|[Heq Hs]]; [right; left; lia|].
    destruct (decide (Z.log2 q + 1 = 53)) as [H53|H53].
    + right; right. by rewrite <-H53.
    + right; left. lia.
Qed.

(** The final renormalisation keeps the value and produces a canonical
    mantissa. *)
Lemma renormalise_spec m E :
  -1074 ≤ E → m = 0 ∨ 0 < m ∧ canonZ m E ∨ m = 2 ^ 53 →
  let '(mrs, e') := shr_fexp prec64 emax64 m E loc_Exact in
  match shr_m mrs with
  | 0 => m = 0
  | Z.pos m2 => canon m2 e' ∧ E ≤ e' ∧ val (Z.pos m2) e' = val m E
  | Z.neg _ => False
  end.
Proof.
  intros HE [->|[[Hm Hc]| ->]]; unfold shr_fexp.
  - simpl Zdigits2. rewrite fexp_unfold, Z.add_0_l.
    destruct (Z.max (E - 53) (-1074) - E) eqn:?; simpl; try done. lia.
  - rewrite Zdigits2_log2, Hc, Z.sub_diag by done. simpl.
    destruct m; try lia. split_and!; [|lia|done]. by apply canonZ_canon.
  - change (Zdigits2 (2 ^ 53)) with 54. rewrite fexp_unfold.
    replace (Z.max (54 + E - 53) (-1074) - E) with 1 by lia.
    unfold shr. replace (iter_pos shr_1 1 (shr_record_of_loc (2 ^ 53) loc_Exact))
      with (Build_shr_record (Z.pos (2 ^ 52)) false false) by (by vm_compute).
    cbn [shr_m]. split_and!; [|lia|].
    + apply canonZ_canon. unfold canonZ. change (Z.log2 (Z.pos (2 ^ 52))) with 52.
      rewrite fexp_unfold. lia.
    + unfold val, K. replace (E + 1 + 2300) with (1 + (E + 2300)) by lia.
      rewrite Z.pow_add_r, Z.mul_assoc by lia. by f_equal.
Qed.

(** Non-negative finite-or-infinite numbers in the format. *)
Definition nonneg_valid (x : float64) : Prop :=
  match x with
  | S754_zero _ => True
  | S754_infinity s => s = false
  | S754_nan => False
  | S754_finite s m e => s = false ∧ canon m e ∧ e ≤ 971
  end.

(** A number of the format below the exact value stays below the quotient. *)
Lemma quotient_lower M e mf ef :
  0 < M → 0 ≤ e + K →
  let E := fexp64 (Z.log2 M + 1 + e) in
  e ≤ E → canon mf ef → val (Z.pos mf) ef ≤ val M e →
  val (Z.pos mf) ef ≤ val (M / 2 ^ (E - e)) E.
Proof.
  intros HM HK E HE Hcf Hle.
  pose proof (canon_emin _ _ Hcf) as Hmin.
  assert (HEu : E = Z.max (Z.log2 M + 1 + e - 53) (-1074)) by done. clearbody E.
  pose proof (Z.log2_nonneg M).
  pose proof (Z.pow_pos_nonneg 2 (E - e) ltac:(lia) ltac:(lia)) as HP.
  destruct (decide (E ≤ ef)) as [Hge|Hlt].
  - replace ef with (E + (ef - E)) by lia. rewrite val_shift by (unfold K; lia).
    apply (proj1 (val_mono _ _ E ltac:(unfold K; lia))).
    apply Z.div_le_lower_bound; [done|].
    apply (val_mono _ _ e HK). etransitivity; [|exact Hle].
    replace ef with (e + (E - e) + (ef - E)) at 2 by lia.
    rewrite !val_shift by (unfold K in *; lia). apply Z.eq_le_incl. f_equal. lia.
  - set (q := M / 2 ^ (E - e)).
    assert (2 ^ 52 ≤ q) as Hq.
    { unfold q. apply Z.div_le_lower_bound; [done|]. rewrite <-Z.pow_add_r by lia.
      replace (E - e + 52) with (Z.log2 M) by lia. apply Z.log2_spec. done. }
    assert (Z.log2 (Z.pos mf) ≤ 52) as Hm.
    { unfold canon in Hcf. rewrite digits2_pos_log2, fexp_unfold in Hcf. lia. }
    pose proof (val_log2_bounds (Z.pos mf) ef ltac:(lia) ltac:(unfold K; lia)) as [_ Hub].
    transitivity (val (2 ^ 52) E).
    + apply Z.lt_le_incl. eapply Z.lt_le_trans; [exact Hub|].
      unfold val. rewrite <-Z.pow_add_r by (unfold K; lia). apply Z.pow_le_mono_r; lia.
    + by apply (proj1 (val_mono _ _ E ltac:(unfold K; lia))).
Qed.

(** Rounding a positive dyadic gives a non-negative number of the format that
    stays on the same side as the exact value of every number of the format. *)
Lemma binary_round_aux_spec M e l :
  0 < M → e ≤ fexp64 (Z.log2 M + 1 + e) → 0 ≤ e + K →
  let r := binary_round_aux prec64 emax64 false M e l in
  nonneg_valid r ∧
  (∀ mf ef, canon mf ef → ef ≤ 971 → below (val M e) l (val (Z.pos mf) ef) →
     fle r (S754_finite false mf ef) = true) ∧
  (∀ mf ef, canon mf ef → val (Z.pos mf) ef ≤ val M e →
     fle (S754_finite false mf ef) r = true).
Proof.
  intros HM HE HK. cbv zeta. unfold binary_round_aux.
  pose proof (quotient_lower M e) as Hlow.
  destruct (round_step_spec M e l HM HE) as (m' & Hstep & Hm' & Hbelow).
  pose proof (round_step_canon M e m' HM HE Hm') as Hcanon.
  set (E := fexp64 _) in *.
  assert (-1074 ≤ E) as HEmin by (unfold E; rewrite fexp_unfold; lia).
  assert (∀ mf ef, canon mf ef → val (Z.pos mf) ef ≤ val M e → val (Z.pos mf) ef ≤ val m' E) as Hlow'.
  { intros mf ef Hcf Hle. etransitivity; [by apply Hlow|].
    fold E. apply (proj1 (val_mono _ _ E ltac:(unfold K; lia))). lia. }
  clear Hlow. unfold round_step in Hstep. destruct (shr_fexp _ _ M e l) as [mrs0 e0].
  injection Hstep as Hm0 ->. rewrite Hm0.
  pose proof (renormalise_spec m' E HEmin Hcanon) as Hren.
  destruct (shr_fexp _ _ m' E loc_Exact) as [mrs' e'].
  destruct (shr_m mrs') as [|m2|m2]; [| |done].
  { split; [done|]. subst m'. split.
    - intros. apply fle_spec. simpl. split_and!; [done..|lia].
    - intros mf ef Hcf Hle. specialize (Hlow' mf ef Hcf Hle).
      pose proof (canon_emin _ _ Hcf). pose proof (val_pos (Z.pos mf) ef) as Hp.
      unfold val in Hlow' at 2. unfold K in *. lia. }
  destruct Hren as (Hc2 & He' & Hval).
  change (emax64 - prec64) with 971.
  split. { destruct (Z.leb_spec e' 971); simpl; auto. }
  split; cycle 1.
  { intros mf ef Hcf Hle. specialize (Hlow' mf ef Hcf Hle). rewrite <-Hval in Hlow'.
    destruct (canon_compare mf ef m2 e' Hcf Hc2 Hlow') as [Hlt|[-> Hmm]];
      destruct (Z.leb_spec e' 971); try destruct (Z.leb_spec ef 971);
      apply fle_spec; simpl; (split_and!; [done..|unfold rank_lt; lia]). }
  intros mf ef Hcf Hef Hb.
  assert (Z.log2 M + e ≤ Z.log2 (Z.pos mf) + ef) as Hlog.
  { pose proof (canon_emin _ _ Hcf).
    apply val_le_log2; [lia|lia|lia|unfold K in *; lia|].
    unfold below in Hb. destruct (inexact l); lia. }
  assert (E ≤ ef) as HEef.
  { unfold canon in Hcf. rewrite <-Hcf, digits2_pos_log2. unfold E. apply fexp_mono. lia. }
  assert (val m' E ≤ val (Z.pos mf) ef) as Hle.
  { replace ef with (E + (ef - E)) by lia. rewrite val_shift by (unfold K in *; lia).
    apply (proj1 (val_mono m' _ E ltac:(unfold K; lia))). apply Hbelow.
    rewrite <-Z.mul_assoc, <-Z.pow_add_r by lia.
    replace (ef - E + (E - e)) with (ef - e) by lia.
    replace ef with (e + (ef - e)) in Hb by lia. rewrite val_shift in Hb by lia.
    unfold below in *. destruct (inexact l).
    - by apply (val_mono_lt _ _ e).
    - by apply (val_mono _ _ e). }
  rewrite <-Hval in Hle.
  destruct (canon_compare m2 e' mf ef Hc2 Hcf Hle) as [Hlt|[-> Hmm]].
  - rewrite (proj2 (Z.leb_le e' 971)) by lia. apply fle_spec. simpl. split_and!; [done..|lia].
  - rewrite (proj2 (Z.leb_le ef 971)) by lia. apply fle_spec. simpl. split_and!; [done..|lia].
Qed.

(** *** Operations on non-negative numbers *)

Definition is_finite (x : float64) : bool :=
  match x with S754_zero _ | S754_finite _ _ _ => true | _ => false end.

(** The exact value, scaled by [2^K]. *)
Definition fval (x : float64) : Z :=
  match x with
  | S754_finite s m e => if s then - val (Z.pos m) e else val (Z.pos m) e
  | _ => 0
  end.

Lemma nonneg_valid_not_nan x : nonneg_valid x → is_nan x = false.
Proof. by destruct x. Qed.

Lemma nonneg_valid_fle0 x : nonneg_valid x → fle f0 x = true.
Proof.
  intros H. apply fle_spec. destruct x as [|[]| |[] m e]; simpl in *; try done;
    (split_and!; [done..|lia]) || naive_solver.
Qed.

Lemma fval_nonneg x : nonneg_valid x → 0 ≤ fval x.
Proof.
  destruct x as [| | |s m e]; simpl; try lia. intros (-> & Hc & _).
  pose proof (canon_emin _ _ Hc). pose proof (val_pos (Z.pos m) e).
  unfold K in *. lia.
Qed.

(** On non-negative finite numbers the comparison compares the exact values. *)
Lemma fle_fval x y :
  nonneg_valid x → nonneg_valid y → is_finite x = true → is_finite y = true →
  fle x y = true ↔ fval x ≤ fval y.
Proof.
  intros Hx Hy Fx Fy. rewrite fle_spec.
  destruct x as [s1| | |s1 m1 e1], y as [s2| | |s2 m2 e2]; try done; simpl in *.
  - split; [done|]. intros _. split_and!; [done..|unfold rank_lt; lia].
  - destruct Hy as (-> & Hc & _). pose proof (canon_emin _ _ Hc).
    pose proof (val_pos (Z.pos m2) e2). unfold K in *. split; [lia|].
    intros _. split_and!; [done..|unfold rank_lt; lia].
  - destruct Hx as (-> & Hc & _). pose proof (canon_emin _ _ Hc).
    pose proof (val_pos (Z.pos m1) e1). unfold K in *. split; [|lia].
    intros (_ & _ & Hn). exfalso. apply Hn. left. lia.
  - destruct Hx as (-> & Hc1 & _), Hy as (-> & Hc2 & _).
    pose proof (canon_emin _ _ Hc1). pose proof (canon_emin _ _ Hc2). split.
    + intros (_ & _ & Hn). apply Z.nlt_ge. intros Hlt. apply Hn.
      destruct (canon_compare m2 e2 m1 e1) as [|[-> Hm]]; [done|done|lia|unfold rank_lt; lia|].
      right. split; [done|]. right. split; [done|].
      apply (val_mono_lt _ _ e1); [unfold K; lia|done].
    + intros Hle. split_and!; [done..|].
      destruct (canon_compare m1 e1 m2 e2) as [|[-> Hm]]; [done|done|lia|unfold rank_lt; lia|unfold rank_lt; lia].
Qed.

Lemma Pos_iter_xO m d : Z.pos (Pos.iter xO m d) = Z.pos m * 2 ^ Z.pos d.
Proof.
  induction d as [|d IH] using Pos.peano_ind; [simpl; lia|].
  rewrite Pos.iter_succ, Pos2Z.inj_xO, IH, Pos2Z.inj_succ, Z.pow_succ_r by lia. lia.
Qed.

Lemma shl_align_spec m e e' :
  ∃ m', shl_align m e e' = (m', Z.min e e') ∧ Z.pos m' = Z.pos m * 2 ^ (e - Z.min e e').
Proof.
  unfold shl_align. destruct (e' - e) as [|d|d] eqn:Hd.
  - exists m. replace (Z.min e e') with e by lia. rewrite Z.sub_diag. split; [done|lia].
  - exists m. replace (Z.min e e') with e by lia. rewrite Z.sub_diag. split; [done|lia].
  - eexists. replace (Z.min e e') with e' by lia. split; [done|].
    rewrite Pos_iter_xO. f_equal. f_equal. lia.
Qed.

Lemma binary_round_spec m e :
  -1074 ≤ e →
  let r := binary_round prec64 emax64 false m e in
  nonneg_valid r ∧
  (∀ mf ef, canon mf ef → ef ≤ 971 → val (Z.pos m) e ≤ val (Z.pos mf) ef →
     fle r (S754_finite false mf ef) = true) ∧
  (∀ mf ef, canon mf ef → val (Z.pos mf) ef ≤ val (Z.pos m) e →
     fle (S754_finite false mf ef) r = true).
Proof.
  intros He. cbv zeta. unfold binary_round. rewrite digits2_pos_log2.
  set (E := fexp64 _). assert (-1074 ≤ E) by (unfold E; rewrite fexp_unfold; lia).
  destruct (shl_align_spec m e E) as (m' & -> & Hm').
  set (e' := Z.min e E) in *.
  assert (Z.log2 (Z.pos m') + e' = Z.log2 (Z.pos m) + e) as Hl.
  { rewrite Hm', Z.log2_mul_pow2 by lia. lia. }
  assert (val (Z.pos m') e' = val (Z.pos m) e) as Hv.
  { rewrite Hm', <-val_shift by (unfold K; lia). f_equal. lia. }
  destruct (binary_round_aux_spec (Z.pos m') e' loc_Exact) as (Hn & Hle & Hge); [lia| |unfold K; lia|].
  { replace (Z.log2 (Z.pos m') + 1 + e') with (Z.log2 (Z.pos m) + 1 + e) by lia.
    fold E. lia. }
  split; [done|]. rewrite <-Hv. split; [|done].
  intros mf ef Hc Hef Hval. by apply Hle.
Qed.

(** A bound for finite sums: the rounded sum does not exceed any number of
    the format that bounds the exact sum. *)
Lemma fadd_spec x y :
  nonneg_valid x → nonneg_valid y →
  nonneg_valid (fadd x y) ∧
  (is_finite x = true → is_finite y = true →
   ∀ b, nonneg_valid b → is_finite b = true → fval x + fval y ≤ fval b →
     fle (fadd x y) b = true).
Proof.
  intros Hx Hy. unfold fadd.
  assert (∀ u b, nonneg_valid u → nonneg_valid b → is_finite u = true →
    is_finite b = true → fval u ≤ fval b → fle u b = true) as Hfle by (intros; by apply fle_fval).
  destruct x as [sx|sx| |sx mx ex], y as [sy|sy| |sy my ey]; simpl in Hx, Hy; try done.
  - split; [by destruct sx, sy|]. intros _ _ b Hb Fb Hle.
    apply Hfle; [by destruct sx, sy..| |]; [done|]. by destruct sx, sy.
  - split; [done|]. intros _ _ b Hb Fb Hle. by apply Hfle.
  - by subst.
  - split; [done|]. intros _ _ b Hb Fb Hle. apply Hfle; auto. simpl in *. lia.
  - destruct Hx as (-> & Hcx & Hex), Hy as (-> & Hcy & Hey). unfold SFadd.
    pose proof (canon_emin _ _ Hcx). pose proof (canon_emin _ _ Hcy).
    cbv zeta. remember (Z.min ex ey) as ez eqn:Hez.
    destruct (shl_align_spec mx ex ez) as (mx' & Ex & Hmx).
    destruct (shl_align_spec my ey ez) as (my' & Ey & Hmy).
    rewrite Ex, Ey. simpl fst. unfold cond_Zopp.
    replace (Z.min ex ez) with ez in Hmx by lia. replace (Z.min ey ez) with ez in Hmy by lia.
    destruct (binary_round_spec (mx' + my') ez ltac:(lia)) as (Hn & Hle & _).
    change (binary_normalize _ _ (Z.pos mx' + Z.pos my') ez false)
      with (binary_round prec64 emax64 false (mx' + my') ez).
    split; [done|]. intros _ _ b Hb Fb Hsum. simpl in Hsum.
    assert (val (Z.pos mx) ex = val (Z.pos mx') ez) as Hvx.
    { rewrite Hmx, <-val_shift by (unfold K; lia). f_equal. lia. }
    assert (val (Z.pos my) ey = val (Z.pos my') ez) as Hvy.
    { rewrite Hmy, <-val_shift by (unfold K; lia). f_equal. lia. }
    pose proof (val_pos (Z.pos mx) ex). pose proof (val_pos (Z.pos my) ey).
    destruct b as [| | |sb mb eb]; try done; simpl in Hsum; [unfold K in *; lia|].
    destruct Hb as (-> & Hcb & Heb). apply Hle; [done..|].
    etransitivity; [|exact Hsum]. rewrite Hvx, Hvy, Pos2Z.inj_add. unfold val. lia.
Qed.

Lemma canon_cases m e : canon m e → e = -1074 ∨ Z.log2 (Z.pos m) = 52.
Proof. unfold canon. rewrite digits2_pos_log2, fexp_unfold. lia. Qed.

Lemma val_mul m1 e1 m2 e2 :
  -1074 ≤ e1 → -1074 ≤ e2 →
  val (Z.pos m1) e1 * val (Z.pos m2) e2 = val (Z.pos (m1 * m2)) (e1 + e2) * 2 ^ K.
Proof.
  intros H1 H2. unfold val. rewrite Pos2Z.inj_mul.
  transitivity (Z.pos m1 * Z.pos m2 * 2 ^ ((e1 + K) + (e2 + K))).
  - rewrite (Z.pow_add_r 2 (e1 + K) (e2 + K)) by (unfold K; lia). ring.
  - replace (e1 + K + (e2 + K)) with (e1 + e2 + K + K) by lia.
    rewrite (Z.pow_add_r 2 (e1 + e2 + K) K) by (unfold K; lia). ring.
Qed.

(** A bound for finite products. *)
Lemma fmul_spec x y :
  nonneg_valid x → nonneg_valid y → is_finite x = true → is_finite y = true →
  nonneg_valid (fmul x y) ∧
  (∀ b, nonneg_valid b → is_finite b = true → fval x * fval y ≤ fval b * 2 ^ K →
     fle (fmul x y) b = true).
Proof.
  intros Hx Hy Fx Fy. unfold fmul.
  assert (∀ s b, nonneg_valid b → fle (S754_zero s) b = true) as Hz.
  { intros s b Hb%nonneg_valid_fle0. revert Hb. rewrite !fle_spec. naive_solver. }
  destruct x as [sx| | |sx mx ex], y as [sy| | |sy my ey]; try done; simpl in Hx, Hy;
    try (split; [done|]; intros; by apply Hz).
  destruct Hx as (-> & Hcx & Hex), Hy as (-> & Hcy & Hey).
  pose proof (canon_emin _ _ Hcx). pose proof (canon_emin _ _ Hcy).
  simpl SFmul. set (M := (mx * my)%positive).
  assert (Z.log2 (Z.pos mx) + Z.log2 (Z.pos my) ≤ Z.log2 (Z.pos M)) as Hl.
  { unfold M. rewrite Pos2Z.inj_mul. apply Z.log2_mul_below; lia. }
  pose proof (Z.log2_nonneg (Z.pos mx)). pose proof (Z.log2_nonneg (Z.pos my)).
  destruct (binary_round_aux_spec (Z.pos M) (ex + ey) loc_Exact) as (Hn & Hle & _);
    [lia| |unfold K; lia|].
  { rewrite fexp_unfold. destruct (canon_cases _ _ Hcx), (canon_cases _ _ Hcy); lia. }
  split; [done|]. intros b Hb Fb Hprod. simpl in Hprod.
  assert (val (Z.pos mx) ex * val (Z.pos my) ey = val (Z.pos M) (ex + ey) * 2 ^ K) as HM by by apply val_mul.
  rewrite HM in Hprod. pose proof (Z.pow_pos_nonneg 2 K ltac:(lia) ltac:(done)) as HK.
  pose proof (val_pos (Z.pos M) (ex + ey) ltac:(unfold K; lia) ltac:(lia)) as HMpos.
  destruct b as [| | |sb mb eb]; try done; simpl in Hprod; [nia|].
  destruct Hb as (-> & Hcb & Heb). apply Hle; [done..|]. unfold below. simpl. nia.
Qed.

Lemma fle_zero s b : nonneg_valid b → fle (S754_zero s) b = true.
Proof. intros Hb%nonneg_valid_fle0. revert Hb. rewrite !fle_spec. naive_solver. Qed.

(** The rounded sum and the rounded product are no less than any number of
    the format that is no more than the exact one. *)
Lemma fadd_lower x y b :
  nonneg_valid x → nonneg_valid y → is_finite x = true → is_finite y = true →
  nonneg_valid b → is_finite b = true → fval b ≤ fval x + fval y → fle b (fadd x y) = true.
Proof.
  intros Hx Hy Fx Fy Hb Fb Hsum. destruct (fadd_spec x y Hx Hy) as [Hn _].
  destruct b as [sb| | |sb mb eb]; try done; [by apply fle_zero|]. unfold fadd in *.
  destruct x as [sx| | |sx mx ex], y as [sy| | |sy my ey]; simpl in Hx, Hy; try done.
  - simpl in Hsum. destruct Hb as (-> & Hcb & Heb). pose proof (canon_emin _ _ Hcb).
    pose proof (val_pos (Z.pos mb) eb ltac:(unfold K; lia) ltac:(lia)). lia.
  - by apply fle_fval.
  - apply fle_fval; [done..|]. simpl in Hsum |- *. lia.
  - destruct Hx as (-> & Hcx & Hex), Hy as (-> & Hcy & Hey), Hb as (-> & Hcb & Heb). unfold SFadd.
    pose proof (canon_emin _ _ Hcx). pose proof (canon_emin _ _ Hcy).
    cbv zeta. remember (Z.min ex ey) as ez eqn:Hez.
    destruct (shl_align_spec mx ex ez) as (mx' & Ex & Hmx).
    destruct (shl_align_spec my ey ez) as (my' & Ey & Hmy).
    rewrite Ex, Ey. simpl fst. unfold cond_Zopp.
    replace (Z.min ex ez) with ez in Hmx by lia. replace (Z.min ey ez) with ez in Hmy by lia.
    destruct (binary_round_spec (mx' + my') ez ltac:(lia)) as (_ & _ & Hge).
    change (binary_normalize _ _ (Z.pos mx' + Z.pos my') ez false)
      with (binary_round prec64 emax64 false (mx' + my') ez).
    apply Hge; [done|]. simpl in Hsum.
    assert (val (Z.pos mx) ex = val (Z.pos mx') ez) as Hvx.
    { rewrite Hmx, <-val_shift by (unfold K; lia). f_equal. lia. }
    assert (val (Z.pos my) ey = val (Z.pos my') ez) as Hvy.
    { rewrite Hmy, <-val_shift by (unfold K; lia). f_equal. lia. }
    etransitivity; [exact Hsum|]. rewrite Hvx, Hvy, Pos2Z.inj_add. unfold val. lia.
Qed.

Lemma fmul_lower x y b :
  nonneg_valid x → nonneg_valid y → is_finite x = true → is_finite y = true →
  nonneg_valid b → is_finite b = true → fval b * 2 ^ K ≤ fval x * fval y → fle b (fmul x y) = true.
Proof.
  intros Hx Hy Fx Fy Hb Fb Hprod. destruct (fmul_spec x y Hx Hy Fx Fy) as [Hn _].
  pose proof (Z.pow_pos_nonneg 2 K ltac:(lia) ltac:(done)) as HK.
  destruct b as [sb| | |sb mb eb]; try done; [by apply fle_zero|].
  destruct Hb as (-> & Hcb & Heb). pose proof (canon_emin _ _ Hcb).
  pose proof (val_pos (Z.pos mb) eb ltac:(unfold K; lia) ltac:(lia)) as Hbp.
  destruct x as [sx| | |sx mx ex], y as [sy| | |sy my ey]; try done; simpl in Hx, Hy, Hprod; try nia.
  destruct Hx as (-> & Hcx & Hex), Hy as (-> & Hcy & Hey).
  pose proof (canon_emin _ _ Hcx). pose proof (canon_emin _ _ Hcy).
  unfold fmul. simpl SFmul. set (M := (mx * my)%positive).
  assert (Z.log2 (Z.pos mx) + Z.log2 (Z.pos my) ≤ Z.log2 (Z.pos M)) as Hl.
  { unfold M. rewrite Pos2Z.inj_mul. apply Z.log2_mul_below; lia. }
  pose proof (Z.log2_nonneg (Z.pos mx)). pose proof (Z.log2_nonneg (Z.pos my)).
  destruct (binary_round_aux_spec (Z.pos M) (ex + ey) loc_Exact) as (_ & _ & Hge);
    [lia| |unfold K; lia|].
  { rewrite fexp_unfold. destruct (canon_cases _ _ Hcx), (canon_cases _ _ Hcy); lia. }
  apply Hge; [done|].
  assert (val (Z.pos mx) ex * val (Z.pos my) ey = val (Z.pos M) (ex + ey) * 2 ^ K) as HM by by apply val_mul.
  rewrite HM in Hprod. nia.
Qed.

(** *** Non-negativity, without the format's validity

    [nonneg x]: a number (or infinity) that is not below zero. *)
Definition nonneg (x : float64) : Prop := fle f0 x = true.

Lemma nonneg_shape x :
  nonneg x ↔ match x with
             | S754_zero _ => True
             | S754_infinity s | S754_finite s _ _ => s = false
             | S754_nan => False
             end.
Proof.
  unfold nonneg. rewrite fle_spec.
  destruct x as [|[]| |[] m e]; simpl; try naive_solver; split; try naive_solver;
    try (intros _; split_and!; [done..|unfold rank_lt; lia]).
Qed.

Lemma nonneg_valid_nonneg x : nonneg_valid x → nonneg x.
Proof. apply nonneg_valid_fle0. Qed.

Lemma nonneg_not_nan x : nonneg x → is_nan x = false.
Proof. rewrite nonneg_shape. by destruct x. Qed.

(** [posz x]: [nonneg] and not the negative zero; safe as a divisor. *)
Definition posz (x : float64) : Prop :=
  match x with
  | S754_zero s | S754_infinity s | S754_finite s _ _ => s = false
  | S754_nan => False
  end.

Lemma posz_nonneg x : posz x → nonneg x.
Proof. rewrite nonneg_shape. by destruct x. Qed.

(** A positive finite constant. *)
Definition pos_const (x : float64) : Prop :=
  match x with S754_finite s _ _ => s = false | _ => False end.

Lemma pos_const_posz x : pos_const x → posz x.
Proof. by destruct x. Qed.

Lemma shr_1_nonneg r : 0 ≤ shr_m r → 0 ≤ shr_m (shr_1 r).
Proof. destruct r as [[|[]|[]] ? ?]; simpl; lia. Qed.

Lemma shr_fexp_nonneg m e l : 0 ≤ m → 0 ≤ shr_m (fst (shr_fexp prec64 emax64 m e l)).
Proof.
  intros Hm. unfold shr_fexp, shr.
  assert (0 ≤ shr_m (shr_record_of_loc m l)) as H by (by destruct l as [|[]]).
  destruct (_ - e) as [|p|p]; [done| |done].
  simpl. induction p as [|p IH] using Pos.peano_ind; [by apply shr_1_nonneg|].
  rewrite iter_pos_succ, iter_pos_comm. by apply shr_1_nonneg.
Qed.

Lemma binary_round_aux_posz M e l :
  0 ≤ M → posz (binary_round_aux prec64 emax64 false M e l).
Proof.
  intros HM. unfold binary_round_aux.
  pose proof (shr_fexp_nonneg M e l HM) as H1.
  destruct (shr_fexp _ _ M e l) as [r e1]. simpl in H1.
  pose proof (round_nearest_even_spec r) as [Hr _].
  pose proof (shr_fexp_nonneg (round_nearest_even (shr_m r) (loc_of_shr_record r)) e1 loc_Exact) as H2.
  destruct (shr_fexp _ _ _ e1 loc_Exact) as [r2 e2]. simpl in H2.
  destruct (shr_m r2); [done|by case_if|lia].
Qed.

Lemma binary_round_posz m e : posz (binary_round prec64 emax64 false m e).
Proof. unfold binary_round. destruct (shl_align _ _ _). by apply binary_round_aux_posz. Qed.

Lemma of_int_posz n : 0 ≤ n → posz (of_int n).
Proof. intros. unfold of_int. destruct n; [done| |lia]. apply binary_round_posz. Qed.

Lemma fadd_posz x y : posz x → nonneg y → posz (fadd x y).
Proof.
  rewrite (nonneg_shape y). intros Hx Hy.
  destruct x as [[]|[]| |[] mx ex], y as [[]|[]| |[] my ey]; try done.
  apply (binary_round_posz (fst (shl_align mx ex (Z.min ex ey)) +
    fst (shl_align my ey (Z.min ex ey))) (Z.min ex ey)).
Qed.

Lemma fadd_nonneg x y : nonneg x → nonneg y → nonneg (fadd x y).
Proof.
  rewrite (nonneg_shape x). intros Hx Hy.
  destruct x as [[]| | |].
  { revert Hy. rewrite !nonneg_shape. by destruct y as [[]| | |]. }
  all: try done; apply posz_nonneg, fadd_posz; done.
Qed.

(** A product with a positive finite factor. *)
Lemma fmul_pos_nonneg x y : pos_const x → nonneg y → nonneg (fmul x y).
Proof.
  rewrite (nonneg_shape y). intros Hx Hy. destruct x as [| | |[] m e]; try done.
  destruct y as [[]|[]| |[] my ey]; try done. by apply posz_nonneg, binary_round_aux_posz.
Qed.

Lemma fmul_posz_pos x y : posz x → pos_const y → posz (fmul x y).
Proof.
  intros Hx Hy. destruct y as [| | |[] m e]; try done.
  destruct x as [[]|[]| |[] mx ex]; try done. by apply binary_round_aux_posz.
Qed.

(** Quotients of non-negative numbers that are not 0/0 or inf/inf. *)
Lemma fdiv_finite_nonneg s1 m1 e1 s2 m2 e2 :
  s1 = false → s2 = false → posz (fdiv (S754_finite s1 m1 e1) (S754_finite s2 m2 e2)).
Proof.
  intros -> ->. unfold fdiv, SFdiv. simpl xorb.
  destruct (SFdiv_core_binary _ _ _ _ _ _) as [[q e'] l] eqn:E.
  apply binary_round_aux_posz.
  unfold SFdiv_core_binary in E. cbv zeta in E.
  set (s := _ - _ - Z.min _ _) in E.
  destruct (Z.div_eucl _ _) as [q' r] eqn:Hd. injection E as <- <- <-.
  assert (q' = (match s with Z0 => Z.pos m1 | Z.pos _ => Z.shiftl (Z.pos m1) s | Z.neg _ => 0 end) / Z.pos m2) as ->
    by (unfold Z.div; rewrite Hd; done).
  apply Z.div_pos; [|lia]. destruct s; try lia. apply Z.shiftl_nonneg. lia.
Qed.

Lemma fdiv_pos_posz x y : pos_const x → posz y → posz (fdiv x y).
Proof.
  intros Hx Hy. destruct x as [| | |s m e]; try done. simpl in Hx. subst s.
  destruct y as [[]|[]| |[] my ey]; try done. by apply fdiv_finite_nonneg.
Qed.

Lemma fdiv_by_pos x y : nonneg x → pos_const y → nonneg (fdiv x y).
Proof.
  rewrite (nonneg_shape x). intros Hx Hy. destruct y as [| | |s m e]; try done.
  simpl in Hy. subst s. destruct x as [[]|[]| |[] mx ex]; try done.
  by apply posz_nonneg, fdiv_finite_nonneg.
Qed.

Lemma fsqrt_nonneg x : nonneg x → nonneg (fsqrt x).
Proof.
  rewrite (nonneg_shape x). intros Hx. destruct x as [[]|[]| |[] m e]; try done.
  unfold fsqrt, SFsqrt. unfold SFsqrt_core_binary. cbv zeta.
  match goal with |- context [Z.sqrtrem ?a] =>
    pose proof (Z.sqrtrem_sqrt a) as Hs; destruct (Z.sqrtrem a) as [q r] end.
  simpl in Hs. subst q. apply posz_nonneg, binary_round_aux_posz, Z.sqrt_nonneg.
Qed.

Lemma of_int_spec p :
  nonneg_valid (of_int (Z.pos p)) ∧
  (∀ mf ef, canon mf ef → ef ≤ 971 → val (Z.pos p) 0 ≤ val (Z.pos mf) ef →
     fle (of_int (Z.pos p)) (S754_finite false mf ef) = true) ∧
  (∀ mf ef, canon mf ef → val (Z.pos mf) ef ≤ val (Z.pos p) 0 →
     fle (S754_finite false mf ef) (of_int (Z.pos p)) = true).
Proof. by apply binary_round_spec. Qed.

Lemma Seconds_posz d : 0 ≤ d → posz (Seconds d).
Proof.
  intros Hd. unfold Seconds. apply fadd_posz.
  - apply of_int_posz, Z.quot_pos; [done|unfold Second; lia].
  - apply fdiv_by_pos.
    + apply posz_nonneg, of_int_posz, Z.rem_nonneg; [unfold Second; lia|done].
    + vm_compute. reflexivity.
Qed.

Lemma canon_pow2 e : -1022 ≤ e → canon (2 ^ 52) (e - 52).
Proof.
  intros. apply canonZ_canon. unfold canonZ. rewrite fexp_unfold.
  change (Z.log2 (Z.pos (2 ^ 52))) with 52. lia.
Qed.

Lemma of_int_ge1 n : 0 < n → fle f1 (of_int n) = true.
Proof.
  intros Hn. destruct n as [|p|p]; [lia| |lia].
  destruct (of_int_spec p) as (_ & _ & Hl).
  assert (f1 = S754_finite false (2 ^ 52) (0 - 52)) as -> by (vm_compute; reflexivity).
  apply Hl; [apply canon_pow2; lia|]. unfold val.
  replace (0 + K) with (52 + (0 - 52 + K)) by lia.
  rewrite (Z.pow_add_r 2 52), Z.mul_assoc by (unfold K; lia).
  apply Z.mul_le_mono_nonneg_r; [apply Z.pow_nonneg; lia|].
  change (Z.pos (2 ^ 52)) with (2 ^ 52). nia.
Qed.

Lemma of_int_pos_const n : 0 < n < 2 ^ 64 → pos_const (of_int n).
Proof.
  intros Hn. pose proof (of_int_ge1 n ltac:(lia)) as Hge.
  destruct n as [|p|p]; [lia| |lia].
  destruct (of_int_spec p) as (Hv & Hle & _).
  assert (fle (of_int (Z.pos p)) (S754_finite false (2 ^ 52) (64 - 52)) = true) as Hub.
  { apply Hle; [apply canon_pow2; lia|lia|]. unfold val.
    replace (64 - 52 + K) with (12 + (0 + K)) by lia.
    rewrite (Z.pow_add_r 2 12 (0 + K)) by (unfold K; lia). rewrite Z.mul_assoc.
    apply Z.mul_le_mono_nonneg_r; [apply Z.pow_nonneg; lia|].
    change (Z.pos (2 ^ 52) * 2 ^ 12) with (2 ^ 64). lia. }
  destruct (of_int (Z.pos p)) as [s|s| |s m e]; [ | | |by destruct Hv];
    [vm_compute in Hge; by destruct s| |done].
  destruct s; [done|]. vm_compute in Hub. done.
Qed.

#[export] Hint Resolve Seconds_posz of_int_posz posz_nonneg pos_const_posz fadd_posz fadd_nonneg fmul_pos_nonneg
  fdiv_pos_posz fdiv_by_pos fsqrt_nonneg nonneg_valid_nonneg : pathaware.

(** Literals used by the tests of the model. *)
Example lit_03 : lit 3 10 = S754_finite false 5404319552844595 (-54).
Proof. reflexivity. Qed.
Example lit_07 : lit 7 10 = S754_finite false 6305039478318694 (-53).
Proof. reflexivity. Qed.
Example seconds_1500ms : Seconds (1500 * Millisecond) = lit 3 2.
Proof. reflexivity. Qed.

Lemma fval_f1 : fval f1 = 2 ^ K.
Proof. vm_compute. reflexivity. Qed.

(** Facts about constants are settled by evaluation. *)
Ltac zcompute := apply Z.leb_le; vm_compute; reflexivity.

(** The operators are reasoned about through their lemmas only. *)
#[global] Opaque fadd fsub fmul fdiv fsqrt fle fgt flt fge feq fval of_int lit Seconds.
