(* ===== verification/FloatExact.v ===== *)
(** * Exact [float64] arithmetic on dyadic numbers

    [dyadic n d] is the float with the value [n / 2^d].  The sum of two of
    them, the conversion of an integer and the division by two are exact while
    the numerators stay below [2^53]; a quotient that is not exact stays on the
    right side of every number of the format.  The statistics of the benchmarks
    ([Stats]) compute with such numbers only. *)

From S2P Require Import Prelude Float64.

#[local] Transparent fadd fsub fmul fdiv fle flt fgt feq fval of_int.

(** ** Numbers of the format are determined by their value *)

Lemma canon_unique m1 e1 m2 e2 :
  canon m1 e1 → canon m2 e2 → val (Z.pos m1) e1 = val (Z.pos m2) e2 → m1 = m2 ∧ e1 = e2.
Proof.
  intros H1 H2 Hv. pose proof (canon_emin _ _ H1).
  destruct (canon_compare m1 e1 m2 e2) as [?|[-> ?]]; [done|done|lia| |].
  - destruct (canon_compare m2 e2 m1 e1) as [?|[-> ?]]; [done|done|lia|lia|lia].
  - split; [|done]. destruct (canon_compare m2 e2 m1 e2) as [?|[_ ?]]; [done|done|lia|lia|lia].
Qed.

Lemma nonneg_valid_squeeze r m e :
  nonneg_valid r → canon m e →
  fle r (S754_finite false m e) = true → fle (S754_finite false m e) r = true →
  r = S754_finite false m e.
Proof.
  intros Hr Hc (_ & _ & H1)%fle_spec (_ & _ & H2)%fle_spec.
  destruct r as [s|s| |s m' e']; simpl in Hr, H1, H2; try done.
  - lia.
  - subst s. simpl in *. lia.
  - destruct Hr as (-> & _). simpl in *.
    assert (e' = e) as -> by lia. assert (m' = m) as -> by lia. done.
Qed.

(** Rounding keeps what the format represents. *)
Lemma binary_round_exact p e m0 e0 :
  -1074 ≤ e → canon m0 e0 → e0 ≤ 971 → val (Z.pos p) e = val (Z.pos m0) e0 →
  binary_round prec64 emax64 false p e = S754_finite false m0 e0.
Proof.
  intros He Hc He0 Hv. destruct (binary_round_spec p e He) as (Hn & Hle & Hge).
  apply nonneg_valid_squeeze; [done..| |]; [apply Hle|apply Hge]; try done; lia.
Qed.

(** ** Dyadic numbers *)

Definition dyadic (n : Z) (d : Z) : float64 :=
  match n with
  | Z.pos p => S754_finite false (Z.to_pos (Z.pos p * 2 ^ (52 - Z.log2 (Z.pos p)))) (Z.log2 (Z.pos p) - 52 - d)
  | _ => f0
  end.

Lemma dyadic_pos n d :
  0 < n < 2 ^ 53 → -500 ≤ d ≤ 500 →
  ∃ m, dyadic n d = S754_finite false m (Z.log2 n - 52 - d) ∧
       canon m (Z.log2 n - 52 - d) ∧ val (Z.pos m) (Z.log2 n - 52 - d) = val n (- d) ∧
       Z.log2 n ≤ 52.
Proof.
  intros Hn Hd. destruct n as [|p|p]; try lia.
  assert (Z.log2 (Z.pos p) ≤ 52) as Hl by (apply Z.lt_succ_r, Z.log2_lt_pow2; lia).
  pose proof (Z.log2_nonneg (Z.pos p)) as Hl0.
  set (q := Z.pos p * 2 ^ (52 - Z.log2 (Z.pos p))).
  assert (0 < q) as Hq by (apply Z.mul_pos_pos; [lia|apply Z.pow_pos_nonneg; lia]).
  exists (Z.to_pos q). cbn [dyadic]. fold q. split_and!; [done| | |done].
  - apply canonZ_canon. unfold canonZ. rewrite Z2Pos.id by done. unfold q.
    rewrite Z.log2_mul_pow2 by lia. rewrite fexp_unfold. lia.
  - rewrite Z2Pos.id by done. unfold q.
    rewrite <-val_shift by (unfold K; lia). f_equal. lia.
Qed.

(** The canonical number with the value of a rounding's argument is its
    result. *)
Lemma round_dyadic p e n d :
  0 < n < 2 ^ 53 → -500 ≤ d ≤ 500 → -1074 ≤ e → val (Z.pos p) e = val n (- d) →
  binary_round prec64 emax64 false p e = dyadic n d.
Proof.
  intros Hn Hd He Hv. destruct (dyadic_pos n d Hn Hd) as (m & -> & Hc & Hm & Hl).
  pose proof (Z.log2_nonneg n). apply binary_round_exact; [lia|done|lia|congruence].
Qed.

Lemma of_int_dyadic n : 0 ≤ n < 2 ^ 53 → of_int n = dyadic n 0.
Proof.
  intros Hn. destruct n as [|p|p]; [done| |lia].
  apply (round_dyadic p 0); [lia|lia|lia|done].
Qed.

Lemma fadd_finite m1 e1 m2 e2 n d :
  0 < n < 2 ^ 53 → -500 ≤ d ≤ 500 → -1074 ≤ e1 → -1074 ≤ e2 →
  val (Z.pos m1) e1 + val (Z.pos m2) e2 = val n (- d) →
  fadd (S754_finite false m1 e1) (S754_finite false m2 e2) = dyadic n d.
Proof.
  intros Hn Hd H1 H2 Hv. unfold fadd, SFadd. cbv zeta.
  destruct (shl_align_spec m1 e1 (Z.min e1 e2)) as (m1' & -> & Hm1).
  destruct (shl_align_spec m2 e2 (Z.min e1 e2)) as (m2' & -> & Hm2).
  cbn [fst cond_Zopp].
  change (binary_normalize _ _ (Z.pos m1' + Z.pos m2') (Z.min e1 e2) false)
    with (binary_round prec64 emax64 false (m1' + m2') (Z.min e1 e2)).
  apply round_dyadic; [lia..|]. rewrite <-Hv.
  transitivity (val (Z.pos m1') (Z.min e1 e2) + val (Z.pos m2') (Z.min e1 e2)).
  { rewrite Pos2Z.inj_add. unfold val. lia. }
  rewrite Hm1, Hm2, <-!val_shift by (unfold K; lia). do 2 f_equal; lia.
Qed.

Lemma fadd_dyadic a b d :
  0 ≤ a → 0 ≤ b → a + b < 2 ^ 53 → -500 ≤ d ≤ 500 →
  fadd (dyadic a d) (dyadic b d) = dyadic (a + b) d.
Proof.
  intros Ha Hb Hab Hd.
  destruct (decide (a = 0)) as [->|Ha0].
  { rewrite Z.add_0_l. by destruct b. }
  destruct (decide (b = 0)) as [->|Hb0].
  { rewrite Z.add_0_r. by destruct a. }
  pose proof (Z.log2_nonneg a). pose proof (Z.log2_nonneg b).
  destruct (dyadic_pos a d) as (m1 & -> & _ & H1 & _); [lia..|].
  destruct (dyadic_pos b d) as (m2 & -> & _ & H2 & _); [lia..|].
  apply fadd_finite; [lia..|]. rewrite H1, H2. unfold val. lia.
Qed.

(** ** Products of integers *)

Lemma fmul_dyadic a b :
  0 ≤ a → 0 ≤ b → a * b < 2 ^ 53 → a < 2 ^ 53 → b < 2 ^ 53 →
  fmul (dyadic a 0) (dyadic b 0) = dyadic (a * b) 0.
Proof.
  intros Ha Hb Hab Ha53 Hb53.
  destruct (decide (a = 0)) as [->|Ha0]; [by destruct b|].
  destruct (decide (b = 0)) as [->|Hb0]; [rewrite Z.mul_0_r; by destruct a|].
  pose proof (Z.log2_nonneg a). pose proof (Z.log2_nonneg b).
  destruct (dyadic_pos a 0) as (m1 & -> & Hc1 & H1 & Hl1); [lia..|].
  destruct (dyadic_pos b 0) as (m2 & -> & Hc2 & H2 & Hl2); [lia..|].
  assert (-52 ≤ Z.log2 a - 52 - 0 ≤ 0 ∧ -52 ≤ Z.log2 b - 52 - 0 ≤ 0) as [He1 He2] by lia.
  generalize dependent (Z.log2 a - 52 - 0). intros e1 Hc1 H1 He1.
  generalize dependent (Z.log2 b - 52 - 0). intros e2 Hc2 H2 He2.
  destruct (dyadic_pos (a * b) 0) as (m & -> & Hc & Hm & Hl); [nia|lia|].
  unfold fmul, SFmul. cbn [xorb].
  assert (52 ≤ Z.log2 (Z.pos m1)) by (destruct (canon_cases _ _ Hc1); lia).
  assert (52 ≤ Z.log2 (Z.pos m2)) by (destruct (canon_cases _ _ Hc2); lia).
  pose proof (Z.log2_mul_below (Z.pos m1) (Z.pos m2) ltac:(lia) ltac:(lia)) as Hmul.
  assert (val (Z.pos (m1 * m2)) (e1 + e2) = val (a * b) (- 0)) as Hv.
  { assert (val (Z.pos m1) e1 * val (Z.pos m2) e2 = val (Z.pos (m1 * m2)) (e1 + e2) * 2 ^ K) as E1.
    { assert (2 ^ (e1 + K) * 2 ^ (e2 + K) = 2 ^ (e1 + e2 + K) * 2 ^ K) as Hp.
      { rewrite <-!Z.pow_add_r by (unfold K; lia). f_equal. lia. }
      unfold val. rewrite Pos2Z.inj_mul.
      transitivity (Z.pos m1 * Z.pos m2 * (2 ^ (e1 + K) * 2 ^ (e2 + K))); [ring|].
      rewrite Hp. ring. }
    assert (val a (-0) * val b (-0) = val (a * b) (-0) * 2 ^ K) as E2 by (unfold val; change (-0 + K) with K; ring).
    apply (Z.mul_reg_r _ _ (2 ^ K)); [apply Z.pow_nonzero; unfold K; lia|]. congruence. }
  destruct (binary_round_aux_spec (Z.pos (m1 * m2)) (e1 + e2) loc_Exact) as (Hn & Hle & Hge);
    [lia|rewrite Pos2Z.inj_mul, fexp_unfold; lia|unfold K; lia|].
  apply nonneg_valid_squeeze; [done..| |].
  - apply Hle; [done|lia|]. unfold below. cbn [inexact]. lia.
  - apply Hge; [done|lia].
Qed.

(** ** Quotients *)

Lemma inexact_new_location n k : 0 < n → inexact (new_location n k) = negb (k =? 0).
Proof.
  intros Hn. unfold new_location, new_location_even, new_location_odd.
  destruct (Z.even n), (k =? 0); done.
Qed.

Lemma fdiv_core m1 e1 m2 e2 :
  Z.log2 (Z.pos m1) = 52 → Z.log2 (Z.pos m2) = 52 → -500 ≤ e1 ≤ 500 → -500 ≤ e2 ≤ 500 →
  let q := Z.pos m1 * 2 ^ 53 / Z.pos m2 in
  let r := Z.pos m1 * 2 ^ 53 mod Z.pos m2 in
  fdiv (S754_finite false m1 e1) (S754_finite false m2 e2) =
  binary_round_aux prec64 emax64 false q (e1 - e2 - 53) (new_location (Z.pos m2) r).
Proof.
  intros H1 H2 He1 He2. cbv zeta. unfold fdiv, SFdiv, SFdiv_core_binary. cbv zeta.
  rewrite !Zdigits2_log2, H1, H2, fexp_unfold by lia.
  replace (Z.min (Z.max (52 + 1 + e1 - (52 + 1 + e2) - 53) (-1074)) (e1 - e2)) with (e1 - e2 - 53) by lia.
  replace (e1 - e2 - (e1 - e2 - 53)) with 53 by lia. rewrite Z.shiftl_mul_pow2 by lia.
  unfold Z.div, Z.modulo. by destruct (Z.div_eucl (Z.pos m1 * 2 ^ 53) (Z.pos m2)).
Qed.

Lemma cross_upper q m r A B b :
  0 < m → 0 < A → 0 < B → 0 ≤ r →
  (q * m + r) * (A * B) ≤ b * (m * B) → q * A ≤ b ∧ (r ≠ 0 → q * A < b).
Proof.
  intros Hm HA HB Hr H.
  assert ((q * m + r) * A ≤ b * m) as H' by (apply (Z.mul_le_mono_pos_r _ _ B HB); lia).
  split.
  - apply (Z.mul_le_mono_pos_r _ _ m Hm). nia.
  - intros Hr0. apply (Z.mul_lt_mono_pos_r m _ _ Hm). nia.
Qed.

Lemma cross_lower q m r A B c :
  0 < m → 0 < A → 0 < B → r < m →
  c * A * (m * B) ≤ (q * m + r) * (A * B) → c * A ≤ q * A.
Proof.
  intros Hm HA HB Hr H. apply Z.mul_le_mono_nonneg_r; [lia|].
  assert (c * m ≤ q * m + r) as H'.
  { apply (Z.mul_le_mono_pos_r _ _ (A * B)); [nia|]. lia. }
  nia.
Qed.

Lemma fdiv_spec m1 e1 m2 e2 :
  Z.log2 (Z.pos m1) = 52 → Z.log2 (Z.pos m2) = 52 → -500 ≤ e1 ≤ 500 → -500 ≤ e2 ≤ 500 →
  let x := val (Z.pos m1) e1 in let y := val (Z.pos m2) e2 in
  let r := fdiv (S754_finite false m1 e1) (S754_finite false m2 e2) in
  nonneg_valid r ∧
  (∀ mf ef, canon mf ef → ef ≤ 971 → x * 2 ^ K ≤ val (Z.pos mf) ef * y →
     fle r (S754_finite false mf ef) = true) ∧
  (∀ mf ef, canon mf ef → -600 ≤ ef → val (Z.pos mf) ef * y ≤ x * 2 ^ K →
     fle (S754_finite false mf ef) r = true).
Proof.
  intros H1 H2 He1 He2. cbv zeta. rewrite fdiv_core by done.
  set (q := Z.pos m1 * 2 ^ 53 / Z.pos m2). set (r := Z.pos m1 * 2 ^ 53 mod Z.pos m2).
  pose proof (Z.div_mod (Z.pos m1 * 2 ^ 53) (Z.pos m2) ltac:(lia)) as Hdm. fold q r in Hdm.
  pose proof (Z.mod_pos_bound (Z.pos m1 * 2 ^ 53) (Z.pos m2) ltac:(lia)) as Hr. fold r in Hr.
  pose proof (Z.log2_spec (Z.pos m1) ltac:(lia)) as Hm1. rewrite H1 in Hm1.
  pose proof (Z.log2_spec (Z.pos m2) ltac:(lia)) as Hm2. rewrite H2 in Hm2.
  change (Z.succ 52) with 53 in *.
  assert (2 ^ 52 ≤ q) as Hq by (apply Z.div_le_lower_bound; [lia|]; nia).
  assert (52 ≤ Z.log2 q) as Hlq by (apply Z.log2_le_pow2; lia).
  set (E := e1 - e2 - 53).
  assert (val (Z.pos m1) e1 * 2 ^ K * 2 ^ 53 = (q * Z.pos m2 + r) * (2 ^ (E + K) * 2 ^ (e2 + K) * 2 ^ 53)) as Hx.
  { unfold val. replace (2 ^ (E + K) * 2 ^ (e2 + K) * 2 ^ 53) with (2 ^ (e1 + K) * 2 ^ K)
      by (rewrite <-!Z.pow_add_r by (unfold K, E; lia); f_equal; unfold E; lia).
    rewrite (Z.mul_comm q), <-Hdm. ring. }
  assert (val (Z.pos m1) e1 * 2 ^ K = (q * Z.pos m2 + r) * (2 ^ (E + K) * 2 ^ (e2 + K))) as Hx' by lia. clear Hx.
  pose proof (Z.pow_pos_nonneg 2 (E + K) ltac:(lia) ltac:(unfold K, E; lia)) as P1.
  pose proof (Z.pow_pos_nonneg 2 (e2 + K) ltac:(lia) ltac:(unfold K; lia)) as P2.
  destruct (binary_round_aux_spec q E (new_location (Z.pos m2) r)) as (Hn & Hle & Hge);
    [lia|rewrite fexp_unfold; unfold E in *; lia|unfold K, E; lia|].
  split; [done|]. split.
  - intros mf ef Hc Hef Hb. apply Hle; [done..|]. unfold below.
    rewrite inexact_new_location by lia. set (b := val (Z.pos mf) ef) in *. clearbody b.
    rewrite Hx' in Hb. unfold val in Hb |- *. apply cross_upper in Hb as [Hb1 Hb2]; [|lia..].
    destruct (Z.eqb_spec r 0); cbn [negb]; auto.
  - intros mf ef Hc Hef Hb. apply Hge; [done|]. rewrite Hx' in Hb.
    destruct (decide (E ≤ ef)) as [Hge'|Hlt].
    + replace ef with (E + (ef - E)) in Hb |- * by lia.
      rewrite val_shift in Hb |- * by (unfold K, E; lia).
      unfold val in Hb |- *. apply cross_lower in Hb; [done|lia..].
    + pose proof (canon_cases _ _ Hc) as [?|Hl]; [lia|].
      pose proof (val_log2_bounds (Z.pos mf) ef ltac:(lia) ltac:(unfold K; lia)) as [_ Hub].
      rewrite Hl in Hub. apply Z.lt_le_incl. eapply Z.lt_le_trans; [exact Hub|].
      transitivity (val (2 ^ 52) E); [|unfold val; by apply Z.mul_le_mono_nonneg_r; lia].
      unfold val. rewrite <-Z.pow_add_r by (unfold K, E; lia). apply Z.pow_le_mono_r; lia.
Qed.

(** The float nearest to a quotient of integers. *)
Lemma dyadic_quotient a b :
  0 < a < 2 ^ 53 → 0 < b < 2 ^ 53 →
  ∃ m1 e1 m2 e2,
    dyadic a 0 = S754_finite false m1 e1 ∧ dyadic b 0 = S754_finite false m2 e2 ∧
    Z.log2 (Z.pos m1) = 52 ∧ Z.log2 (Z.pos m2) = 52 ∧ -52 ≤ e1 ≤ 0 ∧ -52 ≤ e2 ≤ 0 ∧
    val (Z.pos m1) e1 = a * 2 ^ K ∧ val (Z.pos m2) e2 = b * 2 ^ K.
Proof.
  intros Ha Hb. pose proof (Z.log2_nonneg a). pose proof (Z.log2_nonneg b).
  destruct (dyadic_pos a 0) as (m1 & E1 & Hc1 & H1 & Hl1); [lia..|].
  destruct (dyadic_pos b 0) as (m2 & E2 & Hc2 & H2 & Hl2); [lia..|].
  eexists m1, _, m2, _. split_and!; [exact E1|exact E2| | |lia..|done|done].
  - destruct (canon_cases _ _ Hc1); lia.
  - destruct (canon_cases _ _ Hc2); lia.
Qed.

(** Where the rounded quotient [a / b] lies, relative to numbers of the
    format. *)
Lemma fdiv_dyadic a b :
  0 < a < 2 ^ 53 → 0 < b < 2 ^ 53 →
  let r := fdiv (dyadic a 0) (dyadic b 0) in
  nonneg_valid r ∧
  (∀ mf ef, canon mf ef → -600 ≤ ef ≤ 971 → a * 2 ^ K ≤ val (Z.pos mf) ef * b →
     fle r (S754_finite false mf ef) = true) ∧
  (∀ mf ef, canon mf ef → -600 ≤ ef → val (Z.pos mf) ef * b ≤ a * 2 ^ K →
     fle (S754_finite false mf ef) r = true).
Proof.
  intros Ha Hb. destruct (dyadic_quotient a b Ha Hb) as (m1 & e1 & m2 & e2 & -> & -> & L1 & L2 & ? & ? & V1 & V2).
  destruct (fdiv_spec m1 e1 m2 e2) as (Hn & Hle & Hge); [done..|lia|lia|].
  rewrite V1, V2 in *. split; [done|].
  assert (0 < 2 ^ K) as HK by (apply Z.pow_pos_nonneg; unfold K; lia).
  split; intros mf ef Hc Hef Hv; [apply Hle|apply Hge]; try done; try lia.
  - rewrite (Z.mul_assoc (val _ _)). by apply Z.mul_le_mono_nonneg_r; [lia|].
  - rewrite (Z.mul_assoc (val _ _)). by apply Z.mul_le_mono_nonneg_r; [lia|].
Qed.

Lemma fdiv_exact a b n d :
  0 < a < 2 ^ 53 → 0 < b < 2 ^ 53 → 0 < n < 2 ^ 53 → 0 ≤ d ≤ 400 → a * 2 ^ d = n * b →
  fdiv (dyadic a 0) (dyadic b 0) = dyadic n d.
Proof.
  intros Ha Hb Hn Hd E. destruct (fdiv_dyadic a b Ha Hb) as (Hv & Hle & Hge).
  pose proof (Z.log2_nonneg n).
  destruct (dyadic_pos n d) as (m & -> & Hc & Hm & Hl); [lia..|].
  assert (val (Z.pos m) (Z.log2 n - 52 - d) * b = a * 2 ^ K) as HV.
  { rewrite Hm. unfold val. replace (n * 2 ^ (- d + K) * b) with (n * b * 2 ^ (- d + K)) by ring.
    rewrite <-E, <-Z.mul_assoc, <-Z.pow_add_r by (unfold K; lia). do 2 f_equal. lia. }
  apply nonneg_valid_squeeze; [done..| |]; [apply Hle|apply Hge]; try done; lia.
Qed.

Lemma f1_dyadic : f1 = dyadic 1 0.
Proof. by vm_compute. Qed.
Lemma f0_dyadic d : f0 = dyadic 0 d.
Proof. done. Qed.

(** [n / 2] is exact. *)
Lemma half_dyadic n : 0 ≤ n < 2 ^ 53 → fdiv (dyadic n 0) (of_int 2) = dyadic n 1.
Proof.
  intros Hn. destruct (decide (n = 0)) as [->|]; [done|].
  rewrite (of_int_dyadic 2) by lia. apply fdiv_exact; lia.
Qed.

(** A quotient is below one when the numerator is below the denominator, and
    only then. *)
Lemma fdiv_le_one a b : 0 < a ≤ b → b < 2 ^ 53 → fle (fdiv (dyadic a 0) (dyadic b 0)) f1 = true.
Proof.
  intros Ha Hb. destruct (fdiv_dyadic a b) as (_ & Hle & _); [lia..|].
  replace f1 with (S754_finite false (2 ^ 52) (0 - 52)) by by vm_compute.
  apply Hle; [apply canon_pow2; lia|lia|]. unfold val. change (Z.pos (2 ^ 52)) with (2 ^ 52).
  rewrite <-Z.pow_add_r by (unfold K; lia). replace (52 + (0 - 52 + K)) with K by lia.
  rewrite (Z.mul_comm (2 ^ K)). apply Z.mul_le_mono_nonneg_r; [|lia]. apply Z.pow_nonneg. lia.
Qed.

Lemma fdiv_eq_one a b : 0 < a ≤ b → b < 2 ^ 53 → fdiv (dyadic a 0) (dyadic b 0) = f1 ↔ a = b.
Proof.
  intros Ha Hb. split; [|intros ->; rewrite f1_dyadic; apply fdiv_exact; lia].
  intros E. destruct (decide (a = b)) as [|Hne]; [done|exfalso].
  destruct (fdiv_dyadic a b) as (_ & Hle & _); [lia..|]. rewrite E in Hle.
  assert (fle f1 (S754_finite false (2 ^ 53 - 1) (-53)) = true) as H; [|by vm_compute in H].
  apply Hle; [by vm_compute|lia|]. unfold val. change (Z.pos (2 ^ 53 - 1)) with (2 ^ 53 - 1).
  pose proof (Z.pow_pos_nonneg 2 (-53 + K) ltac:(lia) ltac:(unfold K; lia)).
  replace (2 ^ K) with (2 ^ 53 * 2 ^ (-53 + K)) by (rewrite <-Z.pow_add_r by (unfold K; lia); f_equal; lia).
  replace ((2 ^ 53 - 1) * 2 ^ (-53 + K) * b) with ((2 ^ 53 - 1) * b * 2 ^ (-53 + K)) by ring.
  rewrite Z.mul_assoc. apply Z.mul_le_mono_nonneg_r; lia.
Qed.

(** The quotient of positive integers is positive. *)
Lemma fdiv_positive a b : 0 < a < 2 ^ 53 → 0 < b < 2 ^ 53 → fgt (fdiv (dyadic a 0) (dyadic b 0)) f0 = true.
Proof.
  intros Ha Hb. destruct (fdiv_dyadic a b Ha Hb) as (_ & _ & Hge).
  apply (fle_fgt_trans _ (S754_finite false (2 ^ 52) (-53 - 52))); [|by vm_compute].
  apply Hge; [apply canon_pow2; lia|lia|]. unfold val. change (Z.pos (2 ^ 52)) with (2 ^ 52).
  rewrite <-Z.pow_add_r by (unfold K; lia). replace (52 + (-53 - 52 + K)) with (-53 + K) by lia.
  pose proof (Z.pow_pos_nonneg 2 (-53 + K) ltac:(lia) ltac:(unfold K; lia)).
  replace (2 ^ K) with (2 ^ 53 * 2 ^ (-53 + K)) by (rewrite <-Z.pow_add_r by (unfold K; lia); f_equal; lia).
  nia.
Qed.

Lemma flt_fgt x y : flt x y = fgt y x.
Proof. done. Qed.

(** ** Integers of the format: conversions back *)

Lemma trunc_dyadic n : 0 ≤ n < 2 ^ 53 → trunc (dyadic n 0) = Some n.
Proof.
  intros Hn. destruct (decide (n = 0)) as [->|]; [done|].
  pose proof (Z.log2_nonneg n).
  destruct (dyadic_pos n 0) as (m & -> & Hc & Hm & Hl); [lia..|].
  assert (Z.pos m = n * 2 ^ (52 - Z.log2 n)) as Em.
  { apply (Z.mul_reg_r _ _ (2 ^ (Z.log2 n - 52 - 0 + K))); [apply Z.pow_nonzero; unfold K; lia|].
    unfold val in Hm. rewrite Hm, <-Z.mul_assoc, <-Z.pow_add_r by (unfold K; lia). do 2 f_equal. lia. }
  unfold trunc. rewrite Em. case_if; zbool; f_equal.
  - replace (Z.log2 n) with 52 by lia. change (52 - 52) with 0. change (52 - 52 - 0) with 0. lia.
  - replace (- (Z.log2 n - 52 - 0)) with (52 - Z.log2 n) by lia. apply Z.div_mul.
    apply Z.pow_nonzero; lia.
Qed.

Lemma to_int64_dyadic n : 0 ≤ n < 2 ^ 53 → to_int64 (dyadic n 0) = n.
Proof.
  intros Hn. unfold to_int64. rewrite trunc_dyadic by done. case_if; [done|].
  apply andb_false_iff in Heqb as []; zbool; lia.
Qed.

Lemma binary_round_opp p e :
  fneg (binary_round prec64 emax64 true p e) = binary_round prec64 emax64 false p e.
Proof.
  unfold binary_round. destruct (shl_align _ _ _) as [m' e'].
  unfold binary_round_aux. destruct (shr_fexp _ _ _ _ _) as [mrs e1].
  destruct (shr_fexp _ _ _ _ _) as [mrs' e2]. destruct (shr_m mrs'); [done| |done].
  by case_if.
Qed.

Lemma fneg_normalize q : 0 ≤ q → fneg (binary_normalize prec64 emax64 (- q) 0 true) = of_int q.
Proof. intros Hq. destruct q as [|p|p]; [done|apply binary_round_opp|lia]. Qed.

(** The integers around a number of the format. *)
Lemma floor_ceil_bounds x n :
  nonneg_valid x → is_finite x = true → 0 ≤ n < 2 ^ 53 - 1 → fval x ≤ n * 2 ^ K →
  0 ≤ to_int64 (Floor x) ≤ n ∧ 0 ≤ to_int64 (Ceil x) ≤ n ∧
  to_int64 (Floor x) ≤ to_int64 (Ceil x) ≤ to_int64 (Floor x) + 1.
Proof.
  intros Hx Fx Hn Hv. destruct x as [s| | |s m e]; try done.
  { destruct s; change (to_int64 _) with 0; lia. }
  destruct Hx as (-> & Hc & He). pose proof (canon_emin _ _ Hc). unfold fval in Hv.
  assert (0 < 2 ^ (e + K)) by (apply Z.pow_pos_nonneg; unfold K; lia).
  unfold Floor, Ceil. cbn [fneg SFopp negb]. case_if; zbool.
  - assert (Z.pos m * 2 ^ e ≤ n) as Hm.
    { apply (Z.mul_le_mono_pos_r _ _ (2 ^ K)); [apply Z.pow_pos_nonneg; unfold K; lia|].
      by rewrite <-Z.mul_assoc, <-Z.pow_add_r by (unfold K; lia). }
    assert (0 < 2 ^ e) by (apply Z.pow_pos_nonneg; lia).
    assert (to_int64 (S754_finite false m e) = Z.pos m * 2 ^ e) as E.
    { unfold to_int64, trunc. rewrite (proj2 (Z.leb_le 0 e)) by done. case_if; [done|].
      apply andb_false_iff in Heqb0 as []; zbool; nia. }
    cbn [fneg SFopp negb]. rewrite E. nia.
  - set (P := 2 ^ (- e)). assert (0 < P) as HP by (apply Z.pow_pos_nonneg; lia).
    assert (Z.pos m ≤ n * P) as Hm.
    { apply (Z.mul_le_mono_pos_r _ _ (2 ^ (e + K))); [done|].
      unfold val in Hv. rewrite <-Z.mul_assoc. unfold P. rewrite <-Z.pow_add_r by (unfold K; lia).
      by replace (- e + (e + K)) with K by lia. }
    pose proof (Z.div_mod (Z.pos m) P ltac:(lia)) as Hdm.
    pose proof (Z.mod_pos_bound (Z.pos m) P HP) as Hr.
    set (q := Z.pos m / P) in *. set (r := Z.pos m mod P) in *.
    assert (0 ≤ q ≤ n) by (split; nia). rewrite fneg_normalize by lia.
    destruct (Z.eqb_spec r 0) as [Hr0|Hr0]; [rewrite !of_int_dyadic, !to_int64_dyadic by lia; lia|].
    assert (q + 1 ≤ n) by nia. rewrite !of_int_dyadic, !to_int64_dyadic by lia. lia.
Qed.

Lemma dyadic_value n :
  0 ≤ n < 2 ^ 53 → nonneg_valid (dyadic n 0) ∧ is_finite (dyadic n 0) = true ∧ fval (dyadic n 0) = n * 2 ^ K.
Proof.
  intros Hn. destruct (decide (n = 0)) as [->|]; [done|].
  pose proof (Z.log2_nonneg n).
  destruct (dyadic_pos n 0) as (m & -> & Hc & Hm & Hl); [lia..|].
  split; [split; [done|split; [exact Hc|lia]]|split; [done|exact Hm]].
Qed.

Lemma fle_finite x y : nonneg_valid x → is_finite y = true → fle x y = true → is_finite x = true.
Proof.
  intros Hx Hy (_ & _ & H)%fle_spec. destruct x as [| | |]; try done. simpl in Hx. subst.
  destruct y as [| | |[] m e]; try done; simpl in H; exfalso; apply H; lia.
Qed.

(** A fraction of a whole number. *)
Lemma fmul_fraction p n :
  nonneg_valid p → fle p f1 = true → 0 ≤ n < 2 ^ 53 →
  nonneg_valid (fmul p (of_int n)) ∧ is_finite (fmul p (of_int n)) = true ∧
  fval (fmul p (of_int n)) ≤ n * 2 ^ K.
Proof.
  intros Hp Hp1 Hn. rewrite of_int_dyadic by done.
  destruct (dyadic_value n Hn) as (Hv & Hf & Hval).
  assert (is_finite p = true) as Fp by (by apply (fle_finite p f1)).
  destruct (fmul_spec p (dyadic n 0)) as [Hr Hb]; [done..|].
  assert (fle (fmul p (dyadic n 0)) (dyadic n 0) = true) as Hle.
  { apply Hb; [done..|]. rewrite (Z.mul_comm (fval p)). apply Z.mul_le_mono_nonneg_l.
    - by apply fval_nonneg.
    - rewrite <-fval_f1. apply fle_fval; [done|by vm_compute|done|done|done]. }
  assert (is_finite (fmul p (dyadic n 0)) = true) as Hfin by (by apply (fle_finite _ (dyadic n 0))).
  split_and!; [done..|]. rewrite <-Hval. by apply fle_fval.
Qed.

(** ** Comparisons *)

Lemma feq_dyadic_zero n d : 0 ≤ n → feq (dyadic n d) f0 = (n =? 0).
Proof. by destruct n. Qed.

Lemma feq_spec x y : feq x y = fle x y && negb (flt x y).
Proof. unfold feq, fle, flt, SFeqb, SFleb, SFltb. by destruct (SFcompare x y) as [[]|]. Qed.

Lemma feq_fle x y : feq x y = true → fle x y = true ∧ fle y x = true.
Proof.
  rewrite feq_spec, flt_fgt. intros [H1 H2%negb_true_iff]%andb_true_iff. split; [done|].
  apply fle_not_nan in H1 as [N1 N2]. by apply not_fgt_fle.
Qed.

Lemma fle_feq x y : fle x y = true → fle y x = true → feq x y = true.
Proof. intros H1 H2. rewrite feq_spec, H1, flt_fgt. by rewrite fle_not_fgt. Qed.

Lemma feq_nan x y : is_nan x = true → feq x y = false ∧ feq y x = false.
Proof. destruct x; try done. by destruct y. Qed.
