(* ===== verification/Metrics.v ===== *)
(** * Metrics ([internal/metrics/metrics.go])

    The seventeen collectors of a node, their registration in a registry of
    the node's own and the server that shows them.  The Prometheus client
    library is a parameter; it panics on a collector it does not accept. *)

From S2P Require Import Prelude Float64.

(** ** Collectors *)

Inductive kind := Gauge | Counter | Histogram.

(** [mt_Labels]: a vector has one or more; [mt_Buckets]: those of a
    histogram. *)
Record metric := {
  mt_Kind : kind; mt_Namespace : string; mt_Name : string; mt_Help : string; mt_Labels : list string;
  mt_Buckets : list float64
}.

(** [github.com/prometheus/client_golang] *)
Class Prometheus := {
  PRegistry : Type;
  NewRegistry : PRegistry;
  MustRegister : PRegistry → list metric → outcome PRegistry;
  ExponentialBuckets : float64 → float64 → Z → outcome (list float64);
  names_of : PRegistry → list string
}.

Definition name_char (first : bool) (c : Ascii.ascii) : bool :=
  let n := Ascii.nat_of_ascii c in
  ((97 <=? n) && (n <=? 122) || (65 <=? n) && (n <=? 90) || (n =? 95) || negb first && (48 <=? n) && (n <=? 57))%nat.
Definition valid_name (s : string) : bool :=
  match s with
  | EmptyString => false
  | String c s' => name_char true c && forallb (name_char false) (String.list_ascii_of_string s')
  end.
Definition valid_label (s : string) : bool := valid_name s && negb (String.prefix "__" s).

Definition fqName (m : metric) : string := mt_Namespace m +:+ "_" +:+ mt_Name m.

(** The bounds of buckets increase strictly. *)
Fixpoint increasing (l : list float64) : bool :=
  match l with
  | x :: (y :: _) as l' => flt x y && increasing l'
  | _ => true
  end.

(** [count] bounds, the first [start], each [factor] times the one before. *)
Fixpoint multiples (start factor : float64) (count : nat) : list float64 :=
  match count with O => [] | S n => start :: multiples (fmul start factor) factor n end.

(** What the library accepts in one registration: valid and different names,
    valid and different labels, and for a histogram, buckets that increase and
    no label [le]. *)
Definition acceptable (m : metric) : Prop :=
  valid_name (fqName m) = true ∧ Forall (λ l, valid_label l = true) (mt_Labels m) ∧ NoDup (mt_Labels m) ∧
  (mt_Kind m = Histogram → "le" ∉ mt_Labels m ∧ increasing (mt_Buckets m) = true).

(** Its documented behaviour: buckets for a positive start, a factor above
    one and a positive count; a registry that is empty takes any acceptable
    collectors of different names, and a name only once. *)
Class PrometheusLaws (P : Prometheus) : Prop := {
  Buckets_Ok : ∀ start factor n, flt f0 start = true → flt f1 factor = true → 1 ≤ n →
    ExponentialBuckets start factor n = Ok (multiples start factor (Z.to_nat n));
  Register_fresh : ∀ ms, Forall acceptable ms → NoDup (fqName <$> ms) →
    ∃ r, MustRegister NewRegistry ms = Ok r ∧ names_of r ≡ₚ fqName <$> ms;
  Register_twice : ∀ r m, fqName m ∈ names_of r → is_ok (MustRegister r [m]) = false
}.

Section metrics.
Context {P : Prometheus}.

Record Metrics := {
  Registry : PRegistry; PeersConnected : metric; RelayPeersAvailable : metric; ProbeRTT : metric; ProbeFailures : metric;
  PingRTT : metric; CacheHits : metric; CacheMisses : metric; CacheBytes : metric; BlockFetchDuration : metric;
  BlocksTransferred : metric; ContentRetrievals : metric; PathSelectionsTotal : metric; StalePaths : metric;
  BlocksReplicated : metric; ErasureEncodeSeconds : metric; ErasureDecodeSeconds : metric; FragmentsStored : metric
}.

Definition namespace : string := "pathaware_libp2p".
Definition gauge (name help : string) : metric :=
  {| mt_Kind := Gauge; mt_Namespace := namespace; mt_Name := name; mt_Help := help; mt_Labels := []; mt_Buckets := [] |}.
Definition counter (name help : string) (labels : list string) : metric :=
  {| mt_Kind := Counter; mt_Namespace := namespace; mt_Name := name; mt_Help := help; mt_Labels := labels; mt_Buckets := [] |}.
Definition histogram (name help : string) (labels : list string) (buckets : list float64) : metric :=
  {| mt_Kind := Histogram; mt_Namespace := namespace; mt_Name := name; mt_Help := help; mt_Labels := labels;
     mt_Buckets := buckets |}.

(** The fields, in the order of their registration. *)
Definition collectors (m : Metrics) : list metric :=
  [PeersConnected m; RelayPeersAvailable m; ProbeRTT m; ProbeFailures m; PingRTT m; CacheHits m; CacheMisses m;
   CacheBytes m; BlockFetchDuration m; BlocksTransferred m; ContentRetrievals m; PathSelectionsTotal m; StalePaths m;
   BlocksReplicated m; ErasureEncodeSeconds m; ErasureDecodeSeconds m; FragmentsStored m].

Definition New : outcome Metrics :=
  let reg := NewRegistry in
  probe ← ExponentialBuckets (lit 1 1000) (of_int 2) 15;
  ping ← ExponentialBuckets (lit 1 1000) (of_int 2) 15;
  fetch ← ExponentialBuckets (lit 1 1000) (of_int 2) 12;
  encode ← ExponentialBuckets (lit 1 10000) (of_int 2) 10;
  decode ← ExponentialBuckets (lit 1 10000) (of_int 2) 10;
  let m r := {|
    Registry := r;
    PeersConnected := gauge "peers_connected" "Number of currently connected peers.";
    RelayPeersAvailable := gauge "relay_peers_available" "Number of relay-capable peers.";
    ProbeRTT := histogram "probe_rtt_seconds" "Round-trip time for path probes." ["path_type"] probe;
    ProbeFailures := counter "probe_failures_total" "Total number of failed probes." [];
    PingRTT := histogram "ping_rtt_seconds" "Round-trip time for ping requests." ["target_peer"] ping;
    CacheHits := counter "cache_hits_total" "Total number of block cache hits." [];
    CacheMisses := counter "cache_misses_total" "Total number of block cache misses." [];
    CacheBytes := gauge "cache_bytes" "Current size of the block cache in bytes.";
    BlockFetchDuration :=
      histogram "block_fetch_duration_seconds" "Time to fetch a content block by source." ["source"] fetch;
    BlocksTransferred := counter "blocks_transferred_total" "Total blocks transferred by direction." ["direction"];
    ContentRetrievals := counter "content_retrievals_total" "Total content retrieval operations." [];
    PathSelectionsTotal := counter "path_selections_total" "Path selections by type." ["path_type"];
    StalePaths := counter "stale_paths_pruned_total" "Total paths pruned due to staleness." [];
    BlocksReplicated := counter "blocks_replicated_total" "Total blocks replicated to peers." [];
    ErasureEncodeSeconds :=
      histogram "erasure_encode_seconds" "Time to erasure-encode a block into fragments." [] encode;
    ErasureDecodeSeconds :=
      histogram "erasure_decode_seconds" "Time to reconstruct a block from erasure-coded fragments." [] decode;
    FragmentsStored := counter "fragments_stored_total" "Total erasure-coded fragments stored." []
  |} in
  r ← MustRegister reg (collectors (m reg));
  Ok (m r).

(** ** The server *)

Record metrics_server := { ms_Addr : string; ms_Pattern : string; ms_Shows : PRegistry; ms_ReadTimeout : Duration; ms_WriteTimeout : Duration }.

(** [None]: no server is started. *)
Definition StartMetricsServer (addr : string) (registry : PRegistry) : option metrics_server :=
  if decide (addr = "") then None
  else Some {| ms_Addr := addr; ms_Pattern := "/metrics"; ms_Shows := registry; ms_ReadTimeout := 5 * Second;
               ms_WriteTimeout := 10 * Second |}.

(** ** Registration does not panic *)

Context {PL : PrometheusLaws P}.

(** A node's metrics always register: the buckets are defined and increase,
    the seventeen names are valid and different and the labels valid, so the
    panics of the client library are never met; the registry then holds
    exactly these seventeen. *)
Lemma New_registers :
  ∃ m, New = Ok m ∧ length (collectors m) = 17%nat ∧ Forall acceptable (collectors m) ∧
    NoDup (fqName <$> collectors m) ∧ names_of (Registry m) ≡ₚ fqName <$> collectors m.
Proof.
  unfold New. rewrite !Buckets_Ok by done. rewrite !bind_Ok. cbv zeta.
  match goal with |- context [MustRegister _ ?ms] => assert (Forall acceptable ms ∧ NoDup (fqName <$> ms)) as [Hf Hd] end.
  { split; [|apply (bool_decide_unpack _); vm_compute; exact I].
    repeat constructor; try done; try (by intros ?%elem_of_nil); try (apply (bool_decide_unpack _); vm_compute; exact I). }
  destruct (Register_fresh _ Hf Hd) as (r & -> & Hr). rewrite bind_Ok. eexists. split_and!; [done|done|exact Hf|exact Hd|exact Hr].
Qed.

End metrics.

(** ** A registry of names *)

Section witnesses.

#[local] Instance name_registry : Prometheus := {|
  PRegistry := list string;
  NewRegistry := [];
  MustRegister := λ r ms, if decide (NoDup ((fqName <$> ms) ++ r)) then Ok ((fqName <$> ms) ++ r)
                          else Panic "duplicate metrics collector registration attempted";
  ExponentialBuckets := λ start factor n,
    if flt f0 start && flt f1 factor && (1 <=? n) then Ok (multiples start factor (Z.to_nat n))
    else Panic "ExponentialBuckets needs a positive count";
  names_of := λ r, r
|}.

#[local] Instance name_registry_laws : PrometheusLaws name_registry.
Proof.
  split.
  - intros start factor n Hs Hf Hn. cbn. by rewrite Hs, Hf, (proj2 (Z.leb_le 1 n) Hn).
  - intros ms _ Hd. exists ((fqName <$> ms) ++ []). cbn. rewrite decide_True by by rewrite app_nil_r.
    split; [done|]. by rewrite app_nil_r.
  - intros r m Hin. cbn. rewrite decide_False; [done|]. by intros [? _]%NoDup_cons.
Qed.

Example names_registered :
  ∃ m, New = Ok m ∧ length (collectors m) = 17%nat ∧ Forall acceptable (collectors m) ∧
    NoDup (fqName <$> collectors m) ∧ names_of (Registry m) ≡ₚ fqName <$> collectors m.
Proof. apply (New_registers (P := name_registry)). Qed.

End witnesses.
