(* ===== verification/Format.v ===== *)
(** * Numbers and columns as text ([strconv], [fmt])

    Decimal fractions as [strconv.FormatFloat] with the verb f prints them,
    floats as the JSON decoder reads them, and the padding of [fmt.Printf].
    A printed fraction is the exact value of the float, rounded once, half to
    even. *)

From Stdlib Require Import Init.Byte.
From S2P Require Import Prelude Float64 Utf8 Json.

(** ** Decimal digits *)

Definition digit_byte (n : Z) : byte := of_code (48 + n).

(** The digits of [n], with no leading zero; a digit for each binary digit is
    more than enough fuel. *)
Definition digits (n : Z) : bytes := decimal (S (Z.to_nat (Z.log2 n))) n.

(** The last [k] digits of [n]. *)
Fixpoint last_digits (k : nat) (n : Z) : bytes :=
  match k with O => [] | S k' => last_digits k' (n / 10) ++ [digit_byte (n mod 10)] end.

(** ** [strconv.FormatFloat(x, 'f', prec, 64)] *)

(** [num / den] to the nearest integer, half to even. *)
Definition round_even (num den : Z) : Z :=
  let q := num / den in
  let r := num mod den in
  if 2 * r <? den then q else if den <? 2 * r then q + 1 else if Z.even q then q else q + 1.

(** The magnitude of [x] is [numerator x / denominator x]. *)
Definition numerator (x : float64) : Z :=
  match x with S754_finite _ m e => if 0 <=? e then Z.pos m * 2 ^ e else Z.pos m | _ => 0 end.
Definition denominator (x : float64) : Z :=
  match x with S754_finite _ _ e => if 0 <=? e then 1 else 2 ^ (- e) | _ => 1 end.

Definition negative (x : float64) : bool :=
  match x with S754_finite s _ _ | S754_zero s | S754_infinity s => s | S754_nan => false end.

(** The magnitude in units of the last decimal. *)
Definition fixed_units (prec : nat) (x : float64) : Z :=
  round_even (numerator x * 10 ^ Z.of_nat prec) (denominator x).

Definition fraction_text (prec : nat) (units : Z) : bytes :=
  digits (units / 10 ^ Z.of_nat prec) ++ (if decide (prec = 0%nat) then [] else x2e :: last_digits prec units).

Definition FormatFixed (prec : nat) (x : float64) : string :=
  match x with
  | S754_nan => "NaN"
  | S754_infinity s => if s then "-Inf" else "+Inf"
  | _ => to_string ((if negative x then [x2d] else []) ++ fraction_text prec (fixed_units prec x))
  end.

(** ** [fmt.Printf] *)

(** The verbs of a width, with and without the minus flag: blanks up to the
    width, which counts runes. *)
Definition blanks (w : nat) (s : string) : string :=
  to_string (replicate (w - length (runes (to_bytes s))) x20).
Definition right_aligned (w : nat) (s : string) : string := blanks w s +:+ s.
Definition left_aligned (w : nat) (s : string) : string := s +:+ blanks w s.

(** The plus flag; infinities carry their sign anyway. *)
Definition with_plus (prec : nat) (x : float64) : string :=
  match x with
  | S754_nan => "+NaN"
  | S754_infinity _ => FormatFixed prec x
  | _ => if negative x then FormatFixed prec x else "+" +:+ FormatFixed prec x
  end.

(** ** Floats in JSON *)

(** [strconv.ParseFloat] of a JSON number: the nearest float; out of range is
    an error. *)
Definition split_exponent (s : bytes) : bytes * Z :=
  let fix go (s : bytes) : bytes * bytes :=
    match s with
    | [] => ([], [])
    | c :: s' => if decide (c = x65 ∨ c = x45) then ([], s') else let '(a, b) := go s' in (c :: a, b)
    end in
  let '(mant, e) := go s in
  (mant, match e with
         | x2d :: ds => - default 0 (digits_value ds)
         | x2b :: ds => default 0 (digits_value ds)
         | ds => default 0 (digits_value ds)
         end).

Definition ParseFloat (lit : bytes) : option float64 :=
  let '(neg, s) := match lit with x2d :: s => (true, s) | s => (false, s) end in
  let '(mant, e) := split_exponent s in
  let '(i, r) := span_digits mant in
  let f := match r with x2e :: ds => ds | _ => [] end in
  v ← digits_value (i ++ f);
  let e10 := e - zlen f in
  match v with
  | Z.pos m =>
      let ten k := match 10 ^ k with Z.pos p => p | _ => 1%positive end in
      let x := if 0 <=? e10
               then fdiv (S754_finite neg (m * ten e10) 0) (S754_finite false 1 0)
               else fdiv (S754_finite neg m 0) (S754_finite false (ten (- e10)) 0) in
      match x with S754_infinity _ => None | _ => Some x end
  | _ => Some (S754_zero neg)
  end.

Example fixed_numbers :
  FormatFixed 2 <$> [f0; of_int 12; lit 1 8; lit 5 1000; fneg (lit 2675 1000); lit 1 3; fnan; finf true; of_int (10 ^ 22)] =
  ["0.00"; "12.00"; "0.12"; "0.01"; "-2.67"; "0.33"; "NaN"; "-Inf"; "10000000000000000000000.00"].
Proof. vm_compute. reflexivity. Qed.
Example parsed_numbers :
  (ParseFloat ∘ to_bytes) <$> ["0"; "-1"; "0.5"; "12.5e1"; "1E-3"; "0.1"; "1e309"] =
  [Some f0; Some (of_int (-1)); Some (lit 1 2); Some (of_int 125); Some (lit 1 1000); Some (lit 1 10); None].
Proof. vm_compute. reflexivity. Qed.
Example aligned : (left_aligned 4 "ab", right_aligned 4 "±σ") = ("ab  ", "  ±σ").
Proof. reflexivity. Qed.

(** ** What is printed *)

Lemma digits_spec n :
  0 ≤ n →
  ∃ d ds, digits n = d :: ds ∧ forallb digit (d :: ds) = true ∧ (d = x30 → ds = []) ∧ digits_value (d :: ds) = Some n.
Proof.
  intros Hn. destruct (decimal_spec (S (Z.to_nat (Z.log2 n))) n) as (d & ds & Hd & H1 & H2 & H3 & H4); [lia| |].
  - split; [done|]. rewrite Nat2Z.inj_succ, Z2Nat.id by apply Z.log2_nonneg.
    destruct (decide (n = 0)) as [->|Hne]; [done|].
    apply Z.lt_le_trans with (2 ^ Z.succ (Z.log2 n)); [apply Z.log2_spec; lia|].
    apply Z.pow_le_mono_l. lia.
  - exists d, ds. split_and!; [done| |done|done]. cbn [forallb]. by rewrite H1, H2.
Qed.

Lemma last_digits_length k n : length (last_digits k n) = k.
Proof. revert n. induction k as [|k IH]; intros n; [done|]. cbn [last_digits]. rewrite length_app, IH. simpl. lia. Qed.

Lemma last_digits_digit k n : forallb digit (last_digits k n) = true.
Proof.
  revert n. induction k as [|k IH]; intros n; [done|]. cbn [last_digits]. rewrite forallb_app, IH. simpl.
  unfold digit_byte. rewrite digit_of; [done|]. apply Z.mod_pos_bound. lia.
Qed.

Lemma last_digits_value pre v k n :
  digits_value pre = Some v →
  digits_value (pre ++ last_digits k n) = Some (v * 10 ^ Z.of_nat k + n mod 10 ^ Z.of_nat k).
Proof.
  intros Hp. revert n. induction k as [|k IH]; intros n; cbn [last_digits].
  { rewrite app_nil_r, Hp. f_equal. change (10 ^ Z.of_nat 0) with 1. rewrite Z.mod_1_r. lia. }
  rewrite app_assoc. unfold digit_byte. rewrite digits_value_snoc by (apply Z.mod_pos_bound; lia). rewrite IH. simpl.
  f_equal. rewrite Nat2Z.inj_succ, Z.pow_succ_r by lia. rewrite Z.rem_mul_r by lia. lia.
Qed.

Lemma round_even_spec num den :
  0 < den →
  2 * Z.abs (round_even num den * den - num) ≤ den ∧
  (2 * Z.abs (round_even num den * den - num) = den → Z.even (round_even num den) = true).
Proof.
  intros Hd. unfold round_even. pose proof (Z_div_mod_eq_full num den) as Hq. pose proof (Z.mod_pos_bound num den Hd).
  set (q := num / den) in *. set (r := num mod den) in *.
  destruct (Z.ltb_spec (2 * r) den); [split; [lia|intros; lia]|].
  destruct (Z.ltb_spec den (2 * r)); [split; [lia|intros; lia]|].
  destruct (Z.even q) eqn:Eq; [split; [lia|done]|split; [lia|]]. intros _. rewrite Z.add_1_r, Z.even_succ.
  by rewrite <-Z.negb_even, Eq.
Qed.

Lemma denominator_pos x : 0 < denominator x.
Proof. destruct x as [| | |s m e]; simpl; try lia. destruct (Z.leb_spec 0 e); [lia|]. apply Z.pow_pos_nonneg; lia. Qed.

Lemma fixed_units_nonneg prec x : 0 ≤ fixed_units prec x.
Proof.
  unfold fixed_units, round_even. assert (0 ≤ numerator x * 10 ^ Z.of_nat prec / denominator x) as H; [|repeat case_if; lia].
  apply Z.div_pos; [|apply denominator_pos]. apply Z.mul_nonneg_nonneg; [|lia].
  destruct x as [| | |s m e]; simpl; try lia. case_if; lia.
Qed.

Definition is_number (x : float64) : bool := match x with S754_nan | S754_infinity _ => false | _ => true end.

(** A float is printed with the asked number of decimals, without leading
    zeros, and what is printed is within half a unit of the last decimal of
    its exact value, the even neighbour when it is half way. *)
Theorem FormatFixed_nearest (prec : nat) (x : float64) :
  is_number x = true →
  ∃ i f N, to_bytes (FormatFixed prec x) =
      (if negative x then [x2d] else []) ++ i ++ (if decide (prec = 0%nat) then [] else x2e :: f) ∧
    length f = prec ∧ forallb digit (i ++ f) = true ∧ (∀ t, i = x30 :: t → t = []) ∧ i ≠ [] ∧
    digits_value (i ++ f) = Some N ∧
    2 * Z.abs (N * denominator x - numerator x * 10 ^ Z.of_nat prec) ≤ denominator x ∧
    (2 * Z.abs (N * denominator x - numerator x * 10 ^ Z.of_nat prec) = denominator x → Z.even N = true).
Proof.
  intros Hx. set (N := fixed_units prec x). pose proof (fixed_units_nonneg prec x) as HN. fold N in HN.
  assert (0 < 10 ^ Z.of_nat prec) as Hp by lia.
  destruct (digits_spec (N / 10 ^ Z.of_nat prec)) as (d & ds & Hd & Hdig & Hlead & Hval); [by apply Z.div_pos; lia|].
  exists (d :: ds), (last_digits prec N), N. split_and!.
  - assert (FormatFixed prec x = to_string ((if negative x then [x2d] else []) ++ fraction_text prec N)) as ->
      by by destruct x.
    rewrite to_bytes_to_string. unfold fraction_text. by rewrite Hd.
  - apply last_digits_length.
  - by rewrite forallb_app, Hdig, last_digits_digit.
  - intros t [= -> <-]. by apply Hlead.
  - done.
  - rewrite (last_digits_value _ _ _ _ Hval). f_equal. pose proof (Z_div_mod_eq_full N (10 ^ Z.of_nat prec)). lia.
  - apply round_even_spec, denominator_pos.
  - apply round_even_spec, denominator_pos.
Qed.

Lemma FormatFixed_nearest_witness :
  ∃ i f N, to_bytes (FormatFixed 2 (lit 1 8)) =
      (if negative (lit 1 8) then [x2d] else []) ++ i ++ (if decide (2 = 0)%nat then [] else x2e :: f) ∧
    length f = 2%nat ∧ forallb digit (i ++ f) = true ∧ (∀ t, i = x30 :: t → t = []) ∧ i ≠ [] ∧
    digits_value (i ++ f) = Some N ∧
    2 * Z.abs (N * denominator (lit 1 8) - numerator (lit 1 8) * 10 ^ Z.of_nat 2) ≤ denominator (lit 1 8) ∧
    (2 * Z.abs (N * denominator (lit 1 8) - numerator (lit 1 8) * 10 ^ Z.of_nat 2) = denominator (lit 1 8) → Z.even N = true).
Proof. apply (FormatFixed_nearest 2 (lit 1 8)). vm_compute. reflexivity. Defined.
