(* ===== verification/Runtime.v ===== *)
(** * Nondeterminism of the Go runtime: map iteration, sorting, random draws

    [range] over a Go map visits the entries in an unspecified order, and
    [math/rand] supplies arbitrary draws.  Both are inputs of the model: an
    [order] permutes what a [range] sees, an [rng] is a sequence of draws
    consumed in program order by the [Rand] monad.  A [sorter] puts equal
    elements in any order. *)

From stdpp Require Import sorting.
From S2P Require Import Prelude Float64.

(** ** Map iteration *)

(** A runtime's choice of iteration order. *)
Record order := {
  iter : ∀ A : Type, list A → list A;
  iter_perm : ∀ A (l : list A), iter A l ≡ₚ l
}.
Arguments iter o {A} l : rename.

Definition id_order : order := {| iter := λ A l, l; iter_perm := λ A l, reflexivity l |}.
Definition rev_order : order.
Proof. refine {| iter := @rev |}. intros A l. by rewrite <-Permutation_rev. Defined.

(** The values and the keys a [range] loop over a map visits. *)
Definition range_values {A} (o : order) (m : gmap string A) : list A :=
  iter o (snd <$> map_to_list m).
Definition range_keys {A} (o : order) (m : gmap string A) : list string :=
  iter o (fst <$> map_to_list m).
Definition range_entries {A} (o : order) (m : gmap string A) : list (string * A) :=
  iter o (map_to_list m).

Section range.
Context {A : Type} (o : order) (m : gmap string A).

Lemma elem_of_iter {B} (l : list B) x : x ∈ iter o l ↔ x ∈ l.
Proof. by rewrite iter_perm. Qed.

Lemma elem_of_range_values x : x ∈ range_values o m ↔ ∃ k, m !! k = Some x.
Proof.
  unfold range_values. rewrite elem_of_iter, list_elem_of_fmap. split.
  - intros ([k y] & -> & H%elem_of_map_to_list). eauto.
  - intros [k H%elem_of_map_to_list]. by exists (k, x).
Qed.

Lemma elem_of_range_entries k x : (k, x) ∈ range_entries o m ↔ m !! k = Some x.
Proof. unfold range_entries. by rewrite elem_of_iter, elem_of_map_to_list. Qed.

Lemma elem_of_range_keys k : k ∈ range_keys o m ↔ is_Some (m !! k).
Proof.
  unfold range_keys. rewrite elem_of_iter, list_elem_of_fmap. split.
  - intros ([k' y] & -> & H%elem_of_map_to_list). eauto.
  - intros [x H%elem_of_map_to_list]. by exists (k, x).
Qed.

Lemma length_range_values : length (range_values o m) = size m.
Proof. unfold range_values. by rewrite iter_perm, length_fmap, length_map_to_list. Qed.

Lemma NoDup_range_keys : NoDup (range_keys o m).
Proof. unfold range_keys. rewrite iter_perm. apply NoDup_fst_map_to_list. Qed.
End range.

Lemma range_values_perm {A} o1 o2 (m : gmap string A) :
  range_values o1 m ≡ₚ range_values o2 m.
Proof. unfold range_values. by rewrite !iter_perm. Qed.

(** ** Random draws *)

(** The draws still to come: [rand.Float64], [rand.IntN n] and a Beta sample,
    indexed by the position in the program's sequence of draws. *)
Record rng := {
  draw_float : nat → float64;
  draw_int : nat → Z → Z;
  draw_beta : nat → float64 → float64 → float64;
  drawn : nat
}.

Definition advance (g : rng) : rng :=
  {| draw_float := draw_float g; draw_int := draw_int g; draw_beta := draw_beta g;
     drawn := S (drawn g) |}.

(** What [math/rand/v2] and [distuv.Beta] document about their results. *)
Record rng_ok (g : rng) : Prop := {
  rng_float_range : ∀ k, nonneg (draw_float g k) ∧ flt (draw_float g k) f1 = true;
  rng_int_range : ∀ k n, 0 < n → 0 ≤ draw_int g k n < n;
  rng_beta_range : ∀ k a b, fgt a f0 = true → fgt b f0 = true → nonneg (draw_beta g k a b)
}.

Lemma rng_ok_advance g : rng_ok g → rng_ok (advance g).
Proof. intros []. by split. Qed.

Definition Rand (A : Type) : Type := rng → A * rng.

#[export] Instance Rand_ret : MRet Rand := λ A a g, (a, g).
#[export] Instance Rand_bind : MBind Rand := λ A B k m g, let '(a, g') := m g in k a g'.

Definition rand_Float64 : Rand float64 := λ g, (draw_float g (drawn g), advance g).
Definition rand_IntN (n : Z) : Rand Z := λ g, (draw_int g (drawn g) n, advance g).
Definition rand_Beta (a b : float64) : Rand float64 := λ g, (draw_beta g (drawn g) a b, advance g).

Lemma Rand_bind_ret {A B} (a : A) (k : A → Rand B) g : (mret a ≫= k) g = k a g.
Proof. done. Qed.

(** A computation keeps the law of the generator. *)
Definition rand_safe {A} (m : Rand A) : Prop := ∀ g, rng_ok g → rng_ok (snd (m g)).

Lemma rand_safe_ret {A} (a : A) : rand_safe (mret a).
Proof. by intros g. Qed.
Lemma rand_safe_bind {A B} (m : Rand A) (k : A → Rand B) :
  rand_safe m → (∀ a, rand_safe (k a)) → rand_safe (m ≫= k).
Proof.
  intros Hm Hk g Hg. unfold mbind, Rand_bind. specialize (Hm g Hg).
  destruct (m g) as [a g']. by apply Hk.
Qed.
Lemma rand_safe_Float64 : rand_safe rand_Float64.
Proof. intros g. apply rng_ok_advance. Qed.
Lemma rand_safe_IntN n : rand_safe (rand_IntN n).
Proof. intros g. apply rng_ok_advance. Qed.
Lemma rand_safe_Beta a b : rand_safe (rand_Beta a b).
Proof. intros g. apply rng_ok_advance. Qed.

#[export] Hint Resolve rand_safe_ret rand_safe_bind rand_safe_Float64 rand_safe_IntN
  rand_safe_Beta : pathaware.

(** ** Sorting *)

(** The conditions of [sort.Slice] on [less], for the elements of [l]. *)
Definition strict_weak_on {A} (l : list A) (less : A → A → bool) : Prop :=
  (∀ x y, x ∈ l → y ∈ l → less x y = true → less y x = false) ∧
  (∀ x y z, x ∈ l → y ∈ l → z ∈ l → less y x = false → less z y = false → less z x = false).

(** [sort.Slice] and [sort.Float64s]: some permutation, in order when [less]
    is a strict weak order; the order of equal elements is not specified. *)
Record sorter := {
  sort_slice : ∀ A : Type, (A → A → bool) → list A → list A;
  sort_slice_perm : ∀ A less (l : list A), sort_slice A less l ≡ₚ l;
  sort_slice_sorted : ∀ A less (l : list A),
    strict_weak_on l less → StronglySorted (λ x y, less y x = false) (sort_slice A less l)
}.
Arguments sort_slice s {A} less l : rename.

(** Two sorters: insertion before and after the equal elements. *)
Fixpoint insert_sorted {A} (before : A → A → bool) (x : A) (l : list A) : list A :=
  match l with
  | [] => [x]
  | y :: l' => if before x y then x :: l else y :: insert_sorted before x l'
  end.

Section insertion.
Context {A : Type} (less before : A → A → bool).

Lemma insert_sorted_perm x l : insert_sorted before x l ≡ₚ x :: l.
Proof.
  induction l as [|y l IH]; [done|]. cbn. destruct (before x y); [done|].
  rewrite IH. apply Permutation_swap.
Qed.

Lemma foldr_insert_perm l : foldr (insert_sorted before) [] l ≡ₚ l.
Proof. induction l as [|x l IH]; [done|]. cbn. by rewrite insert_sorted_perm, IH. Qed.

Lemma insert_sorted_sorted x l :
  (∀ y, y ∈ l → before x y = true → less y x = false) →
  (∀ y, y ∈ l → before x y = false → less x y = false) →
  strict_weak_on (x :: l) less →
  StronglySorted (λ a b, less b a = false) l →
  StronglySorted (λ a b, less b a = false) (insert_sorted before x l).
Proof.
  intros Hb Hnb [Ha Ht] Hs. induction Hs as [|y l Hl IH Hy]; [repeat constructor|].
  cbn. destruct (before x y) eqn:E.
  - constructor; [by constructor|]. constructor; [apply Hb; [left|done]|].
    rewrite Forall_forall in Hy |- *. intros z Hz. eapply (Ht x y z); [set_solver..| |by apply Hy].
    apply Hb; [left|done].
  - constructor.
    + apply IH; [intros z Hz; apply Hb; by right|intros z Hz; apply Hnb; by right| |].
      * intros a b Ha' Hb'. apply Ha; set_solver.
      * intros a b c Ha' Hb' Hc'. apply Ht; set_solver.
    + rewrite insert_sorted_perm. constructor; [|done]. apply Hnb; [left|done].
Qed.

Lemma foldr_insert_sorted l :
  (∀ x y, x ∈ l → y ∈ l → before x y = true → less y x = false) →
  (∀ x y, x ∈ l → y ∈ l → before x y = false → less x y = false) →
  strict_weak_on l less →
  StronglySorted (λ a b, less b a = false) (foldr (insert_sorted before) [] l).
Proof.
  induction l as [|x l IH]; intros Hb Hn [Ha Ht]; [constructor|]. cbn.
  apply insert_sorted_sorted.
  - intros y. rewrite foldr_insert_perm. intros Hy. apply Hb; [left|by right].
  - intros y. rewrite foldr_insert_perm. intros Hy. apply Hn; [left|by right].
  - split; intros *; rewrite !foldr_insert_perm; eauto.
  - apply IH; [intros *; intros; apply Hb; [by right..|done]|intros *; intros; apply Hn; [by right..|done]|].
    split; [intros a b H1 H2|intros a b c H1 H2 H3]; [apply Ha|apply Ht]; by right.
Qed.
End insertion.

Definition stable_sorter : sorter.
Proof.
  refine {| sort_slice := λ A less l, foldr (insert_sorted (λ x y, negb (less y x))) [] l |}.
  - intros A less l. apply foldr_insert_perm.
  - intros A less l Hw. apply foldr_insert_sorted; [by intros x y _ _ ?%negb_true_iff| |done].
    intros x y Hx Hy H%negb_false_iff. by apply Hw.
Defined.

Definition reversing_sorter : sorter.
Proof.
  refine {| sort_slice := λ A less l, foldr (insert_sorted less) [] l |}.
  - intros A less l. apply foldr_insert_perm.
  - intros A less l Hw. apply foldr_insert_sorted; [by apply Hw|done|done].
Defined.
