(* ===== verification/Path.v ===== *)
(** * Paths, path metrics and path sets ([internal/pathpolicy/path.go])

    [RecordProbe] is the whole update of a path's metrics by one probe
    result; [PathSet] is the keyed collection of the paths to one target.
    Times are nanoseconds since the epoch, [None] is Go's zero [time.Time]. *)

From S2P Require Import Prelude Float64 Runtime.

Abbreviation peer_ID := string (only parsing).
Abbreviation Time := Z (only parsing).

(** ** Data *)

Inductive PathType := PathDirect | PathRelay.
#[export] Instance PathType_eq_dec : EqDecision PathType.
Proof. solve_decision. Defined.

Definition PathType_string (t : PathType) : string :=
  match t with PathDirect => "direct" | PathRelay => "relay" end.

Record PathMetrics := {
  AvgRTT : Duration;
  P95RTT : Duration;
  Jitter : Duration;
  ThroughputEstimate : float64;
  HopCount : Z;
  SuccessRate : float64;
  LastProbed : option Time;
  SampleCount : Z;
  rttSamples : list Duration
}.

(** The zero value of the struct. *)
Definition zero_metrics : PathMetrics :=
  {| AvgRTT := 0; P95RTT := 0; Jitter := 0; ThroughputEstimate := f0; HopCount := 0;
     SuccessRate := f0; LastProbed := None; SampleCount := 0; rttSamples := [] |}.

Record Path := {
  path_ID : string;
  path_Target : peer_ID;
  path_Type : PathType;
  path_RelayChain : list peer_ID;
  path_Metrics : PathMetrics
}.

Definition set_Metrics (p : Path) (m : PathMetrics) : Path :=
  {| path_ID := path_ID p; path_Target := path_Target p; path_Type := path_Type p;
     path_RelayChain := path_RelayChain p; path_Metrics := m |}.

Definition maxRTTSamples : Z := 20.

(** ** [RecordProbe] *)

(** [append] to the ring buffer, dropping the oldest sample beyond
    [maxRTTSamples]. *)
Definition push_sample (samples : list Duration) (rtt : Duration) : list Duration :=
  let s := samples ++ [rtt] in
  if maxRTTSamples <? zlen s then drop 1 s else s.

(** [total / len], with [int64] accumulation. *)
Definition sum_wrap (samples : list Duration) : Z :=
  fold_left (λ total s, wrap64 (total + s)) samples 0.
Definition avg_of (samples : list Duration) : Duration :=
  Z.quot (sum_wrap samples) (zlen samples).

(** The running maximum, starting from the first sample. *)
Definition max_of (samples : list Duration) : Duration :=
  match samples with
  | [] => 0
  | s0 :: _ => fold_left (λ acc s, if acc <? s then s else acc) samples s0
  end.

(** The standard deviation around the integer average. *)
Definition jitter_of (avg : Duration) (samples : list Duration) : Duration :=
  let avgNs := of_int avg in
  let sumSqDiff := fold_left (λ acc s,
    let diff := fsub (of_int s) avgNs in fadd acc (fmul diff diff)) samples f0 in
  to_int64 (fsqrt (fdiv sumSqDiff (of_int (zlen samples)))).

(** [float64(53) / rtt.Seconds() * 2] *)
Definition throughput_of (rtt : Duration) : float64 :=
  fmul (fdiv (of_int 53) (Seconds rtt)) (of_int 2).

Definition alpha_ewma : float64 := lit 3 10.
Definition one_minus_alpha : float64 := lit 7 10.

Definition RecordProbe (m : PathMetrics) (now : Time) (rtt : Duration) (success : bool)
  : PathMetrics :=
  let sampleCount := wrap64 (SampleCount m + 1) in
  let m1 :=
    if success then
      let samples := push_sample (rttSamples m) rtt in
      let avg := avg_of samples in
      {| AvgRTT := avg;
         P95RTT := max_of samples;
         Jitter := if 1 <? zlen samples then jitter_of avg samples else Jitter m;
         ThroughputEstimate :=
           if 0 <? rtt then throughput_of rtt else ThroughputEstimate m;
         HopCount := HopCount m;
         SuccessRate := SuccessRate m;
         LastProbed := Some now;
         SampleCount := sampleCount;
         rttSamples := samples |}
    else
      {| AvgRTT := AvgRTT m; P95RTT := P95RTT m; Jitter := Jitter m;
         ThroughputEstimate := ThroughputEstimate m; HopCount := HopCount m;
         SuccessRate := SuccessRate m; LastProbed := Some now;
         SampleCount := sampleCount; rttSamples := rttSamples m |} in
  let observed := if success then f1 else f0 in
  let rate :=
    if SampleCount m1 =? 1 then observed
    else fadd (fmul alpha_ewma observed) (fmul one_minus_alpha (SuccessRate m1)) in
  {| AvgRTT := AvgRTT m1; P95RTT := P95RTT m1; Jitter := Jitter m1;
     ThroughputEstimate := ThroughputEstimate m1; HopCount := HopCount m1;
     SuccessRate := rate; LastProbed := LastProbed m1;
     SampleCount := SampleCount m1; rttSamples := rttSamples m1 |}.

(** ** [PathSet]: paths keyed by ID, each operation atomic under its lock *)

Abbreviation PathSet := (gmap string Path).
Definition NewPathSet : PathSet := ∅.
Definition Add (ps : PathSet) (p : Path) : PathSet := <[path_ID p := p]> ps.
Definition Remove (ps : PathSet) (id : string) : PathSet := delete id ps.
Definition Get (ps : PathSet) (id : string) : option Path := ps !! id.
Definition All (o : order) (ps : PathSet) : list Path := range_values o ps.
Definition Len (ps : PathSet) : Z := Z.of_nat (size ps).

(** The selection loop shared by [Best] and every [SelectPath]: keep the
    first path whose score strictly exceeds the best so far. *)
Fixpoint select_best (score : Path → Rand float64) (l : list Path)
    (best : option Path) (bestScore : float64) : Rand (option Path) :=
  match l with
  | [] => mret best
  | p :: l' =>
      s ← score p;
      if fgt s bestScore then select_best score l' (Some p) s
      else select_best score l' best bestScore
  end.

(** [-1.0], the initial best score. *)
Definition minus1 : float64 := fneg f1.

Definition Best (o : order) (ps : PathSet) (score : Path → Rand float64)
  : Rand (option Path) :=
  select_best score (All o ps) None minus1.

(** ** The metrics as a function of the probe history *)

(** A probe event: its time, its round-trip time, and whether it succeeded. *)
Record probe_event := { ev_now : Time; ev_rtt : Duration; ev_success : bool }.

Definition apply_event (m : PathMetrics) (e : probe_event) : PathMetrics :=
  RecordProbe m (ev_now e) (ev_rtt e) (ev_success e).

(** The metrics of a fresh path after a sequence of probes, oldest first. *)
Definition run_probes (h : list probe_event) : PathMetrics :=
  fold_left apply_event h zero_metrics.

(** The round-trip times of the successful probes of a history. *)
Definition successes (h : list probe_event) : list Duration :=
  ev_rtt <$> List.filter ev_success h.

(** The last [n] elements of a list. *)
Definition last_n {A} (n : nat) (l : list A) : list A := drop (length l - n) l.

Lemma run_probes_snoc h e : run_probes (h ++ [e]) = apply_event (run_probes h) e.
Proof. unfold run_probes. by rewrite fold_left_app. Qed.

Lemma successes_snoc h e :
  successes (h ++ [e]) = successes h ++ (if ev_success e then [ev_rtt e] else []).
Proof.
  unfold successes. rewrite List.filter_app, fmap_app. simpl. by destruct (ev_success e).
Qed.

Lemma push_sample_last_n l x :
  push_sample (last_n 20 l) x = last_n 20 (l ++ [x]).
Proof.
  unfold push_sample, last_n, maxRTTSamples. rewrite !length_app, length_drop. simpl length.
  destruct (Z.ltb_spec 20 (Z.of_nat (length l - (length l - 20) + 1))).
  - rewrite drop_app_le, drop_drop by (rewrite ?length_drop; lia).
    rewrite drop_app_le by lia. do 2 f_equal. lia.
  - rewrite (drop_app_le _ _ (length l + 1 - 20)) by lia. do 2 f_equal. lia.
Qed.

Lemma last_n_ne_nil {A} n (l : list A) : (0 < n)%nat → l ≠ [] → last_n n l ≠ [].
Proof.
  unfold last_n. intros Hn Hl Hd. apply (f_equal length) in Hd.
  rewrite length_drop in Hd. destruct l; [done|]. simpl in *. lia.
Qed.

(** *** Invariants of a metrics record *)

Lemma fold_max_spec l a :
  let r := fold_left (λ acc s, if acc <? s then s else acc) l a in
  a ≤ r ∧ Forall (λ s, s ≤ r) l ∧ (r = a ∨ r ∈ l).
Proof.
  revert a. induction l as [|x l IH]; intros a; simpl.
  - split_and!; [lia|constructor|by left].
  - specialize (IH (if a <? x then x else a)). simpl in IH.
    destruct IH as (H1 & H2 & H3). destruct (Z.ltb_spec a x).
    + split_and!; [lia|by constructor; [lia|]|]. right. set_solver.
    + split_and!; [lia|by constructor; [lia|]|]. set_solver.
Qed.

(** [P95RTT] is the maximum of the window. *)
Lemma max_of_spec l : l ≠ [] → max_of l ∈ l ∧ Forall (λ s, s ≤ max_of l) l.
Proof.
  destruct l as [|x l]; [done|]. intros _. unfold max_of.
  destruct (fold_max_spec (x :: l) x) as (_ & H2 & H3). split; [|done]. set_solver.
Qed.

Lemma sum_wrap_zsum l : sum_wrap l = wrap64 (zsum id l).
Proof.
  assert (∀ acc, fold_left (λ total s, wrap64 (total + s)) l (wrap64 acc) = wrap64 (acc + zsum id l)) as H; [|apply (H 0)].
  induction l as [|x l IH]; intros acc; [by rewrite zsum_nil, Z.add_0_r|].
  cbn [fold_left]. rewrite wrap64_idem_add_l, IH, zsum_cons. f_equal. unfold id. lia.
Qed.

(** Round-trip times small enough for twenty of them to be summed. *)
Definition rtt_small (r : Duration) : Prop := 0 ≤ r < 2 ^ 58.

Lemma sum_wrap_exact l :
  Forall rtt_small l → (length l ≤ 20)%nat → sum_wrap l = zsum id l.
Proof.
  intros Hl Hlen. unfold sum_wrap.
  assert (∀ acc, 0 ≤ acc → acc + zlen l * 2 ^ 58 < 2 ^ 63 →
    fold_left (λ total s, wrap64 (total + s)) l acc = acc + zsum id l) as H.
  { clear Hlen. induction Hl as [|x l Hx Hl IH]; intros acc Hacc Hb; simpl; [pw; lia|].
    unfold rtt_small in Hx. simpl in Hb.
    rewrite wrap64_small by (unfold int64_ok; lia).
    rewrite IH by lia. rewrite zsum_cons. unfold id. lia. }
  rewrite H by lia. lia.
Qed.

Lemma zsum_bounds (l : list Z) lo hi :
  Forall (λ s, lo ≤ s ≤ hi) l → zlen l * lo ≤ zsum id l ≤ zlen l * hi.
Proof.
  induction 1 as [|x l Hx _ IH]; [simpl; pw; lia|].
  rewrite zsum_cons. simpl length. rewrite Nat2Z.inj_succ, !Z.mul_succ_l.
  change (id x) with x. lia.
Qed.

Lemma avg_of_bounds l lo hi :
  l ≠ [] → Forall rtt_small l → (length l ≤ 20)%nat →
  Forall (λ s, lo ≤ s ≤ hi) l → 0 ≤ lo → lo ≤ avg_of l ≤ hi.
Proof.
  intros Hne Hs Hlen Hb Hlo. unfold avg_of. rewrite sum_wrap_exact by done.
  pose proof (zsum_bounds l lo hi Hb) as [H1 H2].
  assert (0 < zlen l) by (destruct l; [done|simpl; lia]).
  assert (0 ≤ zsum id l) by nia.
  rewrite Z.quot_div_nonneg by lia. split.
  - apply Z.div_le_lower_bound; lia.
  - apply Z.div_le_upper_bound; lia.
Qed.

(** *** The success rate stays in the unit interval *)

(** A valid binary64 number between 0 and 1. *)
Definition unit_float (x : float64) : Prop :=
  nonneg_valid x ∧ is_finite x = true ∧ fle x f1 = true.

Definition unit_check (x : float64) : bool :=
  match x with
  | S754_finite false m e => (fexp64 (Z.pos (digits2_pos m) + e) =? e) && (e <=? 971) && fle x f1
  | S754_zero _ => fle x f1
  | _ => false
  end.

Lemma unit_check_sound x : unit_check x = true → unit_float x.
Proof.
  destruct x as [s| | |[] m e]; try done; cbn -[fle]; intros H; zbool; by split_and!.
Qed.

Lemma unit_float_f0 : unit_float f0.
Proof. split_and!; [done..|vm_compute; reflexivity]. Qed.
Lemma unit_float_f1 : unit_float f1.
Proof.
  split; [|split; vm_compute; reflexivity].
  change f1 with (S754_finite false 4503599627370496 (-52)).
  split; [done|]. split; [vm_compute; reflexivity|zcompute].
Qed.
Lemma unit_float_one_minus_alpha : unit_float one_minus_alpha.
Proof.
  split; [|split; vm_compute; reflexivity].
  change one_minus_alpha with (S754_finite false 6305039478318694 (-53)).
  split; [done|]. split; [vm_compute; reflexivity|zcompute].
Qed.

(** The fresh observation, weighted, leaves room for the aged rate. *)
Lemma weighted_observation (success : bool) :
  let obs := fmul alpha_ewma (if success then f1 else f0) in
  nonneg_valid obs ∧ is_finite obs = true ∧ fval obs + fval one_minus_alpha ≤ fval f1.
Proof.
  destruct success; cbv zeta.
  - change (fmul alpha_ewma f1) with (S754_finite false 5404319552844595 (-54)).
    split; [split; [done|split; [vm_compute; reflexivity|zcompute]]|].
    split; [done|zcompute].
  - change (fmul alpha_ewma f0) with f0. split; [done|split; [done|zcompute]].
Qed.

Lemma fle_f1_finite x : nonneg_valid x → fle x f1 = true → is_finite x = true.
Proof.
  destruct x as [|s| |]; try done. simpl. intros -> [_ [_ H]]%fle_spec.
  exfalso. apply H. left. simpl. lia.
Qed.

(** One EWMA step, for either outcome of the probe. *)
Lemma ewma_unit rate (success : bool) :
  unit_float rate →
  unit_float (fadd (fmul alpha_ewma (if success then f1 else f0))
                   (fmul one_minus_alpha rate)).
Proof.
  intros (Hv & Hf & Hle).
  destruct unit_float_one_minus_alpha as (H7v & H7f & H7).
  destruct (weighted_observation success) as (Hov & Hof & Hosum).
  destruct unit_float_f1 as (H1v & H1f & _).
  set (obs := fmul alpha_ewma _) in *.
  destruct (fmul_spec one_minus_alpha rate) as [Hmv Hmle]; [done..|].
  assert (fle (fmul one_minus_alpha rate) one_minus_alpha = true) as Hm7.
  { apply Hmle; [done..|].
    apply (fle_fval rate f1) in Hle; [|done..].
    rewrite <-fval_f1. apply Z.mul_le_mono_nonneg_l; [by apply fval_nonneg|done]. }
  assert (fle (fmul one_minus_alpha rate) f1 = true) as Hm1 by (by eapply fle_trans).
  assert (is_finite (fmul one_minus_alpha rate) = true) as Hmf by (by apply fle_f1_finite).
  apply fle_fval in Hm7; [|done..].
  destruct (fadd_spec obs (fmul one_minus_alpha rate)) as [Hav Hale]; [done..|].
  assert (fle (fadd obs (fmul one_minus_alpha rate)) f1 = true) as Ha1.
  { apply Hale; [done..|lia]. }
  split_and!; [done|by apply fle_f1_finite|done].
Qed.

Lemma RecordProbe_unit m now rtt success :
  unit_float (SuccessRate m) → unit_float (SuccessRate (RecordProbe m now rtt success)).
Proof.
  intros Hm. unfold RecordProbe.
  assert (unit_float (if success then f1 else f0))
    by (destruct success; auto using unit_float_f0, unit_float_f1).
  destruct success; simpl; case_if; try assumption.
  - by apply (ewma_unit _ true).
  - by apply (ewma_unit _ false).
Qed.

(** *** What the metrics record of a history is *)

Lemma RecordProbe_frame m now rtt success :
  let m' := RecordProbe m now rtt success in
  SampleCount m' = wrap64 (SampleCount m + 1) ∧ LastProbed m' = Some now ∧
  HopCount m' = HopCount m ∧
  rttSamples m' = (if success then push_sample (rttSamples m) rtt else rttSamples m) ∧
  AvgRTT m' = (if success then avg_of (rttSamples m') else AvgRTT m) ∧
  P95RTT m' = (if success then max_of (rttSamples m') else P95RTT m).
Proof. unfold RecordProbe. by destruct success. Qed.

Lemma run_probes_window h : rttSamples (run_probes h) = last_n 20 (successes h).
Proof.
  induction h as [|e h IH] using rev_ind; [done|].
  rewrite run_probes_snoc, successes_snoc. unfold apply_event.
  destruct (RecordProbe_frame (run_probes h) (ev_now e) (ev_rtt e) (ev_success e))
    as (_ & _ & _ & -> & _).
  rewrite IH. destruct (ev_success e); [apply push_sample_last_n|by rewrite app_nil_r].
Qed.

Lemma run_probes_summary h :
  AvgRTT (run_probes h) = avg_of (rttSamples (run_probes h)) ∧
  P95RTT (run_probes h) = max_of (rttSamples (run_probes h)).
Proof.
  induction h as [|e h IH] using rev_ind; [done|].
  rewrite run_probes_snoc. unfold apply_event.
  destruct (RecordProbe_frame (run_probes h) (ev_now e) (ev_rtt e) (ev_success e))
    as (_ & _ & _ & Hs & Ha & Hp).
  rewrite Ha, Hp. destruct (ev_success e); [done|]. by rewrite Hs.
Qed.

Lemma run_probes_samples_small h :
  Forall rtt_small (successes h) →
  Forall rtt_small (rttSamples (run_probes h)) ∧ (length (rttSamples (run_probes h)) ≤ 20)%nat.
Proof.
  intros Hs. rewrite run_probes_window. split; [by apply Forall_drop|].
  unfold last_n. rewrite length_drop. lia.
Qed.

(** C16: the metrics of a path are a function of its probe history: the
    ring buffer holds exactly the round-trip times of the last twenty
    successful probes, in order; [AvgRTT] is their sum, wrapped to 64 bits,
    divided by their number, towards zero; [P95RTT] is the largest of them;
    both are 0 before the first success; [SampleCount] counts every probe and
    [LastProbed] is the time of the latest one, successful or not. *)
Theorem RecordProbe_refines_history (h : list probe_event) :
  let m := run_probes h in
  let window := last_n 20 (successes h) in
  rttSamples m = window ∧
  SampleCount m = wrap64 (zlen h) ∧
  LastProbed m = ev_now <$> last h ∧
  (window = [] → AvgRTT m = 0 ∧ P95RTT m = 0) ∧
  (window ≠ [] → AvgRTT m = Z.quot (wrap64 (zsum id window)) (zlen window) ∧
                 P95RTT m ∈ window ∧ ∀ rtt, rtt ∈ window → rtt ≤ P95RTT m).
Proof.
  cbv zeta. destruct (run_probes_summary h) as [Ha Hp].
  rewrite Ha, Hp, run_probes_window. split_and!; [done| | | |].
  - induction h as [|e h IH] using rev_ind; [done|].
    rewrite run_probes_snoc. unfold apply_event.
    destruct (RecordProbe_frame (run_probes h) (ev_now e) (ev_rtt e) (ev_success e)) as (-> & _).
    destruct (run_probes_summary h) as [??].
    rewrite IH by done. rewrite wrap64_idem_add_l, length_app. simpl length. f_equal. lia.
  - destruct h as [|e h _] using rev_ind; [done|].
    rewrite run_probes_snoc, last_snoc. unfold apply_event.
    by destruct (RecordProbe_frame (run_probes h) (ev_now e) (ev_rtt e) (ev_success e)) as (_ & -> & _).
  - by intros Hw; rewrite Hw.
  - intros Hne. destruct (max_of_spec _ Hne) as [Hin Hmax]. unfold avg_of. rewrite sum_wrap_zsum.
    split_and!; [done|done|by apply Forall_forall].
Qed.

(** The success rate, an exponentially weighted average computed in
    binary64 with rounding at every step, is a valid float between 0 and 1
    after any sequence of probes. *)
Theorem SuccessRate_in_unit_interval (h : list probe_event) :
  unit_float (SuccessRate (run_probes h)).
Proof.
  induction h as [|e h IH] using rev_ind; [apply unit_float_f0|].
  rewrite run_probes_snoc. by apply RecordProbe_unit.
Qed.

(** As long as the round-trip times fit the accumulator, the average
    lies between any lower bound of the window and its maximum, and the
    reported [P95RTT] is the maximum of the window, so it is never below the
    average. *)
Theorem AvgRTT_within_window (h : list probe_event) (lo : Duration) :
  Forall rtt_small (successes h) → successes h ≠ [] →
  0 ≤ lo → Forall (λ r, lo ≤ r) (last_n 20 (successes h)) →
  let m := run_probes h in
  lo ≤ AvgRTT m ≤ P95RTT m ∧ P95RTT m ∈ last_n 20 (successes h).
Proof.
  intros Hs Hne Hlo Hmin. cbv zeta.
  destruct (run_probes_summary h) as [-> ->].
  destruct (run_probes_samples_small h Hs) as [Hsmall Hlen].
  rewrite run_probes_window in *.
  assert (last_n 20 (successes h) ≠ []) as Hn by (apply last_n_ne_nil; [lia|done]).
  destruct (max_of_spec _ Hn) as [Hin Hmax]. split; [|done].
  apply avg_of_bounds; [done..| |done].
  rewrite Forall_forall in *. intros x Hx. split; auto.
Qed.

Example AvgRTT_within_window_witness :
  let h := [ {| ev_now := 1; ev_rtt := 10; ev_success := true |};
             {| ev_now := 2; ev_rtt := 99; ev_success := false |};
             {| ev_now := 3; ev_rtt := 31; ev_success := true |} ] in
  let m := run_probes h in
  10 ≤ AvgRTT m ≤ P95RTT m ∧ P95RTT m ∈ last_n 20 (successes h).
Proof.
  apply (AvgRTT_within_window _ 10).
  - repeat constructor; unfold rtt_small; simpl; lia.
  - done.
  - lia.
  - repeat constructor; simpl; lia.
Defined.

(** ** Path sets and the selection loop *)

Lemma Get_Add ps p id :
  Get (Add ps p) id = if decide (path_ID p = id) then Some p else Get ps id.
Proof. unfold Get, Add. by rewrite lookup_insert. Qed.

Lemma Get_Remove ps id id' :
  Get (Remove ps id) id' = if decide (id = id') then None else Get ps id'.
Proof. unfold Get, Remove. by rewrite lookup_delete. Qed.

(** A scorer that draws nothing. *)
Definition pure_score (score : Path → Rand float64) (f : Path → float64) : Prop :=
  ∀ p g, score p g = (f p, g).

(** The pure reading of [select_best]. *)
Fixpoint pick (f : Path → float64) (l : list Path) (best : option Path) (s : float64)
  : option Path :=
  match l with
  | [] => best
  | p :: l' => if fgt (f p) s then pick f l' (Some p) (f p) else pick f l' best s
  end.

Lemma select_best_pure score f l best s g :
  pure_score score f → select_best score l best s g = (pick f l best s, g).
Proof.
  intros Hp. revert best s. induction l as [|p l IH]; intros best s; [done|].
  simpl. unfold mbind, Rand_bind. rewrite Hp. case_if; apply IH.
Qed.

(** Everything the loop guarantees, with no hypothesis on the scores: the
    winner beats the initial score, and nothing beats the winner. *)
Lemma pick_spec f l best s :
  match pick f l best s with
  | Some p => (best = Some p ∧ Forall (λ q, fgt (f q) s = false) l) ∨
              (p ∈ l ∧ fgt (f p) s = true ∧ Forall (λ q, fgt (f q) (f p) = false) l)
  | None => best = None ∧ Forall (λ q, fgt (f q) s = false) l
  end.
Proof.
  revert best s. induction l as [|p l IH]; intros best s; simpl.
  { destruct best; [left|]; by split. }
  destruct (fgt (f p) s) eqn:E.
  - specialize (IH (Some p) (f p)). destruct (pick f l (Some p) (f p)) as [q|].
    + right. destruct IH as [[[= ->] Hl]|(Hin & Hgt & Hl)].
      * split_and!; [left|done|]. constructor; [apply fgt_irrefl|done].
      * split_and!; [by right|by eapply fgt_trans|]. constructor; [|done].
        by apply fgt_asym.
    + by destruct IH.
  - specialize (IH best s). destruct (pick f l best s) as [q|].
    + destruct IH as [[-> Hl]|(Hin & Hgt & Hl)]; [left|right].
      * split; [done|by constructor].
      * split_and!; [by right|done|]. constructor; [|done].
        apply not_true_iff_false. intros Hc. apply not_true_iff_false in E.
        apply E. by eapply fgt_trans.
    + destruct IH as [-> Hl]. split; [done|by constructor].
Qed.

Lemma nonneg_gt_minus1 x : nonneg x → fgt x minus1 = true.
Proof. intros. eapply fle_fgt_trans; [done|]. vm_compute. reflexivity. Qed.

(** With non-negative scores the loop returns a maximal element. *)
Lemma pick_nonneg f l :
  Forall (λ p, nonneg (f p)) l → l ≠ [] →
  ∃ p, pick f l None minus1 = Some p ∧ p ∈ l ∧ Forall (λ q, fle (f q) (f p) = true) l.
Proof.
  intros Hnn Hne. pose proof (pick_spec f l None minus1) as H.
  destruct (pick f l None minus1) as [p|].
  - destruct H as [[? _]|(Hin & Hgt & Hl)]; [done|]. exists p. split_and!; [done..|].
    rewrite Forall_forall in *. intros q Hq.
    apply not_fgt_fle; [apply nonneg_not_nan..|]; auto.
  - destruct H as [_ Hl]. destruct l as [|q l]; [done|].
    apply Forall_cons in Hl as [Hq _], Hnn as [Hn _].
    apply nonneg_gt_minus1 in Hn. congruence.
Qed.

(** For a scorer that draws nothing and never scores below zero,
    [PathSet.Best] on a non-empty set returns a path of the set whose score
    no other path of the set exceeds, whatever order the runtime iterates the
    map in; on the empty set it returns nil. *)
Theorem Best_is_maximal (o : order) (ps : PathSet) score (f : Path → float64) (g : rng) :
  pure_score score f → (∀ id p, Get ps id = Some p → nonneg (f p)) →
  (ps = ∅ ∧ Best o ps score g = (None, g)) ∨
  ∃ id p, Best o ps score g = (Some p, g) ∧ Get ps id = Some p ∧
    ∀ id' q, Get ps id' = Some q → fle (f q) (f p) = true.
Proof.
  intros Hp Hnn. unfold Best. rewrite (select_best_pure _ f) by done.
  destruct (decide (ps = ∅)) as [->|Hne].
  { left. split; [done|]. unfold All, range_values. rewrite map_to_list_empty. simpl.
    destruct (iter o []) as [|p l] eqn:E; [done|].
    pose proof (iter_perm o _ ([] : list Path)) as Hperm. rewrite E in Hperm.
    by apply Permutation_nil_r in Hperm. }
  right. destruct (pick_nonneg f (All o ps)) as (p & Hpick & Hin & Hmax).
  - apply Forall_forall. intros p [k Hk]%elem_of_range_values. eauto.
  - intros Hnil. apply Hne. apply map_size_empty_inv.
    pose proof (length_range_values o ps) as Hl. unfold All in Hnil. by rewrite Hnil in Hl.
  - apply elem_of_range_values in Hin as [id Hid]. exists id, p. rewrite Hpick.
    split_and!; [done..|]. intros id' q Hq. rewrite Forall_forall in Hmax.
    apply Hmax, elem_of_range_values. eauto.
Qed.

Example Best_is_maximal_witness :
  let m (r : float64) := {| AvgRTT := 5; P95RTT := 5; Jitter := 0; ThroughputEstimate := f0;
     HopCount := 1; SuccessRate := r; LastProbed := Some 1; SampleCount := 1;
     rttSamples := [5] |} in
  let p i r := {| path_ID := i; path_Target := "t"; path_Type := PathDirect;
                  path_RelayChain := []; path_Metrics := m r |} in
  let ps := Add (Add NewPathSet (p "a" f0)) (p "b" f1) in
  let g := {| draw_float := λ _, f0; draw_int := λ _ _, 0; draw_beta := λ _ _ _, f0;
              drawn := O |} in
  let f := λ q, SuccessRate (path_Metrics q) in
  let score : Path → Rand float64 := λ q, mret (f q) in
  (ps = ∅ ∧ Best rev_order ps score g = (None, g)) ∨
  ∃ id p, Best rev_order ps score g = (Some p, g) ∧ Get ps id = Some p ∧
    ∀ id' q, Get ps id' = Some q → fle (f q) (f p) = true.
Proof.
  apply Best_is_maximal; [done|].
  intros id q. rewrite !Get_Add. unfold Get, NewPathSet. rewrite lookup_empty.
  repeat case_decide; intros [= <-]; vm_compute; reflexivity.
Defined.
