(* ===== verification/Policy.v ===== *)
(** * Path selection policies ([internal/pathpolicy/policy.go])

    Ten policies share the [Policy] interface ([Score], [Name]); five of them
    also implement [SelectPath].  Randomised policies draw from the [Rand]
    monad, stateful ones return their new state.  The transcendental
    functions of package math, whose results are not specified to the last
    bit, are the operations of [MathLib]; the linear algebra of gonum, a
    third-party package, is [LinAlg]. *)

From Stdlib Require Import Ascii.
From S2P Require Import Prelude Float64 Runtime Path.

(** ** The environment *)

(** [math.Log], [math.Log1p] and [math.Pow]. *)
Class MathLib := {
  Log : float64 → float64;
  Log1p : float64 → float64;
  Pow : float64 → float64 → float64
}.

(** What the program relies on: the signs and ranges these functions have. *)
Class MathLaws (M : MathLib) : Prop := {
  Log_nonneg : ∀ x, fle f1 x = true → nonneg (Log x);
  Log1p_nonneg : ∀ x, nonneg x → nonneg (Log1p x);
  Pow_unit : ∀ x y, unit_float x → nonneg y → unit_float (Pow x y)
}.

(** gonum's dense matrices and vectors, with the operations LinUCB calls.
    [mat_Inverse] is [None] when gonum reports a singular or ill-conditioned
    matrix. *)
Class LinAlg := {
  Dense : Type;
  VecDense : Type;
  mat_NewDense : Z → Z → Dense;
  mat_Set : Dense → Z → Z → float64 → Dense;
  mat_NewVecDense : Z → list float64 → VecDense;
  mat_Inverse : Dense → option Dense;
  mat_MulVec : Dense → VecDense → VecDense;
  mat_Dot : VecDense → VecDense → float64;
  mat_Outer : float64 → VecDense → VecDense → Dense;
  mat_Add : Dense → Dense → Dense;
  mat_ScaleVec : float64 → VecDense → VecDense;
  mat_AddVec : VecDense → VecDense → VecDense
}.

Section policy.
Context `{ML : MathLib, LA : LinAlg}.

(** ** Policy states *)

Record UCB1State := {
  totalSelections : Z;                 (* uint64 *)
  pathSelections : gmap string Z       (* uint64 values *)
}.

Record ThompsonState := {
  ts_alpha : gmap string float64;
  ts_beta : gmap string float64
}.

Record ContextualState := {
  pathA : gmap string Dense;
  pathB : gmap string VecDense
}.

Inductive Policy :=
  | LatencyPolicy
  | HopCountPolicy
  | ReliabilityPolicy
  | BalancedPolicy (LatencyWeight ReliabilityWeight HopCountWeight JitterWeight : float64)
  | EpsilonGreedyPolicy (Epsilon : float64) (Delegate : Policy)
  | DecayingEpsilonGreedyPolicy (EpsilonStart EpsilonMin DecayRate : float64)
      (Delegate : Policy) (selections : Z)
  | UCB1Policy (C : float64) (Delegate : Policy) (st : UCB1State)
  | RandomPolicy
  | ThompsonSamplingPolicy (Delegate : Policy) (st : ThompsonState)
  | ContextualBanditPolicy (Delegate : Policy) (Alpha : float64) (st : ContextualState).

Definition Name (pol : Policy) : string :=
  match pol with
  | LatencyPolicy => "latency"
  | HopCountPolicy => "hop-count"
  | ReliabilityPolicy => "reliability"
  | BalancedPolicy _ _ _ _ => "balanced"
  | EpsilonGreedyPolicy _ _ => "epsilon-greedy"
  | DecayingEpsilonGreedyPolicy _ _ _ _ _ => "decaying-epsilon"
  | UCB1Policy _ _ _ => "ucb1"
  | RandomPolicy => "random"
  | ThompsonSamplingPolicy _ _ => "thompson"
  | ContextualBanditPolicy _ _ _ => "contextual"
  end.

(** ** Scores *)

Definition Latency_Score (p : Path) : float64 :=
  let m := path_Metrics p in
  if (AvgRTT m <=? 0) || (SampleCount m =? 0) then f0
  else fdiv f1 (Seconds (AvgRTT m)).

Definition HopCount_Score (p : Path) : float64 :=
  let m := path_Metrics p in
  if SampleCount m =? 0 then f0
  else fdiv f1 (of_int (wrap64 (HopCount m + 1))).

Definition Reliability_Score (p : Path) : float64 :=
  let m := path_Metrics p in
  if SampleCount m =? 0 then f0 else SuccessRate m.

(** [1.0 / (1.0 + math.Log1p(d.Seconds()*1000))] *)
Definition inverse_log (d : Duration) : float64 :=
  fdiv f1 (fadd f1 (Log1p (fmul (Seconds d) (of_int 1000)))).

Definition Balanced_Score (wl wr wh wj : float64) (p : Path) : float64 :=
  let m := path_Metrics p in
  if SampleCount m =? 0 then f0
  else
    let latencyScore := if 0 <? AvgRTT m then inverse_log (AvgRTT m) else f0 in
    let hopScore := fdiv f1 (of_int (wrap64 (HopCount m + 1))) in
    let reliabilityScore := SuccessRate m in
    let jitterScore := if 0 <? Jitter m then inverse_log (Jitter m) else f1 in
    fadd (fadd (fadd (fmul wl latencyScore) (fmul wr reliabilityScore))
               (fmul wh hopScore))
         (fmul wj jitterScore).

Definition Random_Score (p : Path) : Rand float64 :=
  if SampleCount (path_Metrics p) =? 0 then mret f0 else rand_Float64.

Fixpoint Score (pol : Policy) (p : Path) : Rand float64 :=
  match pol with
  | LatencyPolicy => mret (Latency_Score p)
  | HopCountPolicy => mret (HopCount_Score p)
  | ReliabilityPolicy => mret (Reliability_Score p)
  | BalancedPolicy wl wr wh wj => mret (Balanced_Score wl wr wh wj p)
  | EpsilonGreedyPolicy _ d => Score d p
  | DecayingEpsilonGreedyPolicy _ _ _ d _ => Score d p
  | UCB1Policy _ d _ => Score d p
  | RandomPolicy => Random_Score p
  | ThompsonSamplingPolicy d _ => Score d p
  | ContextualBanditPolicy d _ _ => Score d p
  end.

(** ** Defaults *)

Definition DefaultBalancedPolicy : Policy :=
  BalancedPolicy (lit 35 100) (lit 25 100) (lit 25 100) (lit 15 100).

Definition DefaultDecayingEpsilonGreedyPolicy : Policy :=
  DecayingEpsilonGreedyPolicy (lit 3 10) (lit 5 100) (lit 995 1000) DefaultBalancedPolicy 0.

Definition DefaultUCB1Policy : Policy :=
  UCB1Policy (fsqrt (of_int 2)) DefaultBalancedPolicy
    {| totalSelections := 0; pathSelections := ∅ |}.

Definition DefaultThompsonSamplingPolicy : Policy :=
  ThompsonSamplingPolicy DefaultBalancedPolicy {| ts_alpha := ∅; ts_beta := ∅ |}.

Definition DefaultContextualBanditPolicy : Policy :=
  ContextualBanditPolicy DefaultBalancedPolicy f1 {| pathA := ∅; pathB := ∅ |}.

Definition DefaultEpsilonGreedyPolicy : Policy :=
  EpsilonGreedyPolicy (lit 1 10) DefaultBalancedPolicy.

(** [StalePathTimeout] *)
Definition StalePathTimeout : Duration := 30 * Minute.

(** ** Policies by name *)

(** [strings.ToLower], as far as the comparison with ASCII names sees it:
    ASCII capitals are lowered, and so are the two other runes whose lower
    case is an ASCII letter, U+0130 and U+212A (encoded C4 B0 and E2 84 AA). *)
Definition lower_ascii (c : Ascii.ascii) : Ascii.ascii :=
  let n := Ascii.nat_of_ascii c in
  if ((65 <=? n) && (n <=? 90))%nat then Ascii.ascii_of_nat (n + 32) else c.

Fixpoint ToLower (s : string) : string :=
  match s with
  | EmptyString => EmptyString
  | String "196"%char (String "176"%char s') => String "i"%char (ToLower s')
  | String "226"%char (String "132"%char (String "170"%char s')) => String "k"%char (ToLower s')
  | String c s' => String (lower_ascii c) (ToLower s')
  end.

(** The message quotes the name ([%q]; names of printable ASCII characters
    without quotes and backslashes are quoted as they are). *)
Definition unknown_policy (name : string) : error :=
  Errorf ("unknown policy: " +:+ String "034" name +:+ String "034"
    " (valid: latency, hop-count, reliability, balanced, epsilon-greedy, decaying-epsilon, ucb1, random, thompson, contextual)").

Definition PolicyFromNameWithEpsilon (name : string) (epsilon : float64) : outcome Policy :=
  let n := ToLower name in
  if decide (n = "latency") then Ok LatencyPolicy
  else if decide (n = "hop-count") then Ok HopCountPolicy
  else if decide (n = "reliability") then Ok ReliabilityPolicy
  else if decide (n = "balanced") then Ok DefaultBalancedPolicy
  else if decide (n = "epsilon-greedy") then Ok (EpsilonGreedyPolicy epsilon DefaultBalancedPolicy)
  else if decide (n = "decaying-epsilon") then Ok DefaultDecayingEpsilonGreedyPolicy
  else if decide (n = "ucb1") then Ok DefaultUCB1Policy
  else if decide (n = "random") then Ok RandomPolicy
  else if decide (n = "thompson") then Ok DefaultThompsonSamplingPolicy
  else if decide (n = "contextual") then Ok DefaultContextualBanditPolicy
  else Err (unknown_policy name).

Definition PolicyFromName (name : string) : outcome Policy :=
  PolicyFromNameWithEpsilon name (lit 1 10).

(** ** Selection *)

(** Paths with at least one probe sample. *)
Definition is_viable (p : Path) : bool := 0 <? SampleCount (path_Metrics p).
Definition viable_paths (paths : list Path) : list Path := List.filter is_viable paths.

(** The exploration step: with more than one viable path and a draw below
    [epsilon], a uniformly drawn viable path; otherwise the best-scored one. *)
Definition explore_or_exploit (epsilon : float64) (delegate : Policy) (viable : list Path)
  : Rand (option Path) :=
  if 1 <? zlen viable then
    d ← rand_Float64;
    if flt d epsilon then
      i ← rand_IntN (zlen viable);
      mret (viable !! Z.to_nat i)
    else select_best (Score delegate) viable None minus1
  else select_best (Score delegate) viable None minus1.

Definition EpsilonGreedy_SelectPath (epsilon : float64) (delegate : Policy)
    (paths : list Path) : Rand (option Path) :=
  match paths with
  | [] => mret None
  | p0 :: _ =>
      match viable_paths paths with
      | [] => mret (Some p0)
      | viable => explore_or_exploit epsilon delegate viable
      end
  end.

Definition CurrentEpsilon (start min rate : float64) (selections : Z) : float64 :=
  let eps := fmul start (Pow rate (of_int selections)) in
  if flt eps min then min else eps.

(** Returns the selected path and the new value of [selections]. *)
Definition Decaying_SelectPath (start min rate : float64) (delegate : Policy)
    (selections : Z) (paths : list Path) : Rand (option Path * Z) :=
  match paths with
  | [] => mret (None, selections)
  | p0 :: _ =>
      let selections := uwrap 64 (selections + 1) in
      let epsilon := CurrentEpsilon start min rate selections in
      match viable_paths paths with
      | [] => mret (Some p0, selections)
      | viable =>
          best ← explore_or_exploit epsilon delegate viable;
          mret (best, selections)
      end
  end.

(** Go map reads yield the zero value for a missing key. *)
Definition map_get {A} (d : A) (m : gmap string A) (k : string) : A := default d (m !! k).

Definition UCB1_score (C : float64) (delegate : Policy) (st : UCB1State) (p : Path)
  : Rand float64 :=
  let ni := of_int (map_get 0 (pathSelections st) (path_ID p)) in
  let logN := Log (of_int (totalSelections st)) in
  delegateScore ← Score delegate p;
  mret (fadd delegateScore (fmul C (fsqrt (fdiv logN ni)))).

Definition UCB1_SelectPath (C : float64) (delegate : Policy) (st : UCB1State)
    (paths : list Path) : Rand (option Path * UCB1State) :=
  match paths with
  | [] => mret (None, st)
  | p0 :: _ =>
      match viable_paths paths with
      | [] => mret (Some p0, st)
      | viable =>
          let st1 := {| totalSelections := uwrap 64 (totalSelections st + 1);
                        pathSelections := pathSelections st |} in
          match List.find (λ p, map_get 0 (pathSelections st1) (path_ID p) =? 0) viable with
          | Some p =>
              mret (Some p, {| totalSelections := totalSelections st1;
                               pathSelections := <[path_ID p := 1]> (pathSelections st1) |})
          | None =>
              best ← select_best (UCB1_score C delegate st1) viable None minus1;
              match best with
              | None => mret (None, st1)
              | Some b =>
                  let n := map_get 0 (pathSelections st1) (path_ID b) in
                  mret (Some b, {| totalSelections := totalSelections st1;
                         pathSelections :=
                           <[path_ID b := uwrap 64 (n + 1)]> (pathSelections st1) |})
              end
          end
      end
  end.

(** [sumScore += Score(p)] over a slice. *)
Fixpoint sum_scores (delegate : Policy) (l : list Path) (acc : float64) : Rand float64 :=
  match l with
  | [] => mret acc
  | p :: l' => s ← Score delegate p; sum_scores delegate l' (fadd acc s)
  end.

Definition init_prior (st : ThompsonState) (p : Path) : ThompsonState :=
  match ts_alpha st !! path_ID p with
  | Some _ => st
  | None => {| ts_alpha := <[path_ID p := f1]> (ts_alpha st);
               ts_beta := <[path_ID p := f1]> (ts_beta st) |}
  end.

Definition Thompson_update (st : ThompsonState) (id : string) (reward : bool) : ThompsonState :=
  let a := map_get f0 (ts_alpha st) id in
  let b := map_get f0 (ts_beta st) id in
  let st1 := if reward
             then {| ts_alpha := <[id := fadd a f1]> (ts_alpha st); ts_beta := ts_beta st |}
             else {| ts_alpha := ts_alpha st; ts_beta := <[id := fadd b f1]> (ts_beta st) |} in
  let a1 := map_get f0 (ts_alpha st1) id in
  let b1 := map_get f0 (ts_beta st1) id in
  if fgt (fadd a1 b1) (of_int 100)
  then {| ts_alpha := <[id := fmul a1 (lit 95 100)]> (ts_alpha st1);
          ts_beta := <[id := fmul b1 (lit 95 100)]> (ts_beta st1) |}
  else st1.

Definition Thompson_SelectPath (delegate : Policy) (st : ThompsonState) (paths : list Path)
  : Rand (option Path * ThompsonState) :=
  match paths with
  | [] => mret (None, st)
  | p0 :: _ =>
      match viable_paths paths with
      | [] => mret (Some p0, st)
      | viable =>
          let st1 := fold_left init_prior viable st in
          best ← select_best (λ p, rand_Beta (map_get f0 (ts_alpha st1) (path_ID p))
                                             (map_get f0 (ts_beta st1) (path_ID p)))
                             viable None minus1;
          match best with
          | None => mret (None, st1)
          | Some b =>
              sumScore ← sum_scores delegate viable f0;
              let meanScore := fdiv sumScore (of_int (zlen viable)) in
              sb ← Score delegate b;
              mret (Some b, Thompson_update st1 (path_ID b) (fge sb meanScore))
          end
      end
  end.

(** ** LinUCB *)

Definition contextDim : Z := 5.

Record PathContext := {
  PeerCount : Z;
  ContentSizeKB : Z;
  HourOfDay : Z;
  AvgNetworkRTT : float64
}.

Definition featureVector (c : PathContext) : VecDense :=
  mat_NewVecDense contextDim
    [ fdiv (of_int (PeerCount c)) (of_int 100);
      fdiv (of_int (ContentSizeKB c)) (of_int 1024);
      fdiv (of_int (HourOfDay c)) (of_int 24);
      fdiv (AvgNetworkRTT c) (of_int 1000);
      f1 ].

(** [NewDense(d, d, nil)] followed by ones on the diagonal. *)
Definition identity_matrix : Dense :=
  fold_left (λ M i, mat_Set M i i f1) (seqZ 0 contextDim) (mat_NewDense contextDim contextDim).

Definition initPath (st : ContextualState) (id : string) : ContextualState :=
  match pathA st !! id with
  | Some _ => st
  | None => {| pathA := <[id := identity_matrix]> (pathA st);
               pathB := <[id := mat_NewVecDense contextDim []]> (pathB st) |}
  end.

(** The upper confidence bound of one path. *)
Definition linUCB (Alpha : float64) (A : Dense) (b x : VecDense) : float64 :=
  let aInv := default identity_matrix (mat_Inverse A) in
  let theta := mat_MulVec aInv b in
  let predicted := mat_Dot theta x in
  let tmp := mat_MulVec aInv x in
  let uncertainty := fsqrt (fabs (mat_Dot x tmp)) in
  fadd predicted (fmul Alpha uncertainty).

Definition path_ucb (Alpha : float64) (st : ContextualState) (x : VecDense) (id : string)
  : float64 :=
  linUCB Alpha (map_get identity_matrix (pathA st) id)
               (map_get (mat_NewVecDense contextDim []) (pathB st) id) x.

Fixpoint contextual_loop (Alpha : float64) (x : VecDense) (l : list Path)
    (st : ContextualState) (best : option Path) (bestUCB : float64)
  : option Path * ContextualState :=
  match l with
  | [] => (best, st)
  | p :: l' =>
      let st := initPath st (path_ID p) in
      let ucb := path_ucb Alpha st x (path_ID p) in
      if fgt ucb bestUCB then contextual_loop Alpha x l' st (Some p) ucb
      else contextual_loop Alpha x l' st best bestUCB
  end.

Definition SelectPathWithContext (Alpha : float64) (st : ContextualState)
    (paths : list Path) (pctx : PathContext) : option Path * ContextualState :=
  match paths with
  | [] => (None, st)
  | p0 :: _ =>
      match viable_paths paths with
      | [] => (Some p0, st)
      | viable => contextual_loop Alpha (featureVector pctx) viable st None (finf true)
      end
  end.

Definition UpdateContext (st : ContextualState) (pathID : string) (pctx : PathContext)
    (reward : float64) : ContextualState :=
  let st := initPath st pathID in
  let x := featureVector pctx in
  let A := map_get identity_matrix (pathA st) pathID in
  let b := map_get (mat_NewVecDense contextDim []) (pathB st) pathID in
  {| pathA := <[pathID := mat_Add A (mat_Outer f1 x x)]> (pathA st);
     pathB := <[pathID := mat_AddVec b (mat_ScaleVec reward x)]> (pathB st) |}.

(** The context [SelectPath] builds from the paths and the hour of the day. *)
Definition default_context (paths : list Path) (hour : Z) : PathContext :=
  let probed := List.filter (λ p, 0 <? AvgRTT (path_Metrics p)) paths in
  let totalRTT := fold_left (λ acc p,
    fadd acc (of_int (Milliseconds (AvgRTT (path_Metrics p))))) probed f0 in
  {| PeerCount := zlen paths; ContentSizeKB := 0; HourOfDay := hour;
     AvgNetworkRTT := if 0 <? zlen probed then fdiv totalRTT (of_int (zlen probed)) else f0 |}.

Definition Contextual_SelectPath (delegate : Policy) (Alpha : float64) (st : ContextualState)
    (hour : Z) (paths : list Path) : Rand (option Path * ContextualState) :=
  let pctx := default_context paths hour in
  let '(best, st) := SelectPathWithContext Alpha st paths pctx in
  match best with
  | None => mret (None, st)
  | Some b =>
      sumScore ← sum_scores delegate (viable_paths paths) f0;
      let meanScore := fdiv sumScore (of_int (Z.max (zlen paths) 1)) in
      sb ← Score delegate b;
      let reward := if fge sb meanScore then f1 else f0 in
      mret (Some b, UpdateContext st (path_ID b) pctx reward)
  end.

(** ** Scores of the policies one can ask for by name *)

(** A policy whose score is a function of the path: no [RandomPolicy], and
    positive weights. *)
Fixpoint scores_paths (pol : Policy) : Prop :=
  match pol with
  | LatencyPolicy | HopCountPolicy | ReliabilityPolicy => True
  | BalancedPolicy wl wr wh wj => pos_const wl ∧ pos_const wr ∧ pos_const wh ∧ pos_const wj
  | RandomPolicy => False
  | EpsilonGreedyPolicy _ d | DecayingEpsilonGreedyPolicy _ _ _ d _ | UCB1Policy _ d _
  | ThompsonSamplingPolicy d _ | ContextualBanditPolicy d _ _ => scores_paths d
  end.

Fixpoint score_fn (pol : Policy) (p : Path) : float64 :=
  match pol with
  | LatencyPolicy => Latency_Score p
  | HopCountPolicy => HopCount_Score p
  | ReliabilityPolicy => Reliability_Score p
  | BalancedPolicy wl wr wh wj => Balanced_Score wl wr wh wj p
  | RandomPolicy => f0
  | EpsilonGreedyPolicy _ d | DecayingEpsilonGreedyPolicy _ _ _ d _ | UCB1Policy _ d _
  | ThompsonSamplingPolicy d _ | ContextualBanditPolicy d _ _ => score_fn d p
  end.

(** Metrics as probing leaves them: a success rate that is not negative and
    a hop count that came from a byte. *)
Definition path_ok (p : Path) : Prop :=
  nonneg (SuccessRate (path_Metrics p)) ∧ 0 ≤ HopCount (path_Metrics p) < 2 ^ 62.

Lemma Score_score_fn pol : scores_paths pol → pure_score (Score pol) (score_fn pol).
Proof. induction pol; simpl; intros H; try done; by apply IHpol. Qed.

Lemma default_balanced_scores : scores_paths DefaultBalancedPolicy.
Proof. repeat split; vm_compute; reflexivity. Qed.

Section laws.
Context {MLaws : MathLaws ML}.

Lemma inverse_log_nonneg d : 0 ≤ d → nonneg (inverse_log d).
Proof.
  intros Hd. unfold inverse_log. apply posz_nonneg, fdiv_pos_posz; [vm_compute; reflexivity|].
  apply fadd_posz; [vm_compute; reflexivity|]. apply Log1p_nonneg.
  apply posz_nonneg, fmul_posz_pos; [by apply Seconds_posz|vm_compute; reflexivity].
Qed.

Lemma hop_score_nonneg h : 0 ≤ h < 2 ^ 62 → nonneg (fdiv f1 (of_int (wrap64 (h + 1)))).
Proof.
  intros Hh. rewrite wrap64_small by (unfold int64_ok; lia).
  apply posz_nonneg, fdiv_pos_posz; [vm_compute; reflexivity|]. apply of_int_posz. lia.
Qed.

Lemma score_fn_nonneg pol p : scores_paths pol → path_ok p → nonneg (score_fn pol p).
Proof.
  intros Hpol [Hs Hh].
  induction pol; simpl in Hpol |- *; try done; auto.
  - unfold Latency_Score. case_if; [done|]. zbool.
    apply posz_nonneg, fdiv_pos_posz; [vm_compute; reflexivity|]. apply Seconds_posz. lia.
  - unfold HopCount_Score. case_if; [done|]. by apply hop_score_nonneg.
  - unfold Reliability_Score. by case_if.
  - destruct Hpol as (? & ? & ? & ?). unfold Balanced_Score. case_if; [done|].
    repeat apply fadd_nonneg; apply fmul_pos_nonneg; try done.
    + case_if; [|done]. zbool. apply inverse_log_nonneg. lia.
    + by apply hop_score_nonneg.
    + case_if; [|vm_compute; reflexivity]. zbool. apply inverse_log_nonneg. lia.
Qed.

(** ** Exploration and exploitation *)

Lemma elem_of_viable paths p : p ∈ viable_paths paths → p ∈ paths.
Proof. by intros [? _]%elem_of_filter_bool. Qed.

Lemma viable_scores_nonneg pol paths :
  scores_paths pol → Forall path_ok paths →
  Forall (λ p, nonneg (score_fn pol p)) (viable_paths paths).
Proof.
  rewrite !Forall_forall. intros Hs Hok p Hp%elem_of_viable.
  apply score_fn_nonneg; auto.
Qed.

(** The loop that keeps the best score finds a maximum of the viable paths. *)
Lemma exploit_spec pol viable g :
  scores_paths pol → Forall (λ p, nonneg (score_fn pol p)) viable → viable ≠ [] →
  ∃ p, select_best (Score pol) viable None minus1 g = (Some p, g) ∧ p ∈ viable ∧
    ∀ q, q ∈ viable → fle (score_fn pol q) (score_fn pol p) = true.
Proof.
  intros Hs Hnn Hne. rewrite (select_best_pure _ (score_fn pol)) by by apply Score_score_fn.
  destruct (pick_nonneg _ _ Hnn Hne) as (p & -> & Hin & Hmax).
  exists p. split_and!; [done..|]. by rewrite Forall_forall in Hmax.
Qed.

(** What an epsilon-greedy selection promises: one of the viable paths, and
    a best-scored one when the draw does not explore. *)
Definition greedy_choice (epsilon : float64) (pol : Policy) (viable : list Path) (g : rng)
    (r : option Path) : Prop :=
  ∃ p, r = Some p ∧ p ∈ viable ∧
    (length viable = 1%nat ∨ flt (draw_float g (drawn g)) epsilon = false →
     ∀ q, q ∈ viable → fle (score_fn pol q) (score_fn pol p) = true).

Lemma explore_or_exploit_spec epsilon pol viable g :
  scores_paths pol → rng_ok g → Forall (λ p, nonneg (score_fn pol p)) viable →
  viable ≠ [] →
  greedy_choice epsilon pol viable g (fst (explore_or_exploit epsilon pol viable g)).
Proof.
  intros Hs Hg Hnn Hne. unfold explore_or_exploit.
  destruct (1 <? zlen viable) eqn:Hlen.
  - unfold mbind, Rand_bind, rand_Float64 at 1.
    destruct (flt (draw_float g (drawn g)) epsilon) eqn:E.
    + simpl. unfold greedy_choice. rewrite E. zbool.
      destruct (rng_int_range _ Hg (S (drawn g)) (zlen viable)); [lia|].
      destruct (lookup_lt_is_Some_2 viable (Z.to_nat (draw_int g (S (drawn g)) (zlen viable))))
        as [p Hp]; [lia|].
      exists p. split_and!; [done|by eapply list_elem_of_lookup_2|].
      intros [?|?]; [lia|done].
    + destruct (exploit_spec pol viable (advance g)) as (p & -> & ? & ?); [done..|].
      exists p. naive_solver.
  - destruct (exploit_spec pol viable g) as (p & -> & ? & ?); [done..|].
    exists p. naive_solver.
Qed.

(** With a scoring delegate and well-formed metrics, the epsilon-greedy
    policy returns nil exactly on the empty slice, the first path when none
    was ever probed, and otherwise a probed path; the returned path has the
    highest score among the probed ones whenever only one is probed or the
    random draw is not below epsilon. *)
Theorem EpsilonGreedy_SelectPath_spec (epsilon : float64) (pol : Policy) (paths : list Path)
    (g : rng) :
  scores_paths pol → Forall path_ok paths → rng_ok g →
  let r := fst (EpsilonGreedy_SelectPath epsilon pol paths g) in
  (r = None ↔ paths = []) ∧
  (viable_paths paths = [] → r = head paths) ∧
  (viable_paths paths ≠ [] → greedy_choice epsilon pol (viable_paths paths) g r).
Proof.
  intros Hs Hok Hg. cbv zeta. unfold EpsilonGreedy_SelectPath.
  destruct paths as [|p0 paths]; [done|].
  pose proof (viable_scores_nonneg _ _ Hs Hok) as Hnn.
  destruct (viable_paths (p0 :: paths)) as [|v vs] eqn:Ev; [done|].
  pose proof (explore_or_exploit_spec epsilon pol (v :: vs) g Hs Hg Hnn ltac:(done)) as H.
  destruct H as (p & Hr & Hrest). rewrite Hr.
  split_and!; [split; discriminate|discriminate|].
  intros _. by exists p.
Qed.

(** ** The decaying exploration rate *)

Lemma fmul_unit x y : unit_float x → unit_float y →
  unit_float (fmul x y) ∧ fle (fmul x y) x = true.
Proof.
  intros (Hxv & Hxf & Hx1) (Hyv & Hyf & Hy1). destruct unit_float_f1 as (H1v & H1f & _).
  destruct (fmul_spec x y) as [Hv Hle]; [done..|].
  assert (fle (fmul x y) x = true) as Hmx.
  { apply Hle; [done..|]. apply (fle_fval y f1) in Hy1; [|done..].
    rewrite <-fval_f1. apply Z.mul_le_mono_nonneg_l; [by apply fval_nonneg|done]. }
  assert (fle (fmul x y) f1 = true) by (by eapply fle_trans).
  split; [|done]. split_and!; [done|by apply fle_f1_finite|done].
Qed.

Lemma CurrentEpsilon_bounds start min rate n :
  unit_float start → unit_float min → unit_float rate → fle min start = true → 0 ≤ n →
  let e := CurrentEpsilon start min rate n in
  fle min e = true ∧ fle e start = true.
Proof.
  intros Hs Hm Hr Hle Hn. unfold CurrentEpsilon. cbv zeta.
  assert (unit_float (Pow rate (of_int n))) as Hp.
  { apply Pow_unit; [done|]. by apply posz_nonneg, of_int_posz. }
  destruct (fmul_unit start _ Hs Hp) as [(Hv & Hf & _) Hub]. destruct Hm as (Hmv & _ & _).
  destruct (flt _ min) eqn:E.
  - split; [|done]. by apply fle_refl, nonneg_valid_not_nan.
  - split; [|done]. apply not_fgt_fle; [by apply nonneg_valid_not_nan..|done].
Qed.

(** Every call of the decaying policy on a non-empty slice counts one
    selection and explores with a rate that lies between [EpsilonMin] and
    [EpsilonStart]; its choice is a probed path, a best-scored one when the
    draw is not below that rate. *)
Theorem Decaying_SelectPath_spec (start min rate : float64) (pol : Policy) (n : Z)
    (paths : list Path) (g : rng) :
  unit_float start → unit_float min → unit_float rate → fle min start = true →
  0 ≤ n < 2 ^ 64 - 1 →
  scores_paths pol → Forall path_ok paths → rng_ok g → paths ≠ [] →
  let '(r, n') := fst (Decaying_SelectPath start min rate pol n paths g) in
  let e := CurrentEpsilon start min rate n' in
  n' = n + 1 ∧ fle min e = true ∧ fle e start = true ∧
  (viable_paths paths = [] → r = head paths) ∧
  (viable_paths paths ≠ [] → greedy_choice e pol (viable_paths paths) g r).
Proof.
  intros Hst Hmin Hrate Hle Hn Hs Hok Hg Hne. unfold Decaying_SelectPath.
  destruct paths as [|p0 paths]; [done|]. rewrite uwrap_small by lia. cbv zeta.
  pose proof (viable_scores_nonneg _ _ Hs Hok) as Hnn.
  destruct (CurrentEpsilon_bounds start min rate (n + 1)) as [? ?]; [done..|lia|].
  destruct (viable_paths (p0 :: paths)) as [|v vs] eqn:Ev; [done|].
  pose proof (explore_or_exploit_spec (CurrentEpsilon start min rate (n + 1)) pol (v :: vs) g
    Hs Hg Hnn ltac:(done)) as Hgc.
  unfold mbind, Rand_bind. destruct (explore_or_exploit _ _ _ _) as [r g'].
  simpl in *. naive_solver.
Qed.

(** ** Every policy selects among its candidates

    Whatever the scores are: the first path when none is probed, otherwise
    nothing or a probed path. *)
Definition selects (paths : list Path) (r : option Path) : Prop :=
  match viable_paths paths with
  | [] => r = head paths
  | viable => ∀ p, r = Some p → p ∈ viable
  end.

Lemma select_best_elem score l best s g p :
  fst (select_best score l best s g) = Some p → best = Some p ∨ p ∈ l.
Proof.
  revert best s g. induction l as [|q l IH]; intros best s g; simpl; [by left|].
  unfold mbind, Rand_bind. destruct (score q g) as [x g'].
  case_if; intros [H|H]%IH; [|by right; right|by left|by right; right].
  injection H as ->. right. by left.
Qed.

Lemma explore_or_exploit_elem epsilon pol viable g p :
  fst (explore_or_exploit epsilon pol viable g) = Some p → p ∈ viable.
Proof.
  unfold explore_or_exploit.
  assert (∀ g', fst (select_best (Score pol) viable None minus1 g') = Some p → p ∈ viable) as Hb.
  { intros g' [?|?]%select_best_elem; done. }
  case_if; [|apply Hb]. unfold mbind, Rand_bind, rand_Float64 at 1.
  case_if; [|apply Hb]. simpl. apply list_elem_of_lookup_2.
Qed.

Lemma contextual_loop_elem Alpha x l st best ucb p :
  fst (contextual_loop Alpha x l st best ucb) = Some p → best = Some p ∨ p ∈ l.
Proof.
  revert st best ucb. induction l as [|q l IH]; intros st best ucb; simpl; [by left|].
  case_if; intros [H|H]%IH; [|by right; right|by left|by right; right].
  injection H as ->. right. by left.
Qed.

Lemma EpsilonGreedy_selects eps pol paths g :
  selects paths (fst (EpsilonGreedy_SelectPath eps pol paths g)).
Proof.
  unfold selects, EpsilonGreedy_SelectPath. destruct paths as [|p0 paths]; [done|].
  destruct (viable_paths _) as [|v vs]; [done|]. intros p. apply explore_or_exploit_elem.
Qed.

Lemma Decaying_selects start min rate pol n paths g :
  selects paths (fst (fst (Decaying_SelectPath start min rate pol n paths g))).
Proof.
  unfold selects, Decaying_SelectPath. destruct paths as [|p0 paths]; [done|]. cbv zeta.
  destruct (viable_paths _) as [|v vs]; [done|]. intros p. unfold mbind, Rand_bind.
  pose proof (explore_or_exploit_elem (CurrentEpsilon start min rate (uwrap 64 (n + 1))) pol
    (v :: vs) g p) as He. by destruct (explore_or_exploit _ _ _ _).
Qed.

Lemma UCB1_selects C pol st paths g :
  selects paths (fst (fst (UCB1_SelectPath C pol st paths g))).
Proof.
  unfold selects, UCB1_SelectPath. destruct paths as [|p0 paths]; [done|]. cbv zeta.
  destruct (viable_paths _) as [|v vs]; [done|]. intros p.
  destruct (List.find _ _) as [q|] eqn:Ef.
  - intros [= <-]. apply find_some in Ef as [? _]. by apply list_elem_of_In.
  - unfold mbind, Rand_bind.
    match goal with |- context [select_best ?f ?l ?b ?s ?g] =>
      pose proof (select_best_elem f l b s g p) as He; destruct (select_best f l b s g) as [[q|] g'] end.
    + intros [= <-]. by destruct (He eq_refl).
    + done.
Qed.

Lemma Thompson_selects pol st paths g :
  selects paths (fst (fst (Thompson_SelectPath pol st paths g))).
Proof.
  unfold selects, Thompson_SelectPath. destruct paths as [|p0 paths]; [done|]. cbv zeta.
  destruct (viable_paths _) as [|v vs]; [done|]. intros p. unfold mbind, Rand_bind.
  match goal with |- context [select_best ?f ?l ?b ?s ?g] =>
    pose proof (select_best_elem f l b s g p) as He; destruct (select_best f l b s g) as [[q|] g'] end.
  - destruct (sum_scores _ _ _ _), (Score _ _ _). intros [= <-]. by destruct (He eq_refl).
  - done.
Qed.

Lemma Contextual_selects pol Alpha st hour paths g :
  selects paths (fst (fst (Contextual_SelectPath pol Alpha st hour paths g))).
Proof.
  unfold selects, Contextual_SelectPath, SelectPathWithContext.
  destruct paths as [|p0 paths]; [done|]. set (ctx := default_context _ _).
  destruct (viable_paths (p0 :: paths)) as [|v vs].
  - unfold mbind, Rand_bind. destruct (sum_scores _ _ _ _), (Score _ _ _). done.
  - intros p. pose proof (contextual_loop_elem Alpha (featureVector ctx) (v :: vs) st None
      (finf true) p) as He.
    destruct (contextual_loop _ _ _ _ _ _) as [[b|] st']; [|done].
    unfold mbind, Rand_bind. destruct (sum_scores _ _ _ _), (Score _ _ _).
    intros [= <-]. by destruct (He eq_refl).
Qed.

(** ** UCB1 keeps the history of its selections *)

Abbreviation selections_of st id := (map_get 0 (pathSelections st) id).

(** The zero counters of a new policy. *)
Definition UCB1_fresh : UCB1State := {| totalSelections := 0; pathSelections := ∅ |}.

Definition ucb_ok (st : UCB1State) : Prop :=
  ∀ id, 0 ≤ selections_of st id ≤ totalSelections st.

Lemma map_get_insert {A} (d x : A) (m : gmap string A) k k' :
  map_get d (<[k := x]> m) k' = if decide (k = k') then x else map_get d m k'.
Proof. unfold map_get. rewrite lookup_insert. by case_decide. Qed.

Lemma find_head_spec {A} (f : A → bool) (l : list A) :
  match List.find f l with
  | Some x => ∃ l1 l2, l = l1 ++ x :: l2 ∧ f x = true ∧ Forall (λ y, f y = false) l1
  | None => Forall (λ y, f y = false) l
  end.
Proof.
  induction l as [|x l IH]; simpl; [done|]. destruct (f x) eqn:E.
  - by exists [], l.
  - destruct (List.find f l) as [y|].
    + destruct IH as (l1 & l2 & -> & ? & ?). exists (x :: l1), l2. split_and!; [done..|by constructor].
    + by constructor.
Qed.

Lemma UCB1_score_pure C pol st :
  scores_paths pol →
  pure_score (UCB1_score C pol st) (λ p,
    fadd (score_fn pol p) (fmul C (fsqrt (fdiv (Log (of_int (totalSelections st)))
                                               (of_int (selections_of st (path_ID p))))))).
Proof.
  intros Hs p g. unfold UCB1_score, mbind, Rand_bind. by rewrite (Score_score_fn pol Hs p g).
Qed.

Lemma UCB1_bonus_nonneg C n k :
  pos_const C → 0 < n → 0 < k < 2 ^ 64 →
  nonneg (fmul C (fsqrt (fdiv (Log (of_int n)) (of_int k)))).
Proof.
  intros HC Hn Hk. apply fmul_pos_nonneg; [done|]. apply fsqrt_nonneg, fdiv_by_pos.
  - by apply Log_nonneg, of_int_ge1.
  - by apply of_int_pos_const.
Qed.

(** One selection among probed paths: exactly one of them is counted. *)
Lemma UCB1_step C pol st paths g :
  pos_const C → scores_paths pol → Forall path_ok paths → ucb_ok st →
  totalSelections st + 1 < 2 ^ 64 → viable_paths paths ≠ [] →
  ∃ p st', UCB1_SelectPath C pol st paths g = ((Some p, st'), g) ∧
    p ∈ viable_paths paths ∧ totalSelections st' = totalSelections st + 1 ∧
    ∀ id, selections_of st' id =
          selections_of st id + (if decide (path_ID p = id) then 1 else 0).
Proof.
  intros HC Hs Hok Hst Htot Hne. unfold UCB1_SelectPath.
  pose proof (Hst EmptyString) as Ht0.
  destruct paths as [|p0 paths]; [done|].
  pose proof (viable_scores_nonneg _ _ Hs Hok) as Hnn.
  destruct (viable_paths (p0 :: paths)) as [|v vs]; [done|].
  rewrite (uwrap_small 64 (totalSelections st + 1)) by lia. cbv zeta.
  set (st1 := {| totalSelections := _; pathSelections := pathSelections st |}).
  pose proof (find_head_spec (λ p, selections_of st1 (path_ID p) =? 0) (v :: vs)) as Hf.
  destruct (List.find _ _) as [p|].
  - destruct Hf as (l1 & l2 & Heq & Hz & _). zbool. eexists p, _. split_and!; [done| |done|].
    + rewrite Heq. apply elem_of_app. right. left.
    + intros id. simpl in *. rewrite map_get_insert. case_decide; subst; lia.
  - set (f := λ p, fadd (score_fn pol p) (fmul C (fsqrt (fdiv (Log (of_int (totalSelections st1)))
                                (of_int (selections_of st1 (path_ID p))))))).
    destruct (pick_nonneg f (v :: vs)) as (p & Hp & Hin & _); [|done|].
    { rewrite Forall_forall in Hnn, Hf |- *. intros q Hq. apply fadd_nonneg; [by apply Hnn|].
      specialize (Hf q Hq). zbool. pose proof (Hst (path_ID q)). simpl in *.
      apply UCB1_bonus_nonneg; [done|lia..]. }
    unfold mbind, Rand_bind.
    rewrite (select_best_pure _ f) by by apply UCB1_score_pure. rewrite Hp.
    eexists p, _. split_and!; [done..|]. intros id. simpl. pose proof (Hst (path_ID p)).
    rewrite uwrap_small by lia. rewrite map_get_insert. case_decide; subst; lia.
Qed.

(** A run of selections, one slice of candidates per call. *)
Fixpoint UCB1_run (C : float64) (pol : Policy) (calls : list (list Path)) (st : UCB1State)
  : Rand (list (option Path) * UCB1State) :=
  match calls with
  | [] => mret ([], st)
  | paths :: calls' =>
      '(r, st) ← UCB1_SelectPath C pol st paths;
      '(rs, st) ← UCB1_run C pol calls' st;
      mret (r :: rs, st)
  end.

(** The calls that had probed candidates, with their answers. *)
Definition counted (calls : list (list Path)) (rs : list (option Path)) : list (option Path) :=
  snd <$> List.filter (λ '(paths, _), negb (bool_decide (viable_paths paths = []))) (zip calls rs).

#[local] Arguments counted : simpl never.

Lemma counted_cons paths calls r rs :
  counted (paths :: calls) (r :: rs) =
  (if decide (viable_paths paths = []) then [] else [r]) ++ counted calls rs.
Proof. unfold counted. simpl. rewrite bool_decide_decide. by case_decide. Qed.

Definition times_selected (id : string) (rs : list (option Path)) : Z :=
  zsum (λ r, if decide (path_ID <$> r = Some id) then 1 else 0) rs.

Lemma UCB1_run_counts C pol calls st g :
  pos_const C → scores_paths pol → Forall (Forall path_ok) calls → ucb_ok st →
  totalSelections st + zlen calls < 2 ^ 64 →
  let '((rs, st'), _) := UCB1_run C pol calls st g in
  ucb_ok st' ∧ totalSelections st' = totalSelections st + zlen (counted calls rs) ∧
  ∀ id, selections_of st' id = selections_of st id + times_selected id (counted calls rs).
Proof.
  intros HC Hs. revert st. induction calls as [|paths calls IH]; intros st Hok Hst Hlen.
  { simpl. unfold times_selected. split_and!; [done|lia|intros; pw; lia]. }
  apply Forall_cons in Hok as [Hp Hok]. rewrite length_cons in Hlen.
  simpl UCB1_run. unfold mbind, Rand_bind.
  destruct (decide (viable_paths paths = [])) as [Hv|Hv].
  - assert (∃ r, UCB1_SelectPath C pol st paths g = ((r, st), g)) as [r ->].
    { unfold UCB1_SelectPath. destruct paths; [by eexists|]. rewrite Hv. by eexists. }
    specialize (IH st Hok Hst ltac:(lia)).
    destruct (UCB1_run C pol calls st g) as [[rs st'] g']. cbn.
    by rewrite counted_cons, decide_True.
  - destruct (UCB1_step C pol st paths g) as (p & st1 & -> & Hin & Ht & Hc); [done..|lia|done|].
    assert (ucb_ok st1) as Hst1.
    { intros id. rewrite Hc, Ht. pose proof (Hst id). case_decide; lia. }
    specialize (IH st1 Hok Hst1 ltac:(lia)).
    destruct (UCB1_run C pol calls st1 g) as [[rs st'] g']. cbn.
    destruct IH as (? & IHt & IHc). rewrite counted_cons, decide_False by done.
    unfold times_selected in *. rewrite length_app. cbn [length].
    split_and!; [done|lia|]. intros id. rewrite IHc, Hc, zsum_app, zsum_cons, zsum_nil. cbn.
    repeat case_decide; naive_solver lia.
Qed.

(** C35: over any sequence of calls (fewer than 2^64) starting from the zero
    counters, the UCB1 state is the history: [totalSelections] is the number
    of calls that had a probed candidate, and each path's counter is the
    number of those calls that returned this path.  (The exploration constant
    is positive, the policy it falls back on only scores paths, success rates
    are numbers that are not negative, and hop counts are below 2^62.) *)
Theorem UCB1_counts_selections (C : float64) (pol : Policy) (calls : list (list Path)) (g : rng) :
  pos_const C → scores_paths pol → Forall (Forall path_ok) calls → zlen calls < 2 ^ 64 →
  let '(rs, st) := fst (UCB1_run C pol calls UCB1_fresh g) in
  totalSelections st = zlen (counted calls rs) ∧
  ∀ id, selections_of st id = times_selected id (counted calls rs).
Proof.
  intros HC Hs Hok Hlen.
  pose proof (UCB1_run_counts C pol calls UCB1_fresh g HC Hs Hok) as H.
  destruct (UCB1_run _ _ _ _ _) as [[rs st] g']. simpl in *.
  destruct H as (_ & -> & Hc); [done|done|]. split; [done|]. intros id. by rewrite Hc.
Qed.

Lemma UCB1_run_untried C pol paths done_ todo st g :
  viable_paths paths = done_ ++ todo → NoDup (path_ID <$> todo) →
  Forall (λ p, selections_of st (path_ID p) ≠ 0) done_ →
  Forall (λ p, selections_of st (path_ID p) = 0) todo →
  fst (fst (UCB1_run C pol (replicate (length todo) paths) st g)) = Some <$> todo.
Proof.
  intros Hv Hnd Hdone Htodo. revert done_ st g Hv Hdone Htodo.
  induction todo as [|p todo IH]; intros done_ st g Hv Hdone Htodo; [done|].
  simpl in Hnd. apply NoDup_cons in Hnd as [Hnin Hnd]. apply Forall_cons in Htodo as [Hp Htodo].
  simpl replicate. simpl UCB1_run. unfold mbind, Rand_bind.
  assert (UCB1_SelectPath C pol st paths g = ((Some p,
    {| totalSelections := uwrap 64 (totalSelections st + 1);
       pathSelections := <[path_ID p := 1]> (pathSelections st) |}), g)) as ->.
  { unfold UCB1_SelectPath. destruct paths as [|p0 paths]; [by destruct done_|].
    assert (List.find (λ q, selections_of st (path_ID q) =? 0)
              (viable_paths (p0 :: paths)) = Some p) as Hfind.
    { rewrite Hv. clear -Hdone Hp. induction Hdone as [|q l Hq Hl IH]; simpl.
      - by rewrite (proj2 (Z.eqb_eq _ _) Hp).
      - by rewrite (proj2 (Z.eqb_neq _ _) Hq). }
    rewrite Hv in *. destruct (done_ ++ p :: todo) eqn:E; [by destruct done_|].
    cbv zeta. cbn [pathSelections totalSelections]. by rewrite Hfind. }
  set (st1 := {| totalSelections := _; pathSelections := _ |}).
  specialize (IH Hnd (done_ ++ [p]) st1 g).
  destruct (UCB1_run C pol (replicate (length todo) paths) st1 g) as [[rs st'] g']. simpl in *.
  rewrite IH; [done| | |].
  - by rewrite Hv, <-app_assoc.
  - apply Forall_app. split; [|constructor; [|done]].
    + eapply Forall_impl; [exact Hdone|]. intros q Hq. simpl. rewrite map_get_insert.
      by case_decide.
    + simpl. rewrite map_get_insert. by case_decide.
  - rewrite Forall_forall in Htodo |- *. intros q Hq. simpl. rewrite map_get_insert.
    case_decide as He; [|by apply Htodo]. exfalso. apply Hnin. rewrite He.
    by apply list_elem_of_fmap_2.
Qed.

(** A new UCB1 policy asked repeatedly for the same candidates with
    distinct ids tries each probed candidate exactly once, in order, before
    it repeats any; no assumption is made on the scores. *)
Theorem UCB1_tries_all_first (C : float64) (pol : Policy) (paths : list Path) (g : rng) :
  NoDup (path_ID <$> viable_paths paths) →
  fst (fst (UCB1_run C pol (replicate (length (viable_paths paths)) paths) UCB1_fresh g))
  = Some <$> viable_paths paths.
Proof.
  intros Hnd. apply (UCB1_run_untried C pol paths [] (viable_paths paths)); try done.
  apply Forall_forall. intros p _. simpl. unfold map_get. by rewrite lookup_empty.
Qed.

(** ** Policies by name *)

Definition policy_names : list string :=
  ["latency"; "hop-count"; "reliability"; "balanced"; "epsilon-greedy"; "decaying-epsilon";
   "ucb1"; "random"; "thompson"; "contextual"].

(** The lookup by name returns a policy whose [Name] is the lowered name
    for exactly the ten documented names, and the unknown-policy error for
    every other one; it never panics, and every policy's own name is found. *)
Theorem PolicyFromName_total (name : string) (epsilon : float64) :
  match PolicyFromNameWithEpsilon name epsilon with
  | Ok pol => Name pol = ToLower name ∧ ToLower name ∈ policy_names
  | Err e => e = unknown_policy name ∧ ToLower name ∉ policy_names
  | Panic _ => False
  end ∧
  ∀ pol, is_ok (PolicyFromName (Name pol)) = true.
Proof.
  split.
  - unfold PolicyFromNameWithEpsilon.
    repeat case_decide; try match goal with H : ToLower name = _ |- _ =>
      rewrite H; split; [done|apply (bool_decide_unpack _); vm_compute; exact I] end.
    split; [done|]. unfold policy_names. rewrite !not_elem_of_cons.
    split_and!; [done..|apply not_elem_of_nil].
  - by intros [].
Qed.

Lemma PolicyFromName_scores name epsilon pol :
  PolicyFromNameWithEpsilon name epsilon = Ok pol → pol = RandomPolicy ∨ scores_paths pol.
Proof.
  unfold PolicyFromNameWithEpsilon.
  repeat case_decide; intros Heq; try discriminate; injection Heq as <-;
    first [right; exact I|left; reflexivity|right; exact default_balanced_scores].
Qed.

Lemma score_fn_unprobed pol p :
  SampleCount (path_Metrics p) = 0 → score_fn pol p = f0.
Proof.
  intros H. induction pol; simpl; try done;
    unfold Latency_Score, HopCount_Score, Reliability_Score, Balanced_Score; rewrite H;
    [by rewrite orb_true_r|done..].
Qed.

(** Every policy that can be asked for by name scores a path with
    well-formed metrics at zero or above (never a NaN), and a path that was
    never probed at exactly zero, so the initial score of -1 in the selection
    loops is beaten by every candidate. *)
Theorem Score_nonneg (name : string) (epsilon : float64) (pol : Policy) (p : Path) (g : rng) :
  PolicyFromNameWithEpsilon name epsilon = Ok pol → path_ok p → rng_ok g →
  let s := fst (Score pol p g) in
  nonneg s ∧ fgt s minus1 = true ∧ (SampleCount (path_Metrics p) = 0 → s = f0).
Proof.
  intros Hpol Hp Hg. cbv zeta.
  assert (nonneg (fst (Score pol p g)) ∧
          (SampleCount (path_Metrics p) = 0 → fst (Score pol p g) = f0)) as [Hn Hz].
  { destruct (PolicyFromName_scores _ _ _ Hpol) as [->|Hs].
    - unfold Score, Random_Score. destruct (SampleCount _ =? 0) eqn:E; [done|]. zbool. split; [|done].
      apply (rng_float_range _ Hg).
    - rewrite (Score_score_fn pol Hs p g). simpl.
      split; [by apply score_fn_nonneg|apply score_fn_unprobed]. }
  split_and!; [done|by apply nonneg_gt_minus1|done].
Qed.

End laws.

End policy.

(** ** Concrete inputs *)

Module Examples.

(** A coarse math library that satisfies the laws, and plain list vectors. *)
#[export] Instance coarse_math : MathLib :=
  {| Log := λ _, f0; Log1p := λ x, x; Pow := λ x _, x |}.
#[export] Instance coarse_laws : MathLaws coarse_math.
Proof. split; simpl; [done|done|]. by intros x y H _. Qed.

#[export] Instance list_algebra : LinAlg :=
  {| Dense := list (list float64);
     VecDense := list float64;
     mat_NewDense := λ r c, replicate (Z.to_nat r) (replicate (Z.to_nat c) f0);
     mat_Set := λ M i j x, alter (λ row, <[Z.to_nat j := x]> row) (Z.to_nat i) M;
     mat_NewVecDense := λ n l, match l with [] => replicate (Z.to_nat n) f0 | _ => l end;
     mat_Inverse := λ _, None;
     mat_MulVec := λ M v, (λ row, foldl fadd f0 (zip_with fmul row v)) <$> M;
     mat_Dot := λ u v, foldl fadd f0 (zip_with fmul u v);
     mat_Outer := λ a u v, (λ x, (λ y, fmul a (fmul x y)) <$> v) <$> u;
     mat_Add := zip_with (zip_with fadd);
     mat_ScaleVec := λ a v, fmul a <$> v;
     mat_AddVec := zip_with fadd |}.

(** A generator that always draws [x], 0 and [x]. *)
Definition constant_rng (x : float64) : rng :=
  {| draw_float := λ _, x; draw_int := λ _ _, 0; draw_beta := λ _ _ _, x; drawn := O |}.

Lemma constant_rng_ok x : nonneg x → flt x f1 = true → rng_ok (constant_rng x).
Proof. by split; simpl; [| lia|]. Qed.

Definition sample_metrics (n : Z) (rate : float64) : PathMetrics :=
  {| AvgRTT := 20 * Millisecond; P95RTT := 30 * Millisecond; Jitter := 5 * Millisecond;
     ThroughputEstimate := f0; HopCount := 1; SuccessRate := rate; LastProbed := Some 1;
     SampleCount := n; rttSamples := [20 * Millisecond] |}.

Definition sample_path (id : string) (n : Z) (rate : float64) : Path :=
  {| path_ID := id; path_Target := "QmTarget"; path_Type := PathDirect; path_RelayChain := [];
     path_Metrics := sample_metrics n rate |}.

(** Two probed paths and one that never was. *)
Definition sample_paths : list Path :=
  [sample_path "a" 0 f0; sample_path "b" 3 f1; sample_path "c" 2 (lit 1 2)].

Lemma sample_paths_ok : Forall path_ok sample_paths.
Proof.
  repeat apply Forall_cons_2; [| | |apply Forall_nil_2];
    (split; [vm_compute; reflexivity|simpl; lia]).
Qed.

Lemma sample_rng_ok : rng_ok (constant_rng (lit 1 2)).
Proof. apply constant_rng_ok; vm_compute; reflexivity. Qed.

End Examples.

Section witnesses.
Import Examples.

Lemma EpsilonGreedy_SelectPath_spec_witness :
  let g := constant_rng (lit 1 2) in
  let r := fst (EpsilonGreedy_SelectPath (lit 1 10) DefaultBalancedPolicy sample_paths g) in
  (r = None ↔ sample_paths = []) ∧
  (viable_paths sample_paths = [] → r = head sample_paths) ∧
  (viable_paths sample_paths ≠ [] →
   greedy_choice (lit 1 10) DefaultBalancedPolicy (viable_paths sample_paths) g r).
Proof.
  apply EpsilonGreedy_SelectPath_spec;
    [apply default_balanced_scores|apply sample_paths_ok|apply sample_rng_ok].
Defined.

Lemma Decaying_SelectPath_spec_witness :
  let g := constant_rng (lit 1 2) in
  let '(r, n') := fst (Decaying_SelectPath (lit 3 10) (lit 5 100) (lit 995 1000)
                         DefaultBalancedPolicy 7 sample_paths g) in
  let e := CurrentEpsilon (lit 3 10) (lit 5 100) (lit 995 1000) n' in
  n' = 7 + 1 ∧ fle (lit 5 100) e = true ∧ fle e (lit 3 10) = true ∧
  (viable_paths sample_paths = [] → r = head sample_paths) ∧
  (viable_paths sample_paths ≠ [] →
   greedy_choice e DefaultBalancedPolicy (viable_paths sample_paths) g r).
Proof.
  apply Decaying_SelectPath_spec.
  1-3: apply unit_check_sound; vm_compute; reflexivity.
  - vm_compute. reflexivity.
  - lia.
  - apply default_balanced_scores.
  - apply sample_paths_ok.
  - apply sample_rng_ok.
  - done.
Defined.

Lemma UCB1_counts_selections_witness :
  let calls := [sample_paths; sample_paths; []; sample_paths] in
  let '(rs, st) := fst (UCB1_run (fsqrt (of_int 2)) DefaultBalancedPolicy calls UCB1_fresh
                          (constant_rng (lit 1 2))) in
  totalSelections st = zlen (counted calls rs) ∧
  ∀ id, map_get 0 (pathSelections st) id = times_selected id (counted calls rs).
Proof.
  apply UCB1_counts_selections.
  - vm_compute. reflexivity.
  - apply default_balanced_scores.
  - apply Forall_forall. intros l Hl. rewrite !elem_of_cons in Hl.
    destruct Hl as [->|[->|[->|[->|[]%not_elem_of_nil]]]]; first [apply sample_paths_ok|apply Forall_nil_2].
  - simpl. lia.
Defined.

Lemma UCB1_tries_all_first_witness :
  fst (fst (UCB1_run (fsqrt (of_int 2)) DefaultBalancedPolicy (replicate 2 sample_paths)
              UCB1_fresh (constant_rng (lit 1 2))))
  = [Some (sample_path "b" 3 f1); Some (sample_path "c" 2 (lit 1 2))].
Proof.
  apply (UCB1_tries_all_first (fsqrt (of_int 2)) DefaultBalancedPolicy sample_paths).
  simpl. apply NoDup_cons; split; [set_solver|]. apply NoDup_singleton.
Defined.

Lemma Score_nonneg_witness :
  let s := fst (Score DefaultBalancedPolicy (sample_path "b" 3 f1) (constant_rng (lit 1 2))) in
  nonneg s ∧ fgt s minus1 = true ∧ (3 = 0 → s = f0).
Proof.
  apply (Score_nonneg "Balanced" (lit 1 10)); [reflexivity| |apply sample_rng_ok].
  split; [vm_compute; reflexivity|simpl; lia].
Defined.

End witnesses.
