(* ===== verification/Thompson.v ===== *)
(** * Thompson sampling over many selections ([internal/pathpolicy/policy.go])

    The priors a [ThompsonSamplingPolicy] keeps stay within the range the Beta
    sampler is documented for, so that a selection among probed paths always
    answers; the decay keeps them from growing. *)

From S2P Require Import Prelude Float64 FloatExact Runtime Path Policy.

Section thompson.
Context `{ML : MathLib, LA : LinAlg}.

(** The least positive number. *)
Definition tiny : float64 := S754_finite false 1 (-1074).
Definition hundred : float64 := of_int 100.
Definition decay : float64 := lit 95 100.

Definition weight (x : float64) : Prop :=
  nonneg_valid x ∧ is_finite x = true ∧ fle tiny x = true ∧ fle x hundred = true.

(** Both priors of a path are set together, and are weights. *)
Definition thompson_ok (st : ThompsonState) : Prop :=
  dom (ts_alpha st) = dom (ts_beta st) ∧
  map_Forall (λ _, weight) (ts_alpha st) ∧ map_Forall (λ _, weight) (ts_beta st).

(** A run of selections, one slice of candidates per call. *)
Fixpoint Thompson_run (pol : Policy) (calls : list (list Path)) (st : ThompsonState)
  : Rand (list (option Path) * ThompsonState) :=
  match calls with
  | [] => mret ([], st)
  | paths :: calls' =>
      '(r, st) ← Thompson_SelectPath pol st paths;
      '(rs, st) ← Thompson_run pol calls' st;
      mret (r :: rs, st)
  end.

(** ** Arithmetic of the weights *)

Lemma tiny_spec : nonneg_valid tiny ∧ is_finite tiny = true ∧ fval tiny = 2 ^ (K - 1074).
Proof. split_and!; [vm_compute; done|done|vm_compute; done]. Qed.
Lemma f1_spec : nonneg_valid f1 ∧ is_finite f1 = true ∧ fval f1 = 2 ^ K.
Proof. split_and!; [vm_compute; done|vm_compute; done|apply fval_f1]. Qed.
Lemma hundred_spec : nonneg_valid hundred ∧ is_finite hundred = true ∧ fval hundred = 100 * 2 ^ K.
Proof. split_and!; vm_compute; done. Qed.
Lemma hundred_one_spec : nonneg_valid (of_int 101) ∧ is_finite (of_int 101) = true ∧ fval (of_int 101) = 101 * 2 ^ K.
Proof. split_and!; vm_compute; done. Qed.
Lemma decay_spec : nonneg_valid decay ∧ is_finite decay = true ∧ 0 ≤ fval decay.
Proof. split_and!; [vm_compute; done|vm_compute; done|apply fval_nonneg; vm_compute; done]. Qed.

(** Numbers from [tiny] to some bound. *)
Definition between_tiny (hi x : float64) : Prop :=
  nonneg_valid x ∧ is_finite x = true ∧ fle tiny x = true ∧ fle x hi = true.

Lemma between_intro hi x :
  nonneg_valid x → nonneg_valid hi → is_finite hi = true → fle tiny x = true → fle x hi = true → between_tiny hi x.
Proof. intros Hx Hhi Fhi Ht Hle. split_and!; [done| |done|done]. by eapply (fle_finite x hi). Qed.

Lemma fval_le x y : nonneg_valid x → nonneg_valid y → is_finite x = true → is_finite y = true →
  fle x y = true → fval x ≤ fval y.
Proof. intros Hx Hy Fx Fy. by apply fle_fval. Qed.

Lemma weight_f1 : weight f1.
Proof. split_and!; vm_compute; done. Qed.

(** Adding one. *)
Lemma weight_succ x : weight x → between_tiny (of_int 101) (fadd x f1).
Proof.
  intros (Hx & Fx & Ht & Hle). destruct f1_spec as (H1 & F1 & V1), hundred_spec as (Hh & Fh & Vh), hundred_one_spec as (Hb & Fb & Vb).
  destruct tiny_spec as (Htv & Ftf & _). destruct (fadd_spec x f1 Hx H1) as [Hn Hup].
  pose proof (fval_le _ _ Hx Hh Fx Fh Hle). apply between_intro; [assumption..| |].
  - apply fadd_lower; [assumption..|]. pose proof (fval_le _ _ Htv Hx Ftf Fx Ht). pose proof (fval_nonneg f1 H1). lia.
  - apply Hup; [assumption..|]. lia.
Qed.

(** A sum that is at most a hundred has terms that are. *)
Lemma summand_le a b :
  between_tiny (of_int 101) a → between_tiny (of_int 101) b → fgt (fadd a b) hundred = false → weight a ∧ weight b.
Proof.
  intros (Ha & Fa & Ta & _) (Hb & Fb & Tb & _) Hs.
  destruct (fadd_spec a b Ha Hb) as [Hn _]. pose proof (fval_nonneg a Ha). pose proof (fval_nonneg b Hb).
  apply not_fgt_fle in Hs; [|by apply nonneg_valid_not_nan|by vm_compute].
  split; (split_and!; [done|done|done|]); (eapply fle_trans; [|exact Hs]); (apply fadd_lower; [assumption..|lia]).
Qed.

(** A positive number is the least one or at least twice as large. *)
Lemma tiny_or_twice x :
  nonneg_valid x → is_finite x = true → fval tiny ≤ fval x → x = tiny ∨ 2 * fval tiny ≤ fval x.
Proof.
  destruct tiny_spec as (_ & _ & Vt). rewrite Vt. intros Hx Fx Hle.
  assert (0 < 2 ^ (K - 1074)) as Hp by (apply Z.pow_pos_nonneg; unfold K; lia).
  destruct x as [s| | |s m e]; try done.
  destruct Hx as (-> & Hc & He). pose proof (canon_emin _ _ Hc).
  change (fval (S754_finite false m e)) with (val (Z.pos m) e) in *.
  assert (val (Z.pos m) e = val (Z.pos m * 2 ^ (e + 1074)) (-1074)) as Hv.
  { rewrite <-val_shift by (unfold K; lia). f_equal. lia. }
  assert (0 < 2 ^ (e + 1074)) by (apply Z.pow_pos_nonneg; lia).
  assert (val (Z.pos m * 2 ^ (e + 1074)) (-1074) = Z.pos m * 2 ^ (e + 1074) * 2 ^ (K - 1074)) as Hq.
  { unfold val. by replace (-1074 + K) with (K - 1074) by lia. }
  destruct (decide (Z.pos m * 2 ^ (e + 1074) = 1)) as [E|E]; [left|right; rewrite Hv, Hq; nia].
  rewrite E in Hv. destruct (canon_unique m e 1 (-1074)) as [-> ->]; [done|by vm_compute|done|done].
Qed.

(** The decay leaves a positive number: the least one rounds to itself. *)
Lemma decayed_weight x : between_tiny (of_int 101) x → weight (fmul x decay).
Proof.
  intros (Hx & Fx & Ht & Hle).
  destruct decay_spec as (Hd & Fd & Hdn), hundred_spec as (Hh & Fh & _), hundred_one_spec as (Hb & Fb & _).
  destruct tiny_spec as (Htv & Ftf & _). destruct (fmul_spec x decay Hx Hd Fx Fd) as [Hn Hup].
  pose proof (fval_le _ _ Hx Hb Fx Fb Hle) as Hxb. pose proof (fval_le _ _ Htv Hx Ftf Fx Ht) as Hxt.
  assert (fval (of_int 101) * fval decay ≤ fval hundred * 2 ^ K) as Hc by zcompute.
  apply between_intro; [assumption..| |apply Hup; [assumption..|nia]].
  destruct (tiny_or_twice x Hx Fx Hxt) as [->|H2]; [by vm_compute|].
  apply fmul_lower; [assumption..|]. assert (fval tiny * 2 ^ K ≤ 2 * fval tiny * fval decay) by zcompute. nia.
Qed.

(** ** One selection *)

Lemma init_prior_ok st p : thompson_ok st → thompson_ok (init_prior st p).
Proof.
  intros (Hd & Ha & Hb). unfold init_prior. destruct (ts_alpha st !! path_ID p); [done|].
  split_and!; simpl; [set_solver|by apply map_Forall_insert_2; [apply weight_f1|]..].
Qed.

Lemma init_prior_dom st p : dom (ts_alpha (init_prior st p)) = {[path_ID p]} ∪ dom (ts_alpha st).
Proof.
  unfold init_prior. destruct (ts_alpha st !! path_ID p) eqn:E; simpl; [|set_solver].
  apply elem_of_dom_2 in E. set_solver.
Qed.

Lemma init_priors_ok l st :
  thompson_ok st →
  let st1 := fold_left init_prior l st in
  thompson_ok st1 ∧ ∀ p, p ∈ l → path_ID p ∈ dom (ts_alpha st1).
Proof.
  intros Hst. cbv zeta. assert (∀ l st, dom (ts_alpha st) ⊆ dom (ts_alpha (fold_left init_prior l st))) as Hmono.
  { clear. induction l as [|p l IH]; intros st; [done|]. simpl. rewrite <-IH, init_prior_dom. set_solver. }
  revert st Hst. induction l as [|p l IH]; intros st Hst; [by split; [|intros ? ?%elem_of_nil]|].
  simpl. destruct (IH (init_prior st p)) as [H1 H2]; [by apply init_prior_ok|]. split; [done|].
  intros q [->|Hq]%elem_of_cons; [|by apply H2]. apply Hmono. rewrite init_prior_dom. set_solver.
Qed.

Lemma weights_of st id :
  thompson_ok st → id ∈ dom (ts_alpha st) →
  weight (map_get f0 (ts_alpha st) id) ∧ weight (map_get f0 (ts_beta st) id).
Proof.
  intros (Hd & Ha & Hb) Hin. split; unfold map_get.
  - apply elem_of_dom in Hin as [x Hx]. rewrite Hx. by apply (Ha id).
  - rewrite Hd in Hin. apply elem_of_dom in Hin as [x Hx]. rewrite Hx. by apply (Hb id).
Qed.

Lemma weight_between x : weight x → between_tiny (of_int 101) x.
Proof. intros (? & ? & ? & H). split_and!; [done..|]. eapply fle_trans; [exact H|]. by vm_compute. Qed.

(** Setting both weights of a path that has them. *)
Lemma set_both_ok st id a b :
  thompson_ok st → id ∈ dom (ts_alpha st) → weight a → weight b →
  thompson_ok {| ts_alpha := <[id := a]> (ts_alpha st); ts_beta := <[id := b]> (ts_beta st) |}.
Proof.
  intros (Hd & Ha & Hb) Hin Wa Wb. split_and!; simpl; [set_solver|by apply map_Forall_insert_2..].
Qed.

Lemma Thompson_update_ok st id reward :
  thompson_ok st → id ∈ dom (ts_alpha st) → thompson_ok (Thompson_update st id reward).
Proof.
  intros Hst Hin. destruct (weights_of st id Hst Hin) as [Wa Wb].
  set (a := map_get f0 (ts_alpha st) id) in *. set (b := map_get f0 (ts_beta st) id) in *.
  set (a1 := if reward then fadd a f1 else a). set (b1 := if reward then b else fadd b f1).
  assert (between_tiny (of_int 101) a1 ∧ between_tiny (of_int 101) b1) as [Ha1 Hb1].
  { subst a1 b1. destruct reward; (split; [|]); by apply weight_succ || by apply weight_between. }
  assert (Thompson_update st id reward =
    if fgt (fadd a1 b1) hundred
    then {| ts_alpha := <[id := fmul a1 decay]> (ts_alpha st); ts_beta := <[id := fmul b1 decay]> (ts_beta st) |}
    else {| ts_alpha := <[id := a1]> (ts_alpha st); ts_beta := <[id := b1]> (ts_beta st) |}) as ->.
  { destruct Hst as (Hd & _). unfold Thompson_update. fold a b.
    assert (<[id := a]> (ts_alpha st) = ts_alpha st ∧ <[id := b]> (ts_beta st) = ts_beta st) as [Ea Eb].
    { subst a b. unfold map_get. pose proof Hin as Hin'. rewrite Hd in Hin'.
      apply elem_of_dom in Hin as [x Hx]. apply elem_of_dom in Hin' as [y Hy]. rewrite Hx, Hy. by rewrite !insert_id. }
    subst a1 b1. destruct reward; simpl; unfold map_get at 1 2 3 4; rewrite lookup_insert_eq; simpl;
      fold a b; rewrite ?insert_insert_eq; unfold hundred, decay; by rewrite ?Ea, ?Eb. }
  destruct (fgt (fadd a1 b1) hundred) eqn:Eg.
  - apply set_both_ok; [done..| |]; by apply decayed_weight.
  - destruct (summand_le a1 b1 Ha1 Hb1 Eg). by apply set_both_ok.
Qed.

(** ** Runs *)

Lemma Score_safe pol p : rand_safe (Score pol p).
Proof.
  induction pol; cbn [Score]; auto with pathaware.
  unfold Random_Score. case_match; auto with pathaware.
Qed.

Lemma sum_scores_safe pol l acc : rand_safe (sum_scores pol l acc).
Proof.
  revert acc. induction l as [|p l IH]; intros acc; cbn [sum_scores]; [auto with pathaware|].
  apply rand_safe_bind; [apply Score_safe|done].
Qed.

(** Samples that are not negative beat the initial [-1]. *)
Lemma select_best_some score l best s g :
  rng_ok g → (∀ p, p ∈ l → ∀ g, rng_ok g → nonneg (fst (score p g)) ∧ rng_ok (snd (score p g))) →
  is_Some best ∨ s = minus1 ∧ l ≠ [] →
  is_Some (fst (select_best score l best s g)) ∧ rng_ok (snd (select_best score l best s g)).
Proof.
  revert best s g. induction l as [|p l IH]; intros best s g Hg Hs Hb; [by destruct Hb as [?|[_ ?]]|].
  cbn [select_best]. unfold mbind, Rand_bind. destruct (Hs p ltac:(by left) g Hg) as [Hn Hg'].
  destruct (score p g) as [x g']. cbn [fst snd] in *.
  assert (∀ q, q ∈ l → ∀ g, rng_ok g → nonneg (fst (score q g)) ∧ rng_ok (snd (score q g))) as Hl.
  { intros q Hq. apply Hs. by right. }
  destruct (fgt x s) eqn:E; [apply IH; eauto|]. apply IH; [done..|].
  destruct Hb as [?|[-> _]]; [by left|]. by rewrite nonneg_gt_minus1 in E.
Qed.

Lemma weight_positive x : weight x → fgt x f0 = true.
Proof. intros (_ & _ & Ht & _). eapply fle_fgt_trans; [exact Ht|]. by vm_compute. Qed.

(** One call: an answer among the probed paths, and priors that stay weights. *)
Lemma Thompson_step pol st paths g :
  thompson_ok st → rng_ok g →
  let '((r, st'), g') := Thompson_SelectPath pol st paths g in
  thompson_ok st' ∧ rng_ok g' ∧ (paths ≠ [] → is_Some r) ∧ selects paths r.
Proof.
  intros Hst Hg. pose proof (Thompson_selects pol st paths g) as Hsel.
  destruct (Thompson_SelectPath pol st paths g) as [[r st'] g'] eqn:E. cbn [fst] in Hsel.
  unfold Thompson_SelectPath in E. destruct paths as [|p0 paths]; [by injection E as <- <- <-|].
  destruct (viable_paths (p0 :: paths)) as [|v vs] eqn:Ev; [injection E as <- <- <-; by eauto|].
  destruct (init_priors_ok (v :: vs) st Hst) as [Hst1 Hin]. set (st1 := fold_left init_prior (v :: vs) st) in *.
  cbv zeta in E. unfold mbind, Rand_bind in E.
  match type of E with context [select_best ?f ?l ?b ?s ?g] =>
    destruct (select_best_some f l b s g) as [[b' Hb] Hg1]; [done| |by right|];
    [|pose proof (select_best_elem f l b s g b' Hb) as [?|He]; [done|];
      destruct (select_best f l b s g) as [best g1]] end.
  { intros p Hp g2 Hg2. destruct (weights_of st1 (path_ID p) Hst1 (Hin p Hp)) as [Wa Wb].
    split; [|by apply rand_safe_Beta]. apply (rng_beta_range _ Hg2); by apply weight_positive. }
  cbn [fst snd] in *. subst best.
  pose proof (sum_scores_safe pol (v :: vs) f0 g1 Hg1) as Hg2. destruct (sum_scores pol (v :: vs) f0 g1) as [sum g2].
  pose proof (Score_safe pol b' g2 Hg2) as Hg3. destruct (Score pol b' g2) as [sb g3]. injection E as <- <- <-.
  split_and!; [|done|by eauto|done]. apply Thompson_update_ok; [done|by apply Hin].
Qed.

Lemma thompson_ok_empty : thompson_ok {| ts_alpha := ∅; ts_beta := ∅ |}.
Proof. split_and!; [done|apply map_Forall_empty..]. Qed.

(** C34: Thompson sampling keeps its priors usable for ever.  However many
    selections are made from the default policy, among whatever paths, with
    whatever scores and draws, every path's two Beta parameters stay positive
    and at most 100, in floating point, so the sampler is only called within
    its documented range; and every call with candidates answers, with a
    probed path if there is one. *)
Theorem Thompson_stays_usable (pol : Policy) (calls : list (list Path)) (g : rng) :
  rng_ok g →
  let '((rs, st), _) := Thompson_run pol calls {| ts_alpha := ∅; ts_beta := ∅ |} g in
  (∀ id a, ts_alpha st !! id = Some a → fgt a f0 = true ∧ fle a (of_int 100) = true) ∧
  (∀ id b, ts_beta st !! id = Some b → fgt b f0 = true ∧ fle b (of_int 100) = true) ∧
  Forall2 (λ paths r, (paths ≠ [] → is_Some r) ∧ selects paths r) calls rs.
Proof.
  pose proof thompson_ok_empty as Hst. revert Hst g. generalize {| ts_alpha := ∅; ts_beta := ∅ |} as st.
  induction calls as [|paths calls IH]; intros st Hst g Hg; cbn [Thompson_run].
  - destruct Hst as (_ & Ha & Hb).
    assert (∀ x, weight x → fgt x f0 = true ∧ fle x (of_int 100) = true) as Hw.
    { intros x Hx. split; [by apply weight_positive|by destruct Hx as (_ & _ & _ & ?)]. }
    split_and!; [intros id x Hx%Ha; by apply Hw|intros id x Hx%Hb; by apply Hw|constructor].
  - unfold mbind, Rand_bind. pose proof (Thompson_step pol st paths g Hst Hg) as Hstep.
    destruct (Thompson_SelectPath pol st paths g) as [[r st1] g1]. destruct Hstep as (Hst1 & Hg1 & Hr1 & Hr2).
    specialize (IH st1 Hst1 g1 Hg1). destruct (Thompson_run pol calls st1 g1) as [[rs st'] g']. cbn.
    destruct IH as (Ha & Hb & Hc). split_and!; [done|done|]. constructor; [by split|done].
Qed.

End thompson.

(** ** Concrete inputs *)

Section witnesses.
Import Policy.Examples.
#[local] Existing Instances coarse_math list_algebra.

Lemma Thompson_stays_usable_witness :
  let '((rs, st), _) := Thompson_run DefaultBalancedPolicy [sample_paths; sample_paths] {| ts_alpha := ∅; ts_beta := ∅ |}
                          (constant_rng (lit 1 2)) in
  (∀ id a, ts_alpha st !! id = Some a → fgt a f0 = true ∧ fle a (of_int 100) = true) ∧
  (∀ id b, ts_beta st !! id = Some b → fgt b f0 = true ∧ fle b (of_int 100) = true) ∧
  Forall2 (λ paths r, (paths ≠ [] → is_Some r) ∧ selects paths r) [sample_paths; sample_paths] rs.
Proof.
  apply (Thompson_stays_usable DefaultBalancedPolicy [sample_paths; sample_paths] (constant_rng (lit 1 2))).
  apply sample_rng_ok.
Defined.
End witnesses.
