(* ===== verification/Stream.v ===== *)
(** * Byte streams: [io.Reader], [io.ReadFull] and libp2p streams

    A reader is the bytes still to come and the error that ends them; a
    stream has a reader, the bytes written so far, and an environment that
    decides which writes fail and what the peer sends back.  Clients and
    handlers run in the [Stream] monad.  No read or write has a deadline in the
    source: a peer that neither sends nor takes nor closes keeps the other side
    waiting for ever ([Stalled], [s_hung]). *)

From S2P Require Import Prelude.

(** ** Readers *)

Record reader := {
  rd_data : bytes;
  rd_end : error              (* [EOF] when the sender closed its side, [Stalled] when it never does *)
}.

(** A reader over complete data, as [bytes.NewReader]. *)
Definition NewReader (b : bytes) : reader := {| rd_data := b; rd_end := EOF |}.

(** [io.ReadFull(r, buf)] with [len(buf) = n]: the bytes read, whether or not
    the call fails, the error, and the rest of the reader. *)
Definition ReadFull (n : nat) (r : reader) : bytes * option error * reader :=
  let rest := {| rd_data := drop n (rd_data r); rd_end := rd_end r |} in
  if decide (n ≤ length (rd_data r))%nat then (take n (rd_data r), None, rest)
  else
    let e := if decide (rd_data r = []) then rd_end r
             else if decide (rd_end r = EOF) then ErrUnexpectedEOF else rd_end r in
    (rd_data r, Some e, rest).

(** ** Streams *)

(** What the rest of the world does to one stream. *)
Record stream_env := {
  env_open : option error;             (* [NewStream] *)
  env_write : nat → option error;      (* the [k]-th [Write] *)
  env_closeWrite : option error;
  env_peer : bytes → reader            (* the reply to the bytes sent *)
}.

Record stream := {
  s_env : stream_env;
  s_out : bytes;                       (* everything written *)
  s_writes : nat;
  s_in : option reader;                (* the reply, from the first read on *)
  s_hung : bool                        (* a call waits for ever: what the model does after it never happens *)
}.

(** A stream just opened by a client, and one accepted by a handler. *)
Definition dial (e : stream_env) : stream :=
  {| s_env := e; s_out := []; s_writes := O; s_in := None; s_hung := false |}.
Definition accept (w : nat → option error) (r : reader) : stream :=
  {| s_env := {| env_open := None; env_write := w; env_closeWrite := None;
                 env_peer := λ _, r |};
     s_out := []; s_writes := O; s_in := Some r; s_hung := false |}.

(** Writes that never fail. *)
Definition no_faults : nat → option error := λ _, None.

Definition Stream (A : Type) : Type := stream → outcome A * stream.

#[export] Instance Stream_ret : MRet Stream := λ A a s, (Ok a, s).
#[export] Instance Stream_bind : MBind Stream := λ A B k m s,
  match m s with
  | (Ok a, s') => k a s'
  | (Err e, s') => (Err e, s')
  | (Panic w, s') => (Panic w, s')
  end.

Definition stream_fail {A} (e : error) : Stream A := λ s, (Err e, s).

(** [if err != nil { return fmt.Errorf("ctx: %w", err) }] *)
Definition or_wrap {A} (ctx : string) (m : Stream A) : Stream A := λ s,
  let '(r, s') := m s in (wrap_err ctx r, s').

(** A call whose error is discarded. *)
Definition ignore {A} (m : Stream A) : Stream unit := λ s,
  let '(r, s') := m s in
  (match r with Panic w => Panic w | _ => Ok () end, s').

(** [s.Write(b)] *)
Definition Write (b : bytes) : Stream unit := λ s,
  let after b h := {| s_env := s_env s; s_out := s_out s ++ b; s_writes := S (s_writes s);
                      s_in := s_in s; s_hung := h |} in
  match env_write (s_env s) (s_writes s) with
  | Some e => (Err e, after [] (s_hung s || bool_decide (e = Stalled)))
  | None => (Ok (), after b (s_hung s))
  end.

Definition CloseWrite : Stream unit := λ s,
  match env_closeWrite (s_env s) with Some e => (Err e, s) | None => (Ok (), s) end.

(** [io.ReadFull(s, buf)]: the bytes, or the error; the bytes of a failed
    read are kept by [Read_partial]. *)
Definition inbox (s : stream) : reader := default (env_peer (s_env s) (s_out s)) (s_in s).

Definition Read_partial (n : nat) : Stream (bytes * option error) := λ s,
  let '(b, e, r) := ReadFull n (inbox s) in
  (Ok (b, e), {| s_env := s_env s; s_out := s_out s; s_writes := s_writes s; s_in := Some r;
                 s_hung := s_hung s || bool_decide (e = Some Stalled) |}).

Definition Read (n : nat) : Stream bytes :=
  '(b, e) ← Read_partial n;
  match e with None => mret b | Some e => stream_fail e end.

(** [h.NewStream(ctx, target, protocol)] followed by the client's body. *)
Definition with_stream {A} (ctx : string) (e : stream_env) (body : Stream A) : outcome A :=
  match env_open e with
  | Some err => Err (Wrapf ctx err)
  | None => fst (body (dial e))
  end.

(** The same for a client that may be kept waiting. *)
Definition with_open_stream {A} (ctx : string) (e : stream_env) (body : Stream A) : blocking A :=
  match env_open e with
  | Some err => now (Err (Wrapf ctx err))
  | None => let '(r, s) := body (dial e) in if s_hung s then None else now r
  end.

(** [binary.Write] and [binary.Read] of fixed-width integers. *)
Definition Write_be (n : nat) (z : Z) : Stream unit := Write (be_put n z).
Definition Write_le (n : nat) (z : Z) : Stream unit := Write (le_put n z).
Definition Read_be (n : nat) : Stream Z := b ← Read n; mret (be_get b).
Definition Read_le (n : nat) : Stream Z := b ← Read n; mret (le_get b).

(** ** Lemmas *)

Lemma ReadFull_app b rest e :
  ReadFull (length b) {| rd_data := b ++ rest; rd_end := e |} =
  (b, None, {| rd_data := rest; rd_end := e |}).
Proof.
  unfold ReadFull. simpl. rewrite length_app, decide_True by lia.
  by rewrite take_app_length, drop_app_length.
Qed.

Lemma ReadFull_ok n r b r' :
  ReadFull n r = (b, None, r') →
  rd_data r = b ++ rd_data r' ∧ length b = n ∧ rd_end r' = rd_end r.
Proof.
  unfold ReadFull. case_decide; [|done]. intros [= <- <-]. simpl.
  by rewrite take_drop, length_take, Nat.min_l.
Qed.

Lemma Stream_bind_Ok {A B} (m : Stream A) (k : A → Stream B) s b s' :
  (m ≫= k) s = (Ok b, s') → ∃ a s1, m s = (Ok a, s1) ∧ k a s1 = (Ok b, s').
Proof. unfold mbind, Stream_bind. destruct (m s) as [[a|e|w] s1]; try discriminate. eauto. Qed.

Lemma or_wrap_Ok {A} ctx (m : Stream A) s a s' :
  or_wrap ctx m s = (Ok a, s') → m s = (Ok a, s').
Proof. unfold or_wrap. destruct (m s) as [[]]; simpl; congruence. Qed.

(** The stream after a read and after a write. *)
Definition set_in (s : stream) (r : reader) : stream :=
  {| s_env := s_env s; s_out := s_out s; s_writes := s_writes s; s_in := Some r; s_hung := s_hung s |}.
Definition add_out (s : stream) (b : bytes) : stream :=
  {| s_env := s_env s; s_out := s_out s ++ b; s_writes := S (s_writes s); s_in := s_in s; s_hung := s_hung s |}.

Lemma bind_step {A B} (m : Stream A) (k : A → Stream B) s a s' :
  m s = (Ok a, s') → (m ≫= k) s = k a s'.
Proof. unfold mbind, Stream_bind. by intros ->. Qed.

Lemma or_wrap_step {A} ctx (m : Stream A) s a s' : m s = (Ok a, s') → or_wrap ctx m s = (Ok a, s').
Proof. unfold or_wrap. by intros ->. Qed.

Lemma Write_step b s :
  env_write (s_env s) (s_writes s) = None → Write b s = (Ok (), add_out s b).
Proof. unfold Write. by intros ->. Qed.

Lemma CloseWrite_step s : env_closeWrite (s_env s) = None → CloseWrite s = (Ok (), s).
Proof. unfold CloseWrite. by intros ->. Qed.

(** Reading bytes the peer has sent. *)
Lemma Read_step n s b rest err :
  inbox s = {| rd_data := b ++ rest; rd_end := err |} → length b = n →
  Read n s = (Ok b, set_in s {| rd_data := rest; rd_end := err |}).
Proof.
  intros H <-. unfold Read, mbind, Stream_bind, Read_partial. rewrite H, ReadFull_app.
  by rewrite bool_decide_eq_false_2, orb_false_r.
Qed.

Lemma Read_be_step n s z rest err :
  inbox s = {| rd_data := be_put n z ++ rest; rd_end := err |} →
  Read_be n s = (Ok (z mod 2 ^ (Z.of_nat n * 8)), set_in s {| rd_data := rest; rd_end := err |}).
Proof.
  intros H. unfold Read_be. erewrite bind_step; [|by apply Read_step; [|apply length_be_put]].
  by rewrite be_get_put.
Qed.

Lemma Read_le_step n s z rest err :
  inbox s = {| rd_data := le_put n z ++ rest; rd_end := err |} →
  Read_le n s = (Ok (z mod 2 ^ (Z.of_nat n * 8)), set_in s {| rd_data := rest; rd_end := err |}).
Proof.
  intros H. unfold Read_le. erewrite bind_step; [|by apply Read_step; [|apply length_le_put]].
  by rewrite le_get_put.
Qed.

Lemma Read_Ok n s b s' :
  Read n s = (Ok b, s') →
  length b = n ∧ rd_data (inbox s) = b ++ rd_data (inbox s') ∧ s_out s' = s_out s.
Proof.
  unfold Read, mbind, Stream_bind, Read_partial.
  destruct (ReadFull n (inbox s)) as [[b' e'] r'] eqn:E. destruct e'; [done|].
  intros [= <- <-]. apply ReadFull_ok in E as (? & ? & ?). done.
Qed.

(** ** Stream code does not panic *)

Definition no_panic {A} (m : Stream A) : Prop := ∀ s w s', m s ≠ (Panic w, s').

Lemma no_panic_ret {A} (a : A) : no_panic (mret a).
Proof. done. Qed.
Lemma no_panic_fail {A} e : no_panic (@stream_fail A e).
Proof. done. Qed.
Lemma no_panic_bind {A B} (m : Stream A) (k : A → Stream B) :
  no_panic m → (∀ a, no_panic (k a)) → no_panic (m ≫= k).
Proof.
  intros Hm Hk s w s'. unfold mbind, Stream_bind.
  destruct (m s) as [[a|e|v] s1] eqn:E; [apply Hk|done|by apply Hm in E].
Qed.
Lemma no_panic_or_wrap {A} ctx (m : Stream A) : no_panic m → no_panic (or_wrap ctx m).
Proof.
  intros Hm s w s'. unfold or_wrap. destruct (m s) as [[a|e|v] s1] eqn:E; [done..|by apply Hm in E].
Qed.
Lemma no_panic_Write b : no_panic (Write b).
Proof. intros s w s'. unfold Write. by case_match. Qed.
Lemma no_panic_CloseWrite : no_panic CloseWrite.
Proof. intros s w s'. unfold CloseWrite. by case_match. Qed.
Lemma no_panic_Read_partial n : no_panic (Read_partial n).
Proof. intros s w s'. unfold Read_partial. by destruct (ReadFull n (inbox s)) as [[? ?] ?]. Qed.
Lemma no_panic_Read n : no_panic (Read n).
Proof. apply no_panic_bind; [apply no_panic_Read_partial|]. by intros [b [e|]]. Qed.
Lemma no_panic_decide {A} (P : Prop) {dec : Decision P} (m1 m2 : Stream A) :
  no_panic m1 → no_panic m2 → no_panic (if decide P then m1 else m2).
Proof. by case_decide. Qed.
Lemma no_panic_if {A} (b : bool) (m1 m2 : Stream A) :
  no_panic m1 → no_panic m2 → no_panic (if b then m1 else m2).
Proof. by destruct b. Qed.
Lemma no_panic_Read_be n : no_panic (Read_be n).
Proof. apply no_panic_bind; [apply no_panic_Read|intros a; apply no_panic_ret]. Qed.
Lemma no_panic_Read_le n : no_panic (Read_le n).
Proof. apply no_panic_bind; [apply no_panic_Read|intros a; apply no_panic_ret]. Qed.
Lemma no_panic_Write_be n z : no_panic (Write_be n z).
Proof. apply no_panic_Write. Qed.
Lemma no_panic_Write_le n z : no_panic (Write_le n z).
Proof. apply no_panic_Write. Qed.

#[export] Hint Resolve no_panic_ret no_panic_fail no_panic_bind no_panic_or_wrap no_panic_Write
  no_panic_CloseWrite no_panic_Read_partial no_panic_Read no_panic_decide no_panic_if
  no_panic_Read_be no_panic_Read_le no_panic_Write_be no_panic_Write_le : pathaware.

Lemma with_stream_no_panic {A} ctx e (body : Stream A) w : no_panic body → with_stream ctx e body ≠ Panic w.
Proof.
  intros Hb. unfold with_stream. destruct (env_open e); [done|].
  destruct (body (dial e)) as [r s] eqn:E. simpl. intros ->. by apply Hb in E.
Qed.

Lemma with_open_stream_no_panic {A} ctx e (body : Stream A) w :
  no_panic body → with_open_stream ctx e body ≠ Some (Panic w).
Proof.
  intros Hb. unfold with_open_stream. destruct (env_open e); [done|].
  destruct (body (dial e)) as [r s] eqn:E. destruct (s_hung s); [done|]. intros [= ->]. by apply Hb in E.
Qed.

(** ** Reading from a stream that ends *)

(** The reader is not kept waiting, so far and in the rest of the stream. *)
Definition flows (s : stream) : Prop := s_hung s = false ∧ rd_end (inbox s) ≠ Stalled.
Definition keeps_flowing {A} (m : Stream A) : Prop := ∀ s, flows s → flows (snd (m s)).

Lemma ReadFull_end n r b e r' :
  ReadFull n r = (b, e, r') → rd_end r' = rd_end r ∧ (rd_end r ≠ Stalled → e ≠ Some Stalled).
Proof.
  unfold ReadFull. case_decide; intros [= <- <- <-]; (split; [done|]); [done|].
  intros Hr. unfold ErrUnexpectedEOF. repeat case_decide; congruence.
Qed.

Lemma flowing_Read_partial n : keeps_flowing (Read_partial n).
Proof.
  intros s [Hh Hr]. unfold Read_partial. destruct (ReadFull n (inbox s)) as [[b e] r] eqn:E.
  apply ReadFull_end in E as [He Hn]. split; [|change (rd_end r ≠ Stalled); by rewrite He].
  simpl. by rewrite Hh, bool_decide_eq_false_2 by by apply Hn.
Qed.
Lemma flowing_ret {A} (a : A) : keeps_flowing (mret a).
Proof. by intros s. Qed.
Lemma flowing_fail {A} e : keeps_flowing (@stream_fail A e).
Proof. by intros s. Qed.
Lemma flowing_bind {A B} (m : Stream A) (k : A → Stream B) :
  keeps_flowing m → (∀ a, keeps_flowing (k a)) → keeps_flowing (m ≫= k).
Proof.
  intros Hm Hk s Hs. apply Hm in Hs. unfold mbind, Stream_bind.
  destruct (m s) as [[a|e|v] s1]; [by apply Hk|done..].
Qed.
Lemma flowing_or_wrap {A} ctx (m : Stream A) : keeps_flowing m → keeps_flowing (or_wrap ctx m).
Proof. intros Hm s Hs. apply Hm in Hs. unfold or_wrap. by destruct (m s) as [r s1]. Qed.
Lemma flowing_Read n : keeps_flowing (Read n).
Proof. apply flowing_bind; [apply flowing_Read_partial|]. intros [b [e|]]; [apply flowing_fail|apply flowing_ret]. Qed.
Lemma flowing_Read_be n : keeps_flowing (Read_be n).
Proof. apply flowing_bind; [apply flowing_Read|intros a; apply flowing_ret]. Qed.
Lemma flowing_decide {A} (P : Prop) {dec : Decision P} (m1 m2 : Stream A) :
  keeps_flowing m1 → keeps_flowing m2 → keeps_flowing (if decide P then m1 else m2).
Proof. by case_decide. Qed.

#[export] Hint Resolve flowing_Read_partial flowing_ret flowing_fail flowing_bind flowing_or_wrap flowing_Read
  flowing_Read_be flowing_decide : pathaware.
