(* ===== verification/Probe.v ===== *)
(** * Ping and path probes ([internal/protocol/ping.go], [probe.go])

    Both protocols are echoes.  The handlers run on the accepted stream, the
    clients on a dialled one; the clock, the nonce and the peer's reply are
    the environment.  The results here are those of pings and probes that
    return: the code sets no deadline on their streams, and a peer that accepts
    one and never answers keeps its client waiting, which for a ping request is
    a matter of the time it takes ([Daemon.su_took]) and for a round of probes
    one of its completion ([Manager.round_complete]). *)

From Stdlib Require Import Init.Byte.
From S2P Require Import Prelude Stream.

(** A handler as the peer of a client: what it writes, then the close of the
    stream, which the client reads as [EOF]. *)
Definition serve (handler : Stream unit) (w : nat → option error) (sent : bytes) : reader :=
  {| rd_data := s_out (snd (handler (accept w (NewReader sent)))); rd_end := EOF |}.

(** ** Ping *)

Definition PingHandler_handleStream : Stream unit :=
  ts ← Read_be 8;
  Write_be 8 ts.

Record PingResult := {
  ping_RTT : Z;
  ping_Peer : string;
  ping_Err : option error
}.

Definition timestamp_mismatch (ts echo : Z) : error :=
  Errorf ("timestamp mismatch: sent " +:+ pretty ts +:+ ", got " +:+ pretty echo).

(** Timestamps are [int64]; on the wire they are their unsigned images. *)
Definition ping_exchange (ts : Z) : Stream Z :=
  _ ← or_wrap "write ping" (Write_be 8 ts);
  _ ← or_wrap "close write" CloseWrite;
  echo ← or_wrap "read pong" (Read_be 8);
  mret (wrap64 echo).

Definition SendPing (e : stream_env) (ts elapsed : Z) (target : string) : PingResult :=
  match with_stream "open stream" e (ping_exchange ts) with
  | Ok echo => {| ping_RTT := elapsed; ping_Peer := target;
      ping_Err := if echo =? ts then None else Some (timestamp_mismatch ts echo) |}
  | Err err => {| ping_RTT := 0; ping_Peer := target; ping_Err := Some err |}
  | Panic w => {| ping_RTT := 0; ping_Peer := target; ping_Err := Some (Errorf w) |}
  end.

(** One ping of a series: the state of the context before it, the stream the
    host opens, the clock. *)
Record ping_step := {
  ps_ctx : option error;
  ps_env : stream_env;
  ps_now : Z;
  ps_elapsed : Z
}.

(** [SendPings]: [count] iterations, cut short when the context is done. *)
Fixpoint SendPings (steps : nat → ping_step) (target : string) (i : nat) (count : nat)
  : list PingResult :=
  match count with
  | O => []
  | S count' =>
      match ps_ctx (steps i) with
      | Some err => [{| ping_RTT := 0; ping_Peer := target; ping_Err := Some err |}]
      | None =>
          SendPing (ps_env (steps i)) (ps_now (steps i)) (ps_elapsed (steps i)) target
          :: SendPings steps target (S i) count'
      end
  end.

(** ** Probes *)

Definition probePayloadSize : nat := 53.

(** [buf[i]++] on a byte slice. *)
Definition incr_byte (b : byte) : byte := byte.of_Z (byte.unsigned b + 1).

Definition ProbeHandler_handleStream : Stream unit :=
  buf ← Read probePayloadSize;
  Write (alter incr_byte 12%nat buf).

Record ProbeResult := {
  RTT : Z;
  res_HopCount : Z;
  PathID : Z;
  res_Target : string;
  RelayPeers : list string;
  res_Err : option error
}.

Record PathInfo := {
  info_ID : Z;                      (* uint32 *)
  info_Target : string;
  info_RelayChain : list string
}.

(** [8B timestamp, 4B path id, 1B hop count, 8B reserved, 32B nonce] *)
Definition probe_payload (now id : Z) (nonce : bytes) : bytes :=
  be_put 8 now ++ be_put 4 id ++ [x00] ++ replicate 8 x00 ++ nonce.

(** The environment of one probe. *)
Record probe_env := {
  pe_stream : string → stream_env;  (* the stream to each peer *)
  pe_now : Z;
  pe_nonce : outcome bytes;         (* [rand.Read] of 32 bytes *)
  pe_elapsed : Z
}.

Definition probe_exchange (payload : bytes) : Stream bytes :=
  _ ← or_wrap "write probe" (Write payload);
  _ ← or_wrap "close write" CloseWrite;
  or_wrap "read probe response" (Read probePayloadSize).

(** The first index from [i] on at which the two slices differ. *)
Fixpoint mismatch (i : nat) (a b : bytes) : option nat :=
  match a, b with
  | x :: a', y :: b' => if decide (x = y) then mismatch (S i) a' b' else Some i
  | _, _ => None
  end.

Definition nonce_mismatch (i : nat) : error :=
  Errorf ("nonce mismatch at byte " +:+ pretty i).
Definition path_id_mismatch (sent got : Z) : error :=
  Errorf ("path ID mismatch: sent " +:+ pretty sent +:+ ", got " +:+ pretty got).

Definition stream_target (path : PathInfo) : string :=
  match info_RelayChain path with [] => info_Target path | r :: _ => r end.

Definition SendProbe (env : probe_env) (path : PathInfo) : ProbeResult :=
  let result rtt hops err :=
    {| RTT := rtt; res_HopCount := hops; PathID := info_ID path;
       res_Target := info_Target path; RelayPeers := info_RelayChain path;
       res_Err := err |} in
  let se := pe_stream env (stream_target path) in
  match env_open se with
  | Some err => result 0 0 (Some (Wrapf "open probe stream" err))
  | None =>
      match wrap_err "generate nonce" (pe_nonce env) with
      | Ok nonce =>
          let payload := probe_payload (pe_now env) (info_ID path) nonce in
          match fst (probe_exchange payload (dial se)) with
          | Ok echo =>
              match mismatch 21 (drop 21 echo) (drop 21 payload) with
              | Some i => result (pe_elapsed env) 0 (Some (nonce_mismatch i))
              | None =>
                  let hops := byte.unsigned (default x00 (echo !! 12%nat)) in
                  let echoPathID := be_get (take 4 (drop 8 echo)) in
                  if echoPathID =? info_ID path then result (pe_elapsed env) hops None
                  else result (pe_elapsed env) hops
                         (Some (path_id_mismatch (info_ID path) echoPathID))
              end
          | Err err => result 0 0 (Some err)
          | Panic w => result 0 0 (Some (Errorf w))
          end
      | Err err => result 0 0 (Some err)
      | Panic w => result 0 0 (Some (Errorf w))
      end
  end.

(** One goroutine per path, each writing the slot of its index; [finish] is
    the order in which the goroutines complete. *)
Definition zero_result : ProbeResult :=
  {| RTT := 0; res_HopCount := 0; PathID := 0; res_Target := ""; RelayPeers := [];
     res_Err := None |}.

Definition SendProbes (finish : list nat) (env : nat → probe_env) (paths : list PathInfo)
  : list ProbeResult :=
  foldl (λ results idx,
    match paths !! idx with
    | Some p => <[idx := SendProbe (env idx) p]> results
    | None => results
    end) (replicate (length paths) zero_result) finish.

(** ** Lemmas *)

Lemma mismatch_None i a b :
  mismatch i a b = None → length a = length b → a = b.
Proof.
  revert i b. induction a as [|x a IH]; intros i [|y b]; simpl; try done.
  case_decide; [|done]. intros Hm Hl. f_equal; [done|]. eapply IH; [done|lia].
Qed.

Lemma mismatch_refl i a : mismatch i a a = None.
Proof. revert i. induction a; intros i; simpl; [done|]. by rewrite decide_True. Qed.

Lemma length_probe_payload now id nonce :
  length nonce = 32%nat → length (probe_payload now id nonce) = probePayloadSize.
Proof. intros Hn. unfold probe_payload. by rewrite !length_app, !length_be_put, length_replicate, Hn. Qed.

Lemma payload_id now id nonce :
  take 4 (drop 8 (probe_payload now id nonce)) = be_put 4 id.
Proof.
  unfold probe_payload. rewrite (drop_app_length' (be_put 8 now)) by by rewrite length_be_put.
  apply take_app_length'. by rewrite length_be_put.
Qed.

Lemma payload_nonce now id nonce : drop 21 (probe_payload now id nonce) = nonce.
Proof.
  unfold probe_payload.
  rewrite (app_assoc (be_put 8 now)), (app_assoc _ [x00]), (app_assoc _ (replicate 8 x00)).
  apply drop_app_length'. by rewrite !length_app, !length_be_put, length_replicate.
Qed.

(** The echo differs from the payload in byte 12 only. *)
Lemma alter_payload now id nonce :
  alter incr_byte 12%nat (probe_payload now id nonce) =
  be_put 8 now ++ be_put 4 id ++ [x01] ++ replicate 8 x00 ++ nonce.
Proof.
  unfold probe_payload. rewrite !(app_assoc (be_put 8 now)).
  set (h := be_put 8 now ++ be_put 4 id).
  assert (12%nat = (length h + 0)%nat) as -> by (unfold h; by rewrite length_app, !length_be_put).
  rewrite alter_app_r. reflexivity.
Qed.

(** ** The echo protocols *)

Lemma ping_handler_echo ts : 
  serve PingHandler_handleStream no_faults (be_put 8 ts) = NewReader (be_put 8 ts).
Proof.
  unfold serve, PingHandler_handleStream, NewReader. f_equal.
  erewrite bind_step; [|apply (Read_be_step 8 _ ts []); by rewrite app_nil_r].
  unfold Write_be. rewrite Write_step by done. apply be_put_mod.
Qed.

Lemma ping_exchange_echo e ts :
  env_write e O = None → env_closeWrite e = None → int64_ok ts →
  env_peer e (be_put 8 ts) = NewReader (be_put 8 ts) →
  fst (ping_exchange ts (dial e)) = Ok ts.
Proof.
  intros Hw Hc Hts Hp. unfold ping_exchange, Write_be.
  erewrite bind_step by by apply or_wrap_step, Write_step.
  erewrite bind_step by by apply or_wrap_step, CloseWrite_step.
  erewrite bind_step; [|apply or_wrap_step, (Read_be_step 8 _ ts [] EOF)];
    [|change (inbox _) with (env_peer e (be_put 8 ts)); by rewrite Hp, app_nil_r].
  simpl. f_equal. unfold wrap64, int64_ok in *. change (2 ^ (8 * 8)) with (2 ^ 64).
  rewrite Zplus_mod_idemp_l, Z.mod_small; lia.
Qed.

Lemma probe_handler_echo payload :
  length payload = probePayloadSize →
  serve ProbeHandler_handleStream no_faults payload = NewReader (alter incr_byte 12%nat payload).
Proof.
  intros Hl. unfold serve, ProbeHandler_handleStream, NewReader. f_equal.
  erewrite bind_step; [|by apply (Read_step _ _ payload []); rewrite ?app_nil_r].
  by rewrite Write_step.
Qed.

Lemma probe_exchange_echo e payload echo :
  env_write e O = None → env_closeWrite e = None →
  env_peer e payload = NewReader echo → length echo = probePayloadSize →
  fst (probe_exchange payload (dial e)) = Ok echo.
Proof.
  intros Hw Hc Hp Hl. unfold probe_exchange.
  erewrite bind_step by by apply or_wrap_step, Write_step.
  erewrite bind_step by by apply or_wrap_step, CloseWrite_step.
  erewrite or_wrap_step; [done|apply (Read_step _ _ echo [] EOF)]; [|done].
  change (inbox _) with (env_peer e payload). by rewrite Hp, app_nil_r.
Qed.

(** A stream that opens, loses no write and leads to the given handler. *)
Definition reliable (e : stream_env) (handler : Stream unit) : Prop :=
  env_open e = None ∧ (∀ k, env_write e k = None) ∧ env_closeWrite e = None ∧
  ∀ sent, env_peer e sent = serve handler no_faults sent.

(** Over a reliable stream to a node that runs the ping handler, a ping
    reports no error and the measured round-trip time. *)
Theorem SendPing_roundtrip (e : stream_env) (ts elapsed : Z) (target : string) :
  reliable e PingHandler_handleStream → int64_ok ts →
  SendPing e ts elapsed target =
    {| ping_RTT := elapsed; ping_Peer := target; ping_Err := None |}.
Proof.
  intros (Ho & Hw & Hc & Hp) Hts. unfold SendPing, with_stream. rewrite Ho.
  rewrite ping_exchange_echo; [by rewrite Z.eqb_refl|done..|].
  by rewrite Hp, ping_handler_echo.
Qed.

(** A series of pings sends as many as asked while the context lives; it
    ends with the context's error in the slot where the context was done,
    and every earlier slot is the result of its own ping. *)
Theorem SendPings_length (steps : nat → ping_step) (target : string) (count : nat) :
  let results := SendPings steps target O count in
  (∀ k, (k < count)%nat → (∀ j, (j < k)%nat → ps_ctx (steps j) = None) →
     results !! k = Some match ps_ctx (steps k) with
       | Some err => {| ping_RTT := 0; ping_Peer := target; ping_Err := Some err |}
       | None => SendPing (ps_env (steps k)) (ps_now (steps k)) (ps_elapsed (steps k)) target
       end) ∧
  ((∀ j, (j < count)%nat → ps_ctx (steps j) = None) → length results = count) ∧
  (∀ k, (k < count)%nat → (∀ j, (j < k)%nat → ps_ctx (steps j) = None) →
     is_Some (ps_ctx (steps k)) → length results = S k).
Proof.
  assert (∀ i, let results := SendPings steps target i count in
    (∀ k, (k < count)%nat → (∀ j, (j < k)%nat → ps_ctx (steps (i + j)%nat) = None) →
       results !! k = Some match ps_ctx (steps (i + k)%nat) with
         | Some err => {| ping_RTT := 0; ping_Peer := target; ping_Err := Some err |}
         | None => SendPing (ps_env (steps (i + k)%nat)) (ps_now (steps (i + k)%nat))
                     (ps_elapsed (steps (i + k)%nat)) target
         end) ∧
    ((∀ j, (j < count)%nat → ps_ctx (steps (i + j)%nat) = None) → length results = count) ∧
    (∀ k, (k < count)%nat → (∀ j, (j < k)%nat → ps_ctx (steps (i + j)%nat) = None) →
       is_Some (ps_ctx (steps (i + k)%nat)) → length results = S k)) as H; [|apply (H O)].
  induction count as [|count IH]; intros i; cbv zeta.
  { split_and!; [lia|done|lia]. }
  specialize (IH (S i)) as (IH1 & IH2 & IH3). simpl.
  assert (∀ n, (∀ j, (j < S n)%nat → ps_ctx (steps (i + j)%nat) = None) →
    ps_ctx (steps i) = None ∧ ∀ j, (j < n)%nat → ps_ctx (steps (S i + j)%nat) = None) as Hsh.
  { intros n Hn. split; [rewrite <-(Nat.add_0_r i); apply Hn; lia|].
    intros j Hj. replace (S i + j)%nat with (i + S j)%nat by lia. apply Hn. lia. }
  split_and!.
  - intros [|k] Hk Hj; [rewrite Nat.add_0_r; by case_match|].
    destruct (Hsh k Hj) as [-> Hj']. replace (i + S k)%nat with (S i + k)%nat by lia.
    apply IH1; [lia|done].
  - intros Hj. destruct (Hsh count Hj) as [-> Hj']. simpl. by rewrite IH2.
  - intros [|k] Hk Hj Hs; [rewrite Nat.add_0_r in Hs; by destruct Hs as [? ->]|].
    destruct (Hsh k Hj) as [-> Hj']. simpl. rewrite (IH3 k); [done|lia|done|].
    by replace (S i + k)%nat with (i + S k)%nat by lia.
Qed.

(** A probe over a reliable stream to a node that runs the probe handler
    succeeds, measures the round trip and counts one hop, for a direct path
    as for a relay path; for a relay path the node reached is the first relay
    of the chain, whatever the streams to the target do. *)
Theorem SendProbe_roundtrip (env : probe_env) (path : PathInfo) (nonce : bytes) :
  reliable (pe_stream env (stream_target path)) ProbeHandler_handleStream →
  pe_nonce env = Ok nonce → length nonce = 32%nat → 0 ≤ info_ID path < 2 ^ 32 →
  SendProbe env path =
    {| RTT := pe_elapsed env; res_HopCount := 1; PathID := info_ID path;
       res_Target := info_Target path; RelayPeers := info_RelayChain path; res_Err := None |}.
Proof.
  intros (Ho & Hw & Hc & Hp) Hn Hl Hid. unfold SendProbe. cbv zeta. rewrite Ho, Hn. cbn [wrap_err].
  set (payload := probe_payload (pe_now env) (info_ID path) nonce).
  set (echo := be_put 8 (pe_now env) ++ be_put 4 (info_ID path) ++ [x01] ++ replicate 8 x00 ++ nonce).
  assert (length payload = probePayloadSize) as Hpl by by apply length_probe_payload.
  rewrite (probe_exchange_echo _ _ echo); [|done..| |].
  - assert (drop 21 echo = drop 21 payload) as ->.
    { unfold echo, payload. rewrite payload_nonce. rewrite !(app_assoc _ _ nonce), !app_assoc.
      apply drop_app_length'. by rewrite !length_app, !length_be_put, length_replicate. }
    rewrite mismatch_refl.
    assert (take 4 (drop 8 echo) = be_put 4 (info_ID path)) as ->.
    { unfold echo. rewrite (drop_app_length' (be_put 8 _)) by by rewrite length_be_put.
      apply take_app_length'. by rewrite length_be_put. }
    rewrite be_get_put, Z.mod_small by done. by rewrite Z.eqb_refl.
  - rewrite Hp, probe_handler_echo by done. unfold payload. by rewrite alter_payload.
  - unfold echo. rewrite !length_app, !length_be_put, length_replicate, Hl. done.
Qed.

Lemma SendProbe_hops env path : 0 ≤ res_HopCount (SendProbe env path) < 256.
Proof.
  unfold SendProbe. cbv zeta.
  destruct (env_open _); [done|]. destruct (wrap_err _ _); [|done..].
  destruct (fst _) as [echo|err|w]; [|done..].
  destruct (mismatch _ _ _); [done|]. by destruct (_ =? _); apply byte.unsigned_range.
Qed.

(** Whatever the peer answers, a probe without error received 53 bytes
    that repeat the nonce and the path id that were sent; its hop count is
    always a byte, zero unless such a reply arrived. *)
Theorem SendProbe_accepts_echo (env : probe_env) (path : PathInfo) :
  let r := SendProbe env path in
  0 ≤ res_HopCount r < 256 ∧ PathID r = info_ID path ∧ res_Target r = info_Target path ∧
  (res_Err r = None →
   RTT r = pe_elapsed env ∧
   ∃ nonce, pe_nonce env = Ok nonce ∧
     let se := pe_stream env (stream_target path) in
     let sent := probe_payload (pe_now env) (info_ID path) nonce in
     let echo := take 53 (rd_data (env_peer se sent)) in
     length echo = 53%nat ∧ be_get (take 4 (drop 8 echo)) = info_ID path ∧
     (length nonce = 32%nat → drop 21 echo = nonce)).
Proof.
  unfold SendProbe. cbv zeta.
  destruct (env_open _) as [err|]; [split_and!; done|].
  destruct (pe_nonce env) as [nonce|err|w] eqn:Hn; [|split_and!; done..]. cbn [wrap_err].
  set (payload := probe_payload (pe_now env) (info_ID path) nonce). set (se := pe_stream env (stream_target path)).
  destruct (probe_exchange payload (dial se)) as [[echo|err|w] s'] eqn:He; [|split_and!; done..].
  assert (0 ≤ byte.unsigned (default x00 (echo !! 12%nat)) < 256) as Hb
    by apply byte.unsigned_range.
  assert (echo = take 53 (rd_data (env_peer se payload)) ∧ length echo = 53%nat) as [Hecho Hl].
  { unfold probe_exchange in He. apply Stream_bind_Ok in He as (? & s1 & H1%or_wrap_Ok & He).
    apply Stream_bind_Ok in He as (? & s2 & H2%or_wrap_Ok & H3%or_wrap_Ok).
    unfold Write in H1. destruct (env_write _ _); [done|]. injection H1 as _ <-.
    unfold CloseWrite in H2. destruct (env_closeWrite _); [done|]. injection H2 as _ <-.
    apply Read_Ok in H3 as (Hl & Heq & _). unfold inbox in Heq at 1. simpl in Heq.
    split; [|done]. rewrite Heq. by rewrite take_app_length'. }
  cbn [fst]. destruct (mismatch 21 (drop 21 echo) (drop 21 payload)) as [i|] eqn:Hm;
    [split_and!; done|].
  destruct (be_get (take 4 (drop 8 echo)) =? info_ID path) eqn:Hid;
    [|by split_and!; try apply Hb].
  split_and!; [apply Hb|apply Hb|done|done|]. intros _. split; [done|]. exists nonce.
  split; [done|]. fold payload. rewrite <-Hecho. zbool. split_and!; [done..|]. intros Hnl.
  apply mismatch_None in Hm; [by rewrite Hm; unfold payload; rewrite payload_nonce|].
  rewrite !length_drop, Hl. unfold payload. by rewrite length_probe_payload.
Qed.

Lemma SendProbes_imap (finish : list nat) (env : nat → probe_env) (paths : list PathInfo) :
  finish ≡ₚ seq 0 (length paths) →
  SendProbes finish env paths = imap (λ i p, SendProbe (env i) p) paths.
Proof.
  intros Hf. apply list_eq. intros i. rewrite list_lookup_imap.
  assert (∀ l rs, NoDup l → length rs = length paths →
    foldl (λ results idx, match paths !! idx with
      | Some p => <[idx := SendProbe (env idx) p]> results | None => results end) rs l !! i
    = if decide (i ∈ l) then (λ p, SendProbe (env i) p) <$> paths !! i else rs !! i) as H.
  { intros l. induction l as [|j l IH]; intros rs Hnd Hl; cbn [foldl].
    { rewrite decide_False; [done|]. apply not_elem_of_nil. }
    apply NoDup_cons in Hnd as [Hj Hnd].
    destruct (paths !! j) as [p|] eqn:Hpj.
    - rewrite IH by (by rewrite ?length_insert). destruct (decide (i ∈ l)).
      + rewrite decide_True by (by right). done.
      + destruct (decide (i = j)) as [->|Hne].
        * rewrite decide_True by (by left). apply lookup_lt_Some in Hpj as Hlt.
          rewrite list_lookup_insert_eq by lia. by rewrite Hpj.
        * rewrite decide_False by (rewrite elem_of_cons; naive_solver).
          by rewrite list_lookup_insert_ne.
    - rewrite IH by done. destruct (decide (i ∈ l)).
      + by rewrite decide_True by (by right).
      + destruct (decide (i = j)) as [->|Hne].
        * rewrite decide_True by (by left). rewrite Hpj. simpl.
          apply lookup_ge_None in Hpj. apply lookup_ge_None. lia.
        * by rewrite decide_False by (rewrite elem_of_cons; naive_solver). }
  unfold SendProbes. rewrite H; [|rewrite Hf; apply NoDup_seq|by rewrite length_replicate].
  case_decide as Hin; [done|]. rewrite Hf, elem_of_seq in Hin.
  rewrite !(proj2 (lookup_ge_None _ _)); [done|lia|rewrite length_replicate; lia].
Qed.

(** The concurrent probes give each path its own result, in the order of
    the paths, whatever the order in which the goroutines finish. *)
Theorem SendProbes_schedule_independent (finish : list nat) (env : nat → probe_env)
    (paths : list PathInfo) :
  finish ≡ₚ seq 0 (length paths) →
  SendProbes finish env paths = imap (λ i p, SendProbe (env i) p) paths.
Proof. apply SendProbes_imap. Qed.

(** ** Concrete inputs *)

Definition connected_to (handler : Stream unit) : stream_env :=
  {| env_open := None; env_write := no_faults; env_closeWrite := None;
     env_peer := serve handler no_faults |}.

Definition unreachable : stream_env :=
  {| env_open := Some (Errorf "no route"); env_write := no_faults; env_closeWrite := None;
     env_peer := λ _, NewReader [] |}.

(** Only the relay can be reached. *)
Definition relay_only : probe_env :=
  {| pe_stream := λ p, if decide (p = "relay") then connected_to ProbeHandler_handleStream
                       else unreachable;
     pe_now := 1700000000000000000; pe_nonce := Ok (replicate 32 x07); pe_elapsed := 42 |}.

Definition relay_path : PathInfo :=
  {| info_ID := 1; info_Target := "target"; info_RelayChain := ["relay"] |}.

Lemma SendPing_roundtrip_witness :
  SendPing (connected_to PingHandler_handleStream) (-5) 7 "peer" =
    {| ping_RTT := 7; ping_Peer := "peer"; ping_Err := None |}.
Proof. apply SendPing_roundtrip; [done|unfold int64_ok; lia]. Defined.

Lemma SendProbe_roundtrip_witness :
  SendProbe relay_only relay_path =
    {| RTT := 42; res_HopCount := 1; PathID := 1; res_Target := "target";
       RelayPeers := ["relay"]; res_Err := None |}.
Proof. apply (SendProbe_roundtrip relay_only relay_path (replicate 32 x07)); by vm_compute. Defined.

Lemma SendProbes_schedule_independent_witness :
  let env (_ : nat) := relay_only in
  let direct := {| info_ID := 0; info_Target := "target"; info_RelayChain := [] |} in
  SendProbes [1; 0]%nat env [direct; relay_path] =
    [SendProbe relay_only direct; SendProbe relay_only relay_path].
Proof.
  apply (SendProbes_schedule_independent [1; 0]%nat (λ _, relay_only)). apply Permutation_swap.
Defined.
