(* ===== verification/Manager.v ===== *)
(** * The path manager ([internal/pathpolicy/manager.go])

    The manager keeps one [PathSet] per target, probes every connected peer
    directly and through every relay peer, prunes stale paths and answers
    path queries with the active policy.  The peers, the relays, the probe
    results and the clock are inputs. *)

From stdpp Require Import sorting.
From S2P Require Import Prelude Float64 Runtime Path Policy Stream Probe.

(** [peer.ID.String], of go-libp2p: the printed form of a peer ID. *)
Class PeerID := { peer_String : string → string }.

(** [s[:8]] *)
Definition first8 (s : string) : outcome string :=
  if decide (8 ≤ String.length s)%nat then Ok (String.substring 0 8 s)
  else Panic "slice bounds out of range".

Section manager.
Context `{ML : MathLib, LA : LinAlg, PID : PeerID}.

Record ManagerConfig := {
  ProbeInterval : Duration;
  ProbeTimeout : Duration;
  PolicyName : string;
  cfg_Epsilon : float64
}.

(** [host] is the host's own peer ID; the context and its cancel function
    only end the probe loop. *)
Record Manager := {
  host : peer_ID;
  policy : Policy;
  probeInterval : Duration;
  probeTimeout : Duration;
  pathSets : gmap peer_ID PathSet
}.

Definition NewManager (h : peer_ID) (cfg : ManagerConfig) : outcome Manager :=
  let epsilon := if fle (cfg_Epsilon cfg) f0 then lit 1 10 else cfg_Epsilon cfg in
  pol ← wrap_err "create policy" (PolicyFromNameWithEpsilon (PolicyName cfg) epsilon);
  mret {| host := h; policy := pol; probeInterval := ProbeInterval cfg;
          probeTimeout := ProbeTimeout cfg; pathSets := ∅ |}.

Definition with_policy (m : Manager) (pol : Policy) : Manager :=
  {| host := host m; policy := pol; probeInterval := probeInterval m;
     probeTimeout := probeTimeout m; pathSets := pathSets m |}.
Definition with_pathSets (m : Manager) (sets : gmap peer_ID PathSet) : Manager :=
  {| host := host m; policy := policy m; probeInterval := probeInterval m;
     probeTimeout := probeTimeout m; pathSets := sets |}.

(** ** Queries *)

(** The selection of the active policy, with the policy's next state; [hour]
    is the hour of the day. *)
Definition select_path (o : order) (hour : Z) (pol : Policy) (ps : PathSet)
  : Rand (option Path * Policy) :=
  match pol with
  | EpsilonGreedyPolicy eps d =>
      p ← EpsilonGreedy_SelectPath eps d (All o ps); mret (p, pol)
  | DecayingEpsilonGreedyPolicy start min rate d n =>
      '(p, n) ← Decaying_SelectPath start min rate d n (All o ps);
      mret (p, DecayingEpsilonGreedyPolicy start min rate d n)
  | UCB1Policy C d st =>
      '(p, st) ← UCB1_SelectPath C d st (All o ps); mret (p, UCB1Policy C d st)
  | ThompsonSamplingPolicy d st =>
      '(p, st) ← Thompson_SelectPath d st (All o ps); mret (p, ThompsonSamplingPolicy d st)
  | ContextualBanditPolicy d a st =>
      '(p, st) ← Contextual_SelectPath d a st hour (All o ps);
      mret (p, ContextualBanditPolicy d a st)
  | _ => p ← Best o ps (Score pol); mret (p, pol)
  end.

Definition BestPath (o : order) (hour : Z) (m : Manager) (target : peer_ID)
  : Rand (option Path * Manager) :=
  match pathSets m !! target with
  | None => mret (None, m)
  | Some ps =>
      '(p, pol) ← select_path o hour (policy m) ps;
      mret (p, with_policy m pol)
  end.

Definition Paths (o : order) (m : Manager) (target : peer_ID) : list Path :=
  match pathSets m !! target with None => [] | Some ps => All o ps end.

Definition AllPaths (o : order) (m : Manager) : gmap peer_ID (list Path) :=
  All o <$> pathSets m.

Definition active_policy_name (m : Manager) : string := Name (policy m).

(** ** Disjoint paths *)

Fixpoint score_paths (pol : Policy) (l : list Path) : Rand (list (Path * float64)) :=
  match l with
  | [] => mret []
  | p :: l' =>
      if 0 <? SampleCount (path_Metrics p) then
        s ← Score pol p;
        rest ← score_paths pol l';
        mret ((p, s) :: rest)
      else score_paths pol l'
  end.

(** The inner loop of the insertion sort: the new last element is swapped to
    the left past every smaller score.  The sorted prefix is held reversed,
    its last element first. *)
Fixpoint sink {A} (x : A * float64) (rprefix : list (A * float64)) : list (A * float64) :=
  match rprefix with
  | [] => [x]
  | y :: r => if fgt (snd x) (snd y) then y :: sink x r else x :: rprefix
  end.

Definition insertion_sort {A} (l : list (A * float64)) : list (A * float64) :=
  rev (foldl (λ rprefix x, sink x rprefix) [] l).

(** Greedy selection of paths that share no relay with the selected ones. *)
Fixpoint pick_disjoint (n : Z) (scored : list (Path * float64)) (usedRelays : gset peer_ID)
    (selected : list Path) : list Path :=
  match scored with
  | [] => selected
  | (p, _) :: scored' =>
      if n <=? zlen selected then selected
      else if existsb (λ r, bool_decide (r ∈ usedRelays)) (path_RelayChain p)
      then pick_disjoint n scored' usedRelays selected
      else pick_disjoint n scored' (list_to_set (path_RelayChain p) ∪ usedRelays)
             (selected ++ [p])
  end.

Definition DisjointPaths (o : order) (m : Manager) (target : peer_ID) (n : Z)
  : Rand (list Path) :=
  match pathSets m !! target with
  | None => mret []
  | Some ps =>
      scored ← score_paths (policy m) (All o ps);
      mret (pick_disjoint n (insertion_sort scored) ∅ [])
  end.

(** ** Probing *)

(** The relay paths to a target: their IDs and what is probed for each. *)
Fixpoint relay_candidates (self target : peer_ID) (relays : list peer_ID) (counter : Z)
  : outcome (list (string * PathInfo)) :=
  match relays with
  | [] => mret []
  | r :: relays' =>
      if bool_decide (r = target) || bool_decide (r = self)
      then relay_candidates self target relays' counter
      else
        t8 ← first8 (peer_String target);
        r8 ← first8 (peer_String r);
        rest ← relay_candidates self target relays' (uwrap 32 (counter + 1));
        mret (("relay-" +:+ t8 +:+ "-via-" +:+ r8,
               {| info_ID := counter; info_Target := target; info_RelayChain := [r] |}) :: rest)
  end.

Definition candidates (self target : peer_ID) (relays : list peer_ID)
  : outcome (list (string * PathInfo)) :=
  t8 ← first8 (peer_String target);
  rest ← relay_candidates self target relays 1;
  mret (("direct-" +:+ t8,
         {| info_ID := 0; info_Target := target; info_RelayChain := [] |}) :: rest).

(** A path seen for the first time. *)
Definition new_path (id : string) (info : PathInfo) : Path :=
  {| path_ID := id; path_Target := info_Target info;
     path_Type := match info_RelayChain info with [] => PathDirect | _ => PathRelay end;
     path_RelayChain := info_RelayChain info; path_Metrics := zero_metrics |}.

Definition set_HopCount (m : PathMetrics) (h : Z) : PathMetrics :=
  {| AvgRTT := AvgRTT m; P95RTT := P95RTT m; Jitter := Jitter m;
     ThroughputEstimate := ThroughputEstimate m; HopCount := h; SuccessRate := SuccessRate m;
     LastProbed := LastProbed m; SampleCount := SampleCount m; rttSamples := rttSamples m |}.

(** A path's metrics after one probe result. *)
Definition update_path (p : Path) (now : Time) (r : ProbeResult) : Path :=
  let success := match res_Err r with None => true | Some _ => false end in
  let m := path_Metrics p in
  let m := if success then set_HopCount m (res_HopCount r) else m in
  set_Metrics p (RecordProbe m now (RTT r) success).

Definition process_result (now : Time) (ps : PathSet) (c : (string * PathInfo) * ProbeResult)
  : PathSet :=
  let '((id, info), r) := c in
  let p := default (new_path id info) (Get ps id) in
  Add ps (update_path p now r).

(** What one round of probes of one target meets. *)
Record probe_round := {
  pr_finish : list nat;              (* order in which the probes complete *)
  pr_env : nat → probe_env;
  pr_now : Time
}.

Definition probeTarget (m : Manager) (target : peer_ID) (relays : list peer_ID)
    (r : probe_round) : outcome Manager :=
  cands ← candidates (host m) target relays;
  let results := SendProbes (pr_finish r) (pr_env r) (snd <$> cands) in
  let ps := default NewPathSet (pathSets m !! target) in
  mret (with_pathSets m
    (<[target := foldl (process_result (pr_now r)) ps (zip cands results)]> (pathSets m))).

(** ** Pruning *)

(** [now.Sub(t)], saturating; the zero time is far in the past. *)
Definition since (now : Time) (t : option Time) : Duration :=
  match t with
  | None => 2 ^ 63 - 1
  | Some t => Z.max (- 2 ^ 63) (Z.min (2 ^ 63 - 1) (now - t))
  end.

Definition is_stale (now : Time) (p : Path) : bool :=
  let m := path_Metrics p in
  (0 <? SampleCount m) && flt (SuccessRate m) (lit 1 10) &&
  (StalePathTimeout <? since now (LastProbed m)).

Fixpoint prune_paths (now : Time) (l : list Path) (ps : PathSet) : outcome PathSet :=
  match l with
  | [] => mret ps
  | p :: l' =>
      if is_stale now p then
        _ ← first8 (peer_String (path_Target p));
        prune_paths now l' (Remove ps (path_ID p))
      else prune_paths now l' ps
  end.

Fixpoint prune_sets (o : order) (now : Time) (l : list (peer_ID * PathSet))
    (sets : gmap peer_ID PathSet) : outcome (gmap peer_ID PathSet) :=
  match l with
  | [] => mret sets
  | (t, ps) :: l' =>
      ps' ← prune_paths now (All o ps) ps;
      prune_sets o now l' (<[t := ps']> sets)
  end.

Definition pruneStalePaths (o : order) (now : Time) (m : Manager) : outcome Manager :=
  sets ← prune_sets o now (range_entries o (pathSets m)) (pathSets m);
  mret (with_pathSets m sets).

Fixpoint probe_targets (m : Manager) (targets : list peer_ID) (relays : list peer_ID)
    (rounds : nat → probe_round) (i : nat) : outcome Manager :=
  match targets with
  | [] => mret m
  | t :: targets' =>
      m' ← probeTarget m t relays (rounds i);
      probe_targets m' targets' relays rounds (S i)
  end.

(** One tick of the probe loop: nothing happens, not even pruning, while no
    peer is connected. *)
Definition probeAll (o : order) (m : Manager) (peers relays : list peer_ID)
    (rounds : nat → probe_round) (now : Time) : outcome Manager :=
  match peers with
  | [] => mret m
  | _ =>
      m' ← probe_targets m peers relays rounds O;
      pruneStalePaths o now m'
  end.

(** ** Disjoint paths: the sort and the greedy selection *)

Section sorted.
Context {A : Type}.
Implicit Types l : list (A * float64).

(** Scores do not increase along the list. *)
Abbreviation by_score := (StronglySorted (λ x y : A * float64, fle (snd y) (snd x) = true)).
Abbreviation by_score_rev := (StronglySorted (λ x y : A * float64, fle (snd x) (snd y) = true)).
Abbreviation numbers l := (Forall (λ x : A * float64, is_nan (snd x) = false) l).

Lemma sink_perm (x : A * float64) rp : sink x rp ≡ₚ x :: rp.
Proof.
  induction rp as [|y rp IH]; simpl; [done|]. case_if; [|done].
  by rewrite IH, Permutation_swap.
Qed.

Lemma insertion_sort_perm l : insertion_sort l ≡ₚ l.
Proof.
  unfold insertion_sort. rewrite <-Permutation_rev.
  assert (∀ rp, foldl (λ rprefix x, sink x rprefix) rp l ≡ₚ l ++ rp) as H;
    [|by rewrite H, app_nil_r].
  induction l as [|x l IH]; intros rp; simpl; [done|].
  by rewrite IH, sink_perm, Permutation_middle.
Qed.

Lemma sink_sorted (x : A * float64) rp :
  numbers (x :: rp) → by_score_rev rp → by_score_rev (sink x rp).
Proof.
  intros [Hnx Hn]%Forall_cons Hsort.
  induction rp as [|y rp IH]; simpl; [by repeat constructor|].
  apply Forall_cons in Hn as [Hny Hn].
  inversion Hsort as [|? ? Hsort' Hall]; subst. case_if.
  - constructor; [by apply IH|]. rewrite (sink_perm x rp). apply Forall_cons.
    split; [by apply fgt_fle|done].
  - assert (fle (snd x) (snd y) = true) as Hle by by apply not_fgt_fle.
    constructor; [done|]. constructor; [done|]. eapply Forall_impl; [exact Hall|].
    intros z Hz. simpl in *. by eapply fle_trans.
Qed.

Lemma by_score_rev_rev l : by_score_rev l → by_score (rev l).
Proof.
  induction 1 as [|p l Hl IH Hall]; simpl; [constructor|].
  apply StronglySorted_app_2; [|done|repeat constructor].
  intros q q' Hq Hq'%list_elem_of_singleton. subst. rewrite Forall_forall in Hall.
  apply Hall. rewrite list_elem_of_In, <-in_rev in Hq. by apply list_elem_of_In.
Qed.

Lemma insertion_sort_by_score l : numbers l → by_score (insertion_sort l).
Proof.
  intros Hn. apply by_score_rev_rev.
  assert (∀ rp, numbers rp → by_score_rev rp →
    by_score_rev (foldl (λ rprefix x, sink x rprefix) rp l)) as H; [|apply H; constructor].
  induction l as [|x l IH]; intros rp Hnr Hsort; simpl; [done|].
  apply Forall_cons in Hn as [Hnx Hn]. apply IH; [done| |].
  - rewrite sink_perm. by constructor.
  - by apply sink_sorted; [constructor|].
Qed.

(** The same, when the scores are those of a function. *)
Lemma insertion_sort_sorted (f : A → float64) l :
  Forall (λ x, snd x = f (fst x)) l → Forall (λ p, is_nan (f (fst p)) = false) l →
  StronglySorted (λ p q, fle (f q) (f p) = true) (fst <$> insertion_sort l).
Proof.
  intros Hs Hn. assert (numbers l) as Hnum.
  { rewrite Forall_forall in *. intros x Hx. rewrite Hs by done. by apply Hn. }
  apply insertion_sort_by_score in Hnum as Hsort.
  assert (Forall (λ x, snd x = f (fst x)) (insertion_sort l)) as Hs' by by rewrite insertion_sort_perm.
  induction Hsort as [|x l' _ IH Hall]; simpl; [constructor|].
  apply Forall_cons in Hs' as [Hx Hs']. constructor; [by apply IH|].
  apply Forall_fmap. rewrite Forall_forall in *. intros y Hy. simpl.
  rewrite <-Hx, <-Hs' by done. by apply Hall.
Qed.

End sorted.

Section disjoint.
Context (f : Path → float64).
Abbreviation by_score := (StronglySorted (λ p q, fle (f q) (f p) = true)).

Lemma conflict_spec (used : gset peer_ID) (sel : list Path) p :
  (∀ r, r ∈ used ↔ ∃ q, q ∈ sel ∧ r ∈ path_RelayChain q) →
  existsb (λ r, bool_decide (r ∈ used)) (path_RelayChain p) = true ↔
  ∃ q, q ∈ sel ∧ ¬ path_RelayChain p ## path_RelayChain q.
Proof.
  intros Hu. rewrite existsb_exists. split.
  - intros (r & Hr%list_elem_of_In & (q & Hq & Hrq)%bool_decide_eq_true%Hu).
    exists q. split; [done|]. intros Hd. by apply (Hd r).
  - intros (q & Hq & Hnd). apply existsb_exists. rewrite existsb_exists.
    destruct (decide (Exists (λ r, r ∈ path_RelayChain q) (path_RelayChain p))) as [He|He].
    + apply Exists_exists in He as (r & Hr & Hrq). exists r.
      rewrite <-list_elem_of_In, bool_decide_eq_true, Hu. eauto.
    + destruct Hnd. intros r Hr Hrq. apply He, Exists_exists. eauto.
Qed.

(** The selection, from any intermediate state of the loop. *)
Lemma pick_disjoint_spec n scored used sel :
  (∀ r, r ∈ used ↔ ∃ q, q ∈ sel ∧ r ∈ path_RelayChain q) →
  by_score (fst <$> scored) →
  (∀ q p, q ∈ sel → p ∈ fst <$> scored → fle (f p) (f q) = true) →
  ∃ extra, pick_disjoint n scored used sel = sel ++ extra ∧
    extra `sublist_of` (fst <$> scored) ∧
    (∀ q p, q ∈ sel → p ∈ extra → path_RelayChain p ## path_RelayChain q) ∧
    StronglySorted (λ q p, path_RelayChain p ## path_RelayChain q) extra ∧
    zlen (sel ++ extra) ≤ Z.max n (zlen sel) ∧
    (zlen (sel ++ extra) < n → ∀ p, p ∈ fst <$> scored →
       p ∈ extra ∨ ∃ q, q ∈ sel ++ extra ∧ ¬ path_RelayChain p ## path_RelayChain q ∧
                        fle (f p) (f q) = true).
Proof.
  revert used sel. induction scored as [|[p s] scored IH]; intros used sel Hu Hsort Hge; simpl.
  { exists []. rewrite app_nil_r. split_and!; [done|done|set_solver|constructor|lia|].
    intros _ p Hp. set_solver. }
  simpl in Hsort. inversion Hsort as [|? ? Hsort' Hall]; subst.
  case_if; zbool.
  { exists []. rewrite app_nil_r. split_and!; [done|apply sublist_nil_l|set_solver|constructor|lia|lia]. }
  pose proof (conflict_spec used sel p Hu) as Hc. destruct (existsb _ _) eqn:E.
  - destruct (IH used sel Hu Hsort') as (extra & -> & Hsub & Hd & Hp & Hlen & Hmax).
    { intros q p' Hq Hp'. apply Hge; [done|]. by right. }
    exists extra. split_and!; [done|by apply sublist_cons|done|done|done|].
    intros Hn p' [->|Hp']%elem_of_cons; [|by apply Hmax].
    right. destruct (proj1 Hc eq_refl) as (q & Hq & Hnd). exists q.
    split_and!; [set_solver|done|apply Hge; [done|by left]].
  - destruct (IH (list_to_set (path_RelayChain p) ∪ used) (sel ++ [p])) as
      (extra & -> & Hsub & Hd & Hp & Hlen & Hmax).
    { intros r. rewrite elem_of_union, elem_of_list_to_set, Hu. set_solver. }
    { done. }
    { intros q p' [Hq|Hq%list_elem_of_singleton]%elem_of_app Hp'.
      - apply Hge; [done|by right].
      - subst q. rewrite Forall_forall in Hall. by apply Hall. }
    exists (p :: extra). rewrite <-app_assoc in *. simpl in *.
    split_and!; [done|by apply sublist_skip| | | |].
    + intros q p' Hq [->|Hp']%elem_of_cons; [|apply Hd; set_solver].
      intros r Hr Hrq. assert (false = true) as []%diff_false_true.
      apply Hc. exists q. split; [done|]. intros Hdis. by apply (Hdis r).
    + constructor; [done|]. apply Forall_forall. intros p' Hp'. apply Hd; set_solver.
    + revert Hlen. rewrite !length_app. simpl. lia.
    + intros Hn p' [->|Hp']%elem_of_cons; [left; by left|].
      destruct (Hmax Hn p' Hp') as [?|(q & Hq & ? & ?)]; [left; by right|right].
      exists q. set_solver.
Qed.

End disjoint.

Lemma score_paths_pure pol l g :
  scores_paths pol →
  score_paths pol l g = ((λ p, (p, score_fn pol p)) <$> viable_paths l, g).
Proof.
  intros Hs. induction l as [|p l IH]; [done|]. simpl. unfold is_viable.
  case_if; [|done]. unfold mbind, Rand_bind. rewrite (Score_score_fn pol Hs p g).
  by rewrite IH.
Qed.

(** ** Well-formed path sets *)

Record path_wf (target : peer_ID) (id : string) (p : Path) : Prop := {
  wf_id : path_ID p = id;
  wf_target : path_Target p = target;
  wf_type : path_Type p = PathDirect ↔ path_RelayChain p = [];
  wf_rate : unit_float (SuccessRate (path_Metrics p));
  wf_hops : 0 ≤ HopCount (path_Metrics p) < 256
}.

Definition set_wf (target : peer_ID) (ps : PathSet) : Prop :=
  map_Forall (path_wf target) ps.
Definition manager_wf (m : Manager) : Prop := map_Forall set_wf (pathSets m).

Lemma path_wf_ok t id p : path_wf t id p → path_ok p.
Proof. intros [_ _ _ (Hv & _) Hh]. split; [by apply nonneg_valid_nonneg|lia]. Qed.

Lemma set_wf_All o t ps : set_wf t ps → Forall path_ok (All o ps).
Proof.
  intros Hwf. apply Forall_forall. intros p [id Hid]%elem_of_range_values.
  eapply path_wf_ok. by apply Hwf.
Qed.

Lemma set_wf_NoDup o t ps : set_wf t ps → NoDup (All o ps).
Proof.
  intros Hwf. unfold All, range_values. rewrite iter_perm.
  apply (NoDup_fmap_1 path_ID). rewrite <-list_fmap_compose.
  rewrite (list_fmap_ext _ fst); [apply NoDup_fst_map_to_list|].
  intros i [id p] Hi%list_elem_of_lookup_2%elem_of_map_to_list. simpl.
  by apply Hwf.
Qed.

Lemma sublist_elem_of {A} (l1 l2 : list A) x : l1 `sublist_of` l2 → x ∈ l1 → x ∈ l2.
Proof. induction 1; set_solver. Qed.

Lemma sublist_sorted {A} (R : A → A → Prop) l1 l2 :
  l1 `sublist_of` l2 → StronglySorted R l2 → StronglySorted R l1.
Proof.
  induction 1 as [|x l1 l2 Hsub IH|x l1 l2 Hsub IH]; intros Hs; [constructor|..];
    inversion Hs as [|? ? Hs' Hall]; subst; [|by apply IH].
  constructor; [by apply IH|]. rewrite Forall_forall in *. intros y Hy.
  apply Hall. by eapply sublist_elem_of.
Qed.

Section laws.
Context {MLaws : MathLaws ML}.

(** C14: on a well-formed manager whose policy scores paths, [DisjointPaths]
    returns at most [n] probed paths of the target, each once, in decreasing
    order of score, no two of which share a relay; and it stops short of [n]
    only when every other probed path shares a relay with a returned path
    that scores at least as high.  Nothing is returned for an unknown
    target. *)
Theorem DisjointPaths_spec (o : order) (m : Manager) (target : peer_ID) (n : Z) (g : rng) :
  manager_wf m → scores_paths (policy m) →
  let f := score_fn (policy m) in
  let known p := ∃ ps id, pathSets m !! target = Some ps ∧ Get ps id = Some p ∧
                          0 < SampleCount (path_Metrics p) in
  let '(sel, g') := DisjointPaths o m target n g in
  g' = g ∧ NoDup sel ∧ Forall known sel ∧ zlen sel ≤ Z.max n 0 ∧
  StronglySorted (λ p q, fle (f q) (f p) = true) sel ∧
  StronglySorted (λ p q, path_RelayChain q ## path_RelayChain p) sel ∧
  (zlen sel < n → ∀ p, known p →
     p ∈ sel ∨ ∃ q, q ∈ sel ∧ ¬ path_RelayChain p ## path_RelayChain q ∧
                    fle (f p) (f q) = true).
Proof.
  intros Hwf Hs f known. unfold DisjointPaths.
  destruct (pathSets m !! target) as [ps|] eqn:Et.
  2: { split_and!; [done|constructor|constructor|simpl; lia|constructor|constructor|].
       intros _ p (ps & id & Hps & _). congruence. }
  pose proof (Hwf _ _ Et) as Hps. unfold mbind, Rand_bind.
  rewrite score_paths_pure by done. cbn [mret Rand_ret].
  set (v := viable_paths (All o ps)). set (l := _ <$> v).
  assert (fst <$> l = v) as Hl.
  { unfold l. rewrite <-list_fmap_compose. by rewrite list_fmap_id. }
  assert (insertion_sort l ≡ₚ l) as Hperm by apply insertion_sort_perm.
  assert (fst <$> insertion_sort l ≡ₚ v) as Hpv by (by rewrite Hperm, Hl).
  assert (StronglySorted (λ p q, fle (f q) (f p) = true) (fst <$> insertion_sort l)) as Hsort.
  { apply insertion_sort_sorted; unfold l; rewrite Forall_fmap.
    - by apply Forall_forall.
    - pose proof (viable_scores_nonneg _ _ Hs (set_wf_All o _ _ Hps)) as Hnn.
      eapply Forall_impl; [exact Hnn|]. intros p Hp. by apply nonneg_not_nan. }
  assert (∀ p, p ∈ v ↔ known p) as Hknown.
  { intros p. unfold v, known, viable_paths, is_viable.
    rewrite elem_of_filter_bool. unfold All. rewrite elem_of_range_values, Z.ltb_lt.
    split; [intros [[id Hid] Hc]; by exists ps, id|].
    intros (ps' & id & [= <-] & Hid & Hc). split; [by exists id|done]. }
  destruct (pick_disjoint_spec f n (insertion_sort l) ∅ []) as
    (sel & -> & Hsub & _ & Hpd & Hlen & Hmax); [set_solver|done|set_solver|]. simpl in *.
  split_and!; [done| | |lia|by eapply sublist_sorted|done|].
  - eapply sublist_NoDup; [|exact Hsub]. rewrite Hpv. apply NoDup_filter_bool.
    by eapply set_wf_NoDup.
  - apply Forall_forall. intros p Hp. apply Hknown. rewrite <-Hpv. by eapply sublist_elem_of.
  - intros Hn p Hp. apply Hmax; [done|]. rewrite Hpv. by apply Hknown.
Qed.

End laws.

(** ** Probing a target *)

Lemma update_path_wf t id p now r :
  path_wf t id p → 0 ≤ res_HopCount r < 256 → path_wf t id (update_path p now r).
Proof.
  intros [Hid Ht Hty Hr Hh] Hres. unfold update_path.
  set (ok := match res_Err r with None => true | Some _ => false end).
  set (m := if ok then _ else _).
  assert (SuccessRate m = SuccessRate (path_Metrics p)) as Hrate by (unfold m; by destruct ok).
  assert (0 ≤ HopCount m < 256) as Hm by (unfold m; by destruct ok).
  destruct (RecordProbe_frame m now (RTT r) ok) as (_ & _ & Hhop & _).
  split; cbn [path_ID path_Target path_Type path_RelayChain path_Metrics set_Metrics];
    [done..| |by rewrite Hhop].
  apply RecordProbe_unit. by rewrite Hrate.
Qed.

Lemma new_path_wf id info : path_wf (info_Target info) id (new_path id info).
Proof.
  split; simpl; [done..| |exact unit_float_f0|lia].
  by destruct (info_RelayChain info).
Qed.

Lemma relay_candidates_target self target relays n l :
  relay_candidates self target relays n = Ok l →
  Forall (λ c, info_Target (snd c) = target) l.
Proof.
  revert n l. induction relays as [|r relays IH]; intros n l; simpl; [by intros [= <-]|].
  case_if; [apply IH|].
  intros (t8 & _ & (r8 & _ & (rest & Hrest & [= <-])%bind_Ok_inv)%bind_Ok_inv)%bind_Ok_inv.
  constructor; [done|by eapply IH].
Qed.

Lemma candidates_target self target relays l :
  candidates self target relays = Ok l → Forall (λ c, info_Target (snd c) = target) l.
Proof.
  intros (t8 & _ & (rest & Hrest & [= <-])%bind_Ok_inv)%bind_Ok_inv.
  constructor; [done|by eapply relay_candidates_target].
Qed.

(** Printed IDs have at least the eight characters the code slices off. *)
Definition long_ids : Prop := ∀ p, (8 ≤ String.length (peer_String p))%nat.

Lemma first8_Ok s : (8 ≤ String.length s)%nat → first8 s = Ok (String.substring 0 8 s).
Proof. intros. unfold first8. by rewrite decide_True. Qed.

Lemma candidates_Ok self target relays :
  long_ids → ∃ l, candidates self target relays = Ok l ∧
    fst <$> head l = Some ("direct-" +:+ String.substring 0 8 (peer_String target)).
Proof.
  intros Hlong. unfold candidates. rewrite first8_Ok by done. simpl.
  assert (∀ n, ∃ l, relay_candidates self target relays n = Ok l) as H.
  { induction relays as [|r relays IH]; intros n; simpl; [by eexists|].
    case_if; [done|]. rewrite !first8_Ok by done. simpl.
    destruct (IH (uwrap 32 (n + 1))) as [l ->]. by eexists. }
  destruct (H 1) as [l ->]. by eexists.
Qed.

(** The fold over the results of one round, for distinct IDs. *)
Definition keyed (ps : PathSet) : Prop := map_Forall (λ id p, path_ID p = id) ps.

Definition round_update (ps : PathSet) (now : Time) (id : string) (info : PathInfo)
    (r : ProbeResult) : Path :=
  update_path (default (new_path id info) (Get ps id)) now r.

Lemma round_update_ID ps now id info r : keyed ps → path_ID (round_update ps now id info r) = id.
Proof.
  intros Hk. unfold round_update. cbn [path_ID update_path set_Metrics].
  destruct (Get ps id) as [p|] eqn:E; [|done]. by apply Hk in E.
Qed.

Lemma process_result_unfold now ps id info r :
  keyed ps → process_result now ps ((id, info), r) = <[id := round_update ps now id info r]> ps.
Proof.
  intros Hk. unfold process_result, Add.
  change (update_path _ now r) with (round_update ps now id info r). by rewrite round_update_ID.
Qed.

#[local] Arguments process_result : simpl never.

Lemma process_results_lookup now cs ps id :
  keyed ps → NoDup ((λ c, fst (fst c)) <$> cs) →
  let ps' := foldl (process_result now) ps cs in
  (∀ info r, ((id, info), r) ∈ cs → Get ps' id = Some (round_update ps now id info r)) ∧
  (id ∉ (λ c, fst (fst c)) <$> cs → Get ps' id = Get ps id).
Proof.
  revert ps. induction cs as [|[[id1 info1] r1] cs IH]; intros ps Hk Hnd; simpl.
  { split; [by intros ? ? ?%not_elem_of_nil|done]. }
  simpl in Hnd. apply NoDup_cons in Hnd as [Hn Hnd].
  rewrite process_result_unfold by done. set (p1 := round_update _ _ _ _ _).
  assert (keyed (<[id1 := p1]> ps)) as Hk1.
  { apply map_Forall_insert_2; [by apply round_update_ID|done]. }
  destruct (IH _ Hk1 Hnd) as [IH1 IH2]. split.
  - intros info r [[= -> -> ->]|Hin]%elem_of_cons.
    + rewrite IH2 by done. unfold Get. by rewrite lookup_insert_eq.
    + rewrite (IH1 _ _ Hin). unfold round_update, Get. rewrite lookup_insert_ne; [done|].
      intros ->. apply Hn. change id with ((λ c : string * PathInfo * ProbeResult, fst (fst c)) (id, info, r)).
      by apply list_elem_of_fmap_2.
  - intros Hid. apply not_elem_of_cons in Hid as [Hne Hid]. rewrite IH2 by done.
    unfold Get. by rewrite lookup_insert_ne.
Qed.

Lemma process_results_wf t now cs ps :
  set_wf t ps → Forall (λ c, info_Target (snd (fst c)) = t ∧ 0 ≤ res_HopCount (snd c) < 256) cs →
  set_wf t (foldl (process_result now) ps cs).
Proof.
  intros Hwf Hcs. revert ps Hwf. induction Hcs as [|[[id info] r] cs [Ht Hh] Hcs IH];
    intros ps Hwf; [done|]. simpl in *. apply IH.
  rewrite process_result_unfold by (intros i p Hp; by apply Hwf).
  apply map_Forall_insert_2; [|done]. apply update_path_wf; [|done].
  unfold Get. destruct (ps !! id) eqn:E; [by apply Hwf|]. rewrite <-Ht. apply new_path_wf.
Qed.

(** A completed round: every probe finished. *)
Definition round_complete (r : probe_round) (n : nat) : Prop := pr_finish r ≡ₚ seq 0 n.

Lemma probeTarget_unfold m target relays r cands :
  candidates (host m) target relays = Ok cands → round_complete r (length cands) →
  probeTarget m target relays r = Ok (with_pathSets m (<[target :=
    foldl (process_result (pr_now r)) (default NewPathSet (pathSets m !! target))
      (zip cands (imap (λ i p, SendProbe (pr_env r i) p) (snd <$> cands)))]> (pathSets m))).
Proof.
  intros Hc Hr. unfold probeTarget. rewrite Hc. simpl.
  rewrite SendProbes_imap; [done|]. by rewrite length_fmap.
Qed.

Lemma Forall_zip_l {A B} (P : A → Prop) (l : list A) (k : list B) :
  Forall P l → Forall (λ c, P (fst c)) (zip l k).
Proof. intros H. revert k. induction H; intros [|y k']; simpl; constructor; auto. Qed.
Lemma Forall_zip_r {A B} (P : B → Prop) (l : list A) (k : list B) :
  Forall P k → Forall (λ c, P (snd c)) (zip l k).
Proof. intros H. revert l. induction H; intros [|y l']; simpl; constructor; auto. Qed.

Lemma round_results_hops env paths :
  Forall (λ r, 0 ≤ res_HopCount r < 256) (imap (λ i p, SendProbe (env i) p) paths).
Proof.
  apply Forall_forall. intros r (i & p & -> & _)%elem_of_lookup_imap_1. apply SendProbe_hops.
Qed.

Lemma default_set_wf m target :
  manager_wf m → set_wf target (default NewPathSet (pathSets m !! target)).
Proof.
  intros Hwf. destruct (pathSets m !! target) eqn:E; [by apply Hwf|]. apply map_Forall_empty.
Qed.

Lemma probeTarget_wf m target relays r cands :
  candidates (host m) target relays = Ok cands → round_complete r (length cands) →
  manager_wf m → ∃ m', probeTarget m target relays r = Ok m' ∧ manager_wf m' ∧ host m' = host m.
Proof.
  intros Hc Hr Hwf. erewrite probeTarget_unfold by done. eexists. split_and!; [done| |done].
  apply map_Forall_insert_2; [|done]. apply process_results_wf; [by apply default_set_wf|].
  apply Forall_and. split.
  - apply (Forall_zip_l (λ c, info_Target (snd c) = target)). by eapply candidates_target.
  - apply (Forall_zip_r (λ r, 0 ≤ res_HopCount r < 256)). apply round_results_hops.
Qed.

Lemma zip_lookup_elem {A B} (l : list A) (k : list B) i a b :
  l !! i = Some a → k !! i = Some b → (a, b) ∈ zip l k.
Proof.
  intros Ha Hb. apply (list_elem_of_lookup_2 _ i). rewrite lookup_zip_with, Ha. simpl.
  by rewrite Hb.
Qed.

(** C15: when the IDs of the candidate paths are distinct, a completed round
    of probes of one target gives every candidate path exactly one update,
    computed from its own probe result and from what was known of the path
    before (nothing, for a new path); it changes no other path of the target
    and no other target.  (A round is completed when all its probes have
    returned.  They have no deadline: a peer that takes a probe and never
    answers keeps the round waiting.) *)
Theorem probeTarget_updates (m : Manager) (target : peer_ID) (relays : list peer_ID)
    (r : probe_round) (cands : list (string * PathInfo)) :
  candidates (host m) target relays = Ok cands → round_complete r (length cands) →
  NoDup (fst <$> cands) → manager_wf m →
  let old := default NewPathSet (pathSets m !! target) in
  ∃ m' ps', probeTarget m target relays r = Ok m' ∧ pathSets m' !! target = Some ps' ∧
    (∀ t, t ≠ target → pathSets m' !! t = pathSets m !! t) ∧
    (∀ i id info, cands !! i = Some (id, info) →
       Get ps' id = Some (round_update old (pr_now r) id info (SendProbe (pr_env r i) info))) ∧
    (∀ id, id ∉ fst <$> cands → Get ps' id = Get old id).
Proof.
  intros Hc Hr Hnd Hwf old. rewrite (probeTarget_unfold _ _ _ _ _ Hc Hr). fold old.
  set (results := imap _ _). set (ps' := foldl _ _ _).
  assert (keyed old) as Hk.
  { intros id p Hp. by apply (default_set_wf m target Hwf) in Hp as []. }
  assert (length results = length cands) as Hl by (unfold results; by rewrite length_imap, length_fmap).
  assert ((λ c, fst (fst c)) <$> zip cands results = fst <$> cands) as Hids.
  { transitivity (fst <$> (fst <$> zip cands results)); [by rewrite <-list_fmap_compose|].
    rewrite fst_zip by lia. done. }
  pose proof (λ id, process_results_lookup (pr_now r) (zip cands results) old id Hk
    ltac:(by rewrite Hids)) as Hps.
  exists (with_pathSets m (<[target := ps']> (pathSets m))), ps'. split_and!; [done| | | |].
  - apply lookup_insert_eq.
  - intros t Ht. by apply lookup_insert_ne.
  - intros i id info Hi. apply (proj1 (Hps id)). eapply zip_lookup_elem; [done|].
    unfold results. by rewrite list_lookup_imap, list_lookup_fmap, Hi.
  - intros id Hid. apply (proj2 (Hps id)). by rewrite Hids.
Qed.

Lemma candidates_prefix self target relays cands c8 :
  (∀ p, ∃ s, peer_String p = c8 +:+ s) → String.length c8 = 8%nat →
  candidates self target relays = Ok cands →
  Forall (λ c, fst c = "direct-" +:+ c8 ∨ fst c = "relay-" +:+ c8 +:+ "-via-" +:+ c8) cands.
Proof.
  intros Hpre Hlen.
  assert (∀ p, first8 (peer_String p) = Ok c8) as H8.
  { intros p. destruct (Hpre p) as [s ->]. rewrite first8_Ok.
    - f_equal. rewrite <-Hlen. clear. induction c8 as [|c c8 IH]; simpl; [by destruct s|].
      by rewrite IH.
    - rewrite string_length_app. lia. }
  unfold candidates. rewrite H8. simpl. intros (rest & Hrest & [= <-])%bind_Ok_inv.
  constructor; [by left|]. revert Hrest. generalize 1 as n. revert rest.
  induction relays as [|r relays IH]; intros rest n; simpl; [by intros [= <-]|].
  case_if; [apply IH|]. rewrite !H8. simpl. intros (l & Hl & [= <-])%bind_Ok_inv.
  constructor; [by right|by eapply IH].
Qed.

(** When the printed IDs of all peers begin with the same eight
    characters, as those of all peers with Ed25519 keys do, a target never
    has more than two paths, the direct one and one shared by all its
    relays, however many relays are probed. *)
Theorem relay_paths_collapse (c8 : string) (m : Manager) (target : peer_ID)
    (relays : list peer_ID) (r : probe_round) (m' : Manager) :
  (∀ p, ∃ s, peer_String p = c8 +:+ s) → String.length c8 = 8%nat →
  pathSets m !! target = None → probeTarget m target relays r = Ok m' →
  ∃ ps, pathSets m' !! target = Some ps ∧ (size ps ≤ 2)%nat ∧
    ∀ id p, Get ps id = Some p →
      id = "direct-" +:+ c8 ∨ id = "relay-" +:+ c8 +:+ "-via-" +:+ c8.
Proof.
  intros Hpre Hlen Hnone. unfold probeTarget. rewrite Hnone.
  intros (cands & Hc & [= <-])%bind_Ok_inv.
  pose proof (candidates_prefix _ _ _ _ _ Hpre Hlen Hc) as Hids.
  set (ids := {["direct-" +:+ c8; "relay-" +:+ c8 +:+ "-via-" +:+ c8]} : gset string).
  simpl. eexists. split; [apply lookup_insert_eq|]. set (cs := zip _ _).
  assert (Forall (λ c, fst (fst c) ∈ ids) cs) as Hcs.
  { apply (Forall_zip_l (λ c, fst c ∈ ids)). eapply Forall_impl; [exact Hids|].
    intros c. unfold ids. set_solver. }
  assert (∀ ps, keyed ps → dom ps ⊆ ids →
    dom (foldl (process_result (pr_now r)) ps cs) ⊆ ids) as Hdom.
  { induction Hcs as [|[[id info] x] cs Hin Hcs IH]; intros ps Hk Hd; [done|]. simpl in *.
    rewrite process_result_unfold by done. apply IH.
    - apply map_Forall_insert_2; [by apply round_update_ID|done].
    - rewrite dom_insert. set_solver. }
  specialize (Hdom NewPathSet (map_Forall_empty _) ltac:(unfold NewPathSet; set_solver)).
  split.
  - rewrite <-size_dom. etrans; [by apply subseteq_size|]. unfold ids.
    rewrite size_union_alt, size_singleton. 
    pose proof (subseteq_size ({["relay-" +:+ c8 +:+ "-via-" +:+ c8]} ∖ {["direct-" +:+ c8]} : gset string)
      {["relay-" +:+ c8 +:+ "-via-" +:+ c8]} ltac:(set_solver)) as Hs.
    rewrite size_singleton in Hs. lia.
  - intros id p Hp. assert (id ∈ ids) as Hin by (apply Hdom, elem_of_dom; by exists p).
    unfold ids in Hin. set_solver.
Qed.

(** ** Pruning *)

Definition fresh (now : Time) (ps : PathSet) : PathSet :=
  filter (λ '(_, p), is_stale now p = false) ps.

Lemma prune_paths_lookup now l ps :
  long_ids → ∃ ps', prune_paths now l ps = Ok ps' ∧
    ∀ id, ps' !! id = if decide (Exists (λ p, is_stale now p = true ∧ path_ID p = id) l)
                      then None else ps !! id.
Proof.
  intros Hlong. revert ps. induction l as [|p l IH]; intros ps; cbn [prune_paths].
  { eexists. split; [done|]. intros id. rewrite decide_False; [done|]. by inversion 1. }
  assert (∀ id, Exists (λ p, is_stale now p = true ∧ path_ID p = id) (p :: l) ↔
    (is_stale now p = true ∧ path_ID p = id) ∨
    Exists (λ p, is_stale now p = true ∧ path_ID p = id) l) as Hcons
    by (intros id; apply Exists_cons).
  destruct (is_stale now p) eqn:Es.
  - rewrite first8_Ok by done. simpl.
    destruct (IH (Remove ps (path_ID p))) as (ps' & -> & Hps'). exists ps'. split; [done|].
    intros id. rewrite Hps'. rewrite (decide_ext _ _ _ _ (Hcons id)). unfold Remove.
    destruct (decide (path_ID p = id)) as [<-|Hne].
    + rewrite lookup_delete_eq. repeat case_decide; naive_solver.
    + rewrite lookup_delete_ne by done. repeat case_decide; naive_solver.
  - destruct (IH ps) as (ps' & -> & Hps'). exists ps'. split; [done|].
    intros id. rewrite Hps', (decide_ext _ _ _ _ (Hcons id)).
    repeat case_decide; naive_solver.
Qed.

Lemma prune_paths_All o now ps :
  long_ids → keyed ps → prune_paths now (All o ps) ps = Ok (fresh now ps).
Proof.
  intros Hlong Hk. destruct (prune_paths_lookup now (All o ps) ps Hlong) as (ps' & -> & Hps').
  f_equal. apply map_eq. intros id. rewrite Hps'. unfold fresh. rewrite map_lookup_filter.
  destruct (ps !! id) as [p|] eqn:E; simpl.
  - case_decide as Hd.
    + apply Exists_exists in Hd as (q & (id' & Hq)%elem_of_range_values & Hs & Hid).
      pose proof (Hk _ _ Hq) as Hk'. simpl in Hk'. rewrite Hid in Hk'. subst id'.
      rewrite E in Hq. injection Hq as ->. case_guard; [congruence|done].
    + case_guard as Hg; [done|]. destruct Hd. apply Exists_exists. exists p.
      split_and!; [apply elem_of_range_values; eauto|by destruct (is_stale now p)|by apply (Hk _ _ E)].
  - by case_decide.
Qed.

Lemma prune_sets_lookup o now l sets :
  long_ids → Forall (λ e, keyed (snd e)) l → NoDup (fst <$> l) →
  ∃ sets', prune_sets o now l sets = Ok sets' ∧
    (∀ t ps, (t, ps) ∈ l → sets' !! t = Some (fresh now ps)) ∧
    (∀ t, t ∉ fst <$> l → sets' !! t = sets !! t).
Proof.
  intros Hlong. revert sets. induction l as [|[t ps] l IH]; intros sets Hk Hnd; simpl.
  { eexists. split_and!; [done|by intros ? ? ?%not_elem_of_nil|done]. }
  apply Forall_cons in Hk as [Hk1 Hk]. simpl in Hnd. apply NoDup_cons in Hnd as [Hn Hnd].
  rewrite prune_paths_All by done. simpl.
  destruct (IH (<[t:=fresh now ps]> sets) Hk Hnd) as (sets' & -> & H1 & H2).
  exists sets'. split_and!; [done| |].
  - intros t' ps' [[= -> ->]|Hin]%elem_of_cons; [|by apply H1].
    rewrite H2 by done. apply lookup_insert_eq.
  - intros t' [Hne Ht']%not_elem_of_cons. rewrite H2 by done. by apply lookup_insert_ne.
Qed.

Lemma pruneStalePaths_eq o now m :
  long_ids → manager_wf m →
  pruneStalePaths o now m = Ok (with_pathSets m (fresh now <$> pathSets m)).
Proof.
  intros Hlong Hwf. unfold pruneStalePaths.
  destruct (prune_sets_lookup o now (range_entries o (pathSets m)) (pathSets m)) as
    (sets' & -> & H1 & H2); [done| | |].
  - apply Forall_forall. intros [t ps] Ht%elem_of_range_entries id p Hp. by apply (Hwf t ps Ht).
  - unfold range_entries. rewrite iter_perm. apply NoDup_fst_map_to_list.
  - simpl. f_equal. f_equal. apply map_eq. intros t. rewrite lookup_fmap.
    destruct (pathSets m !! t) as [ps|] eqn:E; simpl.
    + apply H1. by apply elem_of_range_entries.
    + rewrite H2; [done|]. intros ((t' & ps) & -> & Hin%elem_of_range_entries)%list_elem_of_fmap.
      simpl in E. congruence.
Qed.

Lemma fresh_keeps_wf now m : manager_wf m → manager_wf (with_pathSets m (fresh now <$> pathSets m)).
Proof.
  intros Hwf t ps. simpl. rewrite lookup_fmap. intros (ps0 & Hps & ->)%fmap_Some.
  intros id p [Hp _]%map_lookup_filter_Some. by apply (Hwf t ps0).
Qed.

(** C21: pruning a well-formed manager removes exactly the stale paths, those
    with a sample, a success rate below 0.1 and no probe within the last 30
    minutes, from every target's set, whatever order the runtime iterates
    the maps in, and it keeps the manager well-formed. *)
Theorem pruneStalePaths_exact (o : order) (now : Time) (m : Manager) :
  long_ids → manager_wf m →
  ∃ m', pruneStalePaths o now m = Ok m' ∧ manager_wf m' ∧
    ∀ t id p, (Get <$> pathSets m' !! t) ≫= (λ get, get id) = Some p ↔
      (Get <$> pathSets m !! t) ≫= (λ get, get id) = Some p ∧
      ¬ (0 < SampleCount (path_Metrics p) ∧ flt (SuccessRate (path_Metrics p)) (lit 1 10) = true ∧
         StalePathTimeout < since now (LastProbed (path_Metrics p))).
Proof.
  intros Hlong Hwf. eexists. split_and!; [by apply pruneStalePaths_eq|by apply fresh_keeps_wf|].
  - intros t id p. simpl. rewrite lookup_fmap.
    destruct (pathSets m !! t) as [ps|]; simpl; [|naive_solver].
    unfold Get, fresh. rewrite map_lookup_filter_Some.
    assert (is_stale now p = false ↔
      ¬ (0 < SampleCount (path_Metrics p) ∧ flt (SuccessRate (path_Metrics p)) (lit 1 10) = true ∧
         StalePathTimeout < since now (LastProbed (path_Metrics p)))) as ->; [|done].
    unfold is_stale. rewrite <-not_true_iff_false, !andb_true_iff, !Z.ltb_lt. tauto.
Qed.

(** A path probed within the timeout is not stale, whether or not the probes
    succeeded. *)
Lemma update_path_not_stale p now r later :
  now ≤ later ≤ now + StalePathTimeout → is_stale later (update_path p now r) = false.
Proof.
  intros Hl. unfold is_stale, update_path. cbn [path_Metrics set_Metrics].
  destruct (RecordProbe_frame (if match res_Err r with None => true | _ => false end
    then set_HopCount (path_Metrics p) (res_HopCount r) else path_Metrics p) now (RTT r)
    match res_Err r with None => true | _ => false end) as (_ & -> & _).
  apply andb_false_iff. right. apply Z.ltb_ge. unfold since.
  unfold StalePathTimeout, Minute, Second in *. lia.
Qed.

(** A path is kept for as long as it is probed, even if every probe of
    it fails: a path that was a candidate of a completed round survives every
    pruning within 30 minutes of that round. *)
Theorem probed_path_survives_pruning (o : order) (m : Manager) (target : peer_ID)
    (relays : list peer_ID) (r : probe_round) (cands : list (string * PathInfo)) (later : Time) :
  long_ids → manager_wf m → candidates (host m) target relays = Ok cands →
  round_complete r (length cands) →
  pr_now r ≤ later ≤ pr_now r + StalePathTimeout →
  ∃ m' m'' ps, probeTarget m target relays r = Ok m' ∧ pruneStalePaths o later m' = Ok m'' ∧
    pathSets m'' !! target = Some ps ∧ ∀ id, id ∈ fst <$> cands → is_Some (Get ps id).
Proof.
  intros Hlong Hwf Hc Hr Hl.
  destruct (probeTarget_wf m target relays r cands Hc Hr Hwf) as (m' & Hm' & Hwf' & _).
  exists m', (with_pathSets m' (fresh later <$> pathSets m')).
  rewrite (probeTarget_unfold _ _ _ _ _ Hc Hr) in Hm'. injection Hm' as <-.
  eexists. split_and!; [by apply probeTarget_unfold|by apply pruneStalePaths_eq| |].
  - simpl. rewrite lookup_fmap, lookup_insert_eq. done.
  - set (results := imap _ _). set (old := default _ _).
    assert (length results = length cands) as Hlen
      by (unfold results; by rewrite length_imap, length_fmap).
    assert (fst <$> cands = (λ c, fst (fst c)) <$> zip cands results) as ->.
    { transitivity (fst <$> (fst <$> zip cands results)); [|by rewrite <-list_fmap_compose].
      rewrite fst_zip by lia. done. }
    assert (keyed old) as Hk.
    { intros id p Hp. by apply (default_set_wf m target Hwf) in Hp as []. }
    clearbody old results. clear -Hk Hl.
    intros id Hid. unfold Get, fresh.
    assert (∀ cs ps, keyed ps →
      (id ∈ (λ c, fst (fst c)) <$> cs ∨ ∃ p, ps !! id = Some p ∧ is_stale later p = false) →
      ∃ p, foldl (process_result (pr_now r)) ps cs !! id = Some p ∧ is_stale later p = false) as H.
    { intros cs. induction cs as [|[[id1 info] x] cs IH]; intros ps Hkp Hcase; simpl in *.
      { destruct Hcase as [?%not_elem_of_nil|?]; done. }
      rewrite process_result_unfold by done. apply IH.
      - apply map_Forall_insert_2; [by apply round_update_ID|done].
      - destruct (decide (id1 = id)) as [->|Hne].
        + right. eexists. split; [apply lookup_insert_eq|]. by apply update_path_not_stale.
        + destruct Hcase as [[?|?]%elem_of_cons|(p & Hp & ?)]; [congruence|by left|].
          right. exists p. split; [by rewrite lookup_insert_ne|done]. }
    destruct (H (zip cands results) old Hk (or_introl Hid)) as (p & Hp & Hs).
    exists p. by apply map_lookup_filter_Some.
Qed.

(** ** The best path *)

(** The policies with their own [SelectPath]; the others use [PathSet.Best]. *)
Definition has_SelectPath (pol : Policy) : bool :=
  match pol with
  | EpsilonGreedyPolicy _ _ | DecayingEpsilonGreedyPolicy _ _ _ _ _ | UCB1Policy _ _ _
  | ThompsonSamplingPolicy _ _ | ContextualBanditPolicy _ _ _ => true
  | _ => false
  end.

Lemma selects_elem paths r p : selects paths r → r = Some p → p ∈ paths.
Proof.
  unfold selects. destruct (viable_paths paths) as [|v vs] eqn:E.
  - intros -> H. destruct paths; simpl in H; [done|]. injection H as ->. by left.
  - intros H Hr. apply elem_of_viable. rewrite E. by apply H.
Qed.

Lemma select_path_spec o hour pol ps g :
  let '((r, pol'), _) := select_path o hour pol ps g in
  Name pol' = Name pol ∧ (∀ p, r = Some p → p ∈ All o ps) ∧
  (has_SelectPath pol = true → selects (All o ps) r).
Proof.
  assert (∀ pol', Name pol' = Name pol → ∀ r, selects (All o ps) r →
    Name pol' = Name pol ∧ (∀ p, r = Some p → p ∈ All o ps) ∧
    (has_SelectPath pol = true → selects (All o ps) r)) as Hsel.
  { intros pol' Hn r Hr. split_and!; [done| |done]. intros p. by apply selects_elem. }
  destruct pol; simpl select_path; unfold mbind, Rand_bind.
  5: pose proof (EpsilonGreedy_selects Epsilon pol (All o ps) g) as H;
     destruct (EpsilonGreedy_SelectPath _ _ _ _); by apply Hsel.
  5: pose proof (Decaying_selects EpsilonStart EpsilonMin DecayRate pol selections (All o ps) g) as H;
     destruct (Decaying_SelectPath _ _ _ _ _ _ _) as [[? ?] ?]; by apply Hsel.
  5: pose proof (UCB1_selects C pol st (All o ps) g) as H;
     destruct (UCB1_SelectPath _ _ _ _ _) as [[? ?] ?]; by apply Hsel.
  6: pose proof (Thompson_selects pol st (All o ps) g) as H;
     destruct (Thompson_SelectPath _ _ _ _) as [[? ?] ?]; by apply Hsel.
  6: pose proof (Contextual_selects pol Alpha st hour (All o ps) g) as H;
     destruct (Contextual_SelectPath _ _ _ _ _ _) as [[? ?] ?]; by apply Hsel.
  all: unfold Best;
    match goal with |- context [select_best ?f ?l ?b ?s ?g] =>
      pose proof (λ p, select_best_elem f l b s g p) as He; destruct (select_best f l b s g) end;
    split_and!; [done| |done]; intros p Hp; by destruct (He p Hp).
Qed.

(** For every policy and every state of it, [BestPath] answers nil for an
    unknown target and otherwise a path of the target's set or nil; it leaves
    the path sets and the kind of policy as they are; and a policy with its
    own selection never returns an unprobed path while a probed one is known. *)
Theorem BestPath_selects_known (o : order) (hour : Z) (m : Manager) (target : peer_ID) (g : rng) :
  match pathSets m !! target with
  | None => BestPath o hour m target g = ((None, m), g)
  | Some ps =>
      let '((r, m'), _) := BestPath o hour m target g in
      pathSets m' = pathSets m ∧ active_policy_name m' = active_policy_name m ∧
      (∀ p, r = Some p → ∃ id, Get ps id = Some p) ∧
      (has_SelectPath (policy m) = true → (∃ id q, Get ps id = Some q ∧ is_viable q = true) →
       ∀ p, r = Some p → is_viable p = true)
  end.
Proof.
  unfold BestPath. destruct (pathSets m !! target) as [ps|]; [|done].
  unfold mbind, Rand_bind. pose proof (select_path_spec o hour (policy m) ps g) as H.
  destruct (select_path _ _ _ _ _) as [[r pol'] g']. destruct H as (Hn & Hin & Hsel). simpl.
  split_and!; [done|done| |].
  - intros p Hp. apply (elem_of_range_values o ps p). by apply Hin.
  - intros Hhas (id & q & Hq & Hv) p Hp. specialize (Hsel Hhas). unfold selects in Hsel.
    destruct (viable_paths (All o ps)) as [|v vs] eqn:E.
    + exfalso. apply filter_nil_Forall in E. rewrite Forall_forall in E.
      rewrite E in Hv; [done|]. apply elem_of_range_values. by exists id.
    + apply Hsel in Hp. rewrite <-E in Hp. by apply elem_of_filter_bool in Hp as [_ ?].
Qed.

(** Policies that answer whenever they have a candidate. *)
Definition answers (pol : Policy) : Prop :=
  match pol with
  | EpsilonGreedyPolicy _ d | DecayingEpsilonGreedyPolicy _ _ _ d _ => scores_paths d
  | UCB1Policy C d st =>
      pos_const C ∧ scores_paths d ∧ ucb_ok st ∧ totalSelections st + 1 < 2 ^ 64
  | ThompsonSamplingPolicy _ _ | ContextualBanditPolicy _ _ _ => False
  | _ => scores_paths pol
  end.

Section laws2.
Context {MLaws : MathLaws ML}.

Lemma explore_or_exploit_answers eps pol paths g :
  scores_paths pol → Forall path_ok paths → rng_ok g → viable_paths paths ≠ [] →
  is_Some (fst (explore_or_exploit eps pol (viable_paths paths) g)).
Proof.
  intros Hs Hok Hg Hne.
  destruct (explore_or_exploit_spec eps pol (viable_paths paths) g) as (p & -> & _);
    [done|done|by apply viable_scores_nonneg|done|by eexists].
Qed.

Lemma Best_answers o pol ps g :
  scores_paths pol → Forall path_ok (All o ps) → All o ps ≠ [] →
  ∃ p, Best o ps (Score pol) g = (Some p, g).
Proof.
  intros Hs Hok Hne. unfold Best.
  rewrite (select_best_pure _ (score_fn pol)) by by apply Score_score_fn.
  destruct (pick_nonneg (score_fn pol) (All o ps)) as (q & -> & _); [|done|by eexists].
  eapply Forall_impl; [exact Hok|]. intros. by apply score_fn_nonneg.
Qed.

Lemma select_path_answers o hour pol t ps g :
  answers pol → set_wf t ps → rng_ok g → ps ≠ ∅ →
  is_Some (fst (fst (select_path o hour pol ps g))).
Proof.
  intros Ha Hwf Hg Hne. pose proof (set_wf_All o t ps Hwf) as Hok.
  assert (All o ps ≠ []) as Hall.
  { intros Hn. apply Hne, map_size_empty_inv. rewrite <-(length_range_values o).
    unfold All in Hn. by rewrite Hn. }
  destruct pol; simpl in Ha |- *; try done; unfold mbind, Rand_bind.
  5: { unfold EpsilonGreedy_SelectPath. destruct (All o ps) as [|p0 l] eqn:E; [done|].
       pose proof (explore_or_exploit_answers Epsilon pol (p0 :: l) g Ha Hok Hg) as H.
       destruct (viable_paths (p0 :: l)) as [|v vs]; [by eexists|]. specialize (H ltac:(done)).
       by destruct (explore_or_exploit _ _ _ _). }
  5: { unfold Decaying_SelectPath. destruct (All o ps) as [|p0 l] eqn:E; [done|]. cbv zeta.
       pose proof (explore_or_exploit_answers (CurrentEpsilon EpsilonStart EpsilonMin DecayRate
         (uwrap 64 (selections + 1))) pol (p0 :: l) g Ha Hok Hg) as H.
       destruct (viable_paths (p0 :: l)) as [|v vs]; [by eexists|]. specialize (H ltac:(done)).
       unfold mbind, Rand_bind. by destruct (explore_or_exploit _ _ _ _). }
  5: { destruct Ha as (HC & Hs & Hu & Ht).
       destruct (decide (viable_paths (All o ps) = [])) as [Hv|Hv].
       - unfold UCB1_SelectPath. destruct (All o ps); [done|]. rewrite Hv. by eexists.
       - destruct (UCB1_step C pol st (All o ps) g) as (p & st' & -> & _); [done..|by eexists]. }
  all: match goal with |- context [mret (_, ?p)] =>
      destruct (Best_answers o p ps g Ha Hok Hall) as [q Hq]; simpl in Hq; rewrite Hq; by eexists end.
Qed.

(** With a policy whose scores are determined (every policy by name but
    random, thompson and contextual) and a well-formed manager, [BestPath]
    returns a path exactly when some path to the target is known. *)
Theorem BestPath_answers (o : order) (hour : Z) (m : Manager) (target : peer_ID) (g : rng) :
  manager_wf m → answers (policy m) → rng_ok g →
  is_Some (fst (fst (BestPath o hour m target g))) ↔ Paths o m target ≠ [].
Proof.
  intros Hwf Ha Hg. unfold BestPath, Paths.
  destruct (pathSets m !! target) as [ps|] eqn:E.
  2: { split; [by intros [? ?]|done]. }
  destruct (decide (ps = ∅)) as [->|Hne].
  - assert (All o ∅ = []) as Hnil.
    { apply nil_length_inv. unfold All. by rewrite length_range_values. }
    rewrite Hnil. split; [|done]. pose proof (select_path_spec o hour (policy m) ∅ g) as H.
    unfold mbind, Rand_bind. destruct (select_path _ _ _ _ _) as [[r pol'] g'].
    destruct H as (_ & Hin & _). intros [p Hp]. simpl in Hp.
    apply Hin in Hp. rewrite Hnil in Hp. by apply not_elem_of_nil in Hp.
  - split.
    + intros _ Hn. apply Hne, map_size_empty_inv. rewrite <-(length_range_values o).
      unfold All in Hn. by rewrite Hn.
    + intros _. pose proof (select_path_answers o hour (policy m) target ps g Ha (Hwf _ _ E) Hg Hne) as H.
      unfold mbind, Rand_bind. by destruct (select_path _ _ _ _ _) as [[r pol'] g'].
Qed.

End laws2.

End manager.


(** ** Concrete inputs *)

Section witnesses.
Import Policy.Examples.

(** Printed IDs of Ed25519 peers: a fixed prefix, then the key. *)
#[local] Instance ed25519_ids : PeerID := {| peer_String := λ p, "12D3KooW" +:+ p |}.

Definition relay_via (r : peer_ID) (id : string) (n : Z) (rate : float64) : Path :=
  {| path_ID := id; path_Target := "T"; path_Type := PathRelay; path_RelayChain := [r];
     path_Metrics := sample_metrics n rate |}.
Definition direct_to_T : Path :=
  {| path_ID := "d"; path_Target := "T"; path_Type := PathDirect; path_RelayChain := [];
     path_Metrics := sample_metrics 4 f1 |}.

Definition sample_set : PathSet :=
  {["d" := direct_to_T; "a" := relay_via "R" "a" 3 f1; "b" := relay_via "R" "b" 3 f0]}.

Definition sample_manager : Manager :=
  {| host := "H"; policy := ReliabilityPolicy; probeInterval := 30 * Second;
     probeTimeout := 5 * Second; pathSets := {["T" := sample_set]} |}.

Lemma sample_manager_wf : manager_wf sample_manager.
Proof.
  unfold manager_wf, sample_manager. cbn [pathSets]. apply map_Forall_singleton.
  unfold set_wf, sample_set.
  repeat apply map_Forall_insert_2; [..|apply map_Forall_empty];
    (split; [done|done|split; done|apply unit_check_sound; vm_compute; reflexivity|simpl; lia]).
Qed.

Lemma ed25519_long : long_ids.
Proof. intros p. unfold peer_String, ed25519_ids. rewrite string_length_app. simpl. lia. Qed.

Lemma DisjointPaths_spec_witness :
  let m := sample_manager in
  let f := score_fn (policy m) in
  let known p := ∃ ps id, pathSets m !! "T" = Some ps ∧ Get ps id = Some p ∧
                          0 < SampleCount (path_Metrics p) in
  let g := constant_rng f0 in
  let '(sel, g') := DisjointPaths id_order m "T" 3 g in
  g' = g ∧ NoDup sel ∧ Forall known sel ∧ zlen sel ≤ Z.max 3 0 ∧
  StronglySorted (λ p q, fle (f q) (f p) = true) sel ∧
  StronglySorted (λ p q, path_RelayChain q ## path_RelayChain p) sel ∧
  (zlen sel < 3 → ∀ p, known p →
     p ∈ sel ∨ ∃ q, q ∈ sel ∧ ¬ path_RelayChain p ## path_RelayChain q ∧
                    fle (f p) (f q) = true).
Proof. apply DisjointPaths_spec; [apply sample_manager_wf|done]. Defined.

(** Two of the three paths are disjoint. *)
Example DisjointPaths_two :
  path_ID <$> fst (DisjointPaths rev_order sample_manager "T" 3 (constant_rng f0)) = ["d"; "a"] ∨
  path_ID <$> fst (DisjointPaths rev_order sample_manager "T" 3 (constant_rng f0)) = ["a"; "d"].
Proof. vm_compute. auto. Qed.

Definition sample_round : probe_round :=
  {| pr_finish := [1; 0]%nat; pr_env := λ _, relay_only; pr_now := 1000 |}.

Definition sample_candidates : list (string * PathInfo) :=
  [("direct-12D3KooW", {| info_ID := 0; info_Target := "T"; info_RelayChain := [] |});
   ("relay-12D3KooW-via-12D3KooW",
     {| info_ID := 1; info_Target := "T"; info_RelayChain := ["relay"] |})].

Lemma probeTarget_updates_witness :
  let m := sample_manager in
  let old := default NewPathSet (pathSets m !! "T") in
  ∃ m' ps', probeTarget m "T" ["T"; "relay"; "H"] sample_round = Ok m' ∧
    pathSets m' !! "T" = Some ps' ∧
    (∀ t, t ≠ "T" → pathSets m' !! t = pathSets m !! t) ∧
    (∀ i id info, sample_candidates !! i = Some (id, info) →
       Get ps' id = Some (round_update old 1000 id info (SendProbe relay_only info))) ∧
    (∀ id, id ∉ fst <$> sample_candidates → Get ps' id = Get old id).
Proof.
  apply (probeTarget_updates sample_manager "T" ["T"; "relay"; "H"] sample_round).
  - reflexivity.
  - apply Permutation_swap.
  - apply NoDup_cons. split; [|apply NoDup_singleton]. by intros ?%list_elem_of_singleton.
  - apply sample_manager_wf.
Defined.

Lemma relay_paths_collapse_witness :
  let m := with_pathSets sample_manager ∅ in
  ∃ m' ps, probeTarget m "T" ["r1"; "r2"; "r3"] sample_round = Ok m' ∧
    pathSets m' !! "T" = Some ps ∧ (size ps ≤ 2)%nat ∧
    ∀ id p, Get ps id = Some p → id = "direct-12D3KooW" ∨ id = "relay-12D3KooW-via-12D3KooW".
Proof.
  intros m. destruct (probeTarget m "T" ["r1"; "r2"; "r3"] sample_round) as [m'|e|w] eqn:E;
    [|discriminate E|discriminate E].
  exists m'.
  destruct (relay_paths_collapse "12D3KooW" m "T" ["r1"; "r2"; "r3"] sample_round m')
    as (ps & H); [|done|done|done|by exists ps].
  intros p. by exists p.
Defined.

Lemma pruneStalePaths_exact_witness :
  let m := sample_manager in
  let now := 2 * StalePathTimeout in
  ∃ m', pruneStalePaths id_order now m = Ok m' ∧ manager_wf m' ∧
    ∀ t id p, (Get <$> pathSets m' !! t) ≫= (λ get, get id) = Some p ↔
      (Get <$> pathSets m !! t) ≫= (λ get, get id) = Some p ∧
      ¬ (0 < SampleCount (path_Metrics p) ∧ flt (SuccessRate (path_Metrics p)) (lit 1 10) = true ∧
         StalePathTimeout < since now (LastProbed (path_Metrics p))).
Proof. apply pruneStalePaths_exact; [apply ed25519_long|apply sample_manager_wf]. Defined.

Lemma probed_path_survives_pruning_witness :
  ∃ m' m'' ps, probeTarget sample_manager "T" ["T"; "relay"; "H"] sample_round = Ok m' ∧
    pruneStalePaths id_order (1000 + StalePathTimeout) m' = Ok m'' ∧
    pathSets m'' !! "T" = Some ps ∧
    ∀ id, id ∈ fst <$> sample_candidates → is_Some (Get ps id).
Proof.
  apply (probed_path_survives_pruning id_order sample_manager "T" ["T"; "relay"; "H"] sample_round).
  - apply ed25519_long.
  - apply sample_manager_wf.
  - reflexivity.
  - apply Permutation_swap.
  - unfold StalePathTimeout, Minute, Second. simpl. lia.
Defined.

Lemma BestPath_answers_witness :
  is_Some (fst (fst (BestPath rev_order 0 sample_manager "T" (constant_rng f0)))) ↔
  Paths rev_order sample_manager "T" ≠ [].
Proof.
  apply BestPath_answers; [apply sample_manager_wf|done|].
  apply constant_rng_ok; vm_compute; reflexivity.
Defined.

End witnesses.
