(* ===== verification/Sha256.v ===== *)
(** * SHA-256 and hexadecimal ([crypto/sha256], [encoding/hex], [%x])

    The content identifiers of the program are the hex digits of SHA-256.
    The hash is defined on byte lists with 32-bit words as integers; its
    constants are computed from the primes, as the standard derives them. *)

From Stdlib Require Import Ascii Init.Byte.
From S2P Require Import Prelude.

(** ** 32-bit words *)

Definition w32 (z : Z) : Z := z mod 2 ^ 32.
Definition rotr (n x : Z) : Z := Z.lor (Z.shiftr x n) (w32 (Z.shiftl x (32 - n))).

Definition Sigma0 (x : Z) : Z := Z.lxor (rotr 2 x) (Z.lxor (rotr 13 x) (rotr 22 x)).
Definition Sigma1 (x : Z) : Z := Z.lxor (rotr 6 x) (Z.lxor (rotr 11 x) (rotr 25 x)).
Definition sigma0 (x : Z) : Z := Z.lxor (rotr 7 x) (Z.lxor (rotr 18 x) (Z.shiftr x 3)).
Definition sigma1 (x : Z) : Z := Z.lxor (rotr 17 x) (Z.lxor (rotr 19 x) (Z.shiftr x 10)).
Definition Ch (x y z : Z) : Z := Z.lxor (Z.land x y) (Z.land (Z.lxor x (2 ^ 32 - 1)) z).
Definition Maj (x y z : Z) : Z := Z.lxor (Z.land x y) (Z.lxor (Z.land x z) (Z.land y z)).

(** ** Constants: fractional parts of square and cube roots of primes *)

Definition is_prime (n : nat) : bool :=
  forallb (λ d, negb (n mod d =? 0)%nat) (seq 2 (n - 2)).

Definition primes : list Z :=
  Eval vm_compute in Z.of_nat <$> List.filter is_prime (seq 2 310).

(** The integer cube root below [2 ^ bits], bit by bit. *)
Fixpoint cbrt_bits (bits : nat) (n acc : Z) : Z :=
  match bits with
  | O => acc
  | S b => let acc' := acc + 2 ^ Z.of_nat b in
           cbrt_bits b n (if acc' * acc' * acc' <=? n then acc' else acc)
  end.

Definition round_constants : list Z :=
  Eval vm_compute in (λ p, w32 (cbrt_bits 40 (p * 2 ^ 96) 0)) <$> primes.

Definition initial_hash : list Z :=
  Eval vm_compute in (λ p, w32 (Z.sqrt (p * 2 ^ 64))) <$> take 8 primes.

(** ** The compression function *)

(** The message schedule, newest word first. *)
Fixpoint schedule (n : nat) (rw : list Z) : list Z :=
  match n with
  | O => rev rw
  | S n' =>
      let at_ i := nth i rw 0 in
      schedule n' (w32 (sigma1 (at_ 1%nat) + at_ 6%nat + sigma0 (at_ 14%nat) + at_ 15%nat) :: rw)
  end.

Definition hash_state : Type := Z * Z * Z * Z * Z * Z * Z * Z.

Definition round_step (s : hash_state) (kw : Z * Z) : hash_state :=
  let '(a, b, c, d, e, f, g, h) := s in
  let t1 := h + Sigma1 e + Ch e f g + fst kw + snd kw in
  let t2 := Sigma0 a + Maj a b c in
  (w32 (t1 + t2), a, b, c, w32 (d + t1), e, f, g).

Definition add_state (s t : hash_state) : hash_state :=
  let '(a, b, c, d, e, f, g, h) := s in
  let '(a', b', c', d', e', f', g', h') := t in
  (w32 (a + a'), w32 (b + b'), w32 (c + c'), w32 (d + d'),
   w32 (e + e'), w32 (f + f'), w32 (g + g'), w32 (h + h')).

(** The [n]-word big-endian reading of a block. *)
Fixpoint block_words (n : nat) (b : bytes) : list Z :=
  match n with
  | O => []
  | S n' => be_get (take 4 b) :: block_words n' (drop 4 b)
  end.

Definition compress (s : hash_state) (block : bytes) : hash_state :=
  let w := schedule 48 (rev (block_words 16 block)) in
  add_state s (foldl round_step s (combine round_constants w)).

(** ** Padding and the digest *)

Definition padding (len : nat) : bytes :=
  x80 :: replicate ((119 - len mod 64) mod 64) x00 ++ be_put 8 (8 * Z.of_nat len).

Fixpoint compress_blocks (n : nat) (s : hash_state) (b : bytes) : hash_state :=
  match n with
  | O => s
  | S n' => compress_blocks n' (compress s (take 64 b)) (drop 64 b)
  end.

Definition start_state : hash_state :=
  match initial_hash with
  | [a; b; c; d; e; f; g; h] => (a, b, c, d, e, f, g, h)
  | _ => (0, 0, 0, 0, 0, 0, 0, 0)
  end.

Definition Sum256 (msg : bytes) : bytes :=
  let padded := msg ++ padding (length msg) in
  let '(a, b, c, d, e, f, g, h) :=
    compress_blocks (length padded / 64) start_state padded in
  be_put 4 a ++ be_put 4 b ++ be_put 4 c ++ be_put 4 d ++
  be_put 4 e ++ be_put 4 f ++ be_put 4 g ++ be_put 4 h.

Lemma length_Sum256 msg : length (Sum256 msg) = 32%nat.
Proof.
  unfold Sum256. destruct (compress_blocks _ _ _) as [[[[[[[a b] c] d] e] f] g] h].
  by rewrite !length_app, !length_be_put.
Qed.

#[global] Arguments Sum256 : simpl never.
#[global] Opaque Sum256.

(** ** Hexadecimal *)

Definition hex_digit (n : Z) : ascii :=
  ascii_of_N (Z.to_N (if n <? 10 then 48 + n else 87 + n)).

(** [hex.EncodeToString], and [fmt.Sprintf] with the verb x. *)
Fixpoint hex (b : bytes) : string :=
  match b with
  | [] => EmptyString
  | x :: b' =>
      String (hex_digit (byte.unsigned x / 16))
        (String (hex_digit (byte.unsigned x mod 16)) (hex b'))
  end.

Definition hex_value (c : ascii) : option Z :=
  let n := Z.of_N (N_of_ascii c) in
  if (48 <=? n) && (n <=? 57) then Some (n - 48)
  else if (97 <=? n) && (n <=? 102) then Some (n - 87)
  else if (65 <=? n) && (n <=? 70) then Some (n - 55)
  else None.

(** [hex.DecodeString]: an error on a bad digit or an odd length. *)
Fixpoint unhex (s : string) : outcome bytes :=
  match s with
  | EmptyString => mret []
  | String _ EmptyString => Err (Errorf "encoding/hex: odd length hex string")
  | String c (String d s') =>
      match hex_value c, hex_value d with
      | Some x, Some y => rest ← unhex s'; mret (byte.of_Z (16 * x + y) :: rest)
      | _, _ => Err (Errorf "encoding/hex: invalid byte")
      end
  end.

Lemma hex_value_digit n : 0 ≤ n < 16 → hex_value (hex_digit n) = Some n.
Proof.
  intros Hn. assert (n = 0 ∨ n = 1 ∨ n = 2 ∨ n = 3 ∨ n = 4 ∨ n = 5 ∨ n = 6 ∨ n = 7 ∨ n = 8 ∨
    n = 9 ∨ n = 10 ∨ n = 11 ∨ n = 12 ∨ n = 13 ∨ n = 14 ∨ n = 15) as H by lia.
  by repeat (destruct H as [->|H]; [reflexivity|]); subst.
Qed.

Lemma unhex_hex b : unhex (hex b) = Ok b.
Proof.
  induction b as [|x b IH]; [done|]. simpl.
  pose proof (byte.unsigned_range x).
  rewrite !hex_value_digit by (split; [Z.div_mod_to_equations; lia|
    apply Z.div_lt_upper_bound || apply Z.mod_pos_bound; lia]).
  rewrite IH. simpl. rewrite <-Z.div_mod by lia. by rewrite byte.of_Z_unsigned.
Qed.

Lemma unhex_no_panic s w : unhex s ≠ Panic w.
Proof.
  remember (String.length s) as n eqn:Hn. assert (String.length s ≤ n)%nat as Hle by lia.
  clear Hn. revert s Hle. induction n as [|n IH]; intros [|c [|d s]] Hle; simpl in *; try done; [lia|].
  destruct (hex_value c), (hex_value d); try done.
  specialize (IH s ltac:(lia)). by destruct (unhex s).
Qed.

Lemma hex_inj b c : hex b = hex c → b = c.
Proof. intros H. pose proof (unhex_hex b) as Hb. rewrite H, unhex_hex in Hb. by injection Hb. Qed.

Lemma length_hex b : String.length (hex b) = (2 * length b)%nat.
Proof. induction b as [|x b IH]; [done|]. simpl. rewrite IH. lia. Qed.

(** A digit is never a separator of paths or payloads. *)
Definition is_hex_char (c : ascii) : Prop := is_Some (hex_value c).

Fixpoint all_chars (P : ascii → Prop) (s : string) : Prop :=
  match s with EmptyString => True | String c s' => P c ∧ all_chars P s' end.

Lemma hex_chars b : all_chars is_hex_char (hex b).
Proof.
  induction b as [|x b IH]; [done|]. pose proof (byte.unsigned_range x). simpl.
  unfold is_hex_char. split_and!; [| |done]; rewrite hex_value_digit; eauto;
    split; try (apply Z.div_pos || apply Z.mod_pos_bound); try lia;
    apply Z.div_lt_upper_bound || apply Z.mod_pos_bound; lia.
Qed.

(** Published test vectors. *)
Example Sum256_empty : hex (Sum256 []) =
  "e3b0c44298fc1c149afbf4c8996fb92427ae41e4649b934ca495991b7852b855".
Proof. vm_compute. reflexivity. Qed.
Example Sum256_abc : hex (Sum256 (to_bytes "abc")) =
  "ba7816bf8f01cfea414140de5dae2223b00361a396177a9cb410ff61f20015ad".
Proof. vm_compute. reflexivity. Qed.
Example Sum256_two_blocks : hex (Sum256 (to_bytes
  "abcdbcdecdefdefgefghfghighijhijkijkljklmklmnlmnomnopnopq")) =
  "248d6a61d20638b8e5c026930c3e6039a33ce45964ff2167f6ecedd419db06c1".
Proof. vm_compute. reflexivity. Qed.
