(* ===== verification/Chunker.v ===== *)
(** * Blocks, chunking and manifests ([internal/content/chunker.go]) *)

From S2P Require Import Prelude Float64 Stream Sha256.

Record Block := {
  CID : string;
  Data : bytes
}.
#[export] Instance Block_eq_dec : EqDecision Block.
Proof. solve_decision. Defined.

(** The zero value, returned with errors. *)
Definition zero_block : Block := {| CID := ""; Data := [] |}.

Definition ComputeCID (data : bytes) : string := hex (Sum256 data).

(** A block named by its own hash. *)
Definition block_of (data : bytes) : Block := {| CID := ComputeCID data; Data := data |}.
Definition valid_block (b : Block) : Prop := CID b = ComputeCID (Data b).

Lemma valid_block_of d : valid_block (block_of d).
Proof. reflexivity. Qed.

(** ** Chunk *)

Definition chunk_size_error (n : Z) : error :=
  Errorf ("chunk size must be positive, got " +:+ pretty n).

(** The largest allocation of the Go runtime on 64-bit Linux; [make] panics
    above it.  (Below it, memory may still run out.) *)
Definition maxAlloc : Z := 2 ^ 48.

(** The read loop.  Each iteration but the last consumes a full chunk, so
    [fuel] above the number of bytes to come is never used up. *)
Fixpoint chunk_loop (fuel : nat) (chunkSize : nat) (r : reader) (blocks : list Block)
  : outcome (list Block) :=
  match fuel with
  | O => Panic "out of fuel"
  | S fuel' =>
      let '(data, err, r') := ReadFull chunkSize r in
      let blocks := if decide (data = []) then blocks else blocks ++ [block_of data] in
      match err with
      | Some e =>
          if decide (e = EOF ∨ e = ErrUnexpectedEOF) then Ok blocks
          else Err (Wrapf "read chunk" e)
      | None => chunk_loop fuel' chunkSize r' blocks
      end
  end.

Definition Chunk (r : reader) (chunkSize : Z) : outcome (list Block) :=
  if chunkSize <=? 0 then Err (chunk_size_error chunkSize)
  else if maxAlloc <? chunkSize then Panic "makeslice: len out of range"
  else chunk_loop (S (length (rd_data r))) (Z.to_nat chunkSize) r [].

(** ** Manifests *)

Record Manifest := {
  RootCID : string;
  m_Name : string;
  TotalSize : Z;
  ChunkCIDs : list string;
  PublisherID : string;
  Signature : string
}.
#[export] Instance Manifest_eq_dec : EqDecision Manifest.
Proof. solve_decision. Defined.

Definition BuildManifest (name : string) (totalSize : Z) (blocks : list Block) : Manifest :=
  let cids := CID <$> blocks in
  {| RootCID := hex (Sum256 (concat (to_bytes <$> cids)));
     m_Name := name; TotalSize := totalSize; ChunkCIDs := cids;
     PublisherID := ""; Signature := "" |}.

(** ** AdaptiveChunkSize *)

Definition AdaptiveChunkSize (fileSize : Z) (pathRTTms : float64) (minChunk maxChunk : Z) : Z :=
  let minChunk := if minChunk <=? 0 then 64 * 1024 else minChunk in
  let maxChunk := if maxChunk <=? 0 then 1024 * 1024 else maxChunk in
  if fileSize <=? minChunk then fileSize
  else
    let targetChunks := if fgt pathRTTms (of_int 50) then 4
                        else if flt pathRTTms (of_int 5) then 16 else 8 in
    let chunkSize := Z.quot fileSize targetChunks in
    let chunkSize := if chunkSize <? minChunk then minChunk else chunkSize in
    if maxChunk <? chunkSize then maxChunk else chunkSize.

(** ** The pieces of a byte string *)

(** The reference: consecutive pieces of [n] bytes, the last one shorter. *)
Fixpoint pieces (fuel n : nat) (b : bytes) : list bytes :=
  match fuel, b with
  | S fuel', _ :: _ => take n b :: pieces fuel' n (drop n b)
  | _, _ => []
  end.

Lemma pieces_cons fuel n b :
  b ≠ [] → pieces (S fuel) n b = take n b :: pieces fuel n (drop n b).
Proof. by destruct b. Qed.

Lemma pieces_nil fuel n : pieces fuel n [] = [].
Proof. by destruct fuel. Qed.

Lemma pieces_concat fuel n b : (0 < n)%nat → (length b ≤ fuel)%nat → concat (pieces fuel n b) = b.
Proof.
  intros Hn. revert b. induction fuel as [|fuel IH]; intros b Hl.
  { destruct b; [done|]. simpl in Hl. lia. }
  destruct (decide (b = [])) as [->|Hb]; [done|].
  rewrite pieces_cons by done. simpl. rewrite IH; [apply take_drop|].
  rewrite length_drop. destruct b; [done|]. simpl in *. lia.
Qed.

Lemma pieces_sizes fuel n b : (0 < n)%nat →
  Forall (λ p, 0 < length p ≤ n)%nat (pieces fuel n b) ∧
  ∀ i p, pieces fuel n b !! i = Some p → (S i < length (pieces fuel n b))%nat → length p = n.
Proof.
  intros Hn. revert b. induction fuel as [|fuel IH]; intros b.
  { split; [by destruct b|]. by destruct b. }
  destruct (decide (b = [])) as [->|Hb]; [split; [constructor|done]|].
  rewrite pieces_cons by done. destruct (IH (drop n b)) as [IH1 IH2].
  assert (0 < length b)%nat by (destruct b; [done|simpl; lia]). split.
  - constructor; [|done]. rewrite length_take. lia.
  - intros [|i] p; simpl.
    + intros [= <-] Hl. rewrite length_take, Nat.min_l; [done|].
      destruct (decide (n ≤ length b)%nat); [done|].
      rewrite drop_ge in Hl by lia. rewrite pieces_nil in Hl. simpl in Hl. lia.
    + intros Hi Hl. apply (IH2 i p Hi). lia.
Qed.

Lemma pieces_count fuel n b : (0 < n)%nat → (length b ≤ fuel)%nat →
  zlen (pieces fuel n b) = (zlen b + Z.of_nat n - 1) / Z.of_nat n.
Proof.
  intros Hn. revert b. induction fuel as [|fuel IH]; intros b Hl.
  { destruct b; [|simpl in Hl; lia]. simpl. symmetry. apply Z.div_small. lia. }
  destruct (decide (b = [])) as [->|Hb].
  { rewrite pieces_nil. simpl. symmetry. apply Z.div_small. lia. }
  rewrite pieces_cons by done. cbn [length]. rewrite Nat2Z.inj_succ.
  rewrite IH by (rewrite length_drop; destruct b; [done|simpl in *; lia]).
  rewrite length_drop. destruct (decide (n ≤ length b)%nat).
  - rewrite Nat2Z.inj_sub by lia. rewrite <-Z.add_1_r.
    replace (zlen b + Z.of_nat n - 1) with (1 * Z.of_nat n + (zlen b - 1)) by lia.
    replace (zlen b - Z.of_nat n + Z.of_nat n - 1) with (zlen b - 1) by lia.
    rewrite Z.div_add_l by lia. lia.
  - replace (length b - n)%nat with O by lia.
    assert (0 < length b)%nat by (destruct b; [done|simpl; lia]).
    rewrite Z.div_small by lia.
    apply (Z.div_unique _ _ 1 (zlen b - 1)); lia.
Qed.

(** The loop computes the pieces; how the reader ends decides the result. *)
Lemma chunk_loop_pieces fuel n r blocks :
  (0 < n)%nat → (length (rd_data r) < fuel)%nat →
  chunk_loop fuel n r blocks =
    if decide (rd_end r = EOF ∨ rd_end r = ErrUnexpectedEOF)
    then Ok (blocks ++ (block_of <$> pieces fuel n (rd_data r)))
    else Err (Wrapf "read chunk" (rd_end r)).
Proof.
  intros Hn. revert r blocks. induction fuel as [|fuel IH]; intros [d e] blocks Hl; [lia|].
  simpl in Hl. cbn [chunk_loop]. unfold ReadFull. cbn [rd_data rd_end].
  destruct (decide (n ≤ length d)%nat) as [Hle|Hgt].
  - assert (d ≠ []) by (destruct d; [simpl in *; lia|done]).
    rewrite decide_False by (intros Ht%(f_equal length); rewrite length_take in Ht; simpl in Ht; lia).
    rewrite IH by (simpl; rewrite length_drop; lia). cbn [rd_data rd_end].
    case_decide; [|done]. by rewrite pieces_cons, <-app_assoc.
  - destruct (decide (d = [])) as [->|Hd].
    + rewrite pieces_nil. by case_decide; rewrite ?app_nil_r.
    + rewrite pieces_cons by done. rewrite take_ge, drop_ge, pieces_nil by lia.
      destruct (decide (e = EOF)) as [->|He]; [done|]. by case_decide.
Qed.

(** Chunking complete data. *)
Lemma Chunk_complete data chunkSize blocks :
  Chunk (NewReader data) chunkSize = Ok blocks →
  concat (Data <$> blocks) = data ∧ Forall valid_block blocks.
Proof.
  unfold Chunk. destruct (chunkSize <=? 0) eqn:E; zbool; [done|]. destruct (maxAlloc <? chunkSize); [done|].
  rewrite chunk_loop_pieces, app_nil_l by lia. cbn [NewReader rd_end rd_data].
  rewrite decide_True by by left.
  assert (length data ≤ S (length data))%nat as Hf by lia. revert Hf.
  generalize (S (length data)). intros fuel Hf [= <-]. split.
  - rewrite <-list_fmap_compose, list_fmap_id by done. apply pieces_concat; lia.
  - apply Forall_fmap, Forall_forall. by intros.
Qed.

Lemma Chunk_count data chunkSize blocks :
  Chunk (NewReader data) chunkSize = Ok blocks → zlen blocks ≤ zlen data.
Proof.
  unfold Chunk. destruct (chunkSize <=? 0) eqn:E; zbool; [done|]. destruct (maxAlloc <? chunkSize); [done|].
  rewrite chunk_loop_pieces, app_nil_l by lia. cbn [NewReader rd_end rd_data]. rewrite decide_True by by left.
  assert (length data ≤ S (length data))%nat as Hf by lia. revert Hf.
  generalize (S (length data)). intros fuel Hf [= <-]. rewrite length_fmap, pieces_count by lia.
  rewrite Z2Nat.id by lia. destruct (decide (zlen data = 0)) as [->|Hne].
  - rewrite Z.div_small; lia.
  - apply Z.lt_succ_r, Z.div_lt_upper_bound; [lia|]. nia.
Qed.

(** C26: chunking is total, and right on every branch.  A chunk size that is
    not positive is rejected; one beyond what the runtime can allocate makes
    [make] panic.  For any other, data that ends with [io.EOF] (or with
    [io.ErrUnexpectedEOF], which the code takes for the end as well) is split
    into blocks named by their SHA-256 whose data concatenate to the input,
    every block but the last exactly [chunkSize] long, the last not longer and
    not empty, [ceil(len / chunkSize)] in all; every other read error is
    reported. *)
Theorem Chunk_spec (r : reader) (chunkSize : Z) :
  match Chunk r chunkSize with
  | Ok blocks =>
      0 < chunkSize ≤ 2 ^ 48 ∧ (rd_end r = EOF ∨ rd_end r = ErrUnexpectedEOF) ∧
      concat (Data <$> blocks) = rd_data r ∧ Forall valid_block blocks ∧
      Forall (λ b, 0 < zlen (Data b) ≤ chunkSize) blocks ∧
      (∀ i b, blocks !! i = Some b → (S i < length blocks)%nat → zlen (Data b) = chunkSize) ∧
      zlen blocks = (zlen (rd_data r) + chunkSize - 1) / chunkSize
  | Err e =>
      (chunkSize ≤ 0 ∧ e = chunk_size_error chunkSize) ∨
      (0 < chunkSize ≤ 2 ^ 48 ∧ rd_end r ≠ EOF ∧ rd_end r ≠ ErrUnexpectedEOF ∧
       e = Wrapf "read chunk" (rd_end r))
  | Panic _ => 2 ^ 48 < chunkSize
  end.
Proof.
  unfold Chunk. destruct (chunkSize <=? 0) eqn:E; zbool; [by left|].
  destruct (Z.ltb_spec maxAlloc chunkSize) as [Hm|Hm]; unfold maxAlloc in Hm; [done|].
  rewrite chunk_loop_pieces, app_nil_l by lia.
  set (n := Z.to_nat chunkSize). assert (Z.of_nat n = chunkSize) as Hn by (unfold n; lia).
  set (fuel := S (length (rd_data r))).
  assert (0 < n)%nat as Hn0 by lia. assert (length (rd_data r) ≤ fuel)%nat as Hf by lia.
  case_decide as Hend; [|right; naive_solver].
  destruct (pieces_sizes fuel n (rd_data r) Hn0) as [Hs1 Hs2].
  assert (Data <$> (block_of <$> pieces fuel n (rd_data r)) = pieces fuel n (rd_data r)) as Hd.
  { rewrite <-list_fmap_compose. by rewrite list_fmap_id. }
  split_and!; [done|done|done| | | | |].
  - rewrite Hd. by apply pieces_concat.
  - apply Forall_fmap, Forall_forall. by intros.
  - apply Forall_fmap. eapply Forall_impl; [exact Hs1|]. simpl. lia.
  - intros i b. rewrite list_lookup_fmap, length_fmap.
    destruct (pieces fuel n (rd_data r) !! i) as [p|] eqn:Hi; [|done].
    intros [= <-] Hl. simpl. rewrite (Hs2 i p Hi Hl). done.
  - rewrite length_fmap, pieces_count by done. by rewrite Hn.
Qed.

(** With the limits resolved to [lo <= hi], the adaptive chunk size of a
    file above [lo] lies between them; a file of at most [lo] bytes is one
    chunk; and it is positive and at most the file's size for every file that
    is not empty.  Non-positive limits mean 64 KiB and 1 MiB. *)
Theorem AdaptiveChunkSize_bounds (fileSize : Z) (rtt : float64) (minChunk maxChunk : Z) :
  let lo := if minChunk <=? 0 then 65536 else minChunk in
  let hi := if maxChunk <=? 0 then 1048576 else maxChunk in
  let n := AdaptiveChunkSize fileSize rtt minChunk maxChunk in
  (fileSize ≤ lo → n = fileSize) ∧ (lo < fileSize → n ≤ hi) ∧
  (lo < fileSize → lo ≤ hi → lo ≤ n) ∧
  (0 < fileSize → 0 < n ∧ n ≤ fileSize).
Proof.
  cbv zeta. unfold AdaptiveChunkSize.
  change (64 * 1024) with 65536. change (1024 * 1024) with 1048576.
  set (lo := if minChunk <=? 0 then _ else _). set (hi := if maxChunk <=? 0 then _ else _).
  assert (0 < lo) by (unfold lo; case_if; zbool; lia).
  assert (0 < hi) by (unfold hi; case_if; zbool; lia).
  set (t := if fgt rtt _ then 4 else _).
  assert (t = 4 ∨ t = 8 ∨ t = 16) as Ht by (unfold t; repeat case_if; auto).
  destruct (fileSize <=? lo) eqn:E; zbool; [lia|]. rewrite Z.quot_div_nonneg by lia.
  assert (fileSize / t ≤ fileSize / 4) by (apply Z.div_le_compat_l; lia).
  assert (fileSize / 4 ≤ fileSize) by (apply Z.div_le_upper_bound; lia).
  destruct (fileSize / t <? lo) eqn:E1; [destruct (hi <? lo) eqn:E2|destruct (hi <? fileSize / t) eqn:E2];
    zbool; lia.
Qed.

(** An empty upload cannot be published with adaptive chunking: the
    computed chunk size is zero, which [Chunk] rejects, whereas any fixed
    positive chunk size that can be allocated accepts the empty file. *)
Theorem adaptive_empty_file_rejected (rtt : float64) (minChunk maxChunk fixed : Z) :
  0 < fixed ≤ 2 ^ 48 →
  Chunk (NewReader []) (AdaptiveChunkSize 0 rtt minChunk maxChunk) = Err (chunk_size_error 0) ∧
  Chunk (NewReader []) fixed = Ok [].
Proof.
  intros Hf. split.
  - assert (AdaptiveChunkSize 0 rtt minChunk maxChunk = 0) as ->; [|done].
    unfold AdaptiveChunkSize. by destruct (minChunk <=? 0) eqn:E; zbool;
      [|rewrite (proj2 (Z.leb_le 0 minChunk)) by lia].
  - unfold Chunk, maxAlloc. rewrite (proj2 (Z.leb_gt _ _)), (proj2 (Z.ltb_ge _ _)) by lia. rewrite chunk_loop_pieces; [done|lia|simpl; lia].
Qed.

Lemma adaptive_empty_file_rejected_witness :
  Chunk (NewReader []) (AdaptiveChunkSize 0 f1 0 0) = Err (chunk_size_error 0) ∧
  Chunk (NewReader []) 262144 = Ok [].
Proof. apply adaptive_empty_file_rejected. lia. Defined.

(** ** What a root CID commits to *)

(** Two different messages with the same digest. *)
Definition sha256_collision : Prop := ∃ x y, x ≠ y ∧ Sum256 x = Sum256 y.

Lemma ComputeCID_binding x y : ComputeCID x = ComputeCID y → x = y ∨ sha256_collision.
Proof.
  intros H%hex_inj. destruct (decide (x = y)); [by left|right]. by exists x, y.
Qed.

Lemma length_ComputeCID d : length (to_bytes (ComputeCID d)) = 64%nat.
Proof.
  unfold ComputeCID, to_bytes.
  assert (∀ s, length (String.list_byte_of_string s) = String.length s) as ->.
  { intros s. induction s as [|c s IH]; [done|].
    change (S (length (String.list_byte_of_string s)) = S (String.length s)). by rewrite IH. }
  by rewrite length_hex, length_Sum256.
Qed.

Lemma concat_inj_fixed {A} (n : nat) (l1 l2 : list (list A)) :
  (0 < n)%nat → Forall (λ x, length x = n) l1 → Forall (λ x, length x = n) l2 →
  concat l1 = concat l2 → l1 = l2.
Proof.
  intros Hn H1. revert l2. induction H1 as [|x l1 Hx H1 IH]; intros l2 H2 Heq.
  - destruct H2 as [|y l2 Hy]; [done|]. simpl in Heq.
    assert (length (y ++ concat l2) = O) as H by by rewrite <-Heq.
    rewrite length_app in H. lia.
  - destruct H2 as [|y l2 Hy H2]; simpl in Heq.
    + assert (length (x ++ concat l1) = O) as H by by rewrite Heq.
      rewrite length_app in H. lia.
    + apply app_inj_1 in Heq as [-> Heq]; [|lia]. f_equal. by apply IH.
Qed.

Lemma fmap_binding (l1 l2 : list Block) :
  Forall valid_block l1 → Forall valid_block l2 → CID <$> l1 = CID <$> l2 →
  l1 = l2 ∨ sha256_collision.
Proof.
  intros H1. revert l2. induction H1 as [|b1 l1 Hb1 H1 IH]; intros l2 H2 Heq.
  { left. by destruct l2. }
  destruct H2 as [|b2 l2 Hb2 H2]; [done|]. simpl in Heq. injection Heq as Hc Heq.
  destruct (IH l2 H2 Heq) as [->|?]; [|by right].
  unfold valid_block in *. destruct (ComputeCID_binding (Data b1) (Data b2)) as [Hd|?];
    [congruence| |by right].
  left. f_equal. destruct b1, b2. simpl in *. by subst.
Qed.


