(* ===== verification/Codec.v ===== *)
(** * Go values as JSON (struct tags of [internal/content/], [internal/node/])

    How [encoding/json] reads and writes the types the program stores and
    receives: manifests, lists of pins and request bodies.  Decoding follows
    the decoder of the Standard Library: fields are found by name without
    regard to case, unknown members are skipped, later members overwrite
    earlier ones, [null] leaves a value as it is, and any other mismatch is
    an error. *)

From Stdlib Require Import Init.Byte.
From S2P Require Import Prelude Float64 Stream Sha256 Chunker Utf8 Json.

(** ** Names *)

(** [foldName]: ASCII letters are raised; two other runes fold to an ASCII
    letter, U+017F to [S] and U+212A to [K].  What other runes fold to does
    not matter, the names of the program's fields are ASCII. *)
Fixpoint foldName (s : bytes) : bytes :=
  match s with
  | xc5 :: xbf :: s' => x53 :: foldName s'
  | xe2 :: x84 :: xaa :: s' => x4b :: foldName s'
  | c :: s' => (if between 97 122 c then of_code (code c - 32) else c) :: foldName s'
  | [] => []
  end.

Definition names (field key : string) : bool :=
  bool_decide (foldName (to_bytes key) = foldName (to_bytes field)).

(** Which field a key names, for closed names. *)
Ltac read_names :=
  repeat match goal with
  | |- context [names ?a ?b] => let x := eval vm_compute in (names a b) in change (names a b) with x
  end; cbv iota.

(** ** Scalars *)

Definition decode_string (old : string) (v : json) : option string :=
  match v with JString s => Some s | JNull => Some old | _ => None end.

Definition decode_int64 (old : Z) (v : json) : option Z :=
  match v with JNumber lit => ParseInt lit | JNull => Some old | _ => None end.

(** ** Slices of strings *)

(** A slice and what its backing array still holds after it: an array that is
    decoded into a slice reuses the elements, and [null] elements show what
    was there before. *)
Record slice := { backing : list string; visible : nat }.

Definition nil_slice : slice := {| backing := []; visible := 0 |}.
Definition elements_of (s : slice) : list string := take (visible s) (backing s).

Fixpoint decode_elements (old : list string) (l : list json) : option (list string) :=
  match l with
  | [] => Some []
  | v :: l' =>
      x ← decode_string (default "" (head old)) v;
      rest ← decode_elements (tail old) l';
      Some (x :: rest)
  end.

Definition decode_slice (old : slice) (v : json) : option slice :=
  match v with
  | JNull => Some nil_slice
  | JArray [] => Some nil_slice
  | JArray l =>
      xs ← decode_elements (backing old) l;
      Some {| backing := xs ++ drop (length l) (backing old); visible := length l |}
  | _ => None
  end.

(** ** Structures *)

(** The members of an object, in order, into the fields of a structure; [null]
    leaves the structure as it is. *)
Definition decode_struct {A} (field : A → string → json → option A) (old : A) (v : json) : option A :=
  match v with
  | JNull => Some old
  | JObject l => foldl (λ acc '(k, x), a ← acc; field a k x) (Some old) l
  | _ => None
  end.

(** *** [content.Manifest] *)

Record manifest_state := {
  ms_manifest : Manifest;       (* but for the chunks *)
  ms_chunks : slice
}.

Definition zero_manifest : Manifest :=
  {| RootCID := ""; m_Name := ""; TotalSize := 0; ChunkCIDs := []; PublisherID := ""; Signature := "" |}.

Definition manifest_field (st : manifest_state) (k : string) (v : json) : option manifest_state :=
  let m := ms_manifest st in
  let set root name size pub sig :=
    {| ms_manifest := {| RootCID := root; m_Name := name; TotalSize := size; ChunkCIDs := [];
                         PublisherID := pub; Signature := sig |}; ms_chunks := ms_chunks st |} in
  if names "root_cid" k then
    s ← decode_string (RootCID m) v;
    Some (set s (m_Name m) (TotalSize m) (PublisherID m) (Signature m))
  else if names "name" k then
    s ← decode_string (m_Name m) v;
    Some (set (RootCID m) s (TotalSize m) (PublisherID m) (Signature m))
  else if names "total_size" k then
    n ← decode_int64 (TotalSize m) v;
    Some (set (RootCID m) (m_Name m) n (PublisherID m) (Signature m))
  else if names "chunk_cids" k then
    c ← decode_slice (ms_chunks st) v;
    Some {| ms_manifest := m; ms_chunks := c |}
  else if names "publisher_id" k then
    s ← decode_string (PublisherID m) v;
    Some (set (RootCID m) (m_Name m) (TotalSize m) s (Signature m))
  else if names "signature" k then
    s ← decode_string (Signature m) v;
    Some (set (RootCID m) (m_Name m) (TotalSize m) (PublisherID m) s)
  else Some st.

Definition finish_manifest (st : manifest_state) : Manifest :=
  let m := ms_manifest st in
  {| RootCID := RootCID m; m_Name := m_Name m; TotalSize := TotalSize m;
     ChunkCIDs := elements_of (ms_chunks st); PublisherID := PublisherID m; Signature := Signature m |}.

Definition decode_manifest (v : json) : option Manifest :=
  finish_manifest <$> decode_struct manifest_field {| ms_manifest := zero_manifest; ms_chunks := nil_slice |} v.

(** The publisher and the signature are left out when empty. *)
Definition omitempty (k s : string) : list (string * json) :=
  if decide (s = "") then [] else [(k, JString s)].

Definition strings_json (l : list string) : json := JArray (JString <$> l).

Definition manifest_json (m : Manifest) : json :=
  JObject ([("root_cid", JString (RootCID m)); ("name", JString (m_Name m));
            ("total_size", JNumber (FormatInt (TotalSize m)));
            ("chunk_cids", strings_json (ChunkCIDs m))] ++
           omitempty "publisher_id" (PublisherID m) ++ omitempty "signature" (Signature m)).

(** ** The calls of the program *)

Section calls.
Context {JE : JSONErrors}.

Definition decoded {A} (data : bytes) (r : option A) : outcome A :=
  match r with Some a => Ok a | None => Err (json_error data) end.

Definition Marshal_Manifest (m : Manifest) : bytes := MarshalIndent (manifest_json m).
Definition Unmarshal_Manifest (data : bytes) : outcome Manifest :=
  decoded data (v ← Parse data; decode_manifest v).

Definition Marshal_strings (l : list string) : bytes := Marshal (strings_json l).
Definition Unmarshal_strings (data : bytes) : outcome (list string) :=
  decoded data (v ← Parse data; elements_of <$> decode_slice nil_slice v).

(** A request body that is a structure of strings: the values of the given
    fields. *)
Definition string_fields (fields : list string) (st : list string) (k : string) (v : json)
  : option (list string) :=
  match List.find (λ p, names (snd p) k) (imap pair fields) with
  | Some (i, _) => s ← decode_string (default "" (st !! i)) v; Some (<[i := s]> st)
  | None => Some st
  end.

Definition Decode_strings (fields : list string) (body : bytes) : outcome (list string) :=
  decoded body (v ← Decode body;
                decode_struct (string_fields fields) (replicate (length fields) "") v).

(** ** Round trips *)

Definition fix_manifest (m : Manifest) : Manifest :=
  {| RootCID := fix_string (RootCID m); m_Name := fix_string (m_Name m); TotalSize := TotalSize m;
     ChunkCIDs := fix_string <$> ChunkCIDs m; PublisherID := fix_string (PublisherID m);
     Signature := fix_string (Signature m) |}.

Definition manifest_valid (m : Manifest) : bool :=
  valid_string (RootCID m) && valid_string (m_Name m) && forallb valid_string (ChunkCIDs m) &&
  valid_string (PublisherID m) && valid_string (Signature m).

Lemma fix_strings_valid l : forallb valid_string l = true → fix_string <$> l = l.
Proof.
  induction l as [|s l IH]; [done|]. cbn [forallb]. intros [Hs Hl]%andb_true_iff.
  by rewrite fmap_cons, fix_string_valid, IH.
Qed.

Lemma fix_manifest_valid m : manifest_valid m = true → fix_manifest m = m.
Proof.
  unfold manifest_valid. intros [[[[H1 H2]%andb_true_iff H3]%andb_true_iff H4]%andb_true_iff H5]%andb_true_iff.
  unfold fix_manifest. rewrite !fix_string_valid, fix_strings_valid by done. by destruct m.
Qed.

Lemma decode_elements_strings old l :
  length old = 0%nat → decode_elements old (JString <$> l) = Some l.
Proof.
  intros Ho. destruct old; [|done]. induction l as [|s l IH]; [done|].
  rewrite fmap_cons. simpl. by rewrite IH.
Qed.

Lemma decode_slice_strings l :
  elements_of <$> decode_slice nil_slice (strings_json l) = Some l.
Proof.
  unfold strings_json. destruct l as [|s l]; [done|].
  unfold decode_slice. rewrite fmap_cons. cbn [mbind option_bind].
  rewrite <-fmap_cons, decode_elements_strings by done. cbn [mbind option_bind].
  unfold elements_of, nil_slice. cbn [fmap option_fmap option_map backing visible].
  by rewrite drop_nil, app_nil_r, length_fmap, take_ge.
Qed.

Lemma sanitize_strings l : sanitize (strings_json l) = strings_json (fix_string <$> l).
Proof.
  unfold strings_json. cbn [sanitize]. f_equal. induction l as [|s l IH]; [done|].
  rewrite !fmap_cons. f_equal. exact IH.
Qed.

Lemma fits_strings d l : fits (S d) (strings_json l).
Proof. simpl. apply Forall_fmap, Forall_forall. intros s _. by destruct d. Qed.

Lemma maxNestingDepth_two : ∃ d, maxNestingDepth = S (S d).
Proof. exists (Z.to_nat 9998). with_strategy transparent [maxNestingDepth] (unfold maxNestingDepth). lia. Qed.

Lemma fits_manifest d m : number_ok (FormatInt (TotalSize m)) → fits (S (S d)) (manifest_json m).
Proof.
  intros Hn. unfold manifest_json. cbn [fits]. rewrite fmap_app, Forall_app. split.
  - repeat constructor; [done|apply fits_strings].
  - unfold omitempty. repeat case_decide; repeat constructor.
Qed.

(** The fields of a printed manifest, read one after the other. *)
Lemma sanitize_omitempty k s :
  fix_string k = k →
  List.map (λ '(k, x), (fix_string k, sanitize x)) (omitempty k s) =
  (if decide (s = "") then [] else [(k, JString (fix_string s))]).
Proof. intros Hk. unfold omitempty. case_decide; [done|]. cbn. by rewrite Hk. Qed.

Lemma decode_manifest_json m :
  ParseInt (FormatInt (TotalSize m)) = Some (TotalSize m) →
  decode_manifest (sanitize (manifest_json m)) = Some (fix_manifest m).
Proof.
  intros Hp. pose proof (decode_slice_strings (fix_string <$> ChunkCIDs m)) as Hc.
  apply fmap_Some in Hc as (c & Hc & Hec).
  unfold manifest_json, decode_manifest. cbn [sanitize]. rewrite !map_app, !sanitize_omitempty by reflexivity.
  cbn [List.map]. rewrite sanitize_strings. cbn [sanitize decode_struct].
  rewrite foldl_app. cbn [foldl].
  unfold manifest_field at 2 3 4 5. read_names. cbn [mbind option_bind decode_string decode_int64].
  rewrite Hp. cbn [mbind option_bind]. cbn [ms_chunks]. rewrite Hc. cbn [mbind option_bind].
  do 2 case_decide; cbn [app foldl mbind option_bind]; unfold manifest_field; read_names;
    cbn [mbind option_bind decode_string]; unfold finish_manifest, fix_manifest; simpl; pose proof (eq_refl : fix_string "" = ""); congruence.
Qed.

(** What is stored comes back, with ill-formed UTF-8 replaced. *)
Lemma strings_round_trip l : Unmarshal_strings (Marshal_strings l) = Ok (fix_string <$> l).
Proof.
  destruct maxNestingDepth_two as [d Hd]. unfold Unmarshal_strings, Marshal_strings, Marshal.
  rewrite Parse_print; [|done|done|rewrite Hd; apply fits_strings].
  rewrite sanitize_strings. cbn [mbind option_bind]. by rewrite decode_slice_strings.
Qed.

Lemma Manifest_round_trip m :
  int64_ok (TotalSize m) → Unmarshal_Manifest (Marshal_Manifest m) = Ok (fix_manifest m).
Proof.
  intros Hs. destruct maxNestingDepth_two as [d Hd]. destruct (FormatInt_spec _ Hs) as [Hn Hp].
  unfold Unmarshal_Manifest, Marshal_Manifest, MarshalIndent.
  rewrite Parse_print; [|apply spaces_indent|done|rewrite Hd; by apply fits_manifest].
  cbn [mbind option_bind]. by rewrite decode_manifest_json.
Qed.

(** Request bodies, as the commands write them. *)
Lemma Decode_strings_one k a :
  fix_string k = k → names k k = true → Decode_strings [k] (Marshal (JObject [(k, JString a)])) = Ok [fix_string a].
Proof.
  intros Hk Hn. destruct maxNestingDepth_two as [d Hd]. unfold Decode_strings.
  rewrite <-(app_nil_r (Marshal _)), Decode_print by (try done; rewrite Hd; repeat constructor).
  cbn [sanitize List.map mbind option_bind decode_struct foldl]. unfold string_fields. rewrite Hk. cbn. by rewrite Hn.
Qed.

Lemma Decode_strings_two k1 k2 a b :
  fix_string k1 = k1 → fix_string k2 = k2 → names k1 k1 = true → names k1 k2 = false → names k2 k2 = true →
  Decode_strings [k1; k2] (Marshal (JObject [(k1, JString a); (k2, JString b)])) = Ok [fix_string a; fix_string b].
Proof.
  intros Hk1 Hk2 H1 H12 H2. destruct maxNestingDepth_two as [d Hd]. unfold Decode_strings.
  rewrite <-(app_nil_r (Marshal _)), Decode_print by (try done; rewrite Hd; repeat constructor).
  cbn [sanitize List.map mbind option_bind decode_struct foldl]. unfold string_fields. rewrite Hk1, Hk2. cbn. rewrite H1.
  cbn. by rewrite H12, H2.
Qed.

Lemma Unmarshal_Manifest_no_panic data w : Unmarshal_Manifest data ≠ Panic w.
Proof. unfold Unmarshal_Manifest, decoded. by case_match. Qed.
(** ** Decoded strings are valid UTF-8 *)

Lemma clean_members l : clean (JObject l) → Forall (λ kx, clean (snd kx)) l.
Proof.
  unfold clean. cbn [sanitize]. intros [= H]. induction l as [|[k x] l IH]; [constructor|].
  injection H as _ Hx Hl. constructor; [done|]. by apply IH.
Qed.

Lemma decode_string_valid old v s :
  clean v → fix_string old = old → decode_string old v = Some s → fix_string s = s.
Proof. destruct v; try discriminate; intros Hc Ho [= <-]; [done|]. by injection Hc. Qed.

Lemma decode_struct_inv {A} (field : A → string → json → option A) (P : A → Prop) old v a :
  (∀ a k x a', P a → clean x → field a k x = Some a' → P a') →
  clean v → P old → decode_struct field old v = Some a → P a.
Proof.
  intros Hf. destruct v as [| | | | |l]; try done; [by intros _ ? [= <-]|].
  intros Hl%clean_members. cbn [decode_struct]. revert old.
  induction Hl as [|[k x] l Hx _ IH]; intros old Ho; cbn [foldl]; [by intros [= <-]|].
  cbn [mbind option_bind]. destruct (field old k x) as [a'|] eqn:E.
  - apply IH. by eapply Hf.
  - intros H. exfalso. revert H. clear. induction l as [|[k x] l IH]; done.
Qed.

Lemma Decode_strings_valid fields body st :
  Decode_strings fields body = Ok st → Forall (λ s, valid_string s = true) st.
Proof.
  unfold Decode_strings, decoded. destruct (_ ≫= _) as [st'|] eqn:E; [|done]. intros [= <-].
  apply bind_Some in E as (v & Hv%Decode_clean & E).
  assert (Forall (λ s, fix_string s = s) st') as H.
  { eapply decode_struct_inv; [|exact Hv| |exact E].
    - intros a k x a' Ha Hx. unfold string_fields.
      destruct (List.find _ _) as [[i n]|]; [|by intros [= <-]].
      intros (s & Hs & [= <-])%bind_Some. apply Forall_insert; [done|].
      eapply decode_string_valid; [exact Hx| |exact Hs].
      destruct (a !! i) as [t|] eqn:Et; [|done]. rewrite Forall_forall in Ha.
      by eapply Ha, list_elem_of_lookup_2.
    - apply Forall_forall. intros s [-> _]%elem_of_replicate. done. }
  eapply Forall_impl; [exact H|]. simpl. intros s <-. apply fix_string_is_valid.
Qed.

End calls.

#[global] Opaque Marshal_Manifest Unmarshal_Manifest Marshal_strings Unmarshal_strings Decode_strings.
