(* ===== verification/Lru.v ===== *)
(** * The LRU block cache ([internal/cache/lru.go])

    [container/list] is a list of elements, front first; an element is a
    handle (its pointer) and the entry it holds.  The map of the cache stores
    handles, as the code stores [*list.Element].  Every operation runs under
    the cache's lock and is one step. *)

From S2P Require Import Prelude Runtime Chunker.

Record cacheEntry := {
  key : string;
  block : Block;
  size : Z;
  fetchCount : Z
}.

Abbreviation elem := nat (only parsing).

Record LRUCache := {
  maxBytes : Z;
  items : gmap string elem;
  eviction : list (elem * cacheEntry);
  next_elem : elem;                 (* handles in use are below it *)
  currentBytes : Z;
  hits : Z;
  misses : Z;
  pinChecker : bool;                (* a pin checker is installed *)
  OnHit : bool;                     (* callbacks of the metrics hook *)
  OnMiss : bool;
  hook_calls : list bool            (* the calls made: hit or miss *)
}.

Section lru.
(** What the installed pin checker answers at the time of a call. *)
Context (IsPinned : string → bool).

Definition NewLRUCache (max : Z) : LRUCache :=
  {| maxBytes := max; items := ∅; eviction := []; next_elem := O; currentBytes := 0;
     hits := 0; misses := 0; pinChecker := false; OnHit := false; OnMiss := false;
     hook_calls := [] |}.

Definition SetPinChecker (c : LRUCache) : LRUCache :=
  {| maxBytes := maxBytes c; items := items c; eviction := eviction c; next_elem := next_elem c;
     currentBytes := currentBytes c; hits := hits c; misses := misses c; pinChecker := true;
     OnHit := OnHit c; OnMiss := OnMiss c; hook_calls := hook_calls c |}.

Definition SetMetricsHook (c : LRUCache) (hit miss : bool) : LRUCache :=
  {| maxBytes := maxBytes c; items := items c; eviction := eviction c; next_elem := next_elem c;
     currentBytes := currentBytes c; hits := hits c; misses := misses c;
     pinChecker := pinChecker c; OnHit := hit; OnMiss := miss; hook_calls := hook_calls c |}.

(** ** Elements *)

Definition entry_at (h : elem) (l : list (elem * cacheEntry)) : option cacheEntry :=
  snd <$> List.find (λ x, Nat.eqb (fst x) h) l.

Definition without (h : elem) (l : list (elem * cacheEntry)) : list (elem * cacheEntry) :=
  List.filter (λ x, negb (Nat.eqb (fst x) h)) l.

(** [MoveToFront] of an element whose entry has become [e]. *)
Definition move_to_front (h : elem) (e : cacheEntry) (l : list (elem * cacheEntry)) :=
  (h, e) :: without h l.

(** The cache with another content; counters and configuration kept. *)
Definition update (c : LRUCache) (it : gmap string elem) (ev : list (elem * cacheEntry))
    (next : elem) (bytes : Z) : LRUCache :=
  {| maxBytes := maxBytes c; items := it; eviction := ev; next_elem := next;
     currentBytes := bytes; hits := hits c; misses := misses c; pinChecker := pinChecker c;
     OnHit := OnHit c; OnMiss := OnMiss c; hook_calls := hook_calls c |}.

Definition removeElement (c : LRUCache) (h : elem) : LRUCache :=
  match entry_at h (eviction c) with
  | Some e => update c (delete (key e) (items c)) (without h (eviction c)) (next_elem c)
                (wrap64 (currentBytes c - size e))
  | None => c
  end.

(** ** Operations *)

Definition count_hit (c : LRUCache) : LRUCache :=
  {| maxBytes := maxBytes c; items := items c; eviction := eviction c; next_elem := next_elem c;
     currentBytes := currentBytes c; hits := wrap64 (hits c + 1); misses := misses c;
     pinChecker := pinChecker c; OnHit := OnHit c; OnMiss := OnMiss c;
     hook_calls := if OnHit c then hook_calls c ++ [true] else hook_calls c |}.

Definition count_miss (c : LRUCache) : LRUCache :=
  {| maxBytes := maxBytes c; items := items c; eviction := eviction c; next_elem := next_elem c;
     currentBytes := currentBytes c; hits := hits c; misses := wrap64 (misses c + 1);
     pinChecker := pinChecker c; OnHit := OnHit c; OnMiss := OnMiss c;
     hook_calls := if OnMiss c then hook_calls c ++ [false] else hook_calls c |}.

(** The element a key maps to. *)
Definition find_elem (c : LRUCache) (cid : string) : option (elem * cacheEntry) :=
  h ← items c !! cid; e ← entry_at h (eviction c); Some (h, e).

Definition Get (c : LRUCache) (cid : string) : option Block * LRUCache :=
  match find_elem c cid with
  | Some (h, e) =>
      let e' := {| key := key e; block := block e; size := size e;
                   fetchCount := wrap64 (fetchCount e + 1) |} in
      (Some (block e), count_hit (update c (items c) (move_to_front h e' (eviction c))
                                    (next_elem c) (currentBytes c)))
  | None => (None, count_miss c)
  end.

Definition popularityThreshold : Z := 3.

Definition pinned (c : LRUCache) (e : cacheEntry) : bool := pinChecker c && IsPinned (key e).

(** The second-chance scan, over the elements from the back: the elements
    with their halved counts, and the victim if one was found. *)
Fixpoint scan (c : LRUCache) (budget : nat) (l : list (elem * cacheEntry))
  : list (elem * cacheEntry) * option elem :=
  match budget, l with
  | S b, (h, e) :: l' =>
      if pinned c e then
        let '(l'', v) := scan c b l' in ((h, e) :: l'', v)
      else if fetchCount e <? popularityThreshold then (l, Some h)
      else
        let e' := {| key := key e; block := block e; size := size e;
                     fetchCount := Z.quot (fetchCount e) 2 |} in
        let '(l'', v) := scan c b l' in ((h, e') :: l'', v)
  | _, _ => (l, None)
  end.

Definition evictOldest (c : LRUCache) : LRUCache :=
  let maxCheck := Nat.max 1 (Nat.div (length (eviction c)) 2) in
  let '(back, victim) := scan c maxCheck (rev (eviction c)) in
  let c1 := update c (items c) (rev back) (next_elem c) (currentBytes c) in
  match victim with
  | Some h => removeElement c1 h
  | None =>
      match List.find (λ x, negb (pinned c (snd x))) back with
      | Some (h, _) => removeElement c1 h
      | None => c1
      end
  end.

(** The eviction loop of [Put]; [None] when [fuel] iterations do not end it. *)
Fixpoint evict_loop (fuel : nat) (c : LRUCache) (blockSize : Z) : option LRUCache :=
  if (maxBytes c <? wrap64 (currentBytes c + blockSize)) && (0 <? zlen (eviction c)) then
    match fuel with
    | O => None
    | S fuel' => evict_loop fuel' (evictOldest c) blockSize
    end
  else Some c.

Definition Put (fuel : nat) (c : LRUCache) (b : Block) : option LRUCache :=
  let blockSize := zlen (Data b) in
  match find_elem c (CID b) with
  | Some (h, old) =>
      let e := {| key := key old; block := b; size := blockSize; fetchCount := fetchCount old |} in
      Some (update c (items c) (move_to_front h e (eviction c)) (next_elem c)
              (wrap64 (wrap64 (currentBytes c - size old) + blockSize)))
  | None =>
      c1 ← evict_loop fuel c blockSize;
      let e := {| key := CID b; block := b; size := blockSize; fetchCount := 0 |} in
      Some (update c1 (<[CID b := next_elem c1]> (items c1)) ((next_elem c1, e) :: eviction c1)
              (S (next_elem c1)) (wrap64 (currentBytes c1 + blockSize)))
  end.

Definition Evict (c : LRUCache) (cid : string) : LRUCache :=
  match items c !! cid with
  | Some h => removeElement c h
  | None => c
  end.

Record CacheStats := {
  st_Hits : Z; st_Misses : Z; st_Entries : Z; st_CurrentBytes : Z; st_MaxBytes : Z
}.

Definition Stats (c : LRUCache) : CacheStats :=
  {| st_Hits := hits c; st_Misses := misses c; st_Entries := zlen (eviction c);
     st_CurrentBytes := currentBytes c; st_MaxBytes := maxBytes c |}.

Definition Len (c : LRUCache) : Z := zlen (eviction c).
Definition CIDs (o : order) (c : LRUCache) : list string := range_keys o (items c).

(** ** The representation invariant *)

Definition blocks (c : LRUCache) : list Block := (λ x, block (snd x)) <$> eviction c.
Definition block_size (b : Block) : Z := zlen (Data b).
Definition total (c : LRUCache) : Z := zsum block_size (blocks c).

Definition entry_wf (e : cacheEntry) : Prop := key e = CID (block e) ∧ size e = block_size (block e).

(** The handles are distinct and below [next_elem], the map and the list hold
    the same elements, entries carry the key and size of their block, and the
    byte counter is the sum of the sizes (as an [int64]). *)
Record wf (c : LRUCache) : Prop := {
  wf_nodup : NoDup (fst <$> eviction c);
  wf_fresh : Forall (λ x, (fst x < next_elem c)%nat) (eviction c);
  wf_items : ∀ k h, items c !! k = Some h ↔ ∃ e, (h, e) ∈ eviction c ∧ key e = k;
  wf_entries : Forall (λ x, entry_wf (snd x)) (eviction c);
  wf_bytes : currentBytes c = wrap64 (total c)
}.

(** The block cached under a key. *)
Definition cached (c : LRUCache) (k : string) : option Block :=
  (λ x, block (snd x)) <$> find_elem c k.

Definition is_pinned (c : LRUCache) (b : Block) : bool := pinChecker c && IsPinned (CID b).

Lemma entry_at_Some h l e :
  NoDup (fst <$> l) → entry_at h l = Some e ↔ (h, e) ∈ l.
Proof.
  intros Hnd. unfold entry_at. induction l as [|[h1 e1] l IH]; simpl.
  { split; [done|]. by intros ?%not_elem_of_nil. }
  simpl in Hnd. apply NoDup_cons in Hnd as [Hn Hnd]. rewrite elem_of_cons.
  destruct (Nat.eqb_spec h1 h) as [->|Hne]; simpl.
  - split; [intros [= <-]; by left|]. intros [[= ->]|Hin]; [done|].
    destruct Hn. by apply (list_elem_of_fmap_2 fst) in Hin.
  - rewrite IH by done. split; [by right|]. intros [[= -> ->]|?]; done.
Qed.

Lemma elem_of_without h l x : x ∈ without h l ↔ x ∈ l ∧ fst x ≠ h.
Proof.
  unfold without. rewrite elem_of_filter_bool, negb_true_iff, Nat.eqb_neq. done.
Qed.

Lemma without_fst h l : fst <$> without h l = List.filter (λ y, negb (Nat.eqb y h)) (fst <$> l).
Proof.
  unfold without. induction l as [|[h1 e1] l IH]; [done|]. simpl.
  destruct (Nat.eqb h1 h); simpl; [exact IH|f_equal; exact IH].
Qed.

Lemma without_NoDup h l : NoDup (fst <$> l) → NoDup (fst <$> without h l).
Proof. intros. rewrite without_fst. by apply NoDup_filter_bool. Qed.

Lemma without_notin h l : h ∉ fst <$> l → without h l = l.
Proof.
  unfold without. induction l as [|[h1 e1] l IH]; [done|]. simpl.
  intros [Hne Hn]%not_elem_of_cons. destruct (Nat.eqb_spec h1 h); [congruence|].
  simpl. by rewrite IH.
Qed.

Lemma without_split h e l :
  NoDup (fst <$> l) → (h, e) ∈ l →
  ∃ l1 l2, l = l1 ++ (h, e) :: l2 ∧ without h l = l1 ++ l2.
Proof.
  intros Hnd (l1 & l2 & ->)%list_elem_of_split. exists l1, l2. split; [done|].
  rewrite fmap_app in Hnd. simpl in Hnd. apply NoDup_app in Hnd as (Hn1 & Hd & Hn2).
  apply NoDup_cons in Hn2 as [Hn2 _].
  unfold without. rewrite List.filter_app. simpl. rewrite Nat.eqb_refl. simpl.
  fold (without h l1) (without h l2). rewrite !without_notin; [done|done|].
  intros Hin. apply (Hd h Hin). by left.
Qed.

(** Elements agree up to their fetch counts. *)
Definition same (x y : elem * cacheEntry) : Prop :=
  fst x = fst y ∧ key (snd x) = key (snd y) ∧ block (snd x) = block (snd y) ∧
  size (snd x) = size (snd y).

Lemma same_refl x : same x x.
Proof. done. Qed.

Lemma Forall2_same_refl l : Forall2 same l l.
Proof. induction l; by constructor. Qed.

Lemma scan_spec c n l :
  let '(l', v) := scan c n l in
  Forall2 same l l' ∧
  match v with Some h => ∃ e, (h, e) ∈ l' ∧ pinned c e = false | None => True end.
Proof.
  revert l. induction n as [|n IH]; intros l; simpl; [split; [apply Forall2_same_refl|done]|].
  destruct l as [|[h e] l]; [done|]. specialize (IH l).
  destruct (pinned c e) eqn:Ep; [|destruct (_ <? _)].
  - destruct (scan c n l) as [l' v]. destruct IH as [IH1 IH2].
    split; [by constructor|]. destruct v; [|done]. destruct IH2 as (e' & ? & ?).
    exists e'. split; [by right|done].
  - split; [apply Forall2_same_refl|]. exists e. split; [by left|done].
  - destruct (scan c n l) as [l' v]. destruct IH as [IH1 IH2].
    split; [by constructor|]. destruct v; [|done]. destruct IH2 as (e' & ? & ?).
    exists e'. split; [by right|done].
Qed.

Lemma Forall2_rev {A} (R : A → A → Prop) l l' : Forall2 R l l' → Forall2 R (rev l) (rev l').
Proof. rewrite !rev_alt. apply Forall2_reverse. Qed.

Lemma same_blocks l l' : Forall2 same l l' →
  (λ x, block (snd x)) <$> l = (λ x, block (snd x)) <$> l' ∧
  fst <$> l = fst <$> l'.
Proof.
  induction 1 as [|x y l l' (Hh & _ & Hb & _) _ [IH1 IH2]]; [done|].
  rewrite !fmap_cons. split; by f_equal.
Qed.

(** Replacing the list by one that agrees with it keeps the invariant. *)
Lemma same_wf c l' :
  wf c → Forall2 same (eviction c) l' →
  wf (update c (items c) l' (next_elem c) (currentBytes c)) ∧
  blocks (update c (items c) l' (next_elem c) (currentBytes c)) = blocks c.
Proof.
  intros [Hnd Hfr Hit Hen Hby] Hs. destruct (same_blocks _ _ Hs) as [Hb Hf].
  assert (blocks (update c (items c) l' (next_elem c) (currentBytes c)) = blocks c) as Hbl
    by (unfold blocks; simpl; done).
  split; [|done]. split; simpl.
  - by rewrite <-Hf.
  - clear -Hfr Hs. induction Hs as [|x y l l' (Hh & _) _ IH]; [constructor|].
    apply Forall_cons in Hfr as [? ?]. constructor; [by rewrite <-Hh|by apply IH].
  - intros k h. rewrite Hit. clear -Hs.
    assert (∀ e, (h, e) ∈ eviction c → ∃ e', (h, e') ∈ l' ∧ key e' = key e) as H1.
    { intros e [i Hi]%list_elem_of_lookup. destruct (Forall2_lookup_l _ _ _ _ _ Hs Hi) as
        ([h' e'] & Hi' & (Hh & Hk & _)). simpl in *. subst h'. exists e'.
      split; [by eapply list_elem_of_lookup_2|done]. }
    assert (∀ e', (h, e') ∈ l' → ∃ e, (h, e) ∈ eviction c ∧ key e = key e') as H2.
    { intros e [i Hi]%list_elem_of_lookup. destruct (Forall2_lookup_r _ _ _ _ _ Hs Hi) as
        ([h' e'] & Hi' & (Hh & Hk & _)). simpl in *. subst h'. exists e'.
      split; [by eapply list_elem_of_lookup_2|done]. }
    split; intros (e & Hin & <-); [destruct (H1 e Hin)|destruct (H2 e Hin)]; naive_solver.
  - clear -Hen Hs. induction Hs as [|x y l l' (_ & Hk & Hb & Hz) _ IH]; [constructor|].
    apply Forall_cons in Hen as [[? ?] ?]. constructor; [|by apply IH].
    split; [by rewrite <-Hk, <-Hb|by rewrite <-Hb, <-Hz].
  - unfold total in *. by rewrite Hbl.
Qed.

Lemma wf_key_unique c h1 e1 h2 e2 :
  wf c → (h1, e1) ∈ eviction c → (h2, e2) ∈ eviction c → key e1 = key e2 → h1 = h2 ∧ e1 = e2.
Proof.
  intros Hwf H1 H2 Hk.
  assert (items c !! key e1 = Some h1) as Hi1 by (apply (wf_items c Hwf); by exists e1).
  assert (items c !! key e1 = Some h2) as Hi2 by (apply (wf_items c Hwf); by exists e2).
  rewrite Hi1 in Hi2. injection Hi2 as <-. split; [done|].
  apply (entry_at_Some h1 (eviction c)) in H1; [|apply Hwf].
  apply (entry_at_Some h1 (eviction c)) in H2; [|apply Hwf]. congruence.
Qed.

Lemma find_elem_Some c k h e :
  wf c → find_elem c k = Some (h, e) ↔ (h, e) ∈ eviction c ∧ key e = k.
Proof.
  intros Hwf. unfold find_elem. split.
  - destruct (items c !! k) as [h'|] eqn:Ei; [|done]. simpl.
    destruct (entry_at h' (eviction c)) as [e'|] eqn:Ee; [|done]. simpl. intros [= <- <-].
    apply entry_at_Some in Ee; [|apply Hwf]. split; [done|].
    apply (wf_items c Hwf) in Ei as (e'' & Hin & <-).
    apply (entry_at_Some h' (eviction c)) in Ee, Hin; [congruence|apply Hwf..].
  - intros [Hin <-]. assert (items c !! key e = Some h) as -> by (apply (wf_items c Hwf); by exists e).
    simpl. apply (entry_at_Some h (eviction c)) in Hin; [|apply Hwf]. by rewrite Hin.
Qed.

Lemma cached_Some c k b : wf c → cached c k = Some b ↔ b ∈ blocks c ∧ CID b = k.
Proof.
  intros Hwf. unfold cached, blocks. rewrite fmap_Some, list_elem_of_fmap. split.
  - intros ([h e] & [Hin Hk]%find_elem_Some & ->); [|done]. simpl. split; [by exists (h, e)|].
    pose proof (wf_entries c Hwf) as Hen. rewrite Forall_forall in Hen.
    destruct (Hen _ Hin) as [Hke _]. simpl in *. congruence.
  - intros [([h e] & -> & Hin) Hk]. exists (h, e). split; [|done]. apply find_elem_Some; [done|].
    split; [done|]. pose proof (wf_entries c Hwf) as Hen. rewrite Forall_forall in Hen.
    destruct (Hen _ Hin) as [Hke _]. simpl in *. congruence.
Qed.

(** Removing an element that is in the list. *)
Lemma removeElement_spec c h e :
  wf c → (h, e) ∈ eviction c →
  let c' := removeElement c h in
  wf c' ∧ ∃ l1 l2, blocks c = l1 ++ block e :: l2 ∧ blocks c' = l1 ++ l2.
Proof.
  intros Hwf Hin c'. assert (entry_at h (eviction c) = Some e) as He
    by (apply entry_at_Some; [apply Hwf|done]).
  unfold c', removeElement. rewrite He. clear c'.
  destruct (without_split h e (eviction c)) as (l1 & l2 & Hl & Hw); [apply Hwf|done|].
  assert (blocks c = ((λ x, block (snd x)) <$> l1) ++ block e :: ((λ x, block (snd x)) <$> l2)) as Hb.
  { unfold blocks. by rewrite Hl, fmap_app. }
  set (c' := update _ _ _ _ _).
  assert (blocks c' = ((λ x, block (snd x)) <$> l1) ++ ((λ x, block (snd x)) <$> l2)) as Hb'.
  { unfold blocks, c'. simpl. by rewrite Hw, fmap_app. }
  split; [|by eexists _, _]. split; simpl.
  - apply without_NoDup, Hwf.
  - apply Forall_forall. intros x [Hx _]%elem_of_without.
    pose proof (wf_fresh c Hwf) as Hf. rewrite Forall_forall in Hf. by apply Hf.
  - intros k h'. destruct (decide (key e = k)) as [<-|Hne].
    + rewrite lookup_delete_eq. split; [done|]. intros (e' & [Hin' Hh]%elem_of_without & Hk).
      destruct (wf_key_unique c _ _ _ _ Hwf Hin Hin') as [? _]; [done|]. simpl in Hh. congruence.
    + rewrite lookup_delete_ne by done. rewrite (wf_items c Hwf). split.
      * intros (e' & Hin' & Hk). exists e'. split; [|done]. apply elem_of_without.
        split; [done|]. simpl. intros ->. apply (entry_at_Some h (eviction c)) in Hin'; [|apply Hwf].
        congruence.
      * intros (e' & [Hin' _]%elem_of_without & Hk). by exists e'.
  - apply Forall_forall. intros x [Hx _]%elem_of_without.
    pose proof (wf_entries c Hwf) as Hf. rewrite Forall_forall in Hf. by apply Hf.
  - assert (size e = block_size (block e)) as ->.
    { pose proof (wf_entries c Hwf) as Hf. rewrite Forall_forall in Hf.
      by destruct (Hf _ Hin) as [_ ?]. }
    unfold total. rewrite Hb'. rewrite (wf_bytes c Hwf). unfold total. rewrite Hb.
    unfold Z.sub. rewrite wrap64_idem_add_l. f_equal. pw. lia.
Qed.

(** ** Eviction *)

(** Configuration and statistics, which eviction leaves alone. *)
Definition config (c : LRUCache) := (maxBytes c, pinChecker c, hits c, misses c, OnHit c, OnMiss c, hook_calls c).

Lemma removeElement_config c h : config (removeElement c h) = config c.
Proof. unfold removeElement. by destruct (entry_at h (eviction c)). Qed.

Lemma evictOldest_config c : config (evictOldest c) = config c.
Proof.
  unfold evictOldest. destruct (scan _ _ _) as [back [h|]]; [by rewrite removeElement_config|].
  destruct (List.find _ _) as [[h e]|]; [by rewrite removeElement_config|done].
Qed.

(** One eviction removes exactly one block that is not pinned, or nothing
    when every block is pinned. *)
Lemma evictOldest_spec c :
  wf c → wf (evictOldest c) ∧
  ((∃ l1 b l2, blocks c = l1 ++ b :: l2 ∧ is_pinned c b = false ∧ blocks (evictOldest c) = l1 ++ l2) ∨
   (Forall (λ b, is_pinned c b = true) (blocks c) ∧ blocks (evictOldest c) = blocks c)).
Proof.
  intros Hwf. unfold evictOldest.
  pose proof (scan_spec c (Nat.max 1 (length (eviction c) / 2)) (rev (eviction c))) as Hscan.
  destruct (scan _ _ _) as [back v]. destruct Hscan as [Hsame Hv].
  assert (Forall2 same (eviction c) (rev back)) as Hs.
  { rewrite <-(rev_involutive (eviction c)). by apply Forall2_rev. }
  set (c1 := update c (items c) (rev back) (next_elem c) (currentBytes c)).
  destruct (same_wf c (rev back) Hwf Hs) as [Hwf1 Hb1]. fold c1 in Hwf1, Hb1.
  assert (∀ h e, (h, e) ∈ rev back → pinned c e = false →
    wf (removeElement c1 h) ∧ ∃ l1 b l2, blocks c = l1 ++ b :: l2 ∧ is_pinned c b = false ∧
      blocks (removeElement c1 h) = l1 ++ l2) as Hrem.
  { intros h e Hin Hp. destruct (removeElement_spec c1 h e Hwf1 Hin) as (Hwf2 & l1 & l2 & H1 & H2).
    split; [done|]. exists l1, (block e), l2. rewrite <-Hb1. split_and!; [done| |done].
    pose proof (wf_entries c1 Hwf1) as Hen. rewrite Forall_forall in Hen.
    destruct (Hen _ Hin) as [Hk _]. unfold is_pinned. simpl in Hk. by rewrite <-Hk. }
  destruct v as [h|].
  - destruct Hv as (e & Hin & Hp). rewrite list_elem_of_In, in_rev, <-list_elem_of_In in Hin.
    destruct (Hrem h e Hin Hp). by split; [|left].
  - destruct (List.find _ _) as [[h e]|] eqn:Ef.
    + apply find_some in Ef as [Hin Hp%negb_true_iff].
      rewrite in_rev, <-list_elem_of_In in Hin. destruct (Hrem h e Hin Hp). by split; [|left].
    + split; [done|]. right. split; [|done]. rewrite <-Hb1. unfold blocks. apply Forall_fmap, Forall_forall.
      intros [h e] Hin.
      assert (In (h, e) back) as Hback by by apply in_rev, list_elem_of_In.
      pose proof (find_none _ _ Ef (h, e) Hback) as Hn. simpl in *. apply negb_false_iff in Hn.
      pose proof (wf_entries c1 Hwf1) as Hen. rewrite Forall_forall in Hen.
      destruct (Hen (h, e) Hin) as [Hk _]. unfold is_pinned. simpl in Hk. by rewrite <-Hk.
Qed.

Lemma config_pinned c c' b : config c = config c' → is_pinned c b = is_pinned c' b.
Proof. unfold config, is_pinned. intros [= _ -> _ _ _ _ _]. done. Qed.

Definition pinned_blocks (c : LRUCache) : list Block := List.filter (is_pinned c) (blocks c).
Definition pinned_total (c : LRUCache) : Z := zsum block_size (pinned_blocks c).

Lemma zsum_block_nonneg l : 0 ≤ zsum block_size l.
Proof. apply zsum_nonneg, Forall_forall. intros b _. unfold block_size. lia. Qed.

Lemma pinned_total_le c : pinned_total c ≤ total c.
Proof.
  unfold pinned_total, pinned_blocks, total. induction (blocks c) as [|b l IH]; [done|].
  simpl. pw. case_if; pw; unfold block_size in *; lia.
Qed.

Lemma evictOldest_pinned c :
  wf c → pinned_blocks (evictOldest c) = pinned_blocks c.
Proof.
  intros Hwf. unfold pinned_blocks.
  assert (∀ l, List.filter (is_pinned (evictOldest c)) l = List.filter (is_pinned c) l) as ->.
  { intros l. apply filter_ext. intros b. apply config_pinned, evictOldest_config. }
  destruct (evictOldest_spec c Hwf) as [_ [(l1 & b & l2 & -> & Hp & ->)|[_ ->]]]; [|done].
  rewrite !List.filter_app. simpl. by rewrite Hp.
Qed.

Lemma evict_loop_unfold fuel c n :
  evict_loop fuel c n =
  if (maxBytes c <? wrap64 (currentBytes c + n)) && (0 <? zlen (eviction c)) then
    match fuel with O => None | S fuel' => evict_loop fuel' (evictOldest c) n end
  else Some c.
Proof. by destruct fuel. Qed.

Lemma length_blocks c : length (blocks c) = length (eviction c).
Proof. apply length_fmap. Qed.

(** Whether the loop condition holds, without overflow. *)
Lemma loop_condition c n :
  wf c → 0 ≤ n → total c + n < 2 ^ 63 →
  (maxBytes c <? wrap64 (currentBytes c + n)) && (0 <? zlen (eviction c)) = true ↔
  maxBytes c < total c + n ∧ blocks c ≠ [].
Proof.
  intros Hwf Hn Hb. pose proof (zsum_block_nonneg (blocks c)) as H0. fold (total c) in H0.
  rewrite (wf_bytes c Hwf), wrap64_idem_add_l, wrap64_small by (unfold int64_ok; lia).
  rewrite andb_true_iff, !Z.ltb_lt, <-length_blocks.
  destruct (blocks c); simpl; split; intros [? ?]; split; try done; lia.
Qed.

Lemma evictOldest_total c : wf c → total (evictOldest c) ≤ total c.
Proof.
  intros Hwf. unfold total.
  destruct (evictOldest_spec c Hwf) as [_ [(l1 & b & l2 & -> & _ & ->)|[_ ->]]]; [|lia].
  pw. unfold block_size. lia.
Qed.

(** What the eviction loop leaves. *)
Lemma evict_loop_spec fuel c n c' :
  wf c → 0 ≤ n → total c + n < 2 ^ 63 → evict_loop fuel c n = Some c' →
  wf c' ∧ config c' = config c ∧ blocks c' `sublist_of` blocks c ∧
  pinned_blocks c' = pinned_blocks c ∧
  (total c' + n ≤ maxBytes c ∨ blocks c' = []) ∧
  (total c + n ≤ maxBytes c → c' = c) ∧ total c' ≤ total c.
Proof.
  revert c. induction fuel as [|fuel IH]; intros c Hwf Hn Hb; rewrite evict_loop_unfold;
    pose proof (loop_condition c n Hwf Hn Hb) as Hc; destruct (_ && _) eqn:E; try done.
  - intros [= <-]. split_and!; try done.
    destruct (decide (blocks c = [])); [by right|left].
    destruct (decide (total c + n ≤ maxBytes c)); [done|].
    destruct diff_false_true. apply Hc. split; [lia|done].
  - intros H. pose proof (evictOldest_total c Hwf) as Ht.
    destruct (evictOldest_spec c Hwf) as [Hwf1 Hev].
    destruct (IH (evictOldest c)) as (? & Hcf & Hsub & Hp & Hfit & _ & ?); [done|done|lia|done|].
    pose proof (evictOldest_config c) as Hcfg.
    split_and!; [done|congruence| | | | |lia].
    + etrans; [exact Hsub|]. destruct Hev as [(l1 & b & l2 & -> & _ & ->)|[_ ->]]; [|done].
      apply sublist_app; [done|]. by apply sublist_cons.
    + by rewrite Hp, evictOldest_pinned.
    + assert (maxBytes (evictOldest c) = maxBytes c) as <- by (by injection Hcfg). done.
    + intros Hfits. destruct (proj1 Hc eq_refl). lia.
  - intros [= <-]. split_and!; try done.
    destruct (decide (blocks c = [])); [by right|left].
    destruct (decide (total c + n ≤ maxBytes c)); [done|].
    destruct diff_false_true. apply Hc. split; [lia|done].
Qed.

(** When it ends: the pinned blocks leave room, or nothing is pinned. *)
Definition room_for (c : LRUCache) (n : Z) : Prop :=
  pinned_total c + n ≤ maxBytes c ∨ pinned_blocks c = [].

Lemma evictOldest_room c n : wf c → room_for (evictOldest c) n ↔ room_for c n.
Proof.
  intros Hwf. unfold room_for, pinned_total. rewrite evictOldest_pinned by done.
  pose proof (evictOldest_config c) as Hcfg. injection Hcfg as -> _ _ _ _ _ _. done.
Qed.

Lemma filter_all (P : Block → bool) l : Forall (λ b, P b = true) l → List.filter P l = l.
Proof. induction 1 as [|b l Hb _ IH]; [done|]. simpl. by rewrite Hb, IH. Qed.

Lemma evict_loop_terminates fuel c n :
  wf c → 0 ≤ n → total c + n < 2 ^ 63 → room_for c n → (length (blocks c) ≤ fuel)%nat →
  is_Some (evict_loop fuel c n).
Proof.
  revert c. induction fuel as [|fuel IH]; intros c Hwf Hn Hb Hroom Hfuel;
    rewrite evict_loop_unfold;
    pose proof (loop_condition c n Hwf Hn Hb) as Hc; destruct (_ && _) eqn:E; try by eexists.
  - destruct (proj1 Hc eq_refl) as [_ Hne]. destruct (blocks c); [done|simpl in Hfuel; lia].
  - destruct (proj1 Hc eq_refl) as [Hfull Hne].
    pose proof (evictOldest_total c Hwf) as Ht.
    destruct (evictOldest_spec c Hwf) as [Hwf1 [(l1 & b & l2 & Hbl & _ & Hbl')|[Hall _]]].
    + apply IH; [done|done|lia|by apply evictOldest_room|].
      rewrite Hbl in Hfuel. rewrite Hbl'. rewrite length_app in *. simpl in Hfuel. lia.
    + destruct Hroom as [Hr|Hr].
      * unfold pinned_total, pinned_blocks in Hr. rewrite filter_all in Hr by done.
        unfold total in Hfull. lia.
      * unfold pinned_blocks in Hr. by rewrite filter_all in Hr.
Qed.

Lemma evict_loop_diverges fuel c n :
  wf c → 0 ≤ n → total c + n < 2 ^ 63 → ¬ room_for c n → evict_loop fuel c n = None.
Proof.
  revert c. induction fuel as [|fuel IH]; intros c Hwf Hn Hb Hroom; rewrite evict_loop_unfold;
    pose proof (loop_condition c n Hwf Hn Hb) as Hc;
    (assert (maxBytes c < total c + n ∧ blocks c ≠ []) as Hcond;
     [unfold room_for in Hroom; pose proof (pinned_total_le c);
      split; [destruct (decide (maxBytes c < total c + n)); [done|]; exfalso; apply Hroom; left; lia|
              intros Hnil; apply Hroom; right; unfold pinned_blocks; by rewrite Hnil]|]);
    rewrite (proj2 Hc Hcond); [done|].
  apply IH; [by apply evictOldest_spec|done|pose proof (evictOldest_total c Hwf); lia|].
  by rewrite evictOldest_room.
Qed.

(** ** The operations keep the invariant *)

Lemma NewLRUCache_wf max : wf (NewLRUCache max).
Proof.
  split; simpl; try constructor.
  - by rewrite lookup_empty.
  - intros (e & Hin & _). by apply not_elem_of_nil in Hin.
Qed.

(** Moving an element to the front with an entry for the same key. *)
Lemma move_to_front_wf c h e e' bytes :
  wf c → (h, e) ∈ eviction c → key e' = key e → entry_wf e' →
  bytes = wrap64 (total c - block_size (block e) + block_size (block e')) →
  let c' := update c (items c) (move_to_front h e' (eviction c)) (next_elem c) bytes in
  wf c' ∧ ∃ l1 l2, blocks c = l1 ++ block e :: l2 ∧ blocks c' = block e' :: l1 ++ l2.
Proof.
  intros Hwf Hin Hkey He' -> c'. unfold c', move_to_front. clear c'.
  destruct (without_split h e (eviction c)) as (l1 & l2 & Hl & Hw); [apply Hwf|done|].
  set (c' := update _ _ _ _ _).
  assert (blocks c = ((λ x, block (snd x)) <$> l1) ++ block e :: ((λ x, block (snd x)) <$> l2)) as Hb.
  { unfold blocks. by rewrite Hl, fmap_app. }
  assert (blocks c' = block e' :: ((λ x, block (snd x)) <$> l1) ++ ((λ x, block (snd x)) <$> l2)) as Hb'.
  { unfold blocks, c'. cbn [eviction update]. by rewrite fmap_cons, Hw, fmap_app. }
  split; [|by eexists _, _]. split.
  - unfold c'. cbn [eviction update]. rewrite fmap_cons. apply NoDup_cons.
    split; [|apply without_NoDup, Hwf].
    intros ([h' e2] & Heq & [_ Hne]%elem_of_without)%list_elem_of_fmap. simpl in *. congruence.
  - unfold c'. cbn [eviction update next_elem].
    pose proof (wf_fresh c Hwf) as Hf. rewrite Forall_forall in Hf.
    constructor; [by apply (Hf _ Hin)|].
    apply Forall_forall. intros x [Hx _]%elem_of_without. by apply Hf.
  - intros k h'. unfold c'. cbn [eviction update items]. rewrite (wf_items c Hwf). split.
    + intros (e2 & Hin2 & <-). destruct (decide (h' = h)) as [->|Hne].
      * apply (entry_at_Some h (eviction c)) in Hin, Hin2; [|apply Hwf..].
        exists e'. split; [by left|congruence].
      * exists e2. split; [|done]. right. by apply elem_of_without.
    + intros (e2 & [[= -> ->]|[Hin2 _]%elem_of_without]%elem_of_cons & <-); [by exists e|by exists e2].
  - unfold c'. cbn [eviction update].
    pose proof (wf_entries c Hwf) as Hf. rewrite Forall_forall in Hf.
    constructor; [done|]. apply Forall_forall. intros x [Hx _]%elem_of_without. by apply Hf.
  - unfold c' at 1. cbn [currentBytes update]. unfold total. rewrite Hb, Hb'. f_equal. pw. lia.
Qed.

Lemma count_wf c hit : wf (if hit : bool then count_hit c else count_miss c) ↔ wf c.
Proof. destruct hit; split; intros []; by split. Qed.

Lemma count_blocks c : blocks (count_hit c) = blocks c ∧ blocks (count_miss c) = blocks c.
Proof. done. Qed.

Lemma find_elem_entry c k h e : wf c → find_elem c k = Some (h, e) →
  (h, e) ∈ eviction c ∧ key e = k ∧ entry_wf e.
Proof.
  intros Hwf [Hin Hk]%find_elem_Some; [|done]. split_and!; [done..|].
  pose proof (wf_entries c Hwf) as Hf. rewrite Forall_forall in Hf. by apply (Hf _ Hin).
Qed.

Lemma blocks_perm_cached c c' : wf c → wf c' → blocks c' ≡ₚ blocks c → ∀ k, cached c' k = cached c k.
Proof.
  intros Hwf Hwf' Hp k. apply option_eq. intros b. rewrite !cached_Some by done. by rewrite Hp.
Qed.

(** On a well-formed cache, [Get] answers the cached block of the key, if
    any; it changes no binding, moves the block it returns to the front, and
    counts exactly one hit or one miss, with at most one call of the matching
    hook. *)
Theorem Get_spec (c : LRUCache) (k : string) :
  wf c →
  let '(r, c') := Get c k in
  r = cached c k ∧ wf c' ∧ (∀ k', cached c' k' = cached c k') ∧ blocks c' ≡ₚ blocks c ∧
  match r with
  | Some b => CID b = k ∧ head (blocks c') = Some b ∧ hits c' = wrap64 (hits c + 1) ∧
              misses c' = misses c ∧
              hook_calls c' = hook_calls c ++ (if OnHit c then [true] else [])
  | None => blocks c' = blocks c ∧ hits c' = hits c ∧ misses c' = wrap64 (misses c + 1) ∧
            hook_calls c' = hook_calls c ++ (if OnMiss c then [false] else [])
  end.
Proof.
  intros Hwf. unfold Get. destruct (find_elem c k) as [[h e]|] eqn:Ef.
  - destruct (find_elem_entry c k h e Hwf Ef) as (Hin & Hk & Hew).
    set (e' := {| key := key e; block := block e; size := size e; fetchCount := _ |}).
    destruct (move_to_front_wf c h e e' (currentBytes c) Hwf Hin) as [Hwf' (l1 & l2 & Hb & Hb')];
      [done|done|rewrite (wf_bytes c Hwf); f_equal; simpl; lia|].
    set (c' := update _ _ _ _ _) in *.
    assert (wf (count_hit c')) as Hwf'' by by apply (count_wf c' true).
    assert (blocks (count_hit c') ≡ₚ blocks c) as Hperm.
    { change (blocks (count_hit c')) with (blocks c'). rewrite Hb, Hb'. simpl.
      by rewrite Permutation_middle. }
    split_and!; [unfold cached; by rewrite Ef|done|by apply blocks_perm_cached|done|..].
    + destruct Hew as [Hc _]. congruence.
    + change (blocks (count_hit c')) with (blocks c'). by rewrite Hb'.
    + done.
    + done.
    + simpl. by destruct (OnHit c); rewrite ?app_nil_r.
  - assert (wf (count_miss c)) as Hwf' by by apply (count_wf c false).
    split_and!; [unfold cached; by rewrite Ef|done|by apply blocks_perm_cached|done|done..|].
    simpl. by destruct (OnMiss c); rewrite ?app_nil_r.
Qed.

(** A new element at the front. *)
Lemma push_front_wf c b :
  wf c → cached c (CID b) = None →
  let e := {| key := CID b; block := b; size := zlen (Data b); fetchCount := 0 |} in
  let c' := update c (<[CID b := next_elem c]> (items c)) ((next_elem c, e) :: eviction c)
              (S (next_elem c)) (wrap64 (currentBytes c + zlen (Data b))) in
  wf c' ∧ blocks c' = b :: blocks c.
Proof.
  intros Hwf Hnone e c'.
  pose proof (wf_fresh c Hwf) as Hf. rewrite Forall_forall in Hf.
  pose proof (wf_entries c Hwf) as Hen. rewrite Forall_forall in Hen.
  assert (∀ h e', (h, e') ∈ eviction c → key e' ≠ CID b) as Hkeys.
  { intros h e' Hin Hk. destruct (Hen _ Hin) as [Hk' _]. simpl in Hk'.
    assert (cached c (CID b) = Some (block e')) as Hs; [|congruence].
    apply cached_Some; [done|]. split; [|congruence]. unfold blocks.
    by apply (list_elem_of_fmap_2 (λ x, block (snd x)) _ (h, e')). }
  split; [|done]. split; simpl.
  - apply NoDup_cons. split; [|apply Hwf].
    intros ([h' e'] & Heq & Hin)%list_elem_of_fmap. simpl in Heq. apply Hf in Hin. simpl in Hin. lia.
  - constructor; [simpl; lia|]. apply Forall_forall. intros x Hx. apply Hf in Hx. lia.
  - intros k h. destruct (decide (CID b = k)) as [<-|Hne].
    + rewrite lookup_insert_eq. split.
      * intros [= <-]. exists e. split; [by left|done].
      * intros (e' & [[= -> _]|Hin]%elem_of_cons & Hk); [done|]. by destruct (Hkeys h e' Hin).
    + rewrite lookup_insert_ne by done. rewrite (wf_items c Hwf). split.
      * intros (e' & Hin & Hk). exists e'. split; [by right|done].
      * intros (e' & [[= -> ->]|Hin]%elem_of_cons & Hk); [done|by exists e'].
  - constructor; [done|]. apply Hwf.
  - unfold total. rewrite (wf_bytes c Hwf). rewrite wrap64_idem_add_l. f_equal.
    change (blocks _) with (b :: blocks c). pw. unfold total, block_size. lia.
Qed.

Lemma sublist_elem {A} (l1 l2 : list A) x : l1 `sublist_of` l2 → x ∈ l1 → x ∈ l2.
Proof. induction 1; set_solver. Qed.

(** [Put] of a cached identifier only replaces its block. *)
Lemma Put_cached fuel c b c' h old :
  wf c → find_elem c (CID b) = Some (h, old) → Put fuel c b = Some c' →
  wf c' ∧ maxBytes c' = maxBytes c ∧ head (blocks c') = Some b ∧ cached c' (CID b) = Some b ∧
  ∀ k, k ≠ CID b → cached c' k = cached c k.
Proof.
  intros Hwf Ef. unfold Put. rewrite Ef.
  destruct (find_elem_entry c (CID b) h old Hwf Ef) as (Hin & Hk & [Hc Hz]).
  set (e' := {| key := key old; block := b; size := zlen (Data b); fetchCount := fetchCount old |}).
  intros [= <-].
  destruct (move_to_front_wf c h old e' (wrap64 (wrap64 (currentBytes c - size old) + zlen (Data b)))
    Hwf Hin) as [Hwf' (l1 & l2 & Hb & Hb')]; [done|split; [exact Hk|done]| |].
  { rewrite (wf_bytes c Hwf), wrap64_idem_add_l. unfold Z.sub.
    rewrite <-Z.add_assoc, wrap64_idem_add_l. f_equal. rewrite Hz. simpl. unfold block_size. lia. }
  set (c' := update _ _ _ _ _) in *.
  split_and!; [done|done|by rewrite Hb'|..].
  - apply cached_Some; [done|]. rewrite Hb'. split; [by left|done].
  - intros k Hne. apply option_eq. intros x. rewrite !cached_Some by done. rewrite Hb, Hb'. simpl.
    rewrite elem_of_cons, !elem_of_app, elem_of_cons.
    assert (CID (block old) = CID b) by congruence. naive_solver.
Qed.

(** [Put] of a new identifier evicts, then pushes the block to the front. *)
Lemma Put_new fuel c b c' :
  wf c → total c + block_size b < 2 ^ 63 → find_elem c (CID b) = None → Put fuel c b = Some c' →
  ∃ c1, evict_loop fuel c (block_size b) = Some c1 ∧
    wf c' ∧ maxBytes c' = maxBytes c ∧ blocks c' = b :: blocks c1 ∧ cached c' (CID b) = Some b ∧
    currentBytes c' = wrap64 (currentBytes c1 + block_size b) ∧
    (∀ k, k ≠ CID b → cached c' k = cached c1 k) ∧
    (∀ k x, cached c1 k = Some x → cached c k = Some x).
Proof.
  intros Hwf Hov Ef. unfold Put. rewrite Ef. intros (c1 & Hloop & [= <-])%bind_Some.
  assert (0 ≤ block_size b) as Hb0 by (unfold block_size; lia).
  destruct (evict_loop_spec fuel c (block_size b) c1 Hwf Hb0 Hov Hloop) as (Hwf1 & Hcfg & Hsub & _).
  assert (∀ k x, cached c1 k = Some x → cached c k = Some x) as Hkeep.
  { intros k x. rewrite !cached_Some by done. intros [Hin ?]. split; [|done].
    by eapply sublist_elem. }
  assert (cached c1 (CID b) = None) as Hnone.
  { destruct (cached c1 (CID b)) eqn:E; [|done]. apply Hkeep in E. unfold cached in E. by rewrite Ef in E. }
  destruct (push_front_wf c1 b Hwf1 Hnone) as [Hwf2 Hb2].
  exists c1. set (c2 := update _ _ _ _ _) in *.
  split_and!; [done|done|by injection Hcfg|done| |done| |done].
  - apply cached_Some; [done|]. rewrite Hb2. split; [by left|done].
  - intros k Hne. apply option_eq. intros x. rewrite !cached_Some by done.
    rewrite Hb2, elem_of_cons. naive_solver.
Qed.

(** C18: when [Put] returns, on a well-formed cache and short of [int64]
    overflow, the block is cached at the front under its CID; every other
    binding of the new cache was there before; every pinned binding is still
    there; nothing is evicted when the CID was cached or the block fits; and
    a block that was not cached leaves the cache within its limit unless it
    is the only block left. *)
Theorem Put_spec (fuel : nat) (c c' : LRUCache) (b : Block) :
  wf c → total c + block_size b < 2 ^ 63 → Put fuel c b = Some c' →
  wf c' ∧ cached c' (CID b) = Some b ∧ head (blocks c') = Some b ∧
  (∀ k x, k ≠ CID b → cached c' k = Some x → cached c k = Some x) ∧
  (∀ k x, k ≠ CID b → cached c k = Some x → is_pinned c x = true → cached c' k = Some x) ∧
  (is_Some (cached c (CID b)) ∨ total c + block_size b ≤ maxBytes c →
     ∀ k, k ≠ CID b → cached c' k = cached c k) ∧
  (cached c (CID b) = None → currentBytes c' ≤ maxBytes c ∨ blocks c' = [b]).
Proof.
  intros Hwf Hov HP. destruct (find_elem c (CID b)) as [[h old]|] eqn:Ef.
  - destruct (Put_cached fuel c b c' h old Hwf Ef HP) as (? & _ & ? & ? & Hsame).
    split_and!; [done..| | |by intros _|unfold cached at 1; by rewrite Ef].
    + intros k x Hne. by rewrite Hsame.
    + intros k x Hne ? _. by rewrite Hsame.
  - destruct (Put_new fuel c b c' Hwf Hov Ef HP) as (c1 & Hloop & Hwf' & _ & Hb & ? & Hcur & Heq & Hkeep).
    assert (0 ≤ block_size b) as Hb0 by (unfold block_size; lia).
    destruct (evict_loop_spec fuel c (block_size b) c1 Hwf Hb0 Hov Hloop) as
      (Hwf1 & _ & _ & Hpin & Hfit & Hsame & Ht).
    split_and!; [done|done|by rewrite Hb|..].
    + intros k x Hne. rewrite Heq by done. apply Hkeep.
    + intros k x Hne [Hin Hk]%cached_Some Hp; [|done]. rewrite Heq by done.
      apply cached_Some; [done|]. split; [|done].
      assert (x ∈ pinned_blocks c1) as Hx by (rewrite Hpin; by apply elem_of_filter_bool).
      by apply elem_of_filter_bool in Hx as [? _].
    + intros [[x Hx]|Hfits] k Hne; [|by rewrite Heq, (Hsame Hfits)].
      unfold cached in Hx. by rewrite Ef in Hx.
    + intros _. destruct Hfit as [Hfit|Hfit]; [left|right; by rewrite Hb, Hfit].
      rewrite Hcur, (wf_bytes c1 Hwf1), wrap64_idem_add_l.
      pose proof (zsum_block_nonneg (blocks c1)) as H0. fold (total c1) in H0.
      rewrite wrap64_small by (unfold int64_ok; lia). done.
Qed.

(** C12: [Put] of a block that is not cached returns if and only if the pinned
    blocks leave room for it or nothing is pinned, and then as many
    iterations as there are entries are enough; otherwise the eviction loop,
    which holds the lock, never ends.  [Put] of a cached CID always returns. *)
Theorem Put_terminates_iff (c : LRUCache) (b : Block) :
  wf c → total c + block_size b < 2 ^ 63 →
  ((∃ fuel c', Put fuel c b = Some c') ↔
     is_Some (cached c (CID b)) ∨ pinned_total c + block_size b ≤ maxBytes c ∨ pinned_blocks c = []) ∧
  ((∃ fuel c', Put fuel c b = Some c') → is_Some (Put (length (eviction c)) c b)).
Proof.
  intros Hwf Hov. assert (0 ≤ block_size b) as Hb0 by (unfold block_size; lia).
  assert (∀ fuel, is_Some (Put fuel c b) ↔
    is_Some (cached c (CID b)) ∨ is_Some (evict_loop fuel c (block_size b))) as Hput.
  { intros fuel. unfold Put, cached. destruct (find_elem c (CID b)) as [[h e]|]; simpl.
    - split; [intros _; left; by eexists|intros _; by eexists].
    - fold (block_size b). destruct (evict_loop fuel c (block_size b)); simpl.
      + split; [intros _; right; by eexists|intros _; by eexists].
      + split; [by intros [? ?]|by intros [[? ?]|[? ?]]]. }
  assert (∀ fuel, is_Some (evict_loop fuel c (block_size b)) → room_for c (block_size b)) as Hroom.
  { intros fuel Hs. destruct (decide (pinned_blocks c = [])); [by right|].
    destruct (decide (pinned_total c + block_size b ≤ maxBytes c)); [by left|].
    rewrite evict_loop_diverges in Hs; [by destruct Hs|done..|]. by intros [?|?]. }
  assert (room_for c (block_size b) → is_Some (evict_loop (length (eviction c)) c (block_size b))) as Hterm.
  { intros Hr. apply evict_loop_terminates; [done..|]. by rewrite length_blocks. }
  split; [split|].
  - intros (fuel & c' & Hp). assert (is_Some (Put fuel c b)) as Hs by by eexists.
    apply Hput in Hs as [Hs|Hs]; [by left|right; by apply (Hroom fuel)].
  - intros Hc. exists (length (eviction c)). apply Hput.
    destruct Hc as [Hc|Hc]; [by left|right; by apply Hterm].
  - intros (fuel & c' & Hp). assert (is_Some (Put fuel c b)) as Hs by by eexists.
    apply Hput. apply Hput in Hs as [Hs|Hs]; [by left|right]. by apply Hterm, (Hroom fuel).
Qed.

(** [Evict] removes the binding of its key and no other, pinned or not. *)
Theorem Evict_spec (c : LRUCache) (k : string) :
  wf c →
  wf (Evict c k) ∧ config (Evict c k) = config c ∧
  ∀ k', cached (Evict c k) k' = if decide (k = k') then None else cached c k'.
Proof.
  clear IsPinned. intros Hwf. unfold Evict. destruct (items c !! k) as [h|] eqn:Ei.
  - apply (wf_items c Hwf) in Ei as (e & Hin & Hk).
    destruct (removeElement_spec c h e Hwf Hin) as (Hwf' & l1 & l2 & Hb & Hb').
    split_and!; [done|apply removeElement_config|]. intros k'.
    pose proof (wf_entries c Hwf) as Hen. rewrite Forall_forall in Hen.
    destruct (Hen _ Hin) as [Hck _]. simpl in Hck.
    assert (∀ x, x ∈ l1 ++ l2 → CID x ≠ k) as Hother.
    { intros x Hx Hkx. 
      assert (NoDup (CID <$> blocks c)) as Hnd.
      { unfold blocks. rewrite <-list_fmap_compose. apply NoDup_fmap_2_strong.
        - intros [h1 e1] [h2 e2] H1 H2 Heq. simpl in Heq.
          destruct (Hen _ H1) as [Hk1 _], (Hen _ H2) as [Hk2 _]. simpl in *.
          destruct (wf_key_unique c h1 e1 h2 e2 Hwf H1 H2); [congruence|by subst].
        - by apply (NoDup_fmap_1 fst), Hwf. }
      rewrite Hb, fmap_app, fmap_cons in Hnd. apply NoDup_app in Hnd as (_ & Hd & Hn).
      apply NoDup_cons in Hn as [Hn _].
      apply elem_of_app in Hx as [Hx|Hx].
      - apply (Hd (CID x)); [by apply list_elem_of_fmap_2|]. apply elem_of_cons. left. congruence.
      - apply Hn. rewrite <-Hck, Hk, <-Hkx. by apply list_elem_of_fmap_2. }
    apply option_eq. intros x. rewrite cached_Some by done. rewrite Hb'. case_decide as He.
    + split; [|done]. intros [Hx ?]. subst. by destruct (Hother x Hx).
    + rewrite cached_Some by done. rewrite Hb.
      rewrite !elem_of_app, elem_of_cons. split; [naive_solver|].
      intros [[?|[->|?]] ?]; [naive_solver| |naive_solver]. congruence.
  - split_and!; [done|done|]. intros k'. case_decide as He; [|done]. subst k'.
    destruct (cached c k) as [x|] eqn:E; [|done]. unfold cached, find_elem in E.
    by rewrite Ei in E.
Qed.

End lru.

(** ** Reachable caches

    Calls are serialised by the lock; the pins may change between calls.
    The blocks of a cache are in memory together, so their sizes do not
    overflow an [int64]. *)
Inductive lru_step : LRUCache → LRUCache → Prop :=
  | step_Get c k : lru_step c (snd (Get c k))
  | step_Put c IsPinned fuel b c' :
      total c + block_size b < 2 ^ 63 → Put IsPinned fuel c b = Some c' → lru_step c c'
  | step_Evict c k : lru_step c (Evict c k)
  | step_SetPinChecker c : lru_step c (SetPinChecker c)
  | step_SetMetricsHook c hit miss : lru_step c (SetMetricsHook c hit miss).

Lemma config_change_wf c c' :
  eviction c' = eviction c → items c' = items c → next_elem c' = next_elem c →
  currentBytes c' = currentBytes c → wf c → wf c'.
Proof.
  intros He Hi Hn Hb [H1 H2 H3 H4 H5]. unfold total, blocks in *.
  split; unfold total, blocks; rewrite ?He, ?Hi, ?Hn, ?Hb; done.
Qed.

Lemma Get_wf c k : wf c → wf (snd (Get c k)).
Proof.
  intros Hwf. unfold Get. destruct (find_elem c k) as [[h e]|] eqn:Ef; [|by apply (count_wf c false)].
  destruct (find_elem_entry c k h e Hwf Ef) as (Hin & _ & Hew).
  cbn [snd]. apply (count_wf _ true).
  destruct (move_to_front_wf c h e
    {| key := key e; block := block e; size := size e; fetchCount := wrap64 (fetchCount e + 1) |}
    (currentBytes c) Hwf Hin) as [H _]; [done|done| |done].
  rewrite (wf_bytes c Hwf). f_equal. simpl. lia.
Qed.

(** A lookup returns the cached block and adds none. *)
Lemma Get_cached c k : fst (Get c k) = cached c k.
Proof. unfold Get, cached. by destruct (find_elem c k) as [[h e]|]. Qed.

Lemma Get_blocks c k b : wf c → b ∈ blocks (snd (Get c k)) → b ∈ blocks c.
Proof.
  intros Hwf. unfold Get, blocks. destruct (find_elem c k) as [[h e]|] eqn:Ef; [|done].
  destruct (find_elem_entry c k h e Hwf Ef) as (Hin & _). simpl.
  intros [->|Hb]%elem_of_cons.
  - apply list_elem_of_fmap. by exists (h, e).
  - apply list_elem_of_fmap in Hb as (x & -> & Hx%elem_of_without). apply list_elem_of_fmap.
    exists x. naive_solver.
Qed.

(** What [Put] stores is well-formed (the invariant's part of its spec). *)
Lemma Put_wf IsPinned fuel c b c' :
  wf c → total c + block_size b < 2 ^ 63 → Put IsPinned fuel c b = Some c' →
  wf c' ∧ maxBytes c' = maxBytes c.
Proof.
  intros Hwf Hov HP. destruct (find_elem c (CID b)) as [[h old]|] eqn:Ef.
  - by destruct (Put_cached IsPinned fuel c b c' h old Hwf Ef HP) as (? & ? & _).
  - by destruct (Put_new IsPinned fuel c b c' Hwf Hov Ef HP) as (c1 & _ & ? & ? & _).
Qed.

(** [Put] brings in no block but its own. *)
Lemma Put_blocks IsPinned fuel c b c' x :
  wf c → total c + block_size b < 2 ^ 63 → Put IsPinned fuel c b = Some c' →
  x ∈ blocks c' → x = b ∨ x ∈ blocks c.
Proof.
  intros Hwf Hov HP Hx.
  assert (wf c' ∧ cached c' (CID b) = Some b ∧
    ∀ k, k ≠ CID b → cached c' k = Some x → cached c k = Some x) as (Hwf' & Hb & Hk).
  { destruct (find_elem c (CID b)) as [[h old]|] eqn:Ef.
    - destruct (Put_cached IsPinned fuel c b c' h old Hwf Ef HP) as (? & _ & _ & ? & Hk).
      split_and!; [done|done|]. intros k Hne. by rewrite Hk.
    - destruct (Put_new IsPinned fuel c b c' Hwf Hov Ef HP) as (c1 & _ & ? & _ & _ & ? & _ & Hk & Hkeep).
      split_and!; [done|done|]. intros k Hne. rewrite Hk by done. apply Hkeep. }
  assert (cached c' (CID x) = Some x) as Hc by by apply cached_Some.
  destruct (decide (CID x = CID b)) as [He|Hne].
  - left. rewrite He, Hb in Hc. by injection Hc.
  - right. by apply (cached_Some c (CID x) x Hwf), Hk.
Qed.

(** C19: every cache reachable from [NewLRUCache max] by any sequence of
    operations, under any changing pins, satisfies the representation
    invariant: map and list agree, keys are the CIDs of the blocks, and
    [currentBytes] is the sum of the sizes of the cached blocks. *)
Theorem reachable_wf (max : Z) (c : LRUCache) :
  rtc lru_step (NewLRUCache max) c →
  wf c ∧ maxBytes c = max ∧ NoDup (CID <$> blocks c) ∧ currentBytes c = wrap64 (total c).
Proof.
  intros Hr.
  assert (wf c ∧ maxBytes c = max) as [Hwf Hm].
  { assert (∀ c0, rtc lru_step c0 c → wf c0 ∧ maxBytes c0 = max → wf c ∧ maxBytes c = max) as H.
    { clear. induction 1 as [c|c c1 c2 Hs _ IH]; [done|]. intros [Hwf Hm]. apply IH.
      destruct Hs as [c k|c pins fuel b c' Hov Hp|c k|c|c hit miss].
      - split; [by apply Get_wf|]. unfold Get. by destruct (find_elem c k) as [[]|].
      - destruct (Put_wf _ _ _ _ _ Hwf Hov Hp) as [? ->]. done.
      - unfold Evict. destruct (items c !! k) as [h|] eqn:Ei; [|done].
        pose proof Ei as (e & Hin & _)%(wf_items c Hwf).
        split; [by eapply removeElement_spec|]. pose proof (removeElement_config c h) as Hc.
        injection Hc. congruence.
      - split; [by apply (config_change_wf c)|done].
      - split; [by apply (config_change_wf c)|done]. }
    apply (H _ Hr). split; [apply NewLRUCache_wf|done]. }
  split_and!; [done|done| |apply Hwf].
  unfold blocks. rewrite <-list_fmap_compose. apply NoDup_fmap_2_strong.
  - intros [h1 e1] [h2 e2] H1 H2 Heq. simpl in Heq.
    pose proof (wf_entries c Hwf) as Hen. rewrite Forall_forall in Hen.
    destruct (Hen _ H1) as [Hk1 _], (Hen _ H2) as [Hk2 _]. simpl in *.
    destruct (wf_key_unique c h1 e1 h2 e2 Hwf H1 H2); [congruence|by subst].
  - by apply (NoDup_fmap_1 fst), Hwf.
Qed.

(** ** Concrete inputs *)

Section witnesses.

Definition bytes_block (k : string) (n : nat) : Block :=
  {| CID := k; Data := replicate n Init.Byte.x61 |}.

(** Ten bytes, two of three blocks pinned. *)
Definition no_pins : string → bool := λ _, false.
Definition pins_ab : string → bool := λ k, bool_decide (k ∈ ["a"; "b"]).

Definition put_all (pins : string → bool) (c : LRUCache) (l : list Block) : LRUCache :=
  foldl (λ c b, default c (Put pins 10 c b)) c l.

Definition cache_ab : LRUCache :=
  put_all no_pins (SetPinChecker (NewLRUCache 10)) [bytes_block "a" 4; bytes_block "b" 5].

Lemma cache_ab_reachable : rtc lru_step (NewLRUCache 10) cache_ab.
Proof.
  eapply rtc_l; [apply step_SetPinChecker|].
  eapply rtc_l; [apply (step_Put _ no_pins 10 (bytes_block "a" 4)); [vm_compute; reflexivity|reflexivity]|].
  eapply rtc_l; [apply (step_Put _ no_pins 10 (bytes_block "b" 5)); [vm_compute; reflexivity|reflexivity]|].
  apply rtc_refl.
Qed.

Lemma cache_ab_wf : wf cache_ab.
Proof.
  assert (wf (SetPinChecker (NewLRUCache 10))) as H0
    by (apply (config_change_wf (NewLRUCache 10)); try done; apply NewLRUCache_wf).
  eapply (Put_wf no_pins 10 (put_all no_pins (SetPinChecker (NewLRUCache 10)) [bytes_block "a" 4])
    (bytes_block "b" 5)); [|vm_compute; reflexivity|reflexivity].
  eapply (Put_wf no_pins 10 (SetPinChecker (NewLRUCache 10)) (bytes_block "a" 4));
    [done|vm_compute; reflexivity|reflexivity].
Qed.

Lemma reachable_wf_witness :
  wf cache_ab ∧ maxBytes cache_ab = 10 ∧ NoDup (CID <$> blocks cache_ab) ∧
  currentBytes cache_ab = wrap64 (total cache_ab).
Proof. apply reachable_wf, cache_ab_reachable. Defined.

Lemma Get_spec_witness :
  let '(r, c') := Get cache_ab "a" in
  r = cached cache_ab "a" ∧ wf c' ∧ (∀ k', cached c' k' = cached cache_ab k') ∧
  blocks c' ≡ₚ blocks cache_ab ∧
  match r with
  | Some b => CID b = "a" ∧ head (blocks c') = Some b ∧ hits c' = wrap64 (hits cache_ab + 1) ∧
              misses c' = misses cache_ab ∧
              hook_calls c' = hook_calls cache_ab ++ (if OnHit cache_ab then [true] else [])
  | None => blocks c' = blocks cache_ab ∧ hits c' = hits cache_ab ∧
            misses c' = wrap64 (misses cache_ab + 1) ∧
            hook_calls c' = hook_calls cache_ab ++ (if OnMiss cache_ab then [false] else [])
  end.
Proof. apply (Get_spec cache_ab "a"), cache_ab_wf. Defined.

(** With "a" and "b" pinned, a block of four bytes never finds room. *)
Lemma Put_terminates_iff_witness :
  ((∃ fuel c', Put pins_ab fuel cache_ab (bytes_block "c" 4) = Some c') ↔
     is_Some (cached cache_ab "c") ∨ pinned_total pins_ab cache_ab + 4 ≤ 10 ∨
     pinned_blocks pins_ab cache_ab = []) ∧
  ((∃ fuel c', Put pins_ab fuel cache_ab (bytes_block "c" 4) = Some c') →
     is_Some (Put pins_ab 2 cache_ab (bytes_block "c" 4))).
Proof.
  apply (Put_terminates_iff pins_ab cache_ab (bytes_block "c" 4));
    [apply cache_ab_wf|vm_compute; reflexivity].
Defined.

Example Put_hangs : ∀ fuel, Put pins_ab fuel cache_ab (bytes_block "c" 4) = None.
Proof.
  intros fuel. unfold Put.
  assert (find_elem cache_ab (CID (bytes_block "c" 4)) = None) as -> by reflexivity.
  rewrite evict_loop_diverges; [done|apply cache_ab_wf|simpl; lia|vm_compute; reflexivity|].
  unfold room_for. intros [H|H]; vm_compute in H; done.
Qed.

Lemma Put_spec_witness :
  let c := cache_ab in
  let b := bytes_block "c" 4 in
  ∃ c', Put no_pins 2 c b = Some c' ∧
  wf c' ∧ cached c' "c" = Some b ∧ head (blocks c') = Some b ∧
  (∀ k x, k ≠ "c" → cached c' k = Some x → cached c k = Some x) ∧
  (∀ k x, k ≠ "c" → cached c k = Some x → is_pinned no_pins c x = true → cached c' k = Some x) ∧
  (is_Some (cached c "c") ∨ total c + block_size b ≤ maxBytes c →
     ∀ k, k ≠ "c" → cached c' k = cached c k) ∧
  (cached c "c" = None → currentBytes c' ≤ maxBytes c ∨ blocks c' = [b]).
Proof.
  intros c b. destruct (Put no_pins 2 c b) as [c'|] eqn:E; [|vm_compute in E; discriminate E].
  exists c'. split; [done|].
  apply (Put_spec no_pins 2 c c' b); [apply cache_ab_wf|vm_compute; reflexivity|exact E].
Defined.

Lemma Evict_spec_witness :
  wf (Evict cache_ab "a") ∧ config (Evict cache_ab "a") = config cache_ab ∧
  ∀ k', cached (Evict cache_ab "a") k' = if decide ("a" = k') then None else cached cache_ab k'.
Proof. apply Evict_spec, cache_ab_wf. Defined.

End witnesses.
