(* ===== verification/Bloom.v ===== *)
(** * Bloom filters of cached blocks ([internal/cache/bloom.go])

    The filter hashes a key [numHash] times with 64-bit FNV-1a and sets one
    bit per hash.  Index and division faults are [Panic]s of the outcome. *)

From Stdlib Require Import Init.Byte.
From S2P Require Import Prelude Float64 Runtime Path Policy.

Record BloomFilter := {
  bits : bytes;
  size : Z;                         (* uint, number of bits *)
  numHash : Z                       (* uint *)
}.

(** ** [hash/fnv]: 64-bit FNV-1a *)

Definition fnv_offset : Z := 14695981039346656037.
Definition fnv_prime : Z := 1099511628211.

Definition fnv64a (b : bytes) : Z :=
  foldl (λ h x, uwrap 64 (Z.lxor h (byte.unsigned x) * fnv_prime)) fnv_offset b.

(** ** Construction *)

Section new.
Context `{ML : MathLib}.

(** A real constant, correctly rounded. *)
Definition ratio (n d : positive) : float64 := fdiv (S754_finite false n 0) (S754_finite false d 0).

(** [math.Ln2] and [math.Ln2 * math.Ln2], constants of arbitrary precision
    that the compiler rounds once. *)
Definition ln2_digits : positive := 693147180559945309417232121458176568.
Definition Ln2 : float64 := Eval vm_compute in ratio ln2_digits (10 ^ 36).
Definition Ln2_squared : float64 := Eval vm_compute in ratio (ln2_digits * ln2_digits) (10 ^ 72).

(** [uint(x)]; out of range the language leaves the value to the
    implementation, amd64 gives [2^63]. *)
Definition to_uint64 (x : float64) : Z :=
  match trunc x with
  | Some z => if (0 <=? z) && (z <? 2 ^ 64) then z else 2 ^ 63
  | None => 2 ^ 63
  end.

Definition NewBloomFilter (expectedItems : Z) (fpRate : float64) : BloomFilter :=
  let expectedItems := if expectedItems <=? 0 then 100 else expectedItems in
  let fpRate := if fle fpRate f0 || fge fpRate f1 then lit 1 100 else fpRate in
  let n := of_int expectedItems in
  let m := fdiv (fmul (fneg n) (Log fpRate)) Ln2_squared in
  let size := to_uint64 (Ceil m) in
  let size := if size <? 8 then 8 else size in
  let k := to_uint64 (Ceil (fmul (fdiv (of_int size) n) Ln2)) in
  let k := if k <? 1 then 1 else k in
  {| bits := replicate (Z.to_nat (uwrap 64 (size + 7) / 8)) x00; size := size; numHash := k |}.
End new.

(** ** Bits *)

Definition set_bit (b : byte) (i : Z) : byte := byte.of_Z (Z.lor (byte.unsigned b) (Z.shiftl 1 i)).
Definition test_bit (b : byte) (i : Z) : bool :=
  negb (Z.land (byte.unsigned b) (Z.shiftl 1 i) =? 0).

Definition out_of_range {A} : outcome A := Panic "index out of range".

Definition hash_index (sz : Z) (key : string) (i : Z) : Z :=
  fnv64a (le_put 8 i ++ to_bytes key) mod sz.

Definition hashes (bf : BloomFilter) (key : string) : outcome (list Z) :=
  if (size bf =? 0) && (0 <? numHash bf) then Panic "integer divide by zero"
  else mret (hash_index (size bf) key <$> seqZ 0 (numHash bf)).

Fixpoint add_bits (b : bytes) (idxs : list Z) : outcome bytes :=
  match idxs with
  | [] => mret b
  | i :: idxs' =>
      match b !! Z.to_nat (i / 8) with
      | Some x => add_bits (<[Z.to_nat (i / 8) := set_bit x (i mod 8)]> b) idxs'
      | None => out_of_range
      end
  end.

Definition Add (bf : BloomFilter) (key : string) : outcome BloomFilter :=
  idxs ← hashes bf key;
  b ← add_bits (bits bf) idxs;
  mret {| bits := b; size := size bf; numHash := numHash bf |}.

Fixpoint has_bits (b : bytes) (idxs : list Z) : outcome bool :=
  match idxs with
  | [] => mret true
  | i :: idxs' =>
      match b !! Z.to_nat (i / 8) with
      | Some x => if test_bit x (i mod 8) then has_bits b idxs' else mret false
      | None => out_of_range
      end
  end.

Definition Contains (bf : BloomFilter) (key : string) : outcome bool :=
  idxs ← hashes bf key;
  has_bits (bits bf) idxs.

(** ** Wire format *)

Definition Bytes (bf : BloomFilter) : bytes :=
  le_put 4 (size bf) ++ le_put 4 (numHash bf) ++ bits bf.

Definition BloomFromBytes (data : bytes) : option BloomFilter :=
  if zlen data <? 8 then None
  else Some {| bits := drop 8 data; size := le_get (take 4 data);
               numHash := le_get (take 4 (drop 4 data)) |}.

(** ** Filters received from peers; a stored pointer may be nil *)

Abbreviation PeerBloomStore := (gmap string (option BloomFilter)).
Definition NewPeerBloomStore : PeerBloomStore := ∅.
Definition Set_ (s : PeerBloomStore) (p : string) (bf : option BloomFilter) : PeerBloomStore :=
  <[p := bf]> s.
Definition PeerMayHave (s : PeerBloomStore) (p cid : string) : outcome bool :=
  match s !! p with
  | None => mret false
  | Some None => Panic "nil pointer dereference"
  | Some (Some bf) => Contains bf cid
  end.
Definition Remove (s : PeerBloomStore) (p : string) : PeerBloomStore := delete p s.

(** ** Lemmas *)

(** Every index the filter computes lies in its bit array. *)
Definition bloom_wf (bf : BloomFilter) : Prop := 0 < size bf ≤ 8 * zlen (bits bf).

Lemma byte_land_bit x i : 0 ≤ i < 8 →
  test_bit x i = Z.testbit (byte.unsigned x) i.
Proof.
  intros Hi. unfold test_bit. rewrite Z.shiftl_1_l.
  destruct (Z.testbit (byte.unsigned x) i) eqn:E.
  - apply negb_true_iff, Z.eqb_neq. intros H.
    assert (Z.testbit (Z.land (byte.unsigned x) (2 ^ i)) i = false) as Hc by by rewrite H, Z.bits_0.
    rewrite Z.land_spec, E, Z.pow2_bits_true in Hc by lia. done.
  - apply negb_false_iff, Z.eqb_eq, Z.bits_inj'. intros n Hn. rewrite Z.land_spec, Z.bits_0.
    destruct (decide (n = i)) as [->|Hne]; [by rewrite E|].
    rewrite Z.pow2_bits_false by lia. apply andb_false_r.
Qed.

Lemma set_bit_unsigned x i : 0 ≤ i < 8 →
  byte.unsigned (set_bit x i) = Z.lor (byte.unsigned x) (2 ^ i).
Proof.
  intros Hi. unfold set_bit. rewrite Z.shiftl_1_l, byte.unsigned_of_Z.
  unfold byte.wrap. pose proof (byte.unsigned_range x) as Hx.
  apply Z.mod_small. split; [apply Z.lor_nonneg; lia|].
  assert (2 ^ i < 256) by (change 256 with (2 ^ 8); apply Z.pow_lt_mono_r; lia).
  destruct (decide (byte.unsigned x = 0)) as [->|Hne]; [by rewrite Z.lor_0_l|].
  change 256 with (2 ^ 8). apply Z.log2_lt_pow2; [|rewrite Z.log2_lor by lia].
  - assert (0 ≤ Z.lor (byte.unsigned x) (2 ^ i)) by (apply Z.lor_nonneg; lia).
    destruct (decide (Z.lor (byte.unsigned x) (2 ^ i) = 0)) as [Hz|]; [|lia].
    apply Z.lor_eq_0_iff in Hz. lia.
  - apply Z.max_lub_lt; apply Z.log2_lt_pow2; lia.
Qed.

Lemma test_set_bit x i j : 0 ≤ i < 8 → 0 ≤ j < 8 →
  test_bit (set_bit x i) j = (i =? j) || test_bit x j.
Proof.
  intros Hi Hj. rewrite !byte_land_bit, set_bit_unsigned, Z.lor_spec by done.
  destruct (Z.eqb_spec i j) as [->|Hne]; simpl.
  - rewrite Z.pow2_bits_true by lia. apply orb_true_r.
  - rewrite Z.pow2_bits_false by lia. apply orb_false_r.
Qed.

(** The bit at an index; out of range counts as unset. *)
Definition bit_at (b : bytes) (i : Z) : bool :=
  match b !! Z.to_nat (i / 8) with Some x => test_bit x (i mod 8) | None => false end.

Definition in_range (b : bytes) (i : Z) : Prop := 0 ≤ i < 8 * zlen b.

Lemma in_range_lookup b i : in_range b i → is_Some (b !! Z.to_nat (i / 8)).
Proof.
  intros [H1 H2]. apply lookup_lt_is_Some_2.
  assert (i / 8 < zlen b) by (apply Z.div_lt_upper_bound; lia).
  pose proof (Z.div_pos i 8 ltac:(lia) ltac:(lia)). lia.
Qed.

Lemma bit_at_insert b i j x : 0 ≤ i → 0 ≤ j → b !! Z.to_nat (i / 8) = Some x →
  bit_at (<[Z.to_nat (i / 8) := set_bit x (i mod 8)]> b) j = (i =? j) || bit_at b j.
Proof.
  intros Hi Hj Hx. unfold bit_at.
  pose proof (Z.div_pos i 8 ltac:(lia) ltac:(lia)). pose proof (Z.div_pos j 8 ltac:(lia) ltac:(lia)).
  pose proof (Z.mod_pos_bound i 8 ltac:(lia)). pose proof (Z.mod_pos_bound j 8 ltac:(lia)).
  destruct (decide (i / 8 = j / 8)) as [He|Hne].
  - rewrite <-He, list_lookup_insert_eq by (by eapply lookup_lt_Some).
    rewrite test_set_bit, Hx by done. f_equal.
    destruct (Z.eqb_spec i j) as [->|Hij]; [apply Z.eqb_refl|].
    apply Z.eqb_neq. intros Hm. apply Hij.
    rewrite (Z.div_mod i 8), (Z.div_mod j 8) by lia. congruence.
  - rewrite list_lookup_insert_ne by lia.
    destruct (Z.eqb_spec i j) as [->|]; done.
Qed.

Lemma add_bits_spec b idxs :
  Forall (in_range b) idxs →
  ∃ b', add_bits b idxs = Ok b' ∧ length b' = length b ∧
    ∀ j, 0 ≤ j → bit_at b' j = existsb (Z.eqb j) idxs || bit_at b j.
Proof.
  revert b. induction idxs as [|i idxs IH]; intros b Hr; simpl; [by exists b|].
  apply Forall_cons in Hr as [Hi Hr]. destruct (in_range_lookup b i Hi) as [x Hx]. rewrite Hx.
  destruct (IH (<[Z.to_nat (i / 8):=set_bit x (i mod 8)]> b)) as (b' & Hb' & Hl & Hbits).
  { eapply Forall_impl; [exact Hr|]. intros j. unfold in_range. by rewrite length_insert. }
  exists b'. split_and!; [done|by rewrite Hl, length_insert|]. intros j Hj.
  rewrite Hbits, bit_at_insert by (done || apply Hi).
  rewrite (Z.eqb_sym i j). destruct (j =? i), (existsb (Z.eqb j) idxs); done.
Qed.

Lemma has_bits_spec b idxs :
  Forall (in_range b) idxs → has_bits b idxs = Ok (forallb (bit_at b) idxs).
Proof.
  induction 1 as [|i idxs Hi _ IH]; [done|]. simpl.
  destruct (in_range_lookup b i Hi) as [x Hx]. unfold bit_at at 1. rewrite Hx, IH.
  by destruct (test_bit x (i mod 8)).
Qed.

Definition indices (bf : BloomFilter) (key : string) : list Z :=
  hash_index (size bf) key <$> seqZ 0 (numHash bf).

Lemma hashes_wf bf key :
  bloom_wf bf → hashes bf key = Ok (indices bf key) ∧ Forall (in_range (bits bf)) (indices bf key).
Proof.
  intros [H1 H2]. unfold hashes. rewrite (proj2 (Z.eqb_neq _ _)) by lia. split; [done|].
  unfold indices. apply Forall_fmap, Forall_forall. intros i _. simpl. unfold in_range, hash_index.
  pose proof (Z.mod_pos_bound (fnv64a (le_put 8 i ++ to_bytes key)) (size bf) ltac:(lia)). lia.
Qed.

Lemma Contains_wf bf key : bloom_wf bf →
  Contains bf key = Ok (forallb (bit_at (bits bf)) (indices bf key)).
Proof.
  intros Hwf. destruct (hashes_wf bf key Hwf) as [Hh Hr]. unfold Contains. rewrite Hh. simpl.
  by apply has_bits_spec.
Qed.

(** One [Add]: the key is contained, and nothing is lost. *)
Lemma Add_wf bf key : bloom_wf bf →
  ∃ bf', Add bf key = Ok bf' ∧ bloom_wf bf' ∧ Contains bf' key = Ok true ∧
    ∀ k, Contains bf k = Ok true → Contains bf' k = Ok true.
Proof.
  intros Hwf. destruct (hashes_wf bf key Hwf) as [Hh Hr]. unfold Add. rewrite Hh. simpl.
  destruct (add_bits_spec (bits bf) (indices bf key) Hr) as (b' & -> & Hl & Hb). simpl.
  eexists. split; [done|]. set (bf' := {| bits := b'; size := size bf; numHash := numHash bf |}).
  assert (bloom_wf bf') as Hwf' by (unfold bloom_wf in *; simpl; by rewrite Hl).
  assert (∀ k, indices bf' k = indices bf k) as Hidx by done.
  assert (∀ k j, j ∈ indices bf k → 0 ≤ j) as Hpos.
  { intros k j Hj. destruct (hashes_wf bf k Hwf) as [_ Hr']. rewrite Forall_forall in Hr'.
    by apply Hr'. }
  split_and!; [done| |].
  - rewrite Contains_wf, Hidx by done. f_equal. apply forallb_forall. intros j Hj%list_elem_of_In.
    simpl. rewrite Hb by by eapply Hpos. apply orb_true_iff. left. apply existsb_exists.
    exists j. split; [by apply list_elem_of_In|apply Z.eqb_refl].
  - intros k. rewrite !Contains_wf, Hidx by done. intros [= Hk]. f_equal.
    rewrite forallb_forall in *. intros j Hj. simpl.
    rewrite Hb by (eapply Hpos; by apply list_elem_of_In). rewrite (Hk j Hj). apply orb_true_r.
Qed.

Fixpoint add_all (bf : BloomFilter) (keys : list string) : outcome BloomFilter :=
  match keys with
  | [] => mret bf
  | k :: keys' => bf' ← Add bf k; add_all bf' keys'
  end.

Lemma add_all_wf bf keys : bloom_wf bf →
  ∃ bf', add_all bf keys = Ok bf' ∧ bloom_wf bf' ∧
    (∀ k, k ∈ keys → Contains bf' k = Ok true) ∧
    (∀ k, Contains bf k = Ok true → Contains bf' k = Ok true).
Proof.
  revert bf. induction keys as [|k keys IH]; intros bf Hwf; simpl.
  { exists bf. split_and!; [done|done|by intros k ?%not_elem_of_nil|done]. }
  destruct (Add_wf bf k Hwf) as (bf1 & -> & Hwf1 & Hk & Hkeep). simpl.
  destruct (IH bf1 Hwf1) as (bf2 & -> & Hwf2 & Hin & Hkeep2).
  exists bf2. split_and!; [done|done| |auto].
  intros k' [->|Hk']%elem_of_cons; auto.
Qed.

(** A Bloom filter whose size fits its bit array never loses a key: after
    adding any sequence of keys none of the calls panics and every added key,
    and every key the filter contained before, is reported as contained. *)
Theorem Bloom_no_false_negatives (bf : BloomFilter) (keys : list string) :
  bloom_wf bf →
  ∃ bf', add_all bf keys = Ok bf' ∧ bloom_wf bf' ∧ (∀ k, is_ok (Contains bf' k) = true) ∧
    (∀ k, k ∈ keys → Contains bf' k = Ok true) ∧
    (∀ k, Contains bf k = Ok true → Contains bf' k = Ok true).
Proof.
  intros Hwf. destruct (add_all_wf bf keys Hwf) as (bf' & ? & ? & ? & ?).
  exists bf'. split_and!; [done|done| |done|done]. intros k. by rewrite Contains_wf.
Qed.

(** A new filter's bit array covers its size. *)
Lemma NewBloomFilter_shape `{ML : MathLib} (n : Z) (fpRate : float64) :
  let bf := NewBloomFilter n fpRate in
  size bf ≤ 2 ^ 64 - 8 →
  bloom_wf bf ∧ 8 ≤ size bf ∧ 1 ≤ numHash bf ∧
  bits bf = replicate (Z.to_nat ((size bf + 7) / 8)) x00.
Proof.
  intros bf Hs.
  assert (8 ≤ size bf ∧ 1 ≤ numHash bf) as [H8 H1].
  { unfold bf, NewBloomFilter. simpl. split; case_if; zbool; lia. }
  assert (bits bf = replicate (Z.to_nat ((size bf + 7) / 8)) x00) as Hbits.
  { transitivity (replicate (Z.to_nat (uwrap 64 (size bf + 7) / 8)) x00); [done|].
    by rewrite uwrap_small by lia. }
  split_and!; [|lia|lia|done].
  unfold bloom_wf. split; [lia|]. rewrite Hbits, length_replicate.
  rewrite Z2Nat.id by (apply Z.div_pos; lia). Z.div_mod_to_equations. lia.
Qed.

(** A filter made by [NewBloomFilter] has at least eight bits, at least
    one hash, a bit array that covers its size, and contains nothing. *)
Theorem NewBloomFilter_wf `{ML : MathLib} (n : Z) (fpRate : float64) :
  let bf := NewBloomFilter n fpRate in
  size bf ≤ 2 ^ 64 - 8 →
  bloom_wf bf ∧ 8 ≤ size bf ∧ 1 ≤ numHash bf ∧ ∀ k, Contains bf k = Ok false.
Proof.
  intros bf Hs. destruct (NewBloomFilter_shape n fpRate Hs) as (Hwf & H8 & H1 & Hbits).
  fold bf in Hwf, H8, H1, Hbits.
  split_and!; [done|lia|lia|]. intros k. rewrite Contains_wf by done. f_equal.
  unfold indices. rewrite seqZ_cons by lia. simpl.
  assert (∀ j, bit_at (bits bf) j = false) as ->; [|done].
  intros j. unfold bit_at. rewrite Hbits.
  case_match eqn:E; [|done]. apply lookup_replicate in E as [-> _].
  unfold test_bit. change (byte.unsigned x00) with 0. by rewrite Z.land_0_l.
Qed.

Lemma Bytes_round_trip bf :
  0 ≤ size bf < 2 ^ 32 → 0 ≤ numHash bf < 2 ^ 32 → BloomFromBytes (Bytes bf) = Some bf.
Proof.
  intros Hs Hn. unfold BloomFromBytes, Bytes.
  rewrite (proj2 (Z.ltb_ge _ _)) by (rewrite !length_app, !length_le_put; lia).
  rewrite (take_app_length' (le_put 4 (size bf))) by by rewrite length_le_put.
  rewrite (drop_app_length' (le_put 4 (size bf)) _ 4) by by rewrite length_le_put.
  rewrite (take_app_length' (le_put 4 (numHash bf))) by by rewrite length_le_put.
  rewrite (app_assoc (le_put 4 (size bf))).
  rewrite (drop_app_length' (le_put 4 (size bf) ++ le_put 4 (numHash bf)))
    by by rewrite length_app, !length_le_put.
  rewrite !le_get_put, !Z.mod_small by done. by destruct bf.
Qed.

(** The wire format round-trips every filter whose size and hash count
    are 32-bit numbers, which is every filter [BloomFromBytes] returns; it
    rejects exactly the inputs shorter than the eight-byte header. *)
Theorem Bloom_wire_round_trip (data : bytes) :
  (∀ bf, 0 ≤ size bf < 2 ^ 32 → 0 ≤ numHash bf < 2 ^ 32 → BloomFromBytes (Bytes bf) = Some bf) ∧
  match BloomFromBytes data with
  | None => zlen data < 8
  | Some bf => 8 ≤ zlen data ∧ 0 ≤ size bf < 2 ^ 32 ∧ 0 ≤ numHash bf < 2 ^ 32 ∧ Bytes bf = data
  end.
Proof.
  split; [apply Bytes_round_trip|]. unfold BloomFromBytes.
  destruct (zlen data <? 8) eqn:E; zbool; [done|]. cbn [bits size numHash].
  pose proof (le_get_bound (take 4 data)) as H1. pose proof (le_get_bound (take 4 (drop 4 data))) as H2.
  rewrite length_take, Nat.min_l in H1 by lia.
  rewrite length_take, length_drop, Nat.min_l in H2 by lia.
  split_and!; [done|lia|lia|lia|lia|]. unfold Bytes. cbn [bits size numHash].
  assert (le_put 4 (le_get (take 4 data)) = take 4 data) as ->.
  { rewrite <-(le_put_get (take 4 data)) at 2. by rewrite length_take, Nat.min_l by lia. }
  assert (le_put 4 (le_get (take 4 (drop 4 data))) = take 4 (drop 4 data)) as ->.
  { rewrite <-(le_put_get (take 4 (drop 4 data))) at 2.
    by rewrite length_take, length_drop, Nat.min_l by lia. }
  rewrite <-(take_drop 4 data) at 4. f_equal.
  rewrite <-(take_drop 4 (drop 4 data)) at 2. by rewrite drop_drop.
Qed.

(** The header of a received filter is not validated.  A filter that
    announces no bits but some hashes makes every later membership test
    panic (a division by zero); a filter that announces no hashes claims
    every key; and only a filter whose size fits the bits it carries is known
    to be safe. *)
Theorem received_filter_hazards (data : bytes) (bf : BloomFilter) (p : string) :
  BloomFromBytes data = Some bf →
  let s := Set_ NewPeerBloomStore p (Some bf) in
  (size bf = 0 → 0 < numHash bf → ∀ k, PeerMayHave s p k = Panic "integer divide by zero") ∧
  (numHash bf = 0 → ∀ k, PeerMayHave s p k = Ok true) ∧
  (0 < size bf ≤ 8 * (zlen data - 8) → ∀ k, is_ok (PeerMayHave s p k) = true).
Proof.
  intros Hd. simpl. assert (∀ k, PeerMayHave (Set_ NewPeerBloomStore p (Some bf)) p k = Contains bf k) as Hp.
  { intros k. unfold PeerMayHave, Set_. by rewrite lookup_insert_eq. }
  split_and!.
  - intros Hs Hn k. rewrite Hp. unfold Contains, hashes.
    rewrite (proj2 (Z.eqb_eq _ _) Hs), (proj2 (Z.ltb_lt _ _) Hn). done.
  - intros Hn k. rewrite Hp. unfold Contains, hashes. rewrite Hn, andb_false_r. done.
  - intros Hs k. rewrite Hp. rewrite Contains_wf; [done|].
    unfold BloomFromBytes in Hd. destruct (zlen data <? 8) eqn:E; zbool; [done|].
    injection Hd as <-. unfold bloom_wf. cbn [bits size] in *. rewrite length_drop. lia.
Qed.

(** ** Concrete inputs *)

Lemma Bloom_no_false_negatives_witness :
  let bf := {| bits := replicate 2 x00; size := 16; numHash := 3 |} in
  ∃ bf', add_all bf ["a"; "b"] = Ok bf' ∧ bloom_wf bf' ∧ (∀ k, is_ok (Contains bf' k) = true) ∧
    (∀ k, k ∈ ["a"; "b"] → Contains bf' k = Ok true) ∧
    (∀ k, Contains bf k = Ok true → Contains bf' k = Ok true).
Proof. apply Bloom_no_false_negatives. unfold bloom_wf. simpl. lia. Defined.

Lemma NewBloomFilter_wf_witness :
  let bf := NewBloomFilter (ML := Policy.Examples.coarse_math) 1000 (lit 1 100) in
  bloom_wf bf ∧ 8 ≤ size bf ∧ 1 ≤ numHash bf ∧ ∀ k, Contains bf k = Ok false.
Proof. apply NewBloomFilter_wf. vm_compute. discriminate. Defined.

(** A nine-byte message that names no bits and one hash. *)
Lemma received_filter_hazards_witness :
  let bf := {| bits := [x00]; size := 0; numHash := 1 |} in
  let s := Set_ NewPeerBloomStore "peer" (Some bf) in
  (0 = 0 → 0 < 1 → ∀ k, PeerMayHave s "peer" k = Panic "integer divide by zero") ∧
  (1 = 0 → ∀ k, PeerMayHave s "peer" k = Ok true) ∧
  (0 < 0 ≤ 8 * (9 - 8) → ∀ k, is_ok (PeerMayHave s "peer" k) = true).
Proof.
  apply (received_filter_hazards [x00; x00; x00; x00; x01; x00; x00; x00; x00]
    {| bits := [x00]; size := 0; numHash := 1 |} "peer"). reflexivity.
Defined.
