(* ===== verification/Store.v ===== *)
(** * The on-disk block store ([internal/content/store.go])

    The disk maps paths to file contents; a path is the list of its
    components below the root.  Every file-system call takes the fault the
    environment injects into it, so that failed and torn writes are steps of
    the model.  Manifests and pins are JSON text ([Codec]). *)

From Stdlib Require Import Ascii.
From stdpp Require Import sorting.
From S2P Require Import Prelude Runtime Sha256 Chunker Utf8 Json Codec.

(** ** Paths ([path/filepath]) on an absolute data directory *)

Abbreviation path := (list string).

(** [strings.Split(s, "/")] *)
Fixpoint split_slash (s : string) : list string :=
  match s with
  | EmptyString => [EmptyString]
  | String c s' =>
      if Ascii.eqb c "/"%char then EmptyString :: split_slash s'
      else match split_slash s' with
           | h :: t => String c h :: t
           | [] => [String c EmptyString]
           end
  end.

(** [filepath.Clean] of a rooted path: empty and "." components vanish, ".."
    removes the component before it, and the root's ".." is the root. *)
Definition clean_step (acc : path) (c : string) : path :=
  if decide (c = "" ∨ c = ".") then acc
  else if decide (c = "..") then take (length acc - 1) acc
  else acc ++ [c].
Definition Clean (p : path) : path := foldl clean_step [] p.

(** [filepath.Join(dir, elems...)] *)
Definition Join (dir : path) (elems : list string) : path :=
  Clean (dir ++ concat (split_slash <$> elems)).

Definition parent (p : path) : path := take (length p - 1) p.

(** ** The disk *)

Record Disk := {
  files : gmap path bytes;
  dirs : gset path
}.

(** A fault of one call: its error and, for a write, how many bytes reached
    the file before it ([None]: the file was not even truncated). *)
Record Fault := { flt_err : error; flt_written : option nat }.
Abbreviation fault := (option Fault).

(** [os.ErrNotExist] as the system reports it, and two other errors. *)
Definition ENOENT : error := Errorf "no such file or directory".
Definition EISDIR : error := Errorf "is a directory".
Definition ENOTEMPTY : error := Errorf "directory not empty".

Definition WriteFile (f : fault) (d : Disk) (p : path) (data : bytes) : outcome unit * Disk :=
  match f with
  | Some e =>
      (Err (flt_err e), match flt_written e with
              | Some n => {| files := <[p := take n data]> (files d); dirs := dirs d |}
              | None => d
              end)
  | None =>
      if decide (p ∈ dirs d) then (Err EISDIR, d)
      else if decide (parent p ∈ dirs d) then
        (Ok (), {| files := <[p := data]> (files d); dirs := dirs d |})
      else (Err ENOENT, d)
  end.

Definition ReadFile (f : fault) (d : Disk) (p : path) : outcome bytes :=
  match f with
  | Some e => Err (flt_err e)
  | None => match files d !! p with
            | Some b => Ok b
            | None => Err (if decide (p ∈ dirs d) then EISDIR else ENOENT)
            end
  end.

(** The names in a directory. *)
Definition entries (d : Disk) (p : path) : list string :=
  omap last (List.filter (λ q, negb (bool_decide (q = [])) && bool_decide (parent q = p))
    (elements (dom (files d)) ++ elements (dirs d))).

Definition RemoveFile (f : fault) (d : Disk) (p : path) : outcome unit * Disk :=
  match f with
  | Some e => (Err (flt_err e), d)
  | None => match files d !! p with
            | Some _ => (Ok (), {| files := delete p (files d); dirs := dirs d |})
            | None =>
                if decide (p ∈ dirs d) then
                  match entries d p with
                  | [] => (Ok (), {| files := files d; dirs := dirs d ∖ {[p]} |})
                  | _ => (Err ENOTEMPTY, d)
                  end
                else (Err ENOENT, d)
            end
  end.

(** All prefixes of a path, for [os.MkdirAll]. *)
Definition prefixes (p : path) : list path := (λ n, take n p) <$> seq 0 (S (length p)).

Definition MkdirAll (f : fault) (d : Disk) (p : path) : outcome unit * Disk :=
  match f with
  | Some e => (Err (flt_err e), d)
  | None => (Ok (), {| files := files d; dirs := list_to_set (prefixes p) ∪ dirs d |})
  end.

(** ** The store *)

Record Store := {
  dir : path;
  pins : gset string;
  pinFile : path
}.

Section store.
Context {JE : JSONErrors}.

Definition blockPath (s : Store) (cid : string) : path := Join (dir s) [cid +:+ ".block"].
Definition manifestPath (s : Store) (rootCID : string) : path :=
  Join (dir s) [rootCID +:+ ".manifest.json"].

Definition with_pins (s : Store) (p : gset string) : Store :=
  {| dir := dir s; pins := p; pinFile := pinFile s |}.

Definition loadPins (f : fault) (s : Store) (d : Disk) : Store :=
  match ReadFile f d (pinFile s) with
  | Ok data => match Unmarshal_strings data with
               | Ok l => with_pins s (list_to_set l ∪ pins s)
               | _ => s
               end
  | _ => s
  end.

Definition NewStore (fmk frd : fault) (d : Disk) (dataDir : path) : outcome Store * Disk :=
  let dir := Join dataDir ["blocks"] in
  match MkdirAll fmk d dir with
  | (Ok _, d') =>
      (Ok (loadPins frd {| dir := dir; pins := ∅; pinFile := Join dataDir ["pins.json"] |} d'), d')
  | (Err e, d') => (Err (Wrapf "create blocks dir" e), d')
  | (Panic w, d') => (Panic w, d')
  end.

Definition Put (f : fault) (s : Store) (d : Disk) (b : Block) : outcome unit * Disk :=
  let '(r, d') := WriteFile f d (blockPath s (CID b)) (Data b) in
  (wrap_err ("write block " +:+ CID b) r, d').

Definition block_not_found (cid : string) : error := Errorf ("block " +:+ cid +:+ " not found").

Definition Get (f : fault) (s : Store) (d : Disk) (cid : string) : outcome Block :=
  match ReadFile f d (blockPath s cid) with
  | Ok data => Ok {| CID := cid; Data := data |}
  | Err e => if decide (e = ENOENT) then Err (block_not_found cid)
             else Err (Wrapf ("read block " +:+ cid) e)
  | Panic w => Panic w
  end.

(** [os.Stat] sees files and directories. *)
Definition Has (f : fault) (s : Store) (d : Disk) (cid : string) : bool :=
  match f with
  | Some _ => false
  | None => bool_decide (is_Some (files d !! blockPath s cid) ∨ blockPath s cid ∈ dirs d)
  end.

Definition Delete (f : fault) (s : Store) (d : Disk) (cid : string) : outcome unit * Disk :=
  RemoveFile f d (blockPath s cid).

Definition PutManifest (f : fault) (s : Store) (d : Disk) (m : Manifest) : outcome unit * Disk :=
  let '(r, d') := WriteFile f d (manifestPath s (RootCID m)) (Marshal_Manifest m) in
  (wrap_err "write manifest" r, d').

Definition GetManifest (f : fault) (s : Store) (d : Disk) (rootCID : string) : outcome Manifest :=
  data ← wrap_err ("read manifest " +:+ rootCID) (ReadFile f d (manifestPath s rootCID));
  wrap_err "unmarshal manifest" (Unmarshal_Manifest data).

(** ** Fragments *)

Definition frag_name (index : Z) : string := pretty index +:+ ".frag".

Definition fragDir (s : Store) (parentCID : string) : path := Join (dir s) ["fragments"; parentCID].

Definition PutFragment (fmk fwr : fault) (s : Store) (d : Disk) (parentCID : string) (index : Z)
    (data : bytes) : outcome unit * Disk :=
  match MkdirAll fmk d (fragDir s parentCID) with
  | (Ok _, d') => WriteFile fwr d' (Join (fragDir s parentCID) [frag_name index]) data
  | (Err e, d') => (Err (Wrapf "create fragment dir" e), d')
  | (Panic w, d') => (Panic w, d')
  end.

Definition GetFragment (f : fault) (s : Store) (d : Disk) (parentCID : string) (index : Z)
  : outcome bytes :=
  wrap_err ("read fragment " +:+ parentCID +:+ "/" +:+ pretty index)
    (ReadFile f d (Join (dir s) ["fragments"; parentCID; frag_name index])).

(** [fmt.Sscanf(name, "%d.frag", &idx)]: blanks, a sign, digits within
    [int64], the suffix; what follows is ignored. *)
Definition digit_value (c : ascii) : option Z :=
  let n := Z.of_N (N_of_ascii c) in
  if (48 <=? n) && (n <=? 57) then Some (n - 48) else None.

Fixpoint scan_digits (s : string) (acc : option Z) : option Z * string :=
  match s with
  | String c s' =>
      match digit_value c with
      | Some v => scan_digits s' (Some (10 * default 0 acc + v))
      | None => (acc, s)
      end
  | EmptyString => (acc, s)
  end.

Fixpoint skip_blanks (s : string) : string :=
  match s with
  | String " "%char s' | String "009"%char s' => skip_blanks s'
  | _ => s
  end.

Definition parse_frag (name : string) : option Z :=
  let '(neg, s) := match skip_blanks name with
                   | String "-"%char s => (true, s)
                   | String "+"%char s => (false, s)
                   | s => (false, s)
                   end in
  match scan_digits s None with
  | (Some n, rest) =>
      let v := if neg : bool then - n else n in
      if (- 2 ^ 63 <=? v) && (v <? 2 ^ 63) && String.prefix ".frag" rest then Some v else None
  | (None, _) => None
  end.

(** [os.ReadDir] sorts by name. *)
Definition ListFragments (f : fault) (s : Store) (d : Disk) (parentCID : string) : list Z :=
  match f with
  | Some _ => []
  | None =>
      if decide (fragDir s parentCID ∈ dirs d) then
        omap parse_frag (merge_sort (λ a b, Is_true (String.leb a b)) (entries d (fragDir s parentCID)))
      else []
  end.

(** ** Pins *)

Definition savePins (o : order) (f : fault) (s : Store) (d : Disk) : outcome unit * Disk :=
  WriteFile f d (pinFile s) (Marshal_strings (iter o (elements (pins s)))).

Definition Pin (o : order) (f : fault) (s : Store) (d : Disk) (cid : string)
  : outcome unit * Store * Disk :=
  let s' := with_pins s ({[cid]} ∪ pins s) in
  let '(r, d') := savePins o f s' d in (r, s', d').

Definition Unpin (o : order) (f : fault) (s : Store) (d : Disk) (cid : string)
  : outcome unit * Store * Disk :=
  let s' := with_pins s (pins s ∖ {[cid]}) in
  let '(r, d') := savePins o f s' d in (r, s', d').

Definition IsPinned (s : Store) (cid : string) : bool := bool_decide (cid ∈ pins s).
Definition ListPinned (o : order) (s : Store) : list string := iter o (elements (pins s)).

(** ** Paths of well-behaved names *)

Fixpoint no_slash (s : string) : Prop :=
  match s with EmptyString => True | String c s' => c ≠ "/"%char ∧ no_slash s' end.

Definition seg_ok (c : string) : Prop := c ≠ "" ∧ c ≠ "." ∧ c ≠ "..".

Lemma split_slash_plain s : no_slash s → split_slash s = [s].
Proof.
  induction s as [|c s IH]; [done|]. simpl. intros [Hc Hs].
  rewrite (proj2 (Ascii.eqb_neq _ _) Hc). by rewrite IH.
Qed.

Lemma no_slash_app s t : no_slash s → no_slash t → no_slash (s +:+ t).
Proof. induction s as [|c s IH]; [done|]. simpl. intros [? ?] ?. split; auto. Qed.

Lemma Clean_app p q : Clean (p ++ q) = foldl clean_step (Clean p) q.
Proof. apply foldl_app. Qed.

Lemma Clean_ok p : Forall seg_ok p → Clean p = p.
Proof.
  intros H. unfold Clean. rewrite <-(app_nil_l p) at 2. generalize ([] : path).
  induction H as [|c p (H1 & H2 & H3) _ IH]; intros acc; simpl; [by rewrite app_nil_r|].
  unfold clean_step at 2. rewrite !decide_False by naive_solver. by rewrite IH, <-app_assoc.
Qed.

Lemma seg_ok_long s : (3 ≤ String.length s)%nat → seg_ok s.
Proof. intros H. unfold seg_ok. split_and!; intros ->; simpl in H; lia. Qed.

Lemma Join_plain dir c : Forall seg_ok dir → seg_ok c → no_slash c → Join dir [c] = dir ++ [c].
Proof.
  intros Hd Hc Hs. unfold Join. simpl. rewrite split_slash_plain, app_nil_r by done.
  apply Clean_ok, Forall_app. split; [done|by constructor].
Qed.

Lemma blockPath_plain s cid :
  Forall seg_ok (dir s) → no_slash cid → blockPath s cid = dir s ++ [cid +:+ ".block"].
Proof.
  intros Hd Hc. apply Join_plain; [done| |by apply no_slash_app; [|repeat split]].
  apply seg_ok_long. rewrite string_length_app. simpl. lia.
Qed.

Lemma string_app_inj_r s t u : s +:+ u = t +:+ u → s = t.
Proof.
  intros H. apply to_bytes_inj. apply (f_equal to_bytes) in H. rewrite !to_bytes_app in H.
  by apply app_inj_2 in H as [? _].
Qed.

Lemma parent_snoc (p : path) c : parent (p ++ [c]) = p.
Proof.
  unfold parent. rewrite length_app. simpl.
  replace (length p + 1 - 1)%nat with (length p) by lia. apply take_app_length.
Qed.

(** Identifiers made by [ComputeCID] contain no separator. *)
Lemma hex_no_slash s : all_chars is_hex_char s → no_slash s.
Proof.
  induction s as [|c s IH]; [done|]. simpl. intros [Hc Hs]. split; [|by apply IH].
  intros ->. by destruct Hc.
Qed.

Lemma hex_char_ascii c : is_hex_char c → ascii_byte (byte_of_ascii c) = true.
Proof.
  destruct c as [b0 b1 b2 b3 b4 b5 b6 b7]. unfold is_hex_char.
  destruct b7; [|destruct b0, b1, b2, b3, b4, b5, b6; reflexivity].
  intros [v Hv]. exfalso. revert Hv.
  destruct b0, b1, b2, b3, b4, b5, b6; vm_compute; discriminate.
Qed.

Lemma hex_valid s : all_chars is_hex_char s → valid_string s = true.
Proof.
  intros H. apply ascii_ValidString. induction s as [|c s IH]; [done|]. destruct H as [Hc Hs].
  change (to_bytes (String c s)) with (byte_of_ascii c :: to_bytes s). cbn [forallb].
  by rewrite (hex_char_ascii c Hc), IH.
Qed.

Lemma ComputeCID_no_slash d : no_slash (ComputeCID d).
Proof. apply hex_no_slash, hex_chars. Qed.

(** A store whose block directory exists and holds no directory in the place
    of a block. *)
Definition store_ok (s : Store) (d : Disk) : Prop :=
  Forall seg_ok (dir s) ∧ dir s ∈ dirs d ∧
  ∀ cid, no_slash cid → blockPath s cid ∉ dirs d.

(** ** Blocks *)

Lemma Put_Get_ok (s : Store) (d : Disk) (b : Block) :
  store_ok s d → no_slash (CID b) →
  let '(r, d') := Put None s d b in
  r = Ok () ∧ store_ok s d' ∧ Get None s d' (CID b) = Ok b ∧ Has None s d' (CID b) = true ∧
  ∀ cid, no_slash cid → cid ≠ CID b → Get None s d' cid = Get None s d cid.
Proof.
  intros (Hd & Hdir & Hnd) Hc. unfold Put, WriteFile.
  rewrite decide_False by by apply Hnd.
  assert (parent (blockPath s (CID b)) = dir s) as ->
    by (rewrite blockPath_plain by done; apply parent_snoc).
  rewrite decide_True by done. simpl.
  split_and!; [done|split_and!; done| | |].
  - unfold Get, ReadFile. simpl. rewrite lookup_insert_eq. by destruct b.
  - unfold Has. simpl. apply bool_decide_eq_true. left. rewrite lookup_insert_eq. by eexists.
  - intros cid Hcid Hne. unfold Get, ReadFile. simpl. rewrite lookup_insert_ne; [done|].
    rewrite !blockPath_plain by done. intros [_ [= Heq]]%app_inj_2; [|done].
    by apply string_app_inj_r in Heq.
Qed.

Lemma Get_no_panic f s d cid w : Get f s d cid ≠ Panic w.
Proof. unfold Get, ReadFile. destruct f; [by case_decide|]. by repeat case_match. Qed.

Lemma Get_Ok f s d cid b : Get f s d cid = Ok b → f = None ∧ CID b = cid ∧
  files d !! blockPath s cid = Some (Data b).
Proof.
  unfold Get, ReadFile. destruct f as [e|]; [by case_decide|].
  destruct (files d !! blockPath s cid) as [data|] eqn:E; [by intros [= <-]|].
  by case_decide; case_decide.
Qed.

Lemma Get_file s d cid data :
  files d !! blockPath s cid = Some data → Get None s d cid = Ok {| CID := cid; Data := data |}.
Proof. intros H. unfold Get, ReadFile. by rewrite H. Qed.

(** What a write can do to the files: nothing, or put [n] bytes of the data
    there; it reports success only after writing everything. *)
Lemma WriteFile_effect f d p data r d' :
  WriteFile f d p data = (r, d') →
  dirs d' = dirs d ∧
  (files d' = files d ∨ ∃ n, files d' = <[p := take n data]> (files d) ∧
     ((n < length data)%nat → ∃ e, f = Some e ∧ flt_written e = Some n)) ∧
  (r = Ok () → f = None ∧ files d' = <[p := data]> (files d)) ∧ (∀ w, r ≠ Panic w).
Proof.
  unfold WriteFile. destruct f as [e|].
  - destruct (flt_written e) as [n|] eqn:En; intros [= <- <-]; simpl; split_and!; try done.
    + right. exists n. split; [done|]. intros _. by exists e.
    + by left.
  - case_decide; [intros [= <- <-]; naive_solver|]. case_decide; intros [= <- <-]; simpl; split_and!; try done.
    + right. exists (length data). rewrite take_ge by done. split; [done|lia].
    + by left.
Qed.

(** A fault that tears no file. *)
Definition untorn (f : fault) : Prop := ∀ e, f = Some e → flt_written e = None.

(** Blocks and manifests never share a file. *)
Lemma manifestPath_plain s root : Forall seg_ok (dir s) → no_slash root →
  manifestPath s root = dir s ++ [root +:+ ".manifest.json"].
Proof.
  intros Hd Hr. apply Join_plain; [done| |by apply no_slash_app; [|repeat split]].
  apply seg_ok_long. rewrite string_length_app. simpl. lia.
Qed.

Lemma manifest_not_block s root cid : Forall seg_ok (dir s) → no_slash root → no_slash cid →
  manifestPath s root ≠ blockPath s cid.
Proof.
  intros Hd Hr Hc. rewrite manifestPath_plain, blockPath_plain by done.
  intros [_ [= Heq]]%app_inj_2; [|done]. apply (f_equal to_bytes) in Heq.
  rewrite !to_bytes_app in Heq. apply (f_equal last) in Heq. rewrite !last_app in Heq. done.
Qed.

(** In a store whose directory exists, putting a block under an
    identifier without separators (every SHA-256 identifier is one) succeeds
    unless the file system fails; it can then be read back, and no other such
    identifier reads differently. *)
Theorem Put_then_Get (s : Store) (d : Disk) (b : Block) :
  store_ok s d → no_slash (CID b) →
  let '(r, d') := Put None s d b in
  r = Ok () ∧ store_ok s d' ∧ Get None s d' (CID b) = Ok b ∧ Has None s d' (CID b) = true ∧
  ∀ cid, no_slash cid → cid ≠ CID b → Get None s d' cid = Get None s d cid.
Proof. apply Put_Get_ok. Qed.

(** Reads never check the data against its identifier: after a write that
    failed half way (an error was reported), [Get] returns the truncated
    data without an error, under the identifier of the whole block. *)
Theorem torn_write_is_served (s : Store) (d : Disk) (b : Block) (e : error) (n : nat) :
  let '(r, d') := Put (Some {| flt_err := e; flt_written := Some n |}) s d b in
  is_ok r = false ∧ Get None s d' (CID b) = Ok {| CID := CID b; Data := take n (Data b) |} ∧
  (valid_block b → (n < length (Data b))%nat →
     ¬ valid_block {| CID := CID b; Data := take n (Data b) |} ∨ sha256_collision).
Proof.
  unfold Put, WriteFile. simpl. split_and!; [done| |].
  - unfold Get, ReadFile. simpl. by rewrite lookup_insert_eq.
  - intros Hb Hn. destruct (decide (Sum256 (Data b) = Sum256 (take n (Data b)))) as [Heq|Hne].
    + right. exists (Data b), (take n (Data b)). split; [|done].
      intros H. apply (f_equal length) in H. rewrite length_take in H. lia.
    + left. unfold valid_block in *. simpl. rewrite Hb. by intros H%hex_inj.
Qed.

(** An identifier that is not one of ours may name a file outside the
    block directory: a remote peer that asks for "../x" reads the file
    [x.block] next to the directory. *)
Theorem Get_escapes_directory (base : path) (s : Store) (d : Disk) (data : bytes) :
  Forall seg_ok base → dir s = base ++ ["blocks"] → files d !! (base ++ ["x.block"]) = Some data →
  Get None s d "../x" = Ok {| CID := "../x"; Data := data |}.
Proof.
  intros Hb Hdir Hf. unfold Get, ReadFile.
  assert (blockPath s "../x" = base ++ ["x.block"]) as ->; [|by rewrite Hf].
  unfold blockPath, Join. rewrite Hdir. change (concat _) with ["..";"x.block"].
  rewrite Clean_app. rewrite Clean_ok by (apply Forall_app; split; [done|repeat constructor; done]).
  simpl. unfold clean_step at 2. simpl.
  rewrite length_app. simpl. replace (length base + 1 - 1)%nat with (length base) by lia.
  by rewrite take_app_length.
Qed.

(** ** Pins and manifests *)

Lemma elements_iter_set (o : order) (p : gset string) :
  list_to_set (iter o (elements p)) = (p : gset string).
Proof.
  apply set_eq. intros x. rewrite elem_of_list_to_set, elem_of_iter. apply elem_of_elements.
Qed.

Section laws.

(** A store as [NewStore] lays it out below [base]. *)
Definition laid_out (base : path) (s : Store) (d : Disk) : Prop :=
  Forall seg_ok base ∧ dir s = base ++ ["blocks"] ∧ pinFile s = base ++ ["pins.json"] ∧
  base ∈ dirs d ∧ pinFile s ∉ dirs d.

Lemma pins_reload o s d' :
  (∀ cid, cid ∈ pins s → valid_string cid = true) →
  files d' !! pinFile s = Some (Marshal_strings (iter o (elements (pins s)))) →
  loadPins None (with_pins s ∅) d' = s.
Proof.
  intros Ha Hf. unfold loadPins, ReadFile. simpl. rewrite Hf. simpl.
  rewrite strings_round_trip, fix_strings_valid.
  - unfold with_pins. simpl. rewrite elements_iter_set, union_empty_r_L. by destruct s.
  - apply forallb_forall. intros x Hx%list_elem_of_In. apply Ha.
    by rewrite elem_of_iter, elem_of_elements in Hx.
Qed.

Lemma pins_reopened (o : order) (base : path) (s : Store) (d : Disk) (cid : string)
    (pin : bool) :
  laid_out base s d → (∀ c, c ∈ pins s → valid_string c = true) → valid_string cid = true →
  let '(r, s', d') := (if pin then Pin else Unpin) o None s d cid in
  r = Ok () ∧ (∀ c, IsPinned s' c = if decide (c = cid) then pin else IsPinned s c) ∧
  fst (NewStore None None d' base) = Ok s'.
Proof.
  intros (Hb & Hdir & Hpf & Hbase & Hnd) Ha Hc.
  set (s' := with_pins s (if pin then {[cid]} ∪ pins s else pins s ∖ {[cid]})).
  assert (∀ c, c ∈ pins s' → valid_string c = true) as Ha'.
  { intros c. unfold s'. simpl. destruct pin; set_solver. }
  set (d' := {| files := <[pinFile s := Marshal_strings (iter o (elements (pins s')))]> (files d);
                dirs := dirs d |}).
  assert (savePins o None s' d = (Ok (), d')) as Hsave.
  { unfold savePins, WriteFile. unfold s' at 1 2 3. simpl. rewrite decide_False by done.
    assert (parent (pinFile s) = base) as -> by (rewrite Hpf; apply parent_snoc).
    by rewrite decide_True. }
  assert ((if pin then Pin else Unpin) o None s d cid = (Ok (), s', d')) as ->.
  { destruct pin; unfold Pin, Unpin; fold s'; by rewrite Hsave. }
  split_and!; [done| |].
  - intros c. unfold IsPinned, s'. simpl. destruct pin; case_decide as He; subst.
    + apply bool_decide_eq_true. set_solver.
    + apply bool_decide_ext. set_solver.
    + apply bool_decide_eq_false. set_solver.
    + apply bool_decide_ext. set_solver.
  - unfold NewStore, MkdirAll. simpl fst.
    assert (Join base ["blocks"] = dir s') as ->.
    { rewrite Join_plain; [unfold s'; simpl; by rewrite Hdir|done|apply seg_ok_long; simpl; lia|by repeat split]. }
    assert (Join base ["pins.json"] = pinFile s') as ->.
    { rewrite Join_plain; [unfold s'; simpl; by rewrite Hpf|done|apply seg_ok_long; simpl; lia|by repeat split]. }
    simpl. f_equal.
    apply (pins_reload o s'); [done|]. simpl. by rewrite lookup_insert_eq.
Qed.

(** A successful [Pin] or [Unpin] changes the one pin it names, and a
    store opened afterwards on the same disk has exactly the same pins,
    whatever order the runtime iterates the pin set in. *)
Theorem pins_survive_restart (o : order) (base : path) (s : Store) (d : Disk) (cid : string)
    (pin : bool) :
  laid_out base s d → (∀ c, c ∈ pins s → valid_string c = true) → valid_string cid = true →
  let '(r, s', d') := (if pin then Pin else Unpin) o None s d cid in
  r = Ok () ∧ (∀ c, IsPinned s' c = if decide (c = cid) then pin else IsPinned s c) ∧
  fst (NewStore None None d' base) = Ok s'.
Proof. apply pins_reopened. Qed.

(** C23: a stored manifest is read back unchanged, for strings and a size that
    JSON carries. *)
Lemma manifest_round_trip (s : Store) (d : Disk) (m : Manifest) :
  Forall seg_ok (dir s) → dir s ∈ dirs d → manifestPath s (RootCID m) ∉ dirs d →
  no_slash (RootCID m) → manifest_valid m = true → int64_ok (TotalSize m) →
  let '(r, d') := PutManifest None s d m in
  r = Ok () ∧ GetManifest None s d' (RootCID m) = Ok m.
Proof.
  intros Hd Hdir Hnd Hs Ha Hi. unfold PutManifest, WriteFile. rewrite decide_False by done.
  assert (parent (manifestPath s (RootCID m)) = dir s) as ->.
  { unfold manifestPath. rewrite Join_plain; [apply parent_snoc|done| |].
    - apply seg_ok_long. rewrite string_length_app. simpl. lia.
    - apply no_slash_app; [done|by repeat split]. }
  rewrite decide_True by done. simpl. split; [done|].
  unfold GetManifest, ReadFile. simpl. rewrite lookup_insert_eq. simpl.
  by rewrite Manifest_round_trip, fix_manifest_valid.
Qed.

End laws.

End store.

(** ** Concrete inputs *)

Module Examples.

#[export] Instance plain_errors : JSONErrors := λ _, Errorf "invalid JSON".

Definition base : path := ["data"].
Definition store0 : Store := {| dir := ["data"; "blocks"]; pins := {["k"]}; pinFile := ["data"; "pins.json"] |}.
Definition disk0 : Disk :=
  {| files := {[["data"; "x.block"] := [Init.Byte.x61]]}; dirs := {[["data"]; ["data"; "blocks"]]} |}.

Lemma segs_ok l : Forall (λ s, 3 ≤ String.length s)%nat l → Forall seg_ok l.
Proof. intros H. eapply Forall_impl; [exact H|]. intros s. apply seg_ok_long. Qed.

Lemma store0_dir_ok : Forall seg_ok (dir store0).
Proof. apply segs_ok. repeat constructor. Qed.

End Examples.

Section witnesses.
Import Examples.

Lemma pins_survive_restart_witness :
  let '(r, s', d') := Pin rev_order None store0 disk0 "cid" in
  r = Ok () ∧ (∀ c, IsPinned s' c = if decide (c = "cid") then true else IsPinned store0 c) ∧
  fst (NewStore None None d' base) = Ok s'.
Proof.
  apply (pins_survive_restart rev_order base store0 disk0 "cid" true).
  - split_and!; [apply segs_ok; repeat constructor|done|done|set_solver|].
    unfold disk0, store0. simpl. set_solver.
  - intros c. unfold store0. simpl. by intros ->%elem_of_singleton.
  - done.
Defined.

Definition manifest0 : Manifest :=
  {| RootCID := "ab12"; m_Name := "file"; TotalSize := 5; ChunkCIDs := ["c1"; "c2"];
     PublisherID := ""; Signature := "" |}.

Lemma manifest_round_trip_witness :
  let '(r, d') := PutManifest None store0 disk0 manifest0 in
  r = Ok () ∧ GetManifest None store0 d' "ab12" = Ok manifest0.
Proof.
  apply (manifest_round_trip store0 disk0 manifest0).
  - apply store0_dir_ok.
  - simpl. set_solver.
  - intros H. vm_compute in H. discriminate H.
  - by repeat split.
  - done.
  - unfold int64_ok. simpl. lia.
Defined.

Lemma Get_escapes_directory_witness :
  Get None store0 disk0 "../x" = Ok {| CID := "../x"; Data := [Init.Byte.x61] |}.
Proof.
  apply (Get_escapes_directory base store0 disk0 [Init.Byte.x61]);
    [apply segs_ok; repeat constructor|done|reflexivity].
Defined.

(** The disk of [store0] holds directories of one and two components only. *)
Lemma store0_ok : store_ok store0 disk0.
Proof.
  split_and!; [apply store0_dir_ok|simpl; set_solver|].
  intros cid Hc. rewrite blockPath_plain by (done || apply store0_dir_ok). simpl. set_solver.
Qed.

Lemma Put_then_Get_witness :
  let b := {| CID := "ab12"; Data := [Init.Byte.x61; Init.Byte.x62] |} in
  let '(r, d') := Put None store0 disk0 b in
  r = Ok () ∧ store_ok store0 d' ∧ Get None store0 d' "ab12" = Ok b ∧
  Has None store0 d' "ab12" = true ∧
  ∀ cid, no_slash cid → cid ≠ "ab12" → Get None store0 d' cid = Get None store0 disk0 cid.
Proof.
  apply (Put_then_Get store0 disk0 {| CID := "ab12"; Data := [Init.Byte.x61; Init.Byte.x62] |});
    [apply store0_ok|by repeat split].
Defined.

Example parse_frag_names : parse_frag "12.frag" = Some 12 ∧ parse_frag "-3.frag" = Some (-3) ∧
  parse_frag "x.frag" = None ∧ parse_frag "7.fragment" = Some 7 ∧ parse_frag "7.txt" = None.
Proof. by vm_compute. Qed.

End witnesses.
