(* ===== verification/Csv.v ===== *)
(** * CSV files ([encoding/csv])

    The text that [csv.Writer] makes of rows of fields, a reader of RFC 4180
    that gets the rows back, and the way the benchmarks write such files:
    through a writer whose errors nobody asks for. *)

From Stdlib Require Import Init.Byte ZifyBool.
From S2P Require Import Prelude Utf8 Store.

(** ** Writing *)

Definition QUOTE : byte := x22.
Definition COMMA : byte := x2c.
Definition NEWLINE : byte := x0a.

(** [unicode.IsSpace] of a rune. *)
Definition IsSpace (r : bytes) : bool :=
  match r with
  | [c] => between 9 13 c || bool_decide (c = x20)
  | [xc2; b] => bool_decide (b = x85 ∨ b = xa0)
  | [xe1; x9a; x80] => true
  | [xe2; x80; b] => between 128 138 b || bool_decide (b = xa8 ∨ b = xa9 ∨ b = xaf)
  | [xe2; x81; x9f] => true
  | [xe3; x80; x80] => true
  | _ => false
  end.

Definition special (c : byte) : bool := bool_decide (c ∈ [NEWLINE; x0d; QUOTE; COMMA]).

(** [fieldNeedsQuotes]: not the empty field; the end marker of Postgres, a
    special character anywhere, a space in front. *)
Definition needs_quotes (f : bytes) : bool :=
  if decide (f = []) then false
  else if decide (f = [x5c; x2e]) then true
  else existsb special f || match runes f with r :: _ => IsSpace r | [] => false end.

Definition escape (c : byte) : bytes := if decide (c = QUOTE) then [QUOTE; QUOTE] else [c].

Definition csv_field (f : string) : bytes :=
  if needs_quotes (to_bytes f) then QUOTE :: (c ← to_bytes f; escape c) ++ [QUOTE] else to_bytes f.

Fixpoint csv_record (fields : list string) : bytes :=
  match fields with
  | [] => [NEWLINE]
  | [f] => csv_field f ++ [NEWLINE]
  | f :: fields' => csv_field f ++ COMMA :: csv_record fields'
  end.

Definition csv_text (rows : list (list string)) : bytes := row ← rows; csv_record row.

(** [os.Create] and a buffered writer.  A file that cannot be created is an
    error; a write that fails stays in the writer, which is only flushed. *)
Definition write_rows (f : fault) (d : Disk) (p : path) (rows : list (list string)) : outcome unit * Disk :=
  match WriteFile f d p (csv_text rows), f ≫= flt_written with
  | (_, d'), Some _ => (Ok (), d')
  | r, None => r
  end.

(** ** Reading *)

Inductive mode := Start | Plain | Quoted | Closed.

Record reading := { rd_mode : mode; rd_field : bytes; rd_record : list string; rd_rows : list (list string) }.

Definition in_field (m : mode) (c : bytes) (st : reading) : reading :=
  {| rd_mode := m; rd_field := rd_field st ++ c; rd_record := rd_record st; rd_rows := rd_rows st |}.
Definition end_field (st : reading) : reading :=
  {| rd_mode := Start; rd_field := []; rd_record := rd_record st ++ [to_string (rd_field st)]; rd_rows := rd_rows st |}.
Definition end_row (st : reading) : reading :=
  {| rd_mode := Start; rd_field := []; rd_record := []; rd_rows := rd_rows st ++ [rd_record st] |}.

(** One character, by the grammar of RFC 4180 with bare line feeds. *)
Definition read_char (st : reading) (c : byte) : option reading :=
  let separator other :=
    if decide (c = COMMA) then Some (end_field st)
    else if decide (c = NEWLINE) then Some (end_row (end_field st)) else other in
  match rd_mode st with
  | Start => if decide (c = QUOTE) then Some (in_field Quoted [] st) else separator (Some (in_field Plain [c] st))
  | Plain => if decide (c = QUOTE) then None else separator (Some (in_field Plain [c] st))
  | Quoted => Some (if decide (c = QUOTE) then in_field Closed [] st else in_field Quoted [c] st)
  | Closed => if decide (c = QUOTE) then Some (in_field Quoted [c] st) else separator None
  end.

Fixpoint read_chars (st : reading) (s : bytes) : option reading :=
  match s with
  | [] => Some st
  | c :: s' => st' ← read_char st c; read_chars st' s'
  end.

Definition at_row (rows : list (list string)) : reading :=
  {| rd_mode := Start; rd_field := []; rd_record := []; rd_rows := rows |}.

Definition read_csv (s : bytes) : option (list (list string)) :=
  st ← read_chars (at_row []) s;
  match st with
  | {| rd_mode := Start; rd_record := []; rd_rows := rows |} => Some rows
  | _ => None
  end.

(** ** Round trip *)

Lemma read_chars_app st s t : read_chars st (s ++ t) = st' ← read_chars st s; read_chars st' t.
Proof.
  revert st. induction s as [|c s IH]; intros st; [done|]. cbn [read_chars app].
  destruct (read_char st c); [|done]. cbn [mbind option_bind]. apply IH.
Qed.

(** One character, by the mode the reader is in. *)
Lemma read_char_plain st c :
  rd_mode st = Start ∨ rd_mode st = Plain → special c = false → read_char st c = Some (in_field Plain [c] st).
Proof.
  intros Hm Hc%bool_decide_eq_false. rewrite !not_elem_of_cons in Hc. destruct Hc as (Hn & _ & Hq & Hcm & _).
  unfold read_char. destruct Hm as [-> | ->]; by rewrite !decide_False.
Qed.

Lemma read_char_open st : rd_mode st = Start → read_char st QUOTE = Some (in_field Quoted [] st).
Proof. intros Hm. unfold read_char. by rewrite Hm, decide_True. Qed.

Lemma read_char_inside st c : rd_mode st = Quoted → c ≠ QUOTE → read_char st c = Some (in_field Quoted [c] st).
Proof. intros Hm Hc. unfold read_char. by rewrite Hm, decide_False. Qed.

Lemma read_char_close st : rd_mode st = Quoted → read_char st QUOTE = Some (in_field Closed [] st).
Proof. intros Hm. unfold read_char. by rewrite Hm, decide_True. Qed.

Lemma read_char_again st : rd_mode st = Closed → read_char st QUOTE = Some (in_field Quoted [QUOTE] st).
Proof. intros Hm. unfold read_char. by rewrite Hm, decide_True. Qed.

Definition separated_by (c : byte) (st : reading) : reading :=
  if decide (c = COMMA) then end_field st else end_row (end_field st).

Lemma read_char_separator st c :
  rd_mode st ≠ Quoted → c = COMMA ∨ c = NEWLINE → read_char st c = Some (separated_by c st).
Proof.
  intros Hm Hc. unfold read_char, separated_by. assert (c ≠ QUOTE) by (by destruct Hc as [-> | ->]).
  destruct (rd_mode st); [..|done|]; rewrite ?(decide_False (P := c = QUOTE)) by done; by destruct Hc as [-> | ->].
Qed.

Lemma in_field_nil st : in_field (rd_mode st) [] st = st.
Proof. destruct st as [m f r rs]. unfold in_field. cbn. by rewrite app_nil_r. Qed.

Lemma in_field_app m m' s t st : in_field m t (in_field m' s st) = in_field m (s ++ t) st.
Proof. unfold in_field. cbn. by rewrite app_assoc. Qed.

Lemma read_plain st s :
  rd_mode st = Plain → existsb special s = false → read_chars st s = Some (in_field Plain s st).
Proof.
  revert st. induction s as [|c s IH]; intros st Hm Hs; [by rewrite <-Hm, in_field_nil|].
  cbn [existsb] in Hs. apply orb_false_iff in Hs as [Hc Hs]. cbn [read_chars].
  rewrite read_char_plain by auto. cbn [mbind option_bind]. by rewrite IH, in_field_app.
Qed.

Lemma read_quoted st s :
  rd_mode st = Quoted → read_chars st (c ← s; escape c) = Some (in_field Quoted s st).
Proof.
  revert st. induction s as [|c s IH]; intros st Hm; [by rewrite <-Hm, in_field_nil|].
  rewrite bind_cons, read_chars_app. destruct (decide (c = QUOTE)) as [Hc|Hc].
  - assert (escape c = [QUOTE; QUOTE]) as -> by (unfold escape; by rewrite decide_True). subst c. cbn [read_chars].
    rewrite read_char_close by done. cbn [mbind option_bind]. rewrite read_char_again by done. cbn [mbind option_bind].
    by rewrite IH, !in_field_app.
  - assert (escape c = [c]) as -> by (unfold escape; by rewrite decide_False). cbn [read_chars].
    rewrite read_char_inside by done. cbn [mbind option_bind]. by rewrite IH, in_field_app.
Qed.

(** After a field only its text counts. *)
Lemma read_field rows record f c :
  c = COMMA ∨ c = NEWLINE →
  let st := {| rd_mode := Start; rd_field := []; rd_record := record; rd_rows := rows |} in
  read_chars st (csv_field f ++ [c]) = Some (separated_by c (in_field Start (to_bytes f) st)).
Proof.
  intros Hc st. unfold csv_field. destruct (needs_quotes (to_bytes f)) eqn:E.
  - cbn [app read_chars]. rewrite read_char_open by done. cbn [mbind option_bind].
    rewrite <-app_assoc, read_chars_app, read_quoted by done. cbn [mbind option_bind app read_chars].
    rewrite read_char_close by done. cbn [mbind option_bind]. rewrite read_char_separator by done.
    cbn [mbind option_bind]. rewrite !in_field_app, app_nil_r. by destruct Hc as [-> | ->].
  - rewrite read_chars_app. assert (existsb special (to_bytes f) = false) as Hs.
    { unfold needs_quotes in E. case_decide as He; [by rewrite He|]. case_decide; [done|]. by apply orb_false_iff in E as [? _]. }
    destruct (to_bytes f) as [|b s].
    + cbn [read_chars mbind option_bind]. rewrite read_char_separator by done. by destruct Hc as [-> | ->].
    + cbn [existsb] in Hs. apply orb_false_iff in Hs as [Hb Hs]. cbn [read_chars].
      rewrite read_char_plain by auto. cbn [mbind option_bind]. rewrite read_plain by done. cbn [mbind option_bind].
      rewrite read_char_separator by done. cbn [mbind option_bind]. rewrite in_field_app. by destruct Hc as [-> | ->].
Qed.

Lemma read_record rows record fields :
  fields ≠ [] →
  read_chars {| rd_mode := Start; rd_field := []; rd_record := record; rd_rows := rows |} (csv_record fields)
    = Some (at_row (rows ++ [record ++ fields])).
Proof.
  revert record. induction fields as [|f fields IH]; intros record Hne; [done|]. destruct fields as [|g fields].
  - cbn [csv_record]. rewrite read_field by (by right). unfold separated_by. rewrite decide_False by done.
    unfold end_row, end_field, at_row, in_field. cbn [rd_record rd_rows rd_field app]. by rewrite to_string_to_bytes.
  - change (csv_record (f :: g :: fields)) with (csv_field f ++ ([COMMA] ++ csv_record (g :: fields))).
    rewrite app_assoc, read_chars_app, read_field by (by left). cbn [mbind option_bind]. unfold separated_by. rewrite decide_True by done.
    unfold end_field, in_field. cbn [rd_record rd_rows rd_field app]. rewrite IH, to_string_to_bytes by done.
    by rewrite <-app_assoc.
Qed.

Lemma read_csv_text rows : Forall (λ row, row ≠ []) rows → read_csv (csv_text rows) = Some rows.
Proof.
  intros Hr. assert (∀ done, read_chars (at_row done) (csv_text rows) = Some (at_row (done ++ rows))) as H.
  { induction Hr as [|row rows Hne _ IH]; intros before; [by rewrite app_nil_r|].
    unfold csv_text. rewrite bind_cons, read_chars_app. unfold at_row at 1. rewrite read_record by done.
    cbn [mbind option_bind app]. fold (csv_text rows). rewrite IH. by rewrite <-app_assoc. }
  unfold read_csv. by rewrite H.
Qed.

Lemma write_rows_Ok d p rows d' : write_rows None d p rows = (Ok (), d') → files d' !! p = Some (csv_text rows).
Proof.
  unfold write_rows, WriteFile. cbn [mbind option_bind]. case_decide; [done|]. case_decide; [|done]. intros [= <-].
  apply lookup_insert_eq.
Qed.

(** Whatever bytes the fields hold, a reader of the grammar of RFC 4180
    gets from the text of some rows exactly those rows, if none is empty. *)
Theorem csv_round_trip (rows : list (list string)) :
  Forall (λ row, row ≠ []) rows → read_csv (csv_text rows) = Some rows.
Proof. apply read_csv_text. Qed.

(** C37: a CSV file written on a disk that works reads back; a disk that fails
    after the file was created is not reported: the call succeeds, and the
    file holds only the beginning of the text.  Only a file that cannot be
    created is an error, and then the disk is as it was. *)
Theorem write_rows_outcome (f : fault) (d : Disk) (p : path) (rows : list (list string)) :
  Forall (λ row, row ≠ []) rows →
  let '(r, d') := write_rows f d p rows in
  match f with
  | None => r = Ok () → ∃ text, files d' !! p = Some text ∧ read_csv text = Some rows
  | Some e => (∀ n, flt_written e = Some n → r = Ok () ∧ files d' !! p = Some (take n (csv_text rows))) ∧
              (flt_written e = None → r = Err (flt_err e) ∧ d' = d)
  end.
Proof.
  intros Hr. destruct f as [e|].
  - unfold write_rows, WriteFile. cbn [mbind option_bind].
    destruct (flt_written e) as [n|]; split; try done. intros ? [= <-]. cbn [files]. by rewrite lookup_insert_eq.
  - destruct (write_rows None d p rows) as [r d'] eqn:E. intros ->. exists (csv_text rows).
    split; [by apply (write_rows_Ok d)|by apply read_csv_text].
Qed.

(** ** Concrete inputs *)

Definition awkward : list (list string) := [["a,b"; "say " +:+ to_string [QUOTE] +:+ "hi"; ""]; [" x"; "y z"]].

Lemma csv_round_trip_witness : read_csv (csv_text awkward) = Some awkward.
Proof. apply (csv_round_trip awkward). repeat constructor; done. Defined.

(** A disk that is full after twelve bytes. *)
Lemma write_rows_outcome_witness :
  let e := {| flt_err := Errorf "no space left on device"; flt_written := Some 12%nat |} in
  let '(r, d') := write_rows (Some e) {| files := ∅; dirs := {[ [] ]} |} ["a.csv"] awkward in
  (∀ n, flt_written e = Some n → r = Ok () ∧ files d' !! ["a.csv"] = Some (take n (csv_text awkward))) ∧
  (flt_written e = None → r = Err (flt_err e) ∧ d' = {| files := ∅; dirs := {[ [] ]} |}).
Proof.
  apply (write_rows_outcome (Some {| flt_err := Errorf "no space left on device"; flt_written := Some 12%nat |})
    {| files := ∅; dirs := {[ [] ]} |} ["a.csv"] awkward).
  repeat constructor; done.
Defined.
