(* ===== verification/Signing.v ===== *)
(** * Manifest signatures ([internal/content/signing.go])

    Ed25519 itself is the interface [Ed25519] with the laws of a signature
    scheme; the payload, the hex fields and the checks are the program's. *)

From Stdlib Require Import Ascii.
From S2P Require Import Prelude Sha256 Chunker.

(** [crypto/ed25519] *)
Class Ed25519 := {
  PrivateKey : Type;
  Public : PrivateKey → bytes;
  Sign : PrivateKey → bytes → bytes;
  Verify : bytes → bytes → bytes → bool       (* key, message, signature *)
}.

Definition PublicKeySize : nat := 32.

(** Documented: keys have 32 bytes, signatures are not empty, and a signature
    verifies under its key for its message. *)
Class Ed25519Laws (E : Ed25519) : Prop := {
  Public_size : ∀ k, length (Public k) = PublicKeySize;
  Sign_nonempty : ∀ k m, Sign k m ≠ [];
  Verify_Sign : ∀ k m, Verify (Public k) m (Sign k m) = true
}.

Section signing.
Context `{E : Ed25519}.

(** [strings.Join(parts, "|")] *)
Fixpoint join_bar (parts : list string) : string :=
  match parts with
  | [] => EmptyString
  | [s] => s
  | s :: rest => s +:+ "|" +:+ join_bar rest
  end.

Definition manifestSigningPayload (m : Manifest) : bytes :=
  to_bytes (join_bar (RootCID m :: m_Name m :: ChunkCIDs m)).

Definition with_signature (m : Manifest) (publisher sig : string) : Manifest :=
  {| RootCID := RootCID m; m_Name := m_Name m; TotalSize := TotalSize m; ChunkCIDs := ChunkCIDs m;
     PublisherID := publisher; Signature := sig |}.

Definition SignManifest (m : Manifest) (privKey : PrivateKey) : Manifest :=
  let sig := Sign privKey (manifestSigningPayload m) in
  with_signature m (hex (Public privKey)) (hex sig).

Definition not_signed : error := Errorf "manifest is not signed".
Definition invalid_key_size (n : nat) : error :=
  Errorf ("invalid publisher key size: " +:+ pretty n).
Definition invalid_signature : error := Errorf "invalid signature".

Definition VerifyManifest (m : Manifest) : outcome unit :=
  if decide (Signature m = "" ∨ PublisherID m = "") then Err not_signed
  else
    pubKeyBytes ← wrap_err "decode publisher ID" (unhex (PublisherID m));
    if decide (length pubKeyBytes = PublicKeySize) then
      sig ← wrap_err "decode signature" (unhex (Signature m));
      if Verify pubKeyBytes (manifestSigningPayload m) sig then mret () else Err invalid_signature
    else Err (invalid_key_size (length pubKeyBytes)).

(** ** The payload *)

Fixpoint no_bar (s : string) : Prop :=
  match s with EmptyString => True | String c s' => c ≠ "|"%char ∧ no_bar s' end.

Lemma bar_split s s' t t' :
  no_bar s → no_bar s' → s +:+ "|" +:+ t = s' +:+ "|" +:+ t' → s = s' ∧ t = t'.
Proof.
  revert s'. induction s as [|c s IH]; intros [|c' s']; simpl.
  - intros _ _ Heq. by injection Heq.
  - intros _ [Hc _] Heq. injection Heq as <- _. done.
  - intros [Hc _] _ Heq. injection Heq as -> _. done.
  - intros [_ Hs] [_ Hs'] Heq. injection Heq as -> Heq. by destruct (IH s' Hs Hs' Heq) as [-> ->].
Qed.

Lemma no_bar_app s t : no_bar (s +:+ "|" +:+ t) → False.
Proof. induction s as [|c s IH]; simpl; [by intros [? _]|]. intros [_ ?]. by apply IH. Qed.

Lemma join_bar_cons s s' l : join_bar (s :: s' :: l) = s +:+ "|" +:+ join_bar (s' :: l).
Proof. reflexivity. Qed.

Lemma join_bar_inj s s' l l' :
  Forall no_bar (s :: l) → Forall no_bar (s' :: l') →
  join_bar (s :: l) = join_bar (s' :: l') → s :: l = s' :: l'.
Proof.
  revert s s' l'. induction l as [|t l IH]; intros s s' [|t' l'] H H' Heq.
  - simpl in Heq. by subst.
  - rewrite join_bar_cons in Heq. simpl in Heq. exfalso.
    apply Forall_cons in H as [H _]. rewrite Heq in H. by apply no_bar_app in H.
  - rewrite join_bar_cons in Heq. simpl in Heq. exfalso.
    apply Forall_cons in H' as [H' _]. rewrite <-Heq in H'. by apply no_bar_app in H'.
  - rewrite !join_bar_cons in Heq. apply Forall_cons in H as [Hs H], H' as [Hs' H'].
    apply bar_split in Heq as [-> Heq]; [|done..]. f_equal. by apply IH.
Qed.

(** Among manifests whose root, name and chunk identifiers contain no
    bar, the signed payload determines all three. *)
Theorem payload_binds (m m' : Manifest) :
  Forall no_bar (RootCID m :: m_Name m :: ChunkCIDs m) →
  Forall no_bar (RootCID m' :: m_Name m' :: ChunkCIDs m') →
  manifestSigningPayload m = manifestSigningPayload m' →
  RootCID m = RootCID m' ∧ m_Name m = m_Name m' ∧ ChunkCIDs m = ChunkCIDs m'.
Proof.
  intros H H' Heq%to_bytes_inj. apply join_bar_inj in Heq; [|done..]. by injection Heq.
Qed.

Lemma VerifyManifest_no_panic m w : VerifyManifest m ≠ Panic w.
Proof.
  unfold VerifyManifest. case_decide; [done|].
  destruct (unhex (PublisherID m)) eqn:Hk; simpl; [|done|by apply unhex_no_panic in Hk].
  case_decide; [|done].
  destruct (unhex (Signature m)) eqn:Hg; simpl; [by case_match|done|by apply unhex_no_panic in Hg].
Qed.

(** [VerifyManifest] accepts exactly the manifests that carry a signature
    and a publisher, both valid hex, with a 32-byte key under which the
    signature of the payload verifies; otherwise it reports the first of the
    five errors, and it never panics. *)
Theorem VerifyManifest_spec (m : Manifest) :
  match VerifyManifest m with
  | Ok _ => Signature m ≠ "" ∧ PublisherID m ≠ "" ∧
      ∃ key sig, unhex (PublisherID m) = Ok key ∧ length key = PublicKeySize ∧
        unhex (Signature m) = Ok sig ∧ Verify key (manifestSigningPayload m) sig = true
  | Err e =>
      (e = not_signed ∧ (Signature m = "" ∨ PublisherID m = "")) ∨
      (∃ e', e = Wrapf "decode publisher ID" e' ∧ unhex (PublisherID m) = Err e') ∨
      (∃ key, e = invalid_key_size (length key) ∧ unhex (PublisherID m) = Ok key ∧
              length key ≠ PublicKeySize) ∨
      (∃ e', e = Wrapf "decode signature" e' ∧ unhex (Signature m) = Err e') ∨
      (e = invalid_signature ∧ ∃ key sig, unhex (PublisherID m) = Ok key ∧
         unhex (Signature m) = Ok sig ∧ Verify key (manifestSigningPayload m) sig = false)
  | Panic _ => False
  end.
Proof.
  unfold VerifyManifest. case_decide as Hs; [left; done|].
  destruct (unhex (PublisherID m)) as [key|e|w] eqn:Hk; simpl; [| |by apply unhex_no_panic in Hk].
  - case_decide as Hlen; [|right; right; left; naive_solver].
    destruct (unhex (Signature m)) as [sig|e|w] eqn:Hg; simpl; [| |by apply unhex_no_panic in Hg].
    + destruct (Verify _ _ _) eqn:Hv; [naive_solver|]. do 4 right. naive_solver.
    + do 3 right. left. naive_solver.
  - right. left. naive_solver.
Qed.

Section laws.
Context {ELaws : Ed25519Laws E}.

Lemma hex_nonempty b : b ≠ [] → hex b ≠ "".
Proof. by destruct b. Qed.

(** A signature verifies for every manifest with the signed payload. *)
Lemma signature_verifies m0 payload k :
  manifestSigningPayload m0 = payload →
  VerifyManifest (with_signature m0 (hex (Public k)) (hex (Sign k payload))) = Ok ().
Proof.
  intros H0. unfold VerifyManifest.
  assert (Public k ≠ []) by (intros Hk; pose proof (Public_size k) as Hs; by rewrite Hk in Hs).
  rewrite decide_False by (intros [Hn|Hn]; revert Hn; apply hex_nonempty; [apply Sign_nonempty|done]).
  change (PublisherID (with_signature _ _ _)) with (hex (Public k)).
  change (Signature (with_signature _ _ _)) with (hex (Sign k payload)).
  rewrite !unhex_hex. cbv beta iota delta [mbind outcome_bind wrap_err].
  rewrite decide_True by apply Public_size.
  change (manifestSigningPayload (with_signature m0 _ _)) with (manifestSigningPayload m0).
  by rewrite H0, Verify_Sign.
Qed.

(** A signed manifest verifies; signing changes the publisher and the
    signature only.  The signature covers neither the publisher nor the total
    size, and whenever two manifests have the same payload it carries over
    from one to the other. *)
Theorem SignManifest_verifies (m m' : Manifest) (k : PrivateKey) :
  manifestSigningPayload m' = manifestSigningPayload m →
  VerifyManifest (SignManifest m k) = Ok () ∧
  VerifyManifest (with_signature m' (PublisherID (SignManifest m k)) (Signature (SignManifest m k)))
    = Ok () ∧
  RootCID (SignManifest m k) = RootCID m ∧ m_Name (SignManifest m k) = m_Name m ∧
  TotalSize (SignManifest m k) = TotalSize m ∧ ChunkCIDs (SignManifest m k) = ChunkCIDs m.
Proof.
  intros Hp. split_and!; [by apply signature_verifies|by apply signature_verifies|done..].
Qed.

End laws.
End signing.

(** ** Concrete inputs *)

Module Examples.
(** A keyed hash has the laws (and no secrecy). *)
#[export] Instance keyed_hash : Ed25519 :=
  {| PrivateKey := bytes; Public := Sum256; Sign := λ k m, Sum256 (Sum256 k ++ m);
     Verify := λ p m s, bool_decide (s = Sum256 (p ++ m)) |}.
#[export] Instance keyed_hash_laws : Ed25519Laws keyed_hash.
Proof.
  split; simpl.
  - intros k. apply length_Sum256.
  - intros k m H. apply (f_equal length) in H. by rewrite length_Sum256 in H.
  - intros k m. by apply bool_decide_eq_true.
Qed.

Definition manifest (name : string) (size : Z) (chunks : list string) : Manifest :=
  {| RootCID := "ab"; m_Name := name; TotalSize := size; ChunkCIDs := chunks;
     PublisherID := ""; Signature := "" |}.
End Examples.

Section witnesses.
Import Examples.

(** A bar in the name makes two different manifests interchangeable. *)
Lemma SignManifest_verifies_witness :
  let m := manifest "doc|c1" 10 ["c2"] in
  let m' := manifest "doc" 999 ["c1"; "c2"] in
  let k : @PrivateKey keyed_hash := [Init.Byte.x01] in
  VerifyManifest (SignManifest m k) = Ok () ∧
  VerifyManifest (with_signature m' (PublisherID (SignManifest m k)) (Signature (SignManifest m k)))
    = Ok () ∧
  RootCID (SignManifest m k) = "ab" ∧ m_Name (SignManifest m k) = "doc|c1" ∧
  TotalSize (SignManifest m k) = 10 ∧ ChunkCIDs (SignManifest m k) = ["c2"].
Proof.
  apply (SignManifest_verifies (manifest "doc|c1" 10 ["c2"]) (manifest "doc" 999 ["c1"; "c2"])
    ([Init.Byte.x01] : @PrivateKey keyed_hash)). reflexivity.
Defined.

Lemma payload_binds_witness :
  let m := manifest "doc" 10 ["c2"] in
  RootCID m = "ab" ∧ m_Name m = "doc" ∧ ChunkCIDs m = ["c2"].
Proof.
  apply (payload_binds (manifest "doc" 10 ["c2"]) (manifest "doc" 11 ["c2"]));
    [repeat constructor; done..|reflexivity].
Defined.
End witnesses.
