(* ===== verification/Stats.v ===== *)
(** * Statistics of the benchmark ([internal/bench/bench.go])

    Percentiles, mean, deviation, Jain's fairness index, confidence intervals
    and the Wilcoxon signed-rank test, in the float arithmetic of the code.
    The order in which [sort.Slice] leaves equal elements is a [sorter]; the
    exponential is an operation of [MathExp]. *)

From stdpp Require Import sorting.
From S2P Require Import Prelude Float64 FloatExact Runtime Path.

(** [math.Exp], written in assembly. *)
Class MathExp := { Exp : float64 → float64 }.

(** [l[i]] *)
Definition index {A} (l : list A) (i : Z) : outcome A :=
  if i <? 0 then Panic "index out of range" else
  match l !! Z.to_nat i with Some x => Ok x | None => Panic "index out of range" end.

(** [math.Min], which orders the zeros and lets a NaN through. *)
Definition signbit (x : float64) : bool :=
  match x with S754_zero s | S754_infinity s | S754_finite s _ _ => s | S754_nan => false end.
Definition is_neg_inf (x : float64) : bool :=
  match x with S754_infinity true => true | _ => false end.
Definition Min (x y : float64) : float64 :=
  if is_neg_inf x || is_neg_inf y then finf true
  else if is_nan x || is_nan y then fnan
  else if feq x f0 && feq x y then (if signbit x then x else y)
  else if flt x y then x else y.

(** ** Descriptive statistics *)

Definition percentile (sorted : list float64) (p : float64) : outcome float64 :=
  if zlen sorted =? 0 then Ok f0 else
  let idx := fmul p (of_int (zlen sorted - 1)) in
  let lower := to_int64 (Floor idx) in
  let upper := to_int64 (Ceil idx) in
  if (lower =? upper) || (zlen sorted <=? upper) then index sorted lower
  else
    let frac := fsub idx (of_int lower) in
    a ← index sorted lower;
    b ← index sorted upper;
    Ok (fadd (fmul a (fsub f1 frac)) (fmul b frac)).

Definition sum_of (vals : list float64) : float64 := foldl fadd f0 vals.

Definition mean (vals : list float64) : float64 :=
  if zlen vals =? 0 then f0 else fdiv (sum_of vals) (of_int (zlen vals)).

Definition stddev (vals : list float64) : float64 :=
  if zlen vals <? 2 then f0 else
  let m := mean vals in
  let sumSq := foldl (λ acc v, let d := fsub v m in fadd acc (fmul d d)) f0 vals in
  fsqrt (fdiv sumSq (of_int (zlen vals - 1))).

Definition sum_squares (vals : list float64) : float64 := foldl (λ acc v, fadd acc (fmul v v)) f0 vals.

Definition jainFairness (vals : list float64) : float64 :=
  if zlen vals =? 0 then f0 else
  let sum := sum_of vals in
  let sumSq := sum_squares vals in
  let n := of_int (zlen vals) in
  if feq sumSq f0 then f1 else fdiv (fmul sum sum) (fmul n sumSq).

Definition confidenceInterval95 (vals : list float64) : float64 * float64 :=
  if zlen vals <? 2 then (mean vals, mean vals) else
  let m := mean vals in
  let sd := stddev vals in
  let n := of_int (zlen vals) in
  let t := if 30 <=? zlen vals then lit 196 100
           else if 20 <=? zlen vals then lit 2086 1000 else lit 2262 1000 in
  let margin := fdiv (fmul t sd) (fsqrt n) in
  (fsub m margin, fadd m margin).

(** ** The Wilcoxon signed-rank test *)

Record rankPair := { absDiff : float64; sign : float64 }.

(** The differences, those equal to zero left out. *)
Definition rank_pair (ab : float64 * float64) : option rankPair :=
  let diff := fsub (fst ab) (snd ab) in
  if feq diff f0 then None
  else Some {| absDiff := fabs diff; sign := if flt diff f0 then of_int (-1) else f1 |}.

Definition rank_pairs (a b : list float64) : list rankPair := omap rank_pair (zip a b).

Definition sort_pairs (srt : sorter) (pairs : list rankPair) : list rankPair :=
  sort_slice srt (λ x y, flt (absDiff x) (absDiff y)) pairs.

(** The length of the tied group at the head of [l]. *)
Fixpoint tie_length (d : float64) (l : list rankPair) : nat :=
  match l with
  | r :: l' => if feq (absDiff r) d then S (tie_length d l') else O
  | [] => O
  end.

(** [wPlus] and [wMinus] *)
Definition add_rank (avgRank : float64) (w : float64 * float64) (r : rankPair) : float64 * float64 :=
  if fgt (sign r) f0 then (fadd (fst w) avgRank, snd w) else (fst w, fadd (snd w) avgRank).

(** The rank loop from index [i] on, [l] the pairs from there on; it runs on
    fuel because a group can be empty ([Wilcoxon_terminates_iff]). *)
Fixpoint assign_ranks (fuel : nat) (i : Z) (l : list rankPair) (w : float64 * float64)
  : option (float64 * float64) :=
  match fuel with
  | O => None
  | S fuel' =>
      match l with
      | [] => Some w
      | r :: _ =>
          let k := tie_length (absDiff r) l in
          let j := i + Z.of_nat k in
          let avgRank := fdiv (of_int (i + j + 1)) (of_int 2) in
          assign_ranks fuel' j (drop k l) (foldl (add_rank avgRank) w (take k l))
      end
  end.

Section wilcoxon.
Context {ME : MathExp} (srt : sorter).

(** The nested polynomial of the approximation. *)
Definition normal_poly (t : float64) : float64 :=
  fadd (lit 319381530 1000000000)
    (fmul t (fadd (lit (-356563782) 1000000000)
      (fmul t (fadd (lit 1781477937 1000000000)
        (fmul t (fadd (lit (-1821255978) 1000000000) (fmul t (lit 1330274429 1000000000)))))))).

Definition normalCDF (x : float64) : float64 :=
  if flt x (of_int (-8)) then f0
  else if fgt x (of_int 8) then f1
  else
    let t := fdiv f1 (fadd f1 (fmul (lit 2316419 10000000) (fabs x))) in
    let d := lit 3989422804014327 10000000000000000 in
    let prob := fmul (fmul (fmul d (Exp (fdiv (fmul (fneg x) x) (of_int 2)))) t) (normal_poly t) in
    if fgt x f0 then fsub f1 prob else prob.

(** The p-value of the normal approximation, for [n] differences. *)
Definition wilcoxon_p (n : Z) (wPlus wMinus : float64) : float64 :=
  let nn := of_int n in
  let meanW := fdiv (fmul nn (fadd nn f1)) (of_int 4) in
  let stdW := fsqrt (fdiv (fmul (fmul nn (fadd nn f1)) (fadd (fmul (of_int 2) nn) f1)) (of_int 24)) in
  if feq stdW f0 then f1 else
  let w := Min wPlus wMinus in
  let z := fdiv (fsub w meanW) stdW in
  fmul (of_int 2) (normalCDF (fneg (fabs z))).

Definition WilcoxonSignedRank (fuel : nat) (a b : list float64) : option (float64 * float64) :=
  if Z.min (zlen a) (zlen b) <? 5 then Some (f0, f1) else
  let pairs := rank_pairs a b in
  if zlen pairs =? 0 then Some (f0, f1) else
  match assign_ranks fuel 0 (sort_pairs srt pairs) (f0, f0) with
  | Some (wPlus, wMinus) => Some (wPlus, wilcoxon_p (zlen pairs) wPlus wMinus)
  | None => None
  end.

End wilcoxon.

(** ** Percentiles stay in range *)

Lemma index_Ok {A} (l : list A) i : 0 ≤ i < zlen l → ∃ x, index l i = Ok x ∧ x ∈ l.
Proof.
  intros Hi. unfold index. rewrite (proj2 (Z.ltb_ge i 0)) by lia.
  destruct (lookup_lt_is_Some_2 l (Z.to_nat i)) as [x Hx]; [lia|]. rewrite Hx.
  exists x. split; [done|]. by eapply list_elem_of_lookup_2.
Qed.

(** A percentile between 0 and 1 of any sample, empty and one-element
    samples included, reads only existing elements, and is one of them when
    the position is a whole number. *)
Theorem percentile_in_range (sorted : list float64) (p : float64) :
  nonneg_valid p → fle p f1 = true → zlen sorted < 2 ^ 53 - 1 →
  let idx := fmul p (of_int (zlen sorted - 1)) in
  ∃ x, percentile sorted p = Ok x ∧
    (sorted ≠ [] → to_int64 (Floor idx) = to_int64 (Ceil idx) → x ∈ sorted).
Proof.
  intros Hp Hp1 Hn idx. unfold percentile. fold idx.
  destruct (decide (sorted = [])) as [->|Hne]; [by exists f0|].
  assert (1 ≤ zlen sorted) as Hlen by (destruct sorted; [done|simpl; lia]).
  rewrite (proj2 (Z.eqb_neq _ 0)) by lia.
  assert (0 ≤ to_int64 (Floor idx) ≤ zlen sorted - 1 ∧ 0 ≤ to_int64 (Ceil idx) ≤ zlen sorted - 1) as [Hf Hc].
  { destruct (fmul_fraction p (zlen sorted - 1)) as (? & ? & ?); [done..|lia|].
    destruct (floor_ceil_bounds idx (zlen sorted - 1)) as (? & ? & _); [done..|lia|done|done]. }
  destruct (index_Ok sorted (to_int64 (Floor idx))) as (x & Ex & Hx); [lia|].
  destruct (index_Ok sorted (to_int64 (Ceil idx))) as (y & Ey & Hy); [lia|].
  rewrite (proj2 (Z.leb_gt _ (to_int64 (Ceil idx)))) by lia. rewrite orb_false_r.
  destruct (Z.eqb_spec (to_int64 (Floor idx)) (to_int64 (Ceil idx))) as [E|E].
  - by exists x.
  - rewrite Ex, Ey. eexists. split; [done|]. by intros.
Qed.

(** ** Jain's fairness index *)

(** Sums of whole numbers are exact. *)
Lemma foldl_fadd_exact {A} (f : A → float64) (g : A → Z) l a d :
  (∀ x, x ∈ l → 0 ≤ g x ∧ f x = dyadic (g x) d) → 0 ≤ a → -500 ≤ d ≤ 500 →
  a + zsum g l < 2 ^ 53 →
  foldl (λ acc x, fadd acc (f x)) (dyadic a d) l = dyadic (a + zsum g l) d.
Proof.
  intros Hl Ha Hd. revert a Ha. induction l as [|x l IH]; intros a Ha Hs; pw; [by rewrite Z.add_0_r|].
  destruct (Hl x) as [Hx Ex]; [left|].
  assert (0 ≤ zsum g l) by (apply zsum_nonneg, Forall_forall; intros y Hy; apply Hl; by right).
  cbn [foldl]. rewrite Ex, fadd_dyadic, IH by (lia || (intros; apply Hl; by right)). f_equal. lia.
Qed.

Lemma foldl_fmap' {A B C} (f : C → B → C) (g : A → B) c l :
  foldl f c (g <$> l) = foldl (λ a x, f a (g x)) c l.
Proof. revert c. induction l; intros c; [done|]. apply IHl. Qed.

Lemma zsum_mono {A} (f g : A → Z) l : (∀ x, x ∈ l → f x ≤ g x) → zsum f l ≤ zsum g l.
Proof.
  induction l as [|x l IH]; intros H; [done|]. pw. pose proof (H x ltac:(left)).
  assert (zsum f l ≤ zsum g l) by (apply IH; intros; apply H; by right). lia.
Qed.

Lemma zsum_zero {A} (l : list A) : zsum (λ _, 0) l = 0.
Proof. induction l as [|x l IH]; [done|]. by pw. Qed.

Lemma zsum_id_elem x (l : list Z) : (∀ y, y ∈ l → 0 ≤ y) → x ∈ l → x ≤ zsum id l.
Proof.
  intros H Hx. apply list_elem_of_split in Hx as (l1 & l2 & ->). pw.
  assert (∀ k, (∀ y, y ∈ k → y ∈ l1 ++ x :: l2) → 0 ≤ zsum id k) as Hk.
  { intros k Hk. apply zsum_nonneg, Forall_forall. auto. }
  pose proof (Hk l1 ltac:(set_solver)). pose proof (Hk l2 ltac:(set_solver)). unfold id at 2. lia.
Qed.

Definition square (x : Z) : Z := x * x.

Lemma variance_identity x l :
  zsum (λ y, square (y - x)) l = zsum square l - 2 * x * zsum id l + zlen l * square x.
Proof. induction l as [|y l IH]; pw; [simpl; lia|]. rewrite IH, length_cons. unfold square, id. lia. Qed.

Lemma squares_nonneg x l : 0 ≤ zsum (λ y, square (y - x)) l.
Proof. apply zsum_nonneg, Forall_true. intros y. apply Z.square_nonneg. Qed.

Lemma zsum_square_zero x l : zsum (λ y, square (y - x)) l ≤ 0 → Forall (λ y, y = x) l.
Proof.
  induction l as [|y l IH]; [constructor|]. rewrite zsum_cons.
  pose proof (squares_nonneg x l). pose proof (Z.square_nonneg (y - x)). unfold square at 1.
  intros H'. constructor; [nia|]. apply IH. lia.
Qed.

(** The Cauchy-Schwarz inequality, and when it is an equality. *)
Lemma sum_square_le l :
  square (zsum id l) ≤ zlen l * zsum square l ∧
  (square (zsum id l) = zlen l * zsum square l → ∃ v, Forall (λ y, y = v) l).
Proof.
  induction l as [|x l [IH IHe]]; [split; [done|]; by exists 0|].
  rewrite !zsum_cons, length_cons, Nat2Z.inj_succ. pose proof (variance_identity x l) as Hv.
  pose proof (squares_nonneg x l) as Hn. rewrite Hv in Hn.
  assert (∀ z, square z = z * z) as Hsq by done. change (id x) with x.
  rewrite Hsq in IH, IHe, Hn. rewrite !Hsq.
  set (Q := zsum square l) in *. set (S := zsum id l) in *.
  assert ((x + S) * (x + S) - Z.succ (zlen l) * (x * x + Q) =
          (S * S - zlen l * Q) - (Q - 2 * x * S + zlen l * (x * x))) as E by ring.
  split; [lia|]. intros E'. exists x. constructor; [done|]. apply zsum_square_zero.
  rewrite Hv, Hsq. lia.
Qed.

Lemma zsum_constant v l : Forall (λ x, x = v) l →
  zsum id l = zlen l * v ∧ zsum square l = zlen l * square v.
Proof.
  induction 1 as [|x l -> _ [IH1 IH2]]; [done|]. rewrite !zsum_cons, IH1, IH2, length_cons.
  unfold id. lia.
Qed.

(** The fairness index of whole latencies (milliseconds) is positive, at
    most one, and one exactly when all latencies are equal, as long as the
    numbers are exact. *)
Theorem jainFairness_bounds (l : list Z) :
  l ≠ [] → Forall (λ x, 0 ≤ x) l → zlen l * zsum square l < 2 ^ 53 →
  let J := jainFairness (of_int <$> l) in
  fgt J f0 = true ∧ fle J f1 = true ∧ (J = f1 ↔ ∃ v, Forall (λ x, x = v) l).
Proof.
  intros Hne Hpos Hb. rewrite Forall_forall in Hpos.
  assert (1 ≤ zlen l) as Hn by (destruct l; [done|simpl; lia]).
  assert (∀ x, x ∈ l → x ≤ x * x ≤ zsum square l) as Hsq.
  { intros x Hx. split; [nia|]. apply list_elem_of_split in Hx as (l1 & l2 & ->). pw.
    assert (∀ k, 0 ≤ zsum square k) by (intros k; apply zsum_nonneg, Forall_true; apply Z.square_nonneg).
    pose proof (H l1). pose proof (H l2). change (square x) with (x * x). lia. }
  intros J. set (Q := zsum square l) in *. set (S := zsum id l).
  assert (0 ≤ S ≤ Q) as HS.
  { split; [by apply zsum_nonneg, Forall_forall|]. apply zsum_mono. intros x Hx. unfold id, square. nia. }
  destruct (sum_square_le l) as [HC HE]. fold S Q in HC, HE. unfold square in HC, HE.
  assert (∀ x, x ∈ l → of_int x = dyadic x 0) as Hint.
  { intros x Hx. apply of_int_dyadic. specialize (Hpos x Hx). specialize (Hsq x Hx). nia. }
  assert (sum_of (of_int <$> l) = dyadic S 0) as E1.
  { unfold sum_of. rewrite foldl_fmap'. apply (foldl_fadd_exact of_int id l 0); [by auto|lia..|]. fold S. nia. }
  assert (sum_squares (of_int <$> l) = dyadic Q 0) as E2.
  { unfold sum_squares. rewrite foldl_fmap'.
    apply (foldl_fadd_exact (λ x, fmul (of_int x) (of_int x)) square l 0); [|lia..|fold Q; nia].
    intros x Hx. specialize (Hpos x Hx). specialize (Hsq x Hx).
    rewrite Hint, fmul_dyadic by (done || nia). split; [apply Z.square_nonneg|done]. }
  unfold J, jainFairness. rewrite length_fmap, E1, E2, feq_dyadic_zero, (proj2 (Z.eqb_neq _ 0)) by lia.
  destruct (Z.eqb_spec Q 0) as [HQ|HQ].
  - split_and!; [by vm_compute..|]. split; [|done]. intros _. exists 0. apply Forall_forall.
    intros x Hx. specialize (Hpos x Hx). specialize (Hsq x Hx). nia.
  - assert (0 < S) as HS0.
    { destruct (Z.eq_dec S 0) as [HS0|]; [|lia]. exfalso. apply HQ.
      apply Z.le_antisymm; [|lia]. rewrite <-(zsum_zero l). apply zsum_mono. intros x Hx.
      assert (x = 0) as ->; [|done]. apply Z.le_antisymm; [|by apply Hpos].
      rewrite <-HS0. by apply zsum_id_elem. }
    rewrite of_int_dyadic, !fmul_dyadic by nia. split_and!.
    + apply fdiv_positive; nia.
    + apply fdiv_le_one; nia.
    + rewrite fdiv_eq_one by nia. split; [done|]. intros [v Hv].
      destruct (zsum_constant v l Hv) as [Hs Hq].
      unfold S, Q. rewrite Hs, Hq. unfold square. ring.
Qed.

(** ** Signed ranks, by counting *)

Abbreviation numeric := (λ r, is_nan (absDiff r) = false).

(** Twice the average rank of the value [x] in [l]. *)
Definition rank_weight (x : float64) (r : rankPair) : Z :=
  if flt (absDiff r) x then 2 else if feq (absDiff r) x then 1 else 0.
Definition double_rank (l : list rankPair) (x : float64) : Z := zsum (rank_weight x) l + 1.

(** Twice the sum of the ranks of the selected pairs. *)
Definition double_rank_sum (sel : rankPair → bool) (l : list rankPair) : Z :=
  zsum (λ r, if sel r then double_rank l (absDiff r) else 0) l.

Definition positive_sign (r : rankPair) : bool := fgt (sign r) f0.

#[export] Instance double_rank_proper : Proper ((≡ₚ) ==> (=) ==> (=)) double_rank.
Proof. intros l1 l2 H x _ <-. unfold double_rank. by rewrite H. Qed.

Lemma zsum_ext {A} (f g : A → Z) l : (∀ x, x ∈ l → f x = g x) → zsum f l = zsum g l.
Proof. intros H. apply Z.le_antisymm; apply zsum_mono; intros x Hx; rewrite (H x Hx); lia. Qed.

Lemma double_rank_sum_perm sel l1 l2 : l1 ≡ₚ l2 → double_rank_sum sel l1 = double_rank_sum sel l2.
Proof.
  intros H. unfold double_rank_sum. rewrite H. apply zsum_ext. intros r _. by rewrite H.
Qed.

Lemma double_rank_bounds l x : 1 ≤ double_rank l x ≤ 2 * zlen l + 1.
Proof.
  unfold double_rank. assert (0 ≤ zsum (rank_weight x) l ≤ 2 * zlen l); [|lia].
  induction l as [|r l IH]; [done|]. rewrite zsum_cons, length_cons. 
  assert (0 ≤ rank_weight x r ≤ 2) by (unfold rank_weight; repeat case_if; lia). lia.
Qed.

Lemma zsum_add {A} (f g : A → Z) l : zsum (λ x, f x + g x) l = zsum f l + zsum g l.
Proof. induction l as [|x l IH]; [done|]. rewrite !zsum_cons, IH. lia. Qed.

Lemma zsum_swap {A B} (f : A → B → Z) l k :
  zsum (λ x, zsum (f x) k) l = zsum (λ y, zsum (λ x, f x y) l) k.
Proof.
  induction l as [|x l IH]; [by rewrite zsum_nil; unfold zsum at 2; simpl; rewrite zsum_zero|].
  rewrite zsum_cons, IH, <-zsum_add. apply zsum_ext. intros y _. by rewrite zsum_cons.
Qed.

Lemma zsum_const {A} (c : Z) (l : list A) : zsum (λ _, c) l = c * zlen l.
Proof. induction l as [|x l IH]; [rewrite zsum_nil; simpl; lia|]. rewrite zsum_cons, IH, length_cons. lia. Qed.

Lemma rank_weight_sym r s :
  numeric r → numeric s → rank_weight (absDiff r) s + rank_weight (absDiff s) r = 2.
Proof.
  intros Hr Hs. unfold rank_weight. rewrite !feq_spec, !flt_fgt.
  assert (∀ x y, fgt x y = true → fle x y = false) as Hgt.
  { intros x y H. apply not_true_iff_false. intros H'%fle_not_fgt. congruence. }
  destruct (fgt (absDiff r) (absDiff s)) eqn:E1; [by rewrite (fgt_asym _ _ E1), (Hgt _ _ E1)|].
  destruct (fgt (absDiff s) (absDiff r)) eqn:E2; [by rewrite (Hgt _ _ E2)|].
  by rewrite (not_fgt_fle _ _ Hr Hs E1), (not_fgt_fle _ _ Hs Hr E2).
Qed.

(** All ranks together are those of a ranking without ties. *)
Lemma double_rank_total l :
  Forall numeric l →
  double_rank_sum positive_sign l + double_rank_sum (λ r, negb (positive_sign r)) l = zlen l * (zlen l + 1).
Proof.
  rewrite Forall_forall. intros Hn. unfold double_rank_sum. rewrite <-zsum_add.
  transitivity (zsum (λ r, zsum (λ s, rank_weight (absDiff r) s) l + 1) l).
  { apply zsum_ext. intros r _. unfold double_rank. change (zsum (λ s, _) l) with (zsum (rank_weight (absDiff r)) l).
    destruct (positive_sign r); cbn [negb]; lia. }
  rewrite zsum_add, zsum_const. set (T := zsum (λ r, zsum (λ s, rank_weight (absDiff r) s) l) l).
  assert (2 * T = 2 * zlen l * zlen l); [|lia].
  transitivity (zsum (λ r, zsum (λ s, rank_weight (absDiff r) s + rank_weight (absDiff s) r) l) l).
  - rewrite (zsum_ext _ (λ r, zsum (λ s, rank_weight (absDiff r) s) l + zsum (λ s, rank_weight (absDiff s) r) l))
      by (intros; apply zsum_add).
    rewrite zsum_add. rewrite (zsum_swap (λ r s, rank_weight (absDiff s) r)). fold T. lia.
  - rewrite (zsum_ext _ (λ _, 2 * zlen l)); [apply zsum_const|]. intros r Hr.
    rewrite <-(zsum_const 2). apply zsum_ext. intros s Hs. by apply rank_weight_sym; apply Hn.
Qed.

(** ** The rank loop *)

Lemma tie_length_spec d l :
  is_nan d = false → Forall numeric l →
  StronglySorted (λ x y, flt (absDiff y) (absDiff x) = false) l →
  Forall (λ r, flt (absDiff r) d = false) l →
  Forall (λ r, feq (absDiff r) d = true) (take (tie_length d l) l) ∧
  Forall (λ r, fgt (absDiff r) d = true) (drop (tie_length d l) l).
Proof.
  intros Hd. induction l as [|r l IH]; intros Hn Hs Hge; [done|].
  inversion Hn as [|? ? Hr Hn']; subst. inversion Hs as [|? ? Hs' Hrl]; subst.
  inversion Hge as [|? ? Hrd Hge']; subst. cbn. destruct (feq (absDiff r) d) eqn:E.
  - destruct (IH Hn' Hs' Hge') as [H1 H2]. split; [by constructor|done].
  - split; [constructor|]. cbn [drop]. rewrite flt_fgt in Hrd.
    assert (fle d (absDiff r) = true) as Hle by (by apply not_fgt_fle).
    assert (fgt (absDiff r) d = true) as Hgt.
    { apply not_false_iff_true. intros H. apply not_fgt_fle in H; [|done..]. by rewrite fle_feq in E. }
    constructor; [done|]. rewrite Forall_forall in Hrl, Hn' |- *. intros s Hs0.
    eapply fle_fgt_trans; [|exact Hgt]. apply not_fgt_fle; [done|by apply Hn'|].
    specialize (Hrl s Hs0). by rewrite flt_fgt in Hrl.
Qed.

(** The rank of a value whose position among the sorted pairs is known. *)
Lemma double_rank_position before g after d :
  Forall (λ r, fgt d (absDiff r) = true) before →
  Forall (λ r, feq (absDiff r) d = true) g →
  Forall (λ r, fgt (absDiff r) d = true) after →
  double_rank (before ++ g ++ after) d = 2 * zlen before + zlen g + 1.
Proof.
  intros Hb Hg Ha. unfold double_rank. rewrite !zsum_app.
  assert (∀ c l, Forall (λ r, rank_weight d r = c) l → zsum (rank_weight d) l = c * zlen l) as Hc.
  { induction 1 as [|r l Hr _ IH]; [rewrite zsum_nil; simpl; lia|].
    rewrite zsum_cons, Hr, IH, length_cons. lia. }
  rewrite (Hc 2 before), (Hc 1 g), (Hc 0 after); [lia|..];
    (eapply Forall_impl; [eassumption|]); intros r H; cbn in H; unfold rank_weight; rewrite flt_fgt.
  - rewrite fgt_asym by done. destruct (feq (absDiff r) d) eqn:E; [|done].
    apply feq_fle in E as [E _]. by rewrite (fle_not_fgt _ _ E) in H.
  - rewrite H. apply feq_fle in H as [_ H]. by rewrite (fle_not_fgt _ _ H).
  - by rewrite H.
Qed.

Lemma double_rank_feq l x y : feq x y = true → double_rank l x = double_rank l y.
Proof.
  intros E. unfold double_rank. f_equal. apply zsum_ext. intros r _. unfold rank_weight.
  apply feq_fle in E as [H1 H2]. rewrite !flt_fgt.
  assert (fgt x (absDiff r) = fgt y (absDiff r)) as ->.
  { apply eq_bool_prop_intro; rewrite !Is_true_true; split; intros H; eapply fle_fgt_trans; eassumption. }
  destruct (fgt y (absDiff r)); [done|].
  assert (feq (absDiff r) x = feq (absDiff r) y) as ->; [|done].
  apply eq_bool_prop_intro; rewrite !Is_true_true; split; intros [H3 H4]%feq_fle; apply fle_feq; eapply fle_trans; eassumption.
Qed.

(** The share of a pair in one of the two sums. *)
Definition part (s : list rankPair) (sel : rankPair → bool) (r : rankPair) : Z :=
  if sel r then double_rank s (absDiff r) else 0.

Definition negative_sign (r : rankPair) : bool := negb (positive_sign r).

Lemma part_nonneg s sel l : 0 ≤ zsum (part s sel) l.
Proof.
  apply zsum_nonneg, Forall_true. intros r. unfold part.
  pose proof (double_rank_bounds s (absDiff r)). case_if; lia.
Qed.

Lemma foldl_add_rank s c g wp wm :
  (∀ r, r ∈ g → double_rank s (absDiff r) = c) → 0 ≤ c → 0 ≤ wp → 0 ≤ wm →
  wp + zsum (part s positive_sign) g < 2 ^ 53 → wm + zsum (part s negative_sign) g < 2 ^ 53 →
  foldl (add_rank (dyadic c 1)) (dyadic wp 1, dyadic wm 1) g =
  (dyadic (wp + zsum (part s positive_sign) g) 1, dyadic (wm + zsum (part s negative_sign) g) 1).
Proof.
  intros Hg Hc. revert wp wm. induction g as [|r g IH]; intros wp wm Hp Hm; [by rewrite !zsum_nil, !Z.add_0_r|].
  rewrite !zsum_cons. pose proof (part_nonneg s positive_sign g). pose proof (part_nonneg s negative_sign g).
  unfold part at 1 3 5 7. unfold negative_sign at 1 3. rewrite (Hg r) by left.
  intros Bp Bm. cbn [foldl]. unfold add_rank at 2. fold (positive_sign r). cbn [fst snd].
  destruct (positive_sign r); cbn [negb] in *; rewrite fadd_dyadic, IH by (lia || (intros; apply Hg; by right));
    do 2 f_equal; lia.
Qed.

Lemma tie_length_le d l : (tie_length d l ≤ length l)%nat.
Proof. induction l as [|r l IH]; cbn; [done|]. case_if; lia. Qed.

Lemma feq_refl x : is_nan x = false → feq x x = true.
Proof. intros Hx. apply fle_feq; by apply fle_refl. Qed.

(** The head of the sorted pairs and all that tie with it. *)
Lemma tied_group r l0 :
  let l := r :: l0 in
  Forall numeric l → StronglySorted (λ x y, flt (absDiff y) (absDiff x) = false) l →
  let k := tie_length (absDiff r) l in
  l = take k l ++ drop k l ∧ (0 < length (take k l))%nat ∧ length (take k l) = k ∧
  Forall (λ x, feq (absDiff x) (absDiff r) = true) (take k l) ∧
  Forall (λ x, fgt (absDiff x) (absDiff r) = true) (drop k l).
Proof.
  intros l Hn Hs k. assert (is_nan (absDiff r) = false) as Hd by (by inversion Hn).
  pose proof (tie_length_le (absDiff r) l) as Hkl. fold k in Hkl.
  assert (1 ≤ k)%nat by (unfold k, l; cbn; rewrite feq_refl by done; lia).
  split; [by rewrite take_drop|]. rewrite length_take. split_and!; [lia..| |];
    apply tie_length_spec; try done; (inversion Hs; subst; constructor; [|done]);
    rewrite flt_fgt; apply fgt_irrefl.
Qed.

Notation ascending := (StronglySorted (λ x y, flt (absDiff y) (absDiff x) = false)).

Lemma assign_ranks_spec s fuel before l wp wm :
  Forall numeric s → ascending s →
  s = before ++ l → (length l < fuel)%nat → zlen s < 2 ^ 50 →
  Forall (λ b, Forall (λ r, fgt (absDiff r) (absDiff b) = true) l) before →
  0 ≤ wp → 0 ≤ wm →
  wp + zsum (part s positive_sign) l < 2 ^ 53 → wm + zsum (part s negative_sign) l < 2 ^ 53 →
  assign_ranks fuel (zlen before) l (dyadic wp 1, dyadic wm 1) =
  Some (dyadic (wp + zsum (part s positive_sign) l) 1, dyadic (wm + zsum (part s negative_sign) l) 1).
Proof.
  intros Hn Hs. revert before l wp wm. induction fuel as [|fuel IH];
    intros before l wp wm Es Hf Hlen Hsep Hp Hm Bp Bm; [lia|].
  destruct l as [|r l0]; [by rewrite !zsum_nil, !Z.add_0_r|].
  assert (Forall numeric (r :: l0) ∧ ascending (r :: l0)) as [Hnl Hsl].
  { rewrite Es in Hn, Hs. apply Forall_app in Hn as [_ Hn]. by apply StronglySorted_app in Hs as (_ & _ & Hs). }
  destruct (tied_group r l0 Hnl Hsl) as (El & Hk & Ek & Hg & Ha). cbn [assign_ranks].
  set (k := tie_length (absDiff r) (r :: l0)) in *.
  set (g := take k (r :: l0)) in *. set (a := drop k (r :: l0)) in *.
  rewrite Forall_forall in Hg. set (d := absDiff r) in *.
  assert (∀ b, b ∈ before → fgt d (absDiff b) = true) as Hbd.
  { intros b Hb. rewrite Forall_forall in Hsep. specialize (Hsep b Hb). by inversion Hsep. }
  rewrite El in Es, Hf, Hsep, Bp, Bm |- *. clearbody g a. clear El Hnl Hsl.
  rewrite length_app in Hf. rewrite !zsum_app in Bp, Bm |- *.
  assert (∀ x, x ∈ g → double_rank s (absDiff x) = 2 * zlen before + zlen g + 1) as Hr.
  { intros x Hx. rewrite (double_rank_feq s _ _ (Hg x Hx)), Es.
    apply double_rank_position; [apply Forall_forall, Hbd|apply Forall_forall, Hg|exact Ha]. }
  assert (zlen s = zlen before + zlen g + zlen a) as Els by (rewrite Es, !length_app; lia).
  pose proof (part_nonneg s positive_sign a). pose proof (part_nonneg s negative_sign a).
  rewrite of_int_dyadic, half_dyadic by lia.
  replace (zlen before + (zlen before + Z.of_nat k) + 1) with (2 * zlen before + zlen g + 1) by lia.
  rewrite (foldl_add_rank s) by (done || lia).
  replace (zlen before + Z.of_nat k) with (zlen (before ++ g)) by (rewrite length_app; lia).
  pose proof (part_nonneg s positive_sign g). pose proof (part_nonneg s negative_sign g).
  rewrite (zsum_app (part s negative_sign)), IH; [do 3 f_equal; lia|by rewrite Es, app_assoc|lia|done| |lia..].
  rewrite Forall_app. split.
  - eapply Forall_impl; [exact Hsep|]. intros b [_ Hb]%Forall_app. done.
  - apply Forall_forall. intros x Hx. eapply Forall_impl; [exact Ha|]. intros y Hy. cbn in *.
    apply (fgt_fle_trans _ d); [done|]. by destruct (feq_fle _ _ (Hg x Hx)).
Qed.

(** A difference that is not a number is never passed. *)
Lemma assign_ranks_nan fuel i l w :
  ¬ Forall numeric l → assign_ranks fuel i l w = None.
Proof.
  revert i l w. induction fuel as [|fuel IH]; intros i l w Hn; [done|].
  destruct l as [|r l0]; [by destruct Hn|]. cbn [assign_ranks]. apply IH. intros Hd. apply Hn.
  rewrite <-(take_drop (tie_length (absDiff r) (r :: l0)) (r :: l0)). apply Forall_app. split; [|done].
  clear. generalize (absDiff r). intros d. generalize (r :: l0). intros l.
  induction l as [|x l IH]; [constructor|]. cbn. destruct (feq (absDiff x) d) eqn:E; [|constructor].
  constructor; [|done]. destruct (is_nan (absDiff x)) eqn:N; [|done]. by rewrite (proj1 (feq_nan _ d N)) in E.
Qed.

(** ** The test *)

Section test.
Context {ME : MathExp} (srt : sorter).
Implicit Types a b : list float64.

Lemma numeric_less_weak l : Forall numeric l → strict_weak_on l (λ x y, flt (absDiff x) (absDiff y)).
Proof.
  rewrite Forall_forall. intros Hn. split.
  - intros x y _ _. rewrite !flt_fgt. apply fgt_asym.
  - intros x y z Hx Hy Hz. rewrite !flt_fgt. intros H1 H2. apply fle_not_fgt.
    apply (fle_trans _ (absDiff y)); apply not_fgt_fle; auto.
Qed.

Lemma sort_pairs_ascending l : Forall numeric l → ascending (sort_pairs srt l).
Proof. intros Hn. by apply (sort_slice_sorted srt _ (λ x y, flt (absDiff x) (absDiff y))), numeric_less_weak. Qed.

(** The number that the sums of ranks are halves of, as the code's floats. *)
Definition half (n : Z) : float64 := fdiv (of_int n) (of_int 2).

Lemma half_value n : 0 ≤ n < 2 ^ 53 → half n = dyadic n 1.
Proof. intros Hn. unfold half. by rewrite of_int_dyadic, half_dyadic. Qed.

Lemma part_total s sel l : zsum (part s sel) l ≤ (2 * zlen s + 1) * zlen l.
Proof.
  induction l as [|r l IH]; [rewrite zsum_nil; simpl; lia|]. rewrite zsum_cons, length_cons.
  pose proof (double_rank_bounds s (absDiff r)). assert (part s sel r ≤ 2 * zlen s + 1); [|lia].
  unfold part. case_if; lia.
Qed.

Lemma ranks_of_sorted fuel l :
  Forall numeric l → (length l < fuel)%nat → zlen l < 2 ^ 25 →
  assign_ranks fuel 0 (sort_pairs srt l) (f0, f0) =
  Some (half (double_rank_sum positive_sign l), half (double_rank_sum negative_sign l)).
Proof.
  intros Hn Hf Hlen. pose proof (sort_slice_perm srt _ (λ x y, flt (absDiff x) (absDiff y)) l) as Hp.
  fold (sort_pairs srt l) in Hp. set (s := sort_pairs srt l) in *.
  pose proof (Permutation_length Hp) as Hl.
  assert (∀ sel, double_rank_sum sel s = zsum (part s sel) s) as Hsum by done.
  pose proof (part_total s positive_sign s). pose proof (part_total s negative_sign s).
  pose proof (part_nonneg s positive_sign s). pose proof (part_nonneg s negative_sign s).
  change (f0, f0) with (dyadic 0 1, dyadic 0 1). change 0 with (zlen (@nil rankPair)) at 1.
  rewrite (assign_ranks_spec s) by (done || (by rewrite Hp) || (by apply sort_pairs_ascending) || nia).
  rewrite <-!(double_rank_sum_perm _ _ _ Hp). by rewrite !Hsum, !half_value by nia.
Qed.

(** C31: the test ranks the absolute differences as the definition by counting
    does, with tied values sharing their average rank, exactly and whatever
    order the sort leaves ties in; both sums together are n(n+1)/2.  This is for
    five or more pairs whose differences are not all zero and none of which is
    NaN (with NaN the loop does not end), and fewer than 2^25 differences. *)
Theorem Wilcoxon_counts (fuel : nat) a b :
  let pairs := rank_pairs a b in
  5 ≤ Z.min (zlen a) (zlen b) → pairs ≠ [] → Forall numeric pairs →
  zlen pairs < 2 ^ 25 → (length pairs < fuel)%nat →
  let wPlus := half (double_rank_sum positive_sign pairs) in
  let wMinus := half (double_rank_sum negative_sign pairs) in
  WilcoxonSignedRank srt fuel a b = Some (wPlus, wilcoxon_p (zlen pairs) wPlus wMinus) ∧
  double_rank_sum positive_sign pairs + double_rank_sum negative_sign pairs = zlen pairs * (zlen pairs + 1).
Proof.
  intros pairs Hmin Hne Hn Hlen Hf wPlus wMinus. split; [|by apply double_rank_total]. unfold WilcoxonSignedRank. fold pairs.
  rewrite (proj2 (Z.ltb_ge _ 5)) by done.
  rewrite (proj2 (Z.eqb_neq (zlen pairs) 0)) by (destruct pairs; [done|simpl; lia]).
  by rewrite ranks_of_sorted.
Qed.

(** The test returns unless some difference is not a number; then its rank
    loop never advances past that difference. *)
Theorem Wilcoxon_terminates_iff a b :
  5 ≤ Z.min (zlen a) (zlen b) → zlen (rank_pairs a b) < 2 ^ 25 →
  (∃ fuel, WilcoxonSignedRank srt fuel a b ≠ None) ↔
  Forall (λ ab, is_nan (fsub (fst ab) (snd ab)) = false) (zip a b).
Proof.
  intros Hmin Hlen. unfold WilcoxonSignedRank. rewrite (proj2 (Z.ltb_ge _ 5)) by done.
  assert (Forall (λ ab, is_nan (fsub (fst ab) (snd ab)) = false) (zip a b) ↔ Forall numeric (rank_pairs a b)) as ->.
  { unfold rank_pairs. generalize (zip a b). clear. induction l as [|ab l IH]; [by split; constructor|].
    rewrite Forall_cons, IH. cbn [omap list_omap]. unfold rank_pair at 2. cbv zeta.
    set (d := fsub (fst ab) (snd ab)). destruct (feq d f0) eqn:E.
    - split; [by intros []|]. intros H. split; [|done]. by apply feq_fle in E as [[? _]%fle_not_nan _].
    - rewrite Forall_cons. cbn [absDiff]. by replace (is_nan (fabs d)) with (is_nan d) by by destruct d. }
  destruct (zlen (rank_pairs a b) =? 0) eqn:E0.
  { apply Z.eqb_eq in E0. destruct (rank_pairs a b); [|done]. split; [by intros _; constructor|]. by exists 0%nat. }
  split.
  - intros [fuel Hf]. destruct (decide (Forall numeric (rank_pairs a b))) as [|Hn]; [done|].
    rewrite assign_ranks_nan in Hf; [done|]. unfold sort_pairs. by rewrite sort_slice_perm.
  - intros Hn. exists (S (length (rank_pairs a b))). by rewrite ranks_of_sorted by (done || lia).
Qed.

End test.

(** ** Examples and witnesses *)

Definition ms (l : list Z) : list float64 := of_int <$> l.

Example percentile_median : percentile (ms [1; 2; 4; 8]) (lit 1 2) = Ok (of_int 3).
Proof. by vm_compute. Qed.
Example percentile_of_nothing : percentile [] (lit 95 100) = Ok f0.
Proof. by vm_compute. Qed.
(** Above one, the position is past the end. *)
Example percentile_150 : percentile (ms [1; 2; 4]) (lit 3 2) = Panic "index out of range".
Proof. by vm_compute. Qed.
Example mean_stddev : mean (ms [2; 4; 6]) = of_int 4 ∧ stddev (ms [2; 4; 6]) = of_int 2.
Proof. by vm_compute. Qed.
Example jain_one_slow : jainFairness (ms [0; 0; 0; 7]) = lit 1 4.
Proof. by vm_compute. Qed.

Lemma percentile_in_range_witness :
  ∃ x, percentile (ms [1; 2; 4; 8]) (lit 95 100) = Ok x ∧
    (ms [1; 2; 4; 8] ≠ [] →
     to_int64 (Floor (fmul (lit 95 100) (of_int 3))) = to_int64 (Ceil (fmul (lit 95 100) (of_int 3))) →
     x ∈ ms [1; 2; 4; 8]).
Proof.
  apply (percentile_in_range (ms [1; 2; 4; 8]) (lit 95 100)); [|by vm_compute|by vm_compute].
  apply (unit_check_sound (lit 95 100)). by vm_compute.
Defined.

Lemma jainFairness_bounds_witness :
  let J := jainFairness (ms [12; 30; 7]) in
  fgt J f0 = true ∧ fle J f1 = true ∧ (J = f1 ↔ ∃ v, Forall (λ x, x = v) [12; 30; 7]).
Proof. apply (jainFairness_bounds [12; 30; 7]); [done|repeat constructor; lia|by vm_compute]. Defined.

#[local] Instance no_exp : MathExp := {| Exp := λ x, f1 |}.

(** Six pairs with a tie of three, sorted by a sort that reverses ties. *)
Definition before_ms : list float64 := ms [10; 20; 30; 40; 50; 60].
Definition after_ms : list float64 := ms [11; 19; 30; 41; 44; 52].

Example pairs_of_samples :
  zlen (rank_pairs before_ms after_ms) = 5 ∧
  double_rank_sum positive_sign (rank_pairs before_ms after_ms) = 22 ∧
  double_rank_sum negative_sign (rank_pairs before_ms after_ms) = 8.
Proof. by vm_compute. Qed.

Lemma Wilcoxon_counts_witness :
  WilcoxonSignedRank reversing_sorter 6 before_ms after_ms = Some (half 22, wilcoxon_p 5 (half 22) (half 8)) ∧
  22 + 8 = 5 * (5 + 1).
Proof.
  pose proof (Wilcoxon_counts reversing_sorter 6 before_ms after_ms) as H. vm_compute in H |- *.
  apply H; [by vm_compute|done|by repeat constructor|by vm_compute|lia].
Defined.

Lemma Wilcoxon_terminates_iff_witness :
  (∃ fuel, WilcoxonSignedRank stable_sorter fuel before_ms (finf false :: tail after_ms) ≠ None) ↔
  Forall (λ ab, is_nan (fsub (fst ab) (snd ab)) = false) (zip before_ms (finf false :: tail after_ms)).
Proof. apply (Wilcoxon_terminates_iff stable_sorter); by vm_compute. Defined.

(** Two infinite samples differ by a NaN. *)
Example Wilcoxon_hangs :
  WilcoxonSignedRank stable_sorter 100 (replicate 5 (finf false)) (replicate 5 (finf false)) = None.
Proof. by vm_compute. Qed.
