(* ===== verification/Replication.v ===== *)
(** * Popularity tracking and replication ([internal/content/replication.go])

    [RecordFetch] takes the counter of a CID under the lock and increments it
    after releasing the lock: two atomic steps, between which other calls
    run.  The interleavings are a step relation on a pool of calls. *)

From S2P Require Import Prelude Runtime Chunker Store.

(** A counter is created once per CID and never replaced, so the pointer the
    code keeps is determined by the CID. *)
Record ReplicationTracker := {
  fetchCount : gmap string Z;        (* atomic.Int64 per CID *)
  threshold : Z
}.

Definition NewReplicationTracker (th : Z) : ReplicationTracker :=
  {| fetchCount := ∅; threshold := th |}.

(** The critical section: find or create the counter. *)
Definition acquire (rt : ReplicationTracker) (cid : string) : ReplicationTracker :=
  match fetchCount rt !! cid with
  | Some _ => rt
  | None => {| fetchCount := <[cid := 0]> (fetchCount rt); threshold := threshold rt |}
  end.

(** [counter.Add(1)] and the comparison. *)
Definition increment (rt : ReplicationTracker) (cid : string) : bool * ReplicationTracker :=
  let n := wrap64 (default 0 (fetchCount rt !! cid) + 1) in
  (n =? threshold rt, {| fetchCount := <[cid := n]> (fetchCount rt); threshold := threshold rt |}).

(** A call that runs alone. *)
Definition RecordFetch (rt : ReplicationTracker) (cid : string) : bool * ReplicationTracker :=
  increment (acquire rt cid) cid.

Definition PopularBlocks (o : order) (rt : ReplicationTracker) : list string :=
  fst <$> List.filter (λ '(_, n), threshold rt <=? n) (range_entries o (fetchCount rt)).

Record ReplicationStats := {
  TrackedBlocks : Z;
  st_PopularBlocks : Z;
  FetchCounts : gmap string Z
}.

Definition Stats (o : order) (rt : ReplicationTracker) : ReplicationStats :=
  {| TrackedBlocks := Z.of_nat (base.size (fetchCount rt));
     st_PopularBlocks := zlen (List.filter (λ '(_, n), threshold rt <=? n)
                                 (range_entries o (fetchCount rt)));
     FetchCounts := fetchCount rt |}.

(** [ReplicatePopular]: copy each popular block; [fr] and [fw] are the faults
    of the reads and writes, by position. *)
Fixpoint replicate_blocks (fr fw : nat → fault) (src dst : Store) (i : nat) (popular : list string)
    (d : Disk) (replicated : Z) : Z * Disk :=
  match popular with
  | [] => (replicated, d)
  | cid :: popular' =>
      match Get (fr i) src d cid with
      | Ok block =>
          let '(r, d') := Put (fw i) dst d block in
          replicate_blocks fr fw src dst (S i) popular' d'
            (if is_ok r then replicated + 1 else replicated)
      | _ => replicate_blocks fr fw src dst (S i) popular' d replicated
      end
  end.

Definition ReplicatePopular (o : order) (fr fw : nat → fault) (rt : ReplicationTracker)
    (src dst : Store) (d : Disk) : Z * Disk :=
  replicate_blocks fr fw src dst O (PopularBlocks o rt) d 0.

(** ** Concurrent calls *)

Inductive call :=
  | Calling (cid : string)            (* before the lock *)
  | Holding (cid : string)            (* has the counter *)
  | Returned (cid : string) (crossed : bool).

Inductive tracker_step : ReplicationTracker * list call → ReplicationTracker * list call → Prop :=
  | step_acquire rt calls i cid :
      calls !! i = Some (Calling cid) →
      tracker_step (rt, calls) (acquire rt cid, <[i := Holding cid]> calls)
  | step_increment rt calls i cid :
      calls !! i = Some (Holding cid) →
      tracker_step (rt, calls)
        (snd (increment rt cid), <[i := Returned cid (fst (increment rt cid))]> calls).

Definition returned (cid : string) (c : call) : Z :=
  match c with Returned c' _ => if decide (c' = cid) then 1 else 0 | _ => 0 end.
Definition crossed (cid : string) (c : call) : Z :=
  match c with Returned c' true => if decide (c' = cid) then 1 else 0 | _ => 0 end.
Definition call_cid (c : call) : string :=
  match c with Calling cid | Holding cid | Returned cid _ => cid end.

Definition count_of (rt : ReplicationTracker) (cid : string) : Z :=
  default 0 (fetchCount rt !! cid).

(** The counter is the number of returned calls; one of them reported the
    crossing if and only if the threshold was reached. *)
Record tracker_inv (th : Z) (n : nat) (st : ReplicationTracker * list call) : Prop := {
  inv_threshold : threshold (fst st) = th;
  inv_length : length (snd st) = n;
  inv_count : ∀ cid, count_of (fst st) cid = zsum (returned cid) (snd st);
  inv_crossed : ∀ cid, zsum (crossed cid) (snd st) =
                       if th <=? zsum (returned cid) (snd st) then 1 else 0
}.

Lemma zsum_insert {A} (f : A → Z) l i x y :
  l !! i = Some x → zsum f (<[i := y]> l) = zsum f l - f x + f y.
Proof.
  revert i. induction l as [|z l IH]; intros [|i]; simpl; [done..| |].
  - intros [= ->]. rewrite !zsum_cons. lia.
  - intros Hi. rewrite !zsum_cons, (IH i Hi). lia.
Qed.

Lemma zsum_returned_bounds cid l : 0 ≤ zsum (returned cid) l ≤ zlen l.
Proof.
  induction l as [|c l IH]; [done|]. rewrite zsum_cons, length_cons, Nat2Z.inj_succ.
  assert (0 ≤ returned cid c ≤ 1) by (destruct c; simpl; try case_decide; lia). lia.
Qed.

Lemma count_acquire rt cid cid' : count_of (acquire rt cid) cid' = count_of rt cid'.
Proof.
  unfold acquire, count_of. destruct (fetchCount rt !! cid) eqn:E; [done|]. simpl.
  rewrite lookup_insert. case_decide as He; [|done]. subst. by rewrite E.
Qed.

Lemma tracker_inv_step th n st st' :
  0 < th → Z.of_nat n < 2 ^ 63 → tracker_step st st' → tracker_inv th n st → tracker_inv th n st'.
Proof.
  intros Hth Hn Hstep [Ht Hl Hc Hx]. destruct Hstep as [rt calls i cid Hi|rt calls i cid Hi]; simpl in *.
  - assert (∀ f, (∀ cid, f (Holding cid) = f (Calling cid)) →
      zsum f (<[i:=Holding cid]> calls) = zsum f calls) as Hz.
    { intros f Hf. rewrite (zsum_insert f _ _ _ _ Hi), Hf. lia. }
    split; simpl.
    + unfold acquire. by destruct (fetchCount rt !! cid).
    + by rewrite length_insert.
    + intros cid'. by rewrite count_acquire, Hz.
    + intros cid'. by rewrite !Hz.
  - assert (∀ cid', zsum (returned cid') (<[i:=Returned cid (fst (increment rt cid))]> calls) =
      zsum (returned cid') calls + (if decide (cid = cid') then 1 else 0)) as Hret.
    { intros cid'. rewrite (zsum_insert _ _ _ _ _ Hi). simpl. lia. }
    assert (∀ cid', zsum (crossed cid') (<[i:=Returned cid (fst (increment rt cid))]> calls) =
      zsum (crossed cid') calls + (if fst (increment rt cid) then if decide (cid = cid') then 1 else 0 else 0)) as Hcr.
    { intros cid'. rewrite (zsum_insert _ _ _ _ _ Hi). simpl. lia. }
    pose proof (zsum_returned_bounds cid (<[i:=Returned cid (fst (increment rt cid))]> calls)) as Hb.
    rewrite Hret, length_insert, Hl, decide_True in Hb by done.
    assert (wrap64 (count_of rt cid + 1) = count_of rt cid + 1) as Hw.
    { apply wrap64_small. unfold int64_ok. rewrite Hc. lia. }
    split; simpl.
    + done.
    + by rewrite length_insert.
    + intros cid'. rewrite Hret. unfold count_of in *. simpl. rewrite lookup_insert.
      case_decide as He; simpl; [subst; rewrite Hw, Hc; lia|rewrite Hc; lia].
    + intros cid'. rewrite Hret, Hcr, Hx. unfold increment. cbn [fst].
      fold (count_of rt cid). rewrite Hw, Hc, Ht.
      destruct (decide (cid = cid')) as [->|Hne].
      * destruct (Z.eqb_spec (zsum (returned cid') calls + 1) th);
          repeat case_match; zbool; lia.
      * rewrite Z.add_0_r. destruct (_ =? _); lia.
Qed.

(** C13: however the steps of any number of concurrent [RecordFetch] calls
    interleave, each counter holds the number of calls for its CID that have
    returned, and among those calls exactly one reports that the threshold
    was crossed if there are at least [threshold] of them, and none
    otherwise: replication is triggered exactly once. *)
Theorem RecordFetch_exactly_once (th : Z) (cids : list string) (rt : ReplicationTracker)
    (calls : list call) :
  0 < th → zlen cids < 2 ^ 63 →
  rtc tracker_step (NewReplicationTracker th, Calling <$> cids) (rt, calls) →
  ∀ cid, count_of rt cid = zsum (returned cid) calls ∧
    zsum (crossed cid) calls = (if th <=? zsum (returned cid) calls then 1 else 0).
Proof.
  intros Hth Hn Hr.
  assert (tracker_inv th (length cids) (NewReplicationTracker th, Calling <$> cids)) as H0.
  { assert (∀ cid, zsum (returned cid) (Calling <$> cids) = 0 ∧ zsum (crossed cid) (Calling <$> cids) = 0)
      as Hz.
    { intros cid. clear. induction cids as [|c l [IH1 IH2]]; [done|].
      rewrite fmap_cons, !zsum_cons, IH1, IH2. done. }
    split; simpl; [done|by rewrite length_fmap| |].
    - intros cid. destruct (Hz cid) as [-> _]. unfold count_of. simpl. by rewrite lookup_empty.
    - intros cid. destruct (Hz cid) as [-> ->]. by rewrite (proj2 (Z.leb_gt _ _)) by lia. }
  assert (tracker_inv th (length cids) (rt, calls)) as [_ _ Hc Hx].
  { revert H0. generalize (NewReplicationTracker th, Calling <$> cids) as st, (rt, calls) as st', Hr.
    clear -Hth Hn. intros st st' Hr. induction Hr; [done|]. intros H0. apply IHHr.
    by eapply tracker_inv_step. }
  intros cid. split; [apply Hc|apply Hx].
Qed.

(** The popular blocks are exactly the CIDs whose counter has reached the
    threshold, each once. *)
Theorem PopularBlocks_spec (o : order) (rt : ReplicationTracker) :
  NoDup (PopularBlocks o rt) ∧
  (∀ cid, cid ∈ PopularBlocks o rt ↔ ∃ n, fetchCount rt !! cid = Some n ∧ threshold rt ≤ n) ∧
  st_PopularBlocks (Stats o rt) = zlen (PopularBlocks o rt).
Proof.
  split_and!.
  - unfold PopularBlocks. apply NoDup_fmap_2_strong.
    + intros [k1 n1] [k2 n2] [H1 _]%elem_of_filter_bool [H2 _]%elem_of_filter_bool Heq.
      simpl in Heq. subst. apply elem_of_range_entries in H1, H2. congruence.
    + apply NoDup_filter_bool. unfold range_entries. rewrite iter_perm. apply NoDup_map_to_list.
  - intros cid. unfold PopularBlocks. rewrite list_elem_of_fmap. split.
    + intros ([k n] & -> & [Hin Hn]%elem_of_filter_bool). apply elem_of_range_entries in Hin.
      exists n. zbool. done.
    + intros (n & Hin & Hn). exists (cid, n). split; [done|]. apply elem_of_filter_bool.
      split; [by apply elem_of_range_entries|]. by apply Z.leb_le.
  - unfold Stats, PopularBlocks. simpl. by rewrite length_fmap.
Qed.

(** ** Concrete inputs *)

(** Two calls that both take the counter before either increments it. *)
Lemma RecordFetch_exactly_once_witness :
  let calls := [Returned "c" true; Returned "c" false] in
  count_of {| fetchCount := {["c" := 2]}; threshold := 2 |} "c" = zsum (returned "c") calls ∧
  zsum (crossed "c") calls = (if 2 <=? zsum (returned "c") calls then 1 else 0).
Proof.
  apply (RecordFetch_exactly_once 2 ["c"; "c"]); [lia|simpl; lia|].
  eapply rtc_l; [by apply (step_acquire _ _ 0 "c")|].
  eapply rtc_l; [by apply (step_acquire _ _ 1 "c")|].
  eapply rtc_l; [by apply (step_increment _ _ 1 "c")|].
  eapply rtc_l; [by apply (step_increment _ _ 0 "c")|].
  apply rtc_refl.
Defined.
