(* ===== verification/Erasure.v ===== *)
(** * Erasure coding ([internal/erasure/erasure.go])

    Reed-Solomon coding is the third-party package klauspost/reedsolomon: the
    interface [ReedSolomon], with its documented contract [ReedSolomonLaws].
    A missing shard is a nil (or empty) slice. *)

From S2P Require Import Prelude Float64 Chunker.

Class ReedSolomon := {
  rs_New : Z → Z → option error;
  rs_Split : Z → Z → bytes → outcome (list bytes);
  rs_Encode : Z → Z → list bytes → outcome (list bytes);
  rs_Reconstruct : Z → Z → list (option bytes) → outcome (list bytes);
  rs_Verify : Z → Z → list bytes → outcome bool
}.

(** A selection of the shards of [cw]: every slot is empty or holds the shard
    of [cw] at its place. *)
Definition selection (cw : list bytes) (sel : list (option bytes)) : Prop :=
  length sel = length cw ∧ ∀ i b, sel !! i = Some (Some b) → cw !! i = Some b.

Definition present (sel : list (option bytes)) : Z :=
  zsum (λ o, match o with Some _ => 1 | None => 0 end) sel.

(** The package's contract, for shard counts that [New] accepts: [Split] pads
    the data with zeros to [d] equal non-empty shards and adds [p] more;
    [Encode] fills the last [p]; the result verifies; any [d] shards restore
    it, fewer are an error. *)
Class ReedSolomonLaws (R : ReedSolomon) : Prop := {
  Split_shards : ∀ d p data, rs_New d p = None → data ≠ [] →
    ∃ shards pad, rs_Split d p data = Ok shards ∧ 0 < d ∧ 0 ≤ p ∧ zlen shards = d + p ∧
      concat (take (Z.to_nat d) shards) = data ++ replicate pad Init.Byte.x00;
  Split_empty : ∀ d p, rs_New d p = None → is_ok (rs_Split d p []) = false;
  Encode_shards : ∀ d p data shards, rs_New d p = None → rs_Split d p data = Ok shards →
    ∃ cw, rs_Encode d p shards = Ok cw ∧ length cw = length shards ∧
      take (Z.to_nat d) cw = take (Z.to_nat d) shards ∧ Forall (λ s, s ≠ []) cw ∧
      rs_Verify d p cw = Ok true ∧
      ∀ sel, selection cw sel → d ≤ present sel → rs_Reconstruct d p sel = Ok cw;
  Reconstruct_too_few : ∀ d p sel, rs_New d p = None → present sel < d →
    is_ok (rs_Reconstruct d p sel) = false
}.

Record Fragment := {
  frag_CID : string;
  ParentCID : string;
  Index : Z;
  Total : Z;
  DataCount : Z;
  IsParity : bool;
  frag_Data : bytes
}.

Definition zero_fragment : Fragment :=
  {| frag_CID := ""; ParentCID := ""; Index := 0; Total := 0; DataCount := 0; IsParity := false;
     frag_Data := [] |}.

Section erasure.
Context `{RS : ReedSolomon}.

(** [computeCID], the package's own copy. *)
Definition computeCID (data : bytes) : string := ComputeCID data.

Definition fragment_of (parentCID : string) (dataShards total : Z) (i : nat) (shard : bytes) : Fragment :=
  {| frag_CID := computeCID shard; ParentCID := parentCID; Index := Z.of_nat i; Total := total;
     DataCount := dataShards; IsParity := dataShards <=? Z.of_nat i; frag_Data := shard |}.

Definition Encode (data : bytes) (parentCID : string) (dataShards parityShards : Z)
  : outcome (list Fragment) :=
  match rs_New dataShards parityShards with
  | Some e => Err (Wrapf "create encoder" e)
  | None =>
      shards ← wrap_err "split data" (rs_Split dataShards parityShards data);
      shards ← wrap_err "encode parity" (rs_Encode dataShards parityShards shards);
      let total := dataShards + parityShards in
      if total <? zlen shards then Panic "index out of range"
      else mret (imap (fragment_of parentCID dataShards total) shards ++
                 replicate (Z.to_nat (total - zlen shards)) zero_fragment)
  end.

Definition nonempty (b : bytes) : option bytes := match b with [] => None | _ => Some b end.

(** [shards[f.Index] = f.Data] for every fragment whose index is in range. *)
Definition place (shards : list (option bytes)) (f : Fragment) : list (option bytes) :=
  if (0 <=? Index f) && (Index f <? zlen shards)
  then <[Z.to_nat (Index f) := nonempty (frag_Data f)]> shards
  else shards.

Definition too_few_fragments (need got : Z) : error :=
  Errorf ("need at least " +:+ pretty need +:+ " fragments, got " +:+ pretty got).

Definition Decode (fragments : list Fragment) (originalSize dataShards parityShards : Z)
  : outcome bytes :=
  if zlen fragments <? dataShards then Err (too_few_fragments dataShards (zlen fragments))
  else match rs_New dataShards parityShards with
  | Some e => Err (Wrapf "create decoder" e)
  | None =>
      let total := dataShards + parityShards in
      let shards := foldl place (replicate (Z.to_nat total) None) fragments in
      shards ← wrap_err "reconstruct" (rs_Reconstruct dataShards parityShards shards);
      ok ← wrap_err "verify" (rs_Verify dataShards parityShards shards);
      if (ok : bool) then
        let result := concat (take (Z.to_nat dataShards) shards) in
        mret (if (0 <? originalSize) && (originalSize <? zlen result)
              then take (Z.to_nat originalSize) result else result)
      else Err (Errorf "verification failed after reconstruction")
  end.

Definition CanReconstruct (fragments : list Fragment) (dataShards : Z) : bool :=
  dataShards <=? zlen fragments.

Definition StorageOverhead (dataShards parityShards : Z) : float64 :=
  fdiv (of_int (dataShards + parityShards)) (of_int dataShards).

(** ** Lemmas *)

Lemma length_place shards f : length (place shards f) = length shards.
Proof. unfold place. case_if; [apply length_insert|done]. Qed.

Lemma length_foldl_place fs shards : length (foldl place shards fs) = length shards.
Proof. revert shards. induction fs as [|f fs IH]; intros s; simpl; [done|]. by rewrite IH, length_place. Qed.

(** Fragments of a codeword, in any order and number. *)
Definition fragments_of (cw : list bytes) (fs : list Fragment) : Prop :=
  Forall (λ f, ∃ i s, Index f = Z.of_nat i ∧ cw !! i = Some s ∧ frag_Data f = s) fs.

Lemma place_selection cw shards f :
  Forall (λ s, s ≠ []) cw → selection cw shards → fragments_of cw [f] →
  selection cw (place shards f) ∧
  ∀ i, is_Some (place shards f !! i ≫= id) ↔
       is_Some (shards !! i ≫= id) ∨ Index f = Z.of_nat i.
Proof.
  intros Hne [Hl Hsel] Hf. apply Forall_singleton in Hf as (j & s & Hj & Hs & Hd).
  pose proof (lookup_lt_Some _ _ _ Hs) as Hlt.
  assert (s ≠ []) as Hs0 by (rewrite Forall_forall in Hne; by eapply Hne, list_elem_of_lookup_2).
  unfold place. rewrite Hj, Hl, (proj2 (Z.leb_le _ _)), (proj2 (Z.ltb_lt _ _)) by lia. simpl.
  rewrite Nat2Z.id, Hd.
  assert (nonempty s = Some s) as -> by (by destruct s).
  split; [split; [by rewrite length_insert|]|].
  - intros i b Hi. destruct (decide (i = j)) as [->|Hij].
    + rewrite list_lookup_insert_eq in Hi by lia. congruence.
    + rewrite list_lookup_insert_ne in Hi by done. by apply Hsel.
  - intros i. destruct (decide (i = j)) as [->|Hij].
    + rewrite list_lookup_insert_eq by lia. simpl. split; [by right|]. intros _. by eexists.
    + rewrite list_lookup_insert_ne by done. split; [by left|].
      intros [?|?%Nat2Z.inj]; [done|congruence].
Qed.

Lemma foldl_place_selection cw fs shards :
  Forall (λ s, s ≠ []) cw → selection cw shards → fragments_of cw fs →
  selection cw (foldl place shards fs) ∧
  ∀ i, is_Some (foldl place shards fs !! i ≫= id) ↔
       is_Some (shards !! i ≫= id) ∨ Z.of_nat i ∈ Index <$> fs.
Proof.
  intros Hne Hsel Hfs. revert shards Hsel. induction fs as [|f fs IH]; intros shards Hsel; simpl.
  { split; [done|]. intros i. rewrite elem_of_nil. tauto. }
  apply Forall_cons in Hfs as [Hf Hfs].
  destruct (place_selection cw shards f Hne Hsel) as [Hsel' Hp]; [by apply Forall_singleton|].
  destruct (IH Hfs _ Hsel') as [Hsel'' Hp'']. split; [done|]. intros i.
  rewrite Hp'', Hp, elem_of_cons. naive_solver.
Qed.

Lemma selection_empty cw : selection cw (replicate (length cw) None).
Proof. split; [apply length_replicate|]. intros i b [? _]%lookup_replicate. done. Qed.

(** Distinct indices count at least as many present shards. *)
Lemma present_NoDup (sel : list (option bytes)) (idx : list nat) :
  NoDup idx → (∀ i, i ∈ idx → is_Some (sel !! i ≫= id)) → zlen idx ≤ present sel.
Proof.
  revert idx. induction sel as [|o sel IH]; intros idx Hnd Hin.
  { destruct idx as [|i idx]; [done|]. destruct (Hin i) as [? H]; [by left|]. done. }
  unfold present. rewrite zsum_cons. fold (present sel).
  set (idx' := pred <$> List.filter (λ i, negb (Nat.eqb i 0)) idx).
  assert (zlen idx' ≤ present sel) as Hle.
  { apply IH.
    - apply NoDup_fmap_2_strong; [|by apply NoDup_filter_bool].
      intros x y [_ Hx]%elem_of_filter_bool [_ Hy]%elem_of_filter_bool Heq.
      apply negb_true_iff, Nat.eqb_neq in Hx, Hy. lia.
    - intros i (j & -> & [Hj Hj0]%elem_of_filter_bool)%list_elem_of_fmap.
      apply negb_true_iff, Nat.eqb_neq in Hj0. specialize (Hin j Hj).
      by destruct j. }
  unfold idx' in Hle. rewrite length_fmap in Hle.
  assert (zlen idx ≤ zlen (List.filter (λ i, negb (Nat.eqb i 0)) idx) +
    match o with Some _ => 1 | None => 0 end) as Hlen; [|lia].
  clear Hle IH idx'. assert (∀ l : list nat, NoDup l → (0%nat ∉ l → zlen l = zlen (List.filter (λ i, negb (Nat.eqb i 0)) l)) ∧
    zlen l ≤ zlen (List.filter (λ i, negb (Nat.eqb i 0)) l) + 1) as Hcount.
  { intros l. induction 1 as [|x l Hx _ [IH1 IH2]]; [done|]. destruct x as [|x]; simpl.
    - split; [intros Hn; destruct Hn; by left|]. rewrite <-(IH1 Hx). lia.
    - split; [|lia]. intros Hn. assert (0%nat ∉ l) as Hn' by (intros ?; apply Hn; by right).
      specialize (IH1 Hn'). lia. }
  destruct (Hcount idx Hnd) as [H1 H2]. destruct o as [b|]; [done|].
  rewrite <-H1; [lia|]. intros H0. specialize (Hin 0%nat H0). by destruct Hin.
Qed.

Section laws.
Context {RSL : ReedSolomonLaws RS}.

Lemma Encode_inv data parentCID d p fs :
  Encode data parentCID d p = Ok fs →
  rs_New d p = None ∧ data ≠ [] ∧ ∃ shards cw pad,
    fs = imap (fragment_of parentCID d (d + p)) cw ∧ zlen cw = d + p ∧ 0 < d ∧ 0 ≤ p ∧
    concat (take (Z.to_nat d) cw) = data ++ replicate pad Init.Byte.x00 ∧
    rs_Split d p data = Ok shards ∧ rs_Encode d p shards = Ok cw.
Proof.
  unfold Encode. destruct (rs_New d p) as [e|] eqn:Hn; [done|].
  destruct (decide (data = [])) as [->|Hne].
  { pose proof (Split_empty d p Hn). destruct (rs_Split d p []); done. }
  destruct (Split_shards d p data Hn Hne) as (shards & pad & Hs & Hd & Hp & Hl & Hc).
  rewrite Hs. simpl. destruct (Encode_shards d p data shards Hn Hs) as (cw & He & Hlc & Ht & _).
  rewrite He. simpl. rewrite (proj2 (Z.ltb_ge _ _)) by lia.
  replace (d + p - zlen cw) with 0 by lia. simpl. rewrite app_nil_r. intros [= <-].
  split_and!; [done|done|]. exists shards, cw, pad. split_and!; try done; [lia|by rewrite Ht].
Qed.

(** Encoding non-empty data with accepted shard counts gives one fragment
    per shard, numbered in order, each carrying its own hash, the parent, the
    totals and the parity flag of its position; empty data is refused. *)
Theorem Encode_fragments (data : bytes) (parentCID : string) (d p : Z) :
  rs_New d p = None →
  match Encode data parentCID d p with
  | Ok fs => data ≠ [] ∧ zlen fs = d + p ∧
      ∀ i f, fs !! i = Some f →
        Index f = Z.of_nat i ∧ Total f = d + p ∧ DataCount f = d ∧ ParentCID f = parentCID ∧
        IsParity f = (d <=? Z.of_nat i) ∧ frag_CID f = ComputeCID (frag_Data f)
  | _ => data = []
  end.
Proof.
  intros Hn. destruct (Encode data parentCID d p) as [fs|e|w] eqn:E.
  - apply Encode_inv in E as (_ & Hne & shards & cw & pad & -> & Hl & _).
    split_and!; [done|by rewrite length_imap|]. intros i f. rewrite list_lookup_imap.
    destruct (cw !! i); [|done]. by intros [= <-].
  - destruct (decide (data = [])) as [|Hne]; [done|]. exfalso. revert E. unfold Encode. rewrite Hn.
    destruct (Split_shards d p data Hn Hne) as (shards & pad & Hs & Hd & Hp & Hl & Hc).
    rewrite Hs. simpl. destruct (Encode_shards d p data shards Hn Hs) as (cw & -> & Hlc & _).
    simpl. by rewrite (proj2 (Z.ltb_ge _ _)) by lia.
  - destruct (decide (data = [])) as [|Hne]; [done|]. exfalso. revert E. unfold Encode. rewrite Hn.
    destruct (Split_shards d p data Hn Hne) as (shards & pad & Hs & Hd & Hp & Hl & Hc).
    rewrite Hs. simpl. destruct (Encode_shards d p data shards Hn Hs) as (cw & -> & Hlc & _).
    simpl. by rewrite (proj2 (Z.ltb_ge _ _)) by lia.
Qed.

(** What decoding keeps of the padded data. *)
Definition trim (n : Z) (b : bytes) : bytes :=
  if (0 <? n) && (n <? zlen b) then take (Z.to_nat n) b else b.

Lemma trim_padding data pad : data ≠ [] → trim (zlen data) (data ++ replicate pad Init.Byte.x00) = data.
Proof.
  intros Hne. unfold trim. assert (0 < zlen data) by (destruct data; [done|simpl; lia]).
  rewrite (proj2 (Z.ltb_lt _ _)) by done. rewrite length_app, length_replicate. simpl.
  destruct (zlen data <? Z.of_nat (length data + pad)) eqn:E1; zbool.
  - by rewrite Nat2Z.id, take_app_length.
  - replace pad with O by lia. by rewrite app_nil_r.
Qed.

(** Fragments that cover [d] indices give back the padded data. *)
Lemma Decode_cover (data : bytes) (parentCID : string) (d p : Z) (fs sel : list Fragment)
    (idx : list nat) :
  Encode data parentCID d p = Ok fs → Forall (λ f, f ∈ fs) sel →
  NoDup idx → d ≤ zlen idx → (∀ i, i ∈ idx → Z.of_nat i ∈ Index <$> sel) →
  data ≠ [] ∧ ∃ pad, ∀ n, Decode sel n d p = Ok (trim n (data ++ replicate pad Init.Byte.x00)).
Proof.
  intros E Hsub Hnd Hidx Hcov.
  destruct (Encode_inv _ _ _ _ _ E) as (Hn & Hne & shards & cw & pad & -> & Hl & Hd & Hp & Hc & Hs & He).
  destruct (Encode_shards d p data shards Hn Hs) as (cw' & He' & _ & _ & Hnz & Hv & Hrec).
  rewrite He in He'. injection He' as <-.
  assert (fragments_of cw sel) as Hfs.
  { eapply Forall_impl; [exact Hsub|]. intros f (i & s & -> & Hi)%elem_of_lookup_imap_1.
    by exists i, s. }
  destruct (foldl_place_selection cw sel (replicate (length cw) None) Hnz (selection_empty cw) Hfs)
    as [Hsel Hpres].
  assert (Z.to_nat (d + p) = length cw) as Htot by lia.
  assert (d ≤ present (foldl place (replicate (length cw) None) sel)) as Hge.
  { etrans; [exact Hidx|]. apply present_NoDup; [done|]. intros i Hi. apply Hpres. right. by apply Hcov. }
  assert (d ≤ zlen sel) as Hlen.
  { etrans; [exact Hidx|]. assert (length idx ≤ length (Index <$> sel))%nat as Hle; [|by rewrite length_fmap in Hle; lia].
    rewrite <-(length_fmap Z.of_nat idx).
    apply submseteq_length, NoDup_submseteq; [by apply NoDup_fmap_2; [apply _|]|].
    intros z (i & -> & Hi)%list_elem_of_fmap. by apply Hcov. }
  split; [done|]. exists pad. intros n. unfold Decode. rewrite (proj2 (Z.ltb_ge _ _)) by done.
  rewrite Hn. cbv zeta. rewrite Htot, (Hrec _ Hsel Hge). simpl. rewrite Hv. simpl. by rewrite Hc.
Qed.

(** C25: any fragments of an encoded block that cover at least [d] distinct
    indices, in any order and with repetitions, decode to the block when its
    size is given; without the size the padding of the last shard is left
    in. *)
Theorem Decode_Encode (data : bytes) (parentCID : string) (d p : Z) (fs sel : list Fragment)
    (idx : list nat) :
  Encode data parentCID d p = Ok fs → Forall (λ f, f ∈ fs) sel →
  NoDup idx → d ≤ zlen idx → (∀ i, i ∈ idx → Z.of_nat i ∈ Index <$> sel) →
  Decode sel (zlen data) d p = Ok data ∧
  ∃ pad, Decode sel 0 d p = Ok (data ++ replicate pad Init.Byte.x00).
Proof.
  intros E Hsub Hnd Hidx Hcov.
  destruct (Decode_cover data parentCID d p fs sel idx) as (Hne & pad & HD); [done..|].
  split; [by rewrite HD, trim_padding|]. exists pad. by rewrite HD.
Qed.

(** Fewer fragments than data shards never decode; neither do enough
    fragments that repeat indices so that fewer than [d] shards are present,
    although [CanReconstruct] accepts them. *)
Theorem Decode_insufficient (fs : list Fragment) (n d p : Z) :
  (zlen fs < d → Decode fs n d p = Err (too_few_fragments d (zlen fs)) ∧ CanReconstruct fs d = false) ∧
  (rs_New d p = None → d ≤ zlen fs →
   present (foldl place (replicate (Z.to_nat (d + p)) None) fs) < d →
   is_ok (Decode fs n d p) = false ∧ CanReconstruct fs d = true).
Proof.
  split.
  - intros H. unfold Decode, CanReconstruct. rewrite (proj2 (Z.ltb_lt _ _)) by done.
    split; [done|by apply Z.leb_gt].
  - intros Hn Hge Hp. split; [|by apply Z.leb_le]. unfold Decode.
    rewrite (proj2 (Z.ltb_ge _ _)) by done. rewrite Hn.
    pose proof (Reconstruct_too_few d p _ Hn Hp) as Hr. cbv zeta.
    by destruct (rs_Reconstruct d p _).
Qed.

End laws.
End erasure.

(** ** Concrete inputs *)

Module Examples.

(** The repetition code: one data shard, copied [p] times. *)
Definition first_present (sel : list (option bytes)) : option bytes :=
  foldr (λ o acc, match o with Some b => Some b | None => acc end) None sel.

#[export] Instance repetition : ReedSolomon :=
  {| rs_New := λ d p, if (d =? 1) && (0 <=? p) then None else Some (Errorf "invalid shard number");
     rs_Split := λ d p data, match data with
       | [] => Err (Errorf "not enough data to fill the number of requested shards")
       | _ => Ok (data :: replicate (Z.to_nat p) []) end;
     rs_Encode := λ d p shards, match shards with
       | [] => Err (Errorf "no shard data")
       | s :: _ => Ok (replicate (length shards) s) end;
     rs_Reconstruct := λ d p sel, match first_present sel with
       | Some s => Ok (replicate (length sel) s)
       | None => Err (Errorf "too few shards given") end;
     rs_Verify := λ d p shards, Ok (match shards with
       | [] => true | s :: l => forallb (λ t, bool_decide (t = s)) l end) |}.

Lemma first_present_Some sel : 1 ≤ present sel → is_Some (first_present sel).
Proof.
  unfold present. induction sel as [|[b|] sel IH]; simpl; rewrite ?zsum_nil, ?zsum_cons; [lia|by eexists|].
  intros. apply IH. lia.
Qed.

Lemma first_present_elem sel s : first_present sel = Some s → Some s ∈ sel.
Proof.
  induction sel as [|[b|] sel IH]; simpl; [done| |].
  - intros [= ->]. by left.
  - intros H. right. by apply IH.
Qed.

#[export] Instance repetition_laws : ReedSolomonLaws repetition.
Proof.
  assert (∀ d p, rs_New d p = None → d = 1 ∧ 0 ≤ p) as Hnew.
  { intros d p. simpl. case_if; [|done]. by zbool. }
  split.
  - intros d p data [-> Hp]%Hnew Hne. exists (data :: replicate (Z.to_nat p) []), O.
    split_and!; [by destruct data|lia|done|rewrite length_cons, length_replicate; lia|].
    reflexivity.
  - done.
  - intros d p data shards [-> Hp]%Hnew Hs. simpl in Hs. destruct data as [|b data]; [done|].
    injection Hs as <-. set (data' := b :: data). exists (replicate (S (Z.to_nat p)) data').
    cbn [rs_Encode rs_Verify rs_Reconstruct repetition]. rewrite length_cons, !length_replicate.
    split_and!; [done|done|by destruct (Z.to_nat p)| | |].
    + apply Forall_replicate. done.
    + f_equal. simpl. apply forallb_forall. intros t Ht. apply bool_decide_eq_true.
      by apply list_elem_of_In, list_elem_of_lookup in Ht as (i & [-> _]%lookup_replicate).
    + intros sel [Hl Hsel] H1. destruct (first_present_Some sel H1) as [s Hs]. rewrite Hs.
      rewrite Hl, length_replicate. f_equal. f_equal.
      apply first_present_elem, list_elem_of_lookup in Hs as [i Hi].
      by apply Hsel, lookup_replicate in Hi as [-> _].
  - intros d p sel [-> Hp]%Hnew Hlt. simpl.
    assert (first_present sel = None) as ->; [|done].
    destruct (first_present sel) as [s|] eqn:E; [|done]. exfalso.
    apply first_present_elem in E. revert Hlt. apply Z.le_ngt. clear Hnew Hp. unfold present.
    induction sel as [|o sel IH]; [by apply not_elem_of_nil in E|]. rewrite zsum_cons.
    assert (0 ≤ zsum (λ o : option bytes, match o with Some _ => 1 | None => 0 end) sel).
    { apply zsum_nonneg, Forall_forall. intros [] _; lia. }
    apply elem_of_cons in E as [<-|E]; [lia|]. specialize (IH E). destruct o; lia.
Qed.

End Examples.

Section witnesses.
Import Examples.

Definition sample : bytes := to_bytes "content".
Definition sample_fragments : list Fragment := imap (fragment_of "parent" 1 3) (replicate 3 sample).

Lemma Encode_fragments_witness :
  match Encode sample "parent" 1 2 with
  | Ok fs => sample ≠ [] ∧ zlen fs = 1 + 2 ∧
      ∀ i f, fs !! i = Some f →
        Index f = Z.of_nat i ∧ Total f = 1 + 2 ∧ DataCount f = 1 ∧ ParentCID f = "parent" ∧
        IsParity f = (1 <=? Z.of_nat i) ∧ frag_CID f = ComputeCID (frag_Data f)
  | _ => sample = []
  end.
Proof. apply (Encode_fragments sample "parent" 1 2). reflexivity. Defined.

(** The last of the three fragments alone restores the content. *)
Lemma Decode_Encode_witness :
  let sel := drop 2 sample_fragments in
  Decode sel (zlen sample) 1 2 = Ok sample ∧
  ∃ pad, Decode sel 0 1 2 = Ok (sample ++ replicate pad Init.Byte.x00).
Proof.
  apply (Decode_Encode sample "parent" 1 2 sample_fragments (drop 2 sample_fragments) [2%nat]).
  - reflexivity.
  - apply Forall_forall. intros f Hf. rewrite <-(take_drop 2 sample_fragments). apply elem_of_app. by right.
  - apply NoDup_singleton.
  - done.
  - intros i ->%list_elem_of_singleton. simpl. by left.
Defined.

Lemma Decode_insufficient_witness :
  (zlen (@nil Fragment) < 1 → Decode [] 7 1 2 = Err (too_few_fragments 1 0) ∧ CanReconstruct [] 1 = false) ∧
  (rs_New 1 2 = None → 1 ≤ 0 →
   present (foldl place (replicate (Z.to_nat (1 + 2)) None) []) < 1 →
   is_ok (Decode [] 7 1 2) = false ∧ CanReconstruct [] 1 = true).
Proof. apply (Decode_insufficient [] 7 1 2). Defined.

End witnesses.
