(* ===== verification/BlockTransfer.v ===== *)
(** * Block transfer and block push ([internal/protocol/blocktransfer.go])

    A provider serves blocks from its cache and its store; a client accepts a
    block only if its hash is the requested identifier.  Pushing is the same
    exchange in the other direction. *)

From Stdlib Require Import Init.Byte.
From S2P Require Import Prelude Stream Probe Sha256 Chunker Lru Store.

(** The state a handler works on.  The cache, when present, asks the store
    which identifiers are pinned. *)
Record Serving := {
  sv_store : Store;
  sv_disk : Disk;
  sv_cache : option LRUCache
}.

Definition set_cache (st : Serving) (c : LRUCache) : Serving :=
  {| sv_store := sv_store st; sv_disk := sv_disk st; sv_cache := Some c |}.
Definition set_disk (st : Serving) (d : Disk) : Serving :=
  {| sv_store := sv_store st; sv_disk := d; sv_cache := sv_cache st |}.

(** [if h.Cache != nil { h.Cache.Put(b) }]; [None]: the eviction loop does not
    end within [fuel] iterations. *)
Definition cache_put (fuel : nat) (st : Serving) (b : Block) : option Serving :=
  match sv_cache st with
  | None => Some st
  | Some c => set_cache st <$> Lru.Put (IsPinned (sv_store st)) fuel c b
  end.

(** ** Requests *)

Definition maxCIDLength : Z := 1024.

(** [2B length][CID], as both handlers read it. *)
Definition read_cid : Stream string :=
  cidLen ← Read_be 2;
  if maxCIDLength <? cidLen then stream_fail (Errorf "CID too long")
  else b ← Read (Z.to_nat cidLen); mret (to_string b).

Definition write_cid (cid : string) : Stream unit :=
  _ ← or_wrap "write CID length" (Write_be 2 (zlen (to_bytes cid)));
  or_wrap "write CID" (Write (to_bytes cid)).

(** ** Serving a block *)

(** The cache first, then the disk. *)
Definition lookupBlock (f : fault) (st : Serving) (cid : string) : option Block * Serving :=
  let from_disk st := match Store.Get f (sv_store st) (sv_disk st) cid with
                      | Ok b => (Some b, st)
                      | _ => (None, st)
                      end in
  match sv_cache st with
  | None => from_disk st
  | Some c => match Lru.Get c cid with
              | (Some b, c') => (Some b, set_cache st c')
              | (None, c') => from_disk (set_cache st c')
              end
  end.

Definition not_found_message (cid : string) : bytes := to_bytes ("block not found: " +:+ cid).

Definition respond_not_found (cid : string) : Stream unit :=
  _ ← ignore (Write [x00]);
  _ ← ignore (Write_be 2 (zlen (not_found_message cid)));
  ignore (Write (not_found_message cid)).

Definition respond_found (b : Block) : Stream unit :=
  _ ← ignore (Write [x01]);
  _ ← ignore (Write_be 4 (zlen (Data b)));
  ignore (Write (Data b)).

(** One accepted stream; [None] when the handler hangs in the cache. *)
Definition BlockTransferHandler_handleStream (fuel : nat) (f : fault) (st : Serving) (s : stream)
  : option (Serving * stream) :=
  match read_cid s with
  | (Ok cid, s1) =>
      match lookupBlock f st cid with
      | (None, st1) => Some (st1, snd (respond_not_found cid s1))
      | (Some b, st1) =>
          st2 ← cache_put fuel st1 b;
          Some (st2, snd (respond_found b s1))
      end
  | (_, s1) => Some (st, s1)
  end.

(** ** Fetching a block *)

Definition cid_mismatch (want got : string) : error :=
  Errorf ("CID mismatch: expected " +:+ want +:+ ", got " +:+ got).

(** The client's half after its request. *)
Definition read_response (cid : string) : Stream Block :=
  status ← or_wrap "read status" (Read 1);
  if decide (status = [x00]) then
    '(l, e) ← Read_partial 2;
    let errLen := match e with None => be_get l | Some _ => 0 end in
    '(msg, _) ← Read_partial (Z.to_nat errLen);
    let buf := msg ++ replicate (Z.to_nat errLen - length msg) x00 in
    stream_fail (Errorf ("block not found: " +:+ to_string buf))
  else
    dataLen ← or_wrap "read data length" (Read_be 4);
    data ← or_wrap "read data" (Read (Z.to_nat dataLen));
    if decide (ComputeCID data = cid) then mret {| CID := cid; Data := data |}
    else stream_fail (cid_mismatch cid (ComputeCID data)).

Definition fetch_exchange (cid : string) : Stream Block :=
  _ ← write_cid cid;
  _ ← or_wrap "close write" CloseWrite;
  read_response cid.

(** Only the opening of the stream has a deadline: a peer that accepts it and
    stays silent is waited for. *)
Definition FetchBlock (e : stream_env) (cid : string) : blocking Block :=
  with_open_stream "open stream" e (fetch_exchange cid).

(** ** Pushing a block *)

Definition maxPushSize : Z := 16 * 1024 * 1024.

Definition read_push : Stream (string * bytes) :=
  cid ← read_cid;
  dataLen ← Read_be 4;
  if maxPushSize <? dataLen then stream_fail (Errorf "block too large")
  else data ← Read (Z.to_nat dataLen); mret (cid, data).

(** [fw]: the fault of writing a block to the store, whose error is dropped. *)
Definition BlockPushHandler_handleStream (fuel : nat) (fw : string → fault) (st : Serving) (s : stream)
  : option (Serving * stream) :=
  match read_push s with
  | (Ok (cid, data), s1) =>
      if decide (ComputeCID data = cid) then
        let b := {| CID := cid; Data := data |} in
        let '(_, d') := Store.Put (fw cid) (sv_store st) (sv_disk st) b in
        st2 ← cache_put fuel (set_disk st d') b;
        Some (st2, snd (ignore (Write [x01]) s1))
      else Some (st, snd (ignore (Write [x00]) s1))
  | (_, s1) => Some (st, s1)
  end.

Definition rejected : error := Errorf "block rejected by peer".

Definition push_exchange (b : Block) : Stream unit :=
  _ ← write_cid (CID b);
  _ ← or_wrap "write data length" (Write_be 4 (zlen (Data b)));
  _ ← or_wrap "write data" (Write (Data b));
  _ ← or_wrap "close write" CloseWrite;
  ack ← or_wrap "read ack" (Read 1);
  if decide (ack = [x01]) then mret () else stream_fail rejected.

Definition PushBlock (e : stream_env) (b : Block) : blocking unit :=
  with_open_stream "open push stream" e (push_exchange b).

(** ** What the network adds: a handler behind a stream *)

(** The reply a client reads; a handler that hangs neither writes nor
    closes. *)
Definition reply_of (r : option (Serving * stream)) : reader :=
  match r with
  | Some (_, s) => {| rd_data := s_out s; rd_end := EOF |}
  | None => {| rd_data := []; rd_end := Stalled |}
  end.

Definition served_by (handle : stream → option (Serving * stream)) : stream_env :=
  {| env_open := None; env_write := no_faults; env_closeWrite := None;
     env_peer := λ sent, reply_of (handle (accept no_faults (NewReader sent))) |}.

(** ** Lemmas *)

Lemma env_served handle : (∀ k, env_write (served_by handle) k = None) ∧
  env_closeWrite (served_by handle) = None.
Proof. done. Qed.

(** A stream whose next bytes are [b]. *)
Definition holds (s : stream) (b : bytes) : Prop := inbox s = NewReader b.

Lemma Read_holds s b rest :
  holds s (b ++ rest) → Read (length b) s = (Ok b, set_in s (NewReader rest)).
Proof. intros H. by apply (Read_step _ _ b rest EOF). Qed.

Lemma Read_be_holds s n z rest :
  holds s (be_put n z ++ rest) → 0 ≤ z < 2 ^ (Z.of_nat n * 8) →
  Read_be n s = (Ok z, set_in s (NewReader rest)).
Proof.
  intros H Hz. rewrite (Read_be_step n s z rest EOF) by done. by rewrite Z.mod_small.
Qed.

Lemma holds_set_in s b : holds (set_in s (NewReader b)) b.
Proof. done. Qed.

Lemma read_cid_holds s cid rest :
  zlen (to_bytes cid) ≤ maxCIDLength →
  holds s (be_put 2 (zlen (to_bytes cid)) ++ to_bytes cid ++ rest) →
  read_cid s = (Ok cid, set_in (set_in s (NewReader (to_bytes cid ++ rest))) (NewReader rest)).
Proof.
  intros Hl H. unfold maxCIDLength in Hl. unfold read_cid.
  erewrite bind_step by (apply Read_be_holds; [exact H|lia]).
  unfold maxCIDLength. rewrite (proj2 (Z.ltb_ge _ _)) by done. rewrite Nat2Z.id.
  erewrite bind_step by apply Read_holds, holds_set_in. by rewrite to_string_to_bytes.
Qed.

(** The writes of a response that nothing disturbs. *)
Lemma ignore_Write s b :
  env_write (s_env s) (s_writes s) = None → ignore (Write b) s = (Ok (), add_out s b).
Proof. intros H. unfold ignore. by rewrite Write_step. Qed.

Definition no_write_faults (s : stream) : Prop := ∀ k, env_write (s_env s) k = None.

Lemma respond_three s a b c :
  no_write_faults s →
  snd ((_ ← ignore (Write a); _ ← ignore (Write b); ignore (Write c)) s) =
  add_out (add_out (add_out s a) b) c.
Proof.
  intros H. erewrite bind_step by (apply ignore_Write, H).
  erewrite bind_step by (apply ignore_Write, H). by rewrite ignore_Write by apply H.
Qed.

Lemma write_cid_step s cid :
  no_write_faults s →
  write_cid cid s = (Ok (), add_out (add_out s (be_put 2 (zlen (to_bytes cid)))) (to_bytes cid)).
Proof.
  intros H. unfold write_cid, Write_be.
  erewrite bind_step by (apply or_wrap_step, Write_step, H).
  by apply or_wrap_step, Write_step, H.
Qed.

Lemma write_cid_no_panic cid : no_panic (write_cid cid).
Proof. unfold write_cid. auto with pathaware. Qed.
#[export] Hint Resolve write_cid_no_panic : pathaware.

Lemma PushBlock_no_panic e b w : PushBlock e b ≠ Some (Panic w).
Proof. apply with_open_stream_no_panic. unfold push_exchange. auto 20 with pathaware. Qed.

Lemma FetchBlock_no_panic e cid w : FetchBlock e cid ≠ Some (Panic w).
Proof.
  apply with_open_stream_no_panic. unfold fetch_exchange, read_response.
  do 3 (apply no_panic_bind; [auto with pathaware|intros ?]).
  apply no_panic_decide; [|auto 10 with pathaware].
  apply no_panic_bind; [auto with pathaware|intros []].
  apply no_panic_bind; [auto with pathaware|intros []]. auto with pathaware.
Qed.

(** ** Integrity against any peer *)

Lemma fetch_exchange_integrity cid s b s' :
  fetch_exchange cid s = (Ok b, s') → CID b = cid ∧ valid_block b.
Proof.
  intros (? & s1 & _ & H)%Stream_bind_Ok.
  apply Stream_bind_Ok in H as (? & s2 & _ & H).
  apply Stream_bind_Ok in H as (st & s3 & _ & H).
  case_decide.
  - apply Stream_bind_Ok in H as ([l e] & s4 & _ & H).
    by apply Stream_bind_Ok in H as ([msg ?] & s5 & _ & [=]).
  - apply Stream_bind_Ok in H as (n & s4 & _ & H).
    apply Stream_bind_Ok in H as (d & s5 & _ & H).
    case_decide as Hc; [|done]. injection H as <- _. split; [done|]. by unfold valid_block.
Qed.

(** C8: whatever the peer and the network do, a block that [FetchBlock]
    returns carries the requested identifier and hashes to it. *)
Theorem FetchBlock_integrity (e : stream_env) (cid : string) (b : Block) :
  FetchBlock e cid = Some (Ok b) → CID b = cid ∧ ComputeCID (Data b) = cid.
Proof.
  unfold FetchBlock, with_open_stream. destruct (env_open e); [done|].
  destruct (fetch_exchange cid (dial e)) as [r s'] eqn:E. destruct (s_hung s'); [done|]. intros [= ->].
  apply fetch_exchange_integrity in E as [H1 H2]. split; [done|]. by rewrite <-H2, <-H1.
Qed.

(** ** Client and handler together *)

Definition fetch_request (cid : string) : bytes := be_put 2 (zlen (to_bytes cid)) ++ to_bytes cid.

(** The handler's view of a request. *)
Lemma read_request cid :
  zlen (to_bytes cid) ≤ maxCIDLength →
  ∃ s, read_cid (accept no_faults (NewReader (fetch_request cid))) = (Ok cid, s) ∧
       s_out s = [] ∧ no_write_faults s.
Proof.
  intros Hlen. eexists. split_and!.
  - apply (read_cid_holds _ cid []); [done|]. rewrite app_nil_r. reflexivity.
  - done.
  - done.
Qed.

Lemma fetch_exchange_reply e cid reply :
  (∀ k, env_write e k = None) → env_closeWrite e = None →
  env_peer e (fetch_request cid) = NewReader reply →
  ∀ s, s_env s = e → s_out s = [] → s_in s = None →
  ∃ s1, no_write_faults s1 ∧ holds s1 reply ∧ s_hung s1 = s_hung s ∧
    fetch_exchange cid s = read_response cid s1.
Proof.
  intros Hw Hc Hp s He Ho Hi. unfold fetch_exchange.
  assert (no_write_faults s) as Hs by (intros k; by rewrite He).
  erewrite bind_step by by apply write_cid_step.
  set (s1 := add_out _ _).
  assert (CloseWrite s1 = (Ok (), s1)) as Hcl by (apply CloseWrite_step; simpl; by rewrite He).
  erewrite bind_step by (apply or_wrap_step; exact Hcl).
  exists s1. split_and!; [exact Hs| |done|done].
  unfold holds, inbox, s1. simpl. rewrite Hi, He, Ho. simpl. exact Hp.
Qed.

(** The two replies of the handler, as the client reads them. *)
Lemma read_response_found s b :
  valid_block b → zlen (Data b) < 2 ^ 32 →
  holds s ([x01] ++ be_put 4 (zlen (Data b)) ++ Data b) →
  fst (read_response (CID b) s) = Ok b.
Proof.
  intros Hv Hd Hh. unfold read_response.
  erewrite bind_step by (apply or_wrap_step, (Read_holds _ [x01]), Hh).
  rewrite decide_False by done.
  erewrite bind_step by (apply or_wrap_step, Read_be_holds; [apply holds_set_in|simpl; lia]).
  rewrite Nat2Z.id.
  erewrite bind_step.
  2: { apply or_wrap_step, (Read_holds _ (Data b) []). rewrite app_nil_r. apply holds_set_in. }
  rewrite decide_True by (by rewrite <-Hv). by destruct b.
Qed.

Lemma Read_partial_holds s k rest :
  holds s (k ++ rest) → Read_partial (length k) s = (Ok (k, None), set_in s (NewReader rest)).
Proof.
  intros Hk. unfold Read_partial. unfold holds in Hk. rewrite Hk. unfold NewReader.
  rewrite ReadFull_app, bool_decide_eq_false_2 by done. by rewrite orb_false_r.
Qed.

Lemma read_response_missing s cid m :
  zlen m < 2 ^ 16 → holds s ([x00] ++ be_put 2 (zlen m) ++ m) →
  fst (read_response cid s) = Err (Errorf ("block not found: " +:+ to_string m)).
Proof.
  intros Hm Hh. unfold read_response.
  erewrite bind_step by (apply or_wrap_step, (Read_holds _ [x00]), Hh).
  rewrite decide_True by done.
  erewrite bind_step.
  2: { rewrite <-(length_be_put 2 (zlen m)) at 1. apply Read_partial_holds, holds_set_in. }
  cbv beta iota zeta. rewrite be_get_put, (Z.mod_small (zlen m)), Nat2Z.id
    by (change (2 ^ (Z.of_nat 2 * 8)) with (2 ^ 16); lia).
  erewrite bind_step.
  2: { apply (Read_partial_holds _ m []). rewrite app_nil_r. apply holds_set_in. }
  cbv beta iota zeta. rewrite Nat.sub_diag. simpl replicate. by rewrite app_nil_r.
Qed.

(** What the handler writes for a request, by the result of its lookup. *)
Lemma handler_found fuel f st cid b :
  zlen (to_bytes cid) ≤ maxCIDLength → fst (lookupBlock f st cid) = Some b →
  is_Some (cache_put fuel (snd (lookupBlock f st cid)) b) →
  env_peer (served_by (BlockTransferHandler_handleStream fuel f st)) (fetch_request cid)
  = NewReader ([x01] ++ be_put 4 (zlen (Data b)) ++ Data b).
Proof.
  intros Hlen Hb [st2 Hput]. simpl. unfold BlockTransferHandler_handleStream.
  destruct (read_request cid Hlen) as (sr & -> & Hout & Hnf).
  destruct (lookupBlock f st cid) as [r st1]. simpl in Hb, Hput. subst r. rewrite Hput. simpl.
  unfold respond_found, Write_be. rewrite respond_three by done. simpl.
  rewrite Hout. unfold NewReader. by rewrite <-!app_assoc.
Qed.

Lemma handler_missing fuel f st cid :
  zlen (to_bytes cid) ≤ maxCIDLength → fst (lookupBlock f st cid) = None →
  env_peer (served_by (BlockTransferHandler_handleStream fuel f st)) (fetch_request cid)
  = NewReader ([x00] ++ be_put 2 (zlen (not_found_message cid)) ++ not_found_message cid).
Proof.
  intros Hlen Hnone. simpl. unfold BlockTransferHandler_handleStream.
  destruct (read_request cid Hlen) as (sr & -> & Hout & Hnf).
  destruct (lookupBlock f st cid) as [r st1]. simpl in Hnone. subst r. simpl.
  unfold respond_not_found, Write_be. rewrite respond_three by done. simpl.
  rewrite Hout. unfold NewReader. by rewrite <-!app_assoc.
Qed.

(** The reply is read to its end without waiting. *)
Lemma read_response_flows cid : keeps_flowing (read_response cid).
Proof.
  unfold read_response. apply flowing_bind; [auto with pathaware|intros ?].
  apply flowing_decide; [|auto 10 with pathaware].
  apply flowing_bind; [auto with pathaware|intros []].
  apply flowing_bind; [auto with pathaware|intros []]. auto with pathaware.
Qed.

Lemma holds_flows s b : s_hung s = false → holds s b → flows s.
Proof. intros Hh Hb. split; [done|]. by rewrite Hb. Qed.

(** A fetch over a stream that nothing disturbs. *)
Lemma FetchBlock_reply e cid reply :
  env_open e = None → (∀ k, env_write e k = None) → env_closeWrite e = None →
  env_peer e (fetch_request cid) = NewReader reply →
  ∃ s, holds s reply ∧ FetchBlock e cid = now (fst (read_response cid s)).
Proof.
  intros Ho Hw Hc Hp.
  destruct (fetch_exchange_reply e cid reply Hw Hc Hp (dial e)) as (s & _ & Hh & Hf & Heq); [done..|].
  exists s. split; [done|]. unfold FetchBlock, with_open_stream. rewrite Ho, Heq.
  destruct (read_response_flows cid s) as [Hn _]; [by eapply holds_flows|].
  destruct (read_response cid s) as [r s']. simpl in Hn. by rewrite Hn.
Qed.

(** Fetching from a provider whose handler runs: if the lookup finds a
    valid block under the identifier (of at most 1024 bytes, the data below
    4 GiB) and caching it returns, the client gets exactly this block; if the
    lookup finds nothing the client gets the handler's not-found message. *)
Theorem FetchBlock_served (fuel : nat) (f : fault) (st : Serving) (cid : string) :
  zlen (to_bytes cid) ≤ maxCIDLength →
  let e := served_by (BlockTransferHandler_handleStream fuel f st) in
  (∀ b, fst (lookupBlock f st cid) = Some b → CID b = cid → valid_block b →
     zlen (Data b) < 2 ^ 32 → is_Some (cache_put fuel (snd (lookupBlock f st cid)) b) →
     FetchBlock e cid = Some (Ok b)) ∧
  (fst (lookupBlock f st cid) = None →
     FetchBlock e cid = Some (Err (Errorf ("block not found: " +:+ "block not found: " +:+ cid)))).
Proof.
  intros Hlen e. split.
  - intros b Hb <- Hv Hd Hput.
    destruct (FetchBlock_reply e (CID b) _ eq_refl (λ _, eq_refl) eq_refl
      (handler_found fuel f st (CID b) b Hlen Hb Hput)) as (s & Hh & ->).
    unfold now. by rewrite read_response_found.
  - intros Hnone.
    destruct (FetchBlock_reply e cid _ eq_refl (λ _, eq_refl) eq_refl
      (handler_missing fuel f st cid Hlen Hnone)) as (s & Hh & ->).
    unfold now. rewrite (read_response_missing s cid _) with (2 := Hh).
    + unfold not_found_message. by rewrite to_string_to_bytes.
    + unfold not_found_message. rewrite to_bytes_app, length_app.
      unfold maxCIDLength in Hlen. simpl. lia.
Qed.

(** ** Pushing to a handler *)

Definition push_request (b : Block) : bytes :=
  be_put 2 (zlen (to_bytes (CID b))) ++ to_bytes (CID b) ++ be_put 4 (zlen (Data b)) ++ Data b.

Lemma read_push_request b :
  zlen (to_bytes (CID b)) ≤ maxCIDLength → zlen (Data b) ≤ maxPushSize →
  ∃ s, read_push (accept no_faults (NewReader (push_request b))) = (Ok (CID b, Data b), s) ∧
       s_out s = [] ∧ no_write_faults s.
Proof.
  intros Hc Hd. unfold maxPushSize in Hd. eexists. split_and!.
  - unfold read_push. erewrite bind_step by (apply (read_cid_holds _ (CID b)); [done|reflexivity]).
    erewrite bind_step by (apply Read_be_holds; [apply holds_set_in|simpl; lia]).
    unfold maxPushSize. rewrite (proj2 (Z.ltb_ge _ _)) by lia. rewrite Nat2Z.id.
    erewrite bind_step.
    2: { apply (Read_holds _ (Data b) []). rewrite app_nil_r. apply holds_set_in. }
    reflexivity.
  - done.
  - done.
Qed.

Lemma push_exchange_reply e b ack :
  env_open e = None → (∀ k, env_write e k = None) → env_closeWrite e = None →
  env_peer e (push_request b) = NewReader [ack] →
  PushBlock e b = now (if decide (ack = x01) then Ok () else Err rejected).
Proof.
  intros Ho Hw Hc Hp. unfold PushBlock, with_open_stream. rewrite Ho. unfold push_exchange, Write_be.
  erewrite bind_step by by apply write_cid_step.
  erewrite bind_step by (apply or_wrap_step, Write_step, Hw).
  erewrite bind_step by (apply or_wrap_step, Write_step, Hw).
  erewrite bind_step by (apply or_wrap_step, CloseWrite_step, Hc).
  erewrite bind_step.
  2: { apply or_wrap_step, (Read_holds _ [ack] []). unfold holds, inbox. simpl.
       rewrite <-!app_assoc. exact Hp. }
  destruct (decide (ack = x01)) as [->|Hne]; [by rewrite decide_True|].
  rewrite decide_False; [done|]. by intros [= ->].
Qed.

(** Pushing a block (identifier of at most 1024 bytes, data of at most
    16 MiB) to a node that runs the push handler: a block that does not hash
    to its identifier is rejected and changes nothing; a valid one is
    acknowledged once the handler has cached it, and with a working disk the
    receiver can read it back under its identifier. *)
Theorem PushBlock_served (fuel : nat) (fw : string → fault) (st : Serving) (b : Block) :
  zlen (to_bytes (CID b)) ≤ maxCIDLength → zlen (Data b) ≤ maxPushSize →
  let handle := BlockPushHandler_handleStream fuel fw st in
  let received := handle (accept no_faults (NewReader (push_request b))) in
  (¬ valid_block b →
     PushBlock (served_by handle) b = Some (Err rejected) ∧ ∃ s, received = Some (st, s)) ∧
  (valid_block b → ∀ st', fst <$> received = Some st' →
     PushBlock (served_by handle) b = Some (Ok ()) ∧
     (fw (CID b) = None → store_ok (sv_store st) (sv_disk st) →
        Store.Get None (sv_store st') (sv_disk st') (CID b) = Ok b)).
Proof.
  intros Hc Hd handle received.
  destruct (read_push_request b Hc Hd) as (sr & Hread & Hout & Hnf).
  assert (∀ ack, rd_data (reply_of received) = [ack] → rd_end (reply_of received) = EOF →
    PushBlock (served_by handle) b = now (if decide (ack = x01) then Ok () else Err rejected)) as Hpush.
  { intros ack H1 H2. apply push_exchange_reply; [done..|]. simpl. fold received.
    destruct (reply_of received). simpl in *. by subst. }
  unfold received, handle, BlockPushHandler_handleStream in *. rewrite Hread in Hpush |- *.
  split.
  - intros Hv. rewrite decide_False in Hpush |- * by (intros Heq; apply Hv; by symmetry).
    split; [|by eexists]. rewrite (Hpush x00); [done| |done].
    simpl. rewrite ignore_Write by done. simpl. by rewrite Hout.
  - intros Hv st'. rewrite decide_True in Hpush |- * by by symmetry.
    destruct (Store.Put (fw (CID b)) (sv_store st) (sv_disk st) {| CID := CID b; Data := Data b |})
      as [r d'] eqn:EP.
    destruct (cache_put fuel (set_disk st d') {| CID := CID b; Data := Data b |}) as [st2|] eqn:EC;
      [|done]. simpl. intros [= <-]. simpl in Hpush. split.
    + rewrite (Hpush x01); [done| |done]. rewrite ignore_Write by done. simpl. by rewrite Hout.
    + intros Hfw Hok. rewrite Hfw in EP.
      assert (no_slash (CID b)) as Hns by (rewrite Hv; apply ComputeCID_no_slash).
      pose proof (Put_Get_ok (sv_store st) (sv_disk st) b Hok Hns) as HPG.
      assert ({| CID := CID b; Data := Data b |} = b) as Hb by by destruct b.
      rewrite Hb in EP, EC. rewrite EP in HPG. destruct HPG as (_ & _ & Hget & _).
      assert (sv_store st2 = sv_store st ∧ sv_disk st2 = d') as [-> ->]; [|done].
      unfold cache_put in EC. simpl in EC. destruct (sv_cache st) as [c|]; simpl in EC.
      * destruct (Lru.Put _ _ _ _); [|done]. simpl in EC. by injection EC as <-.
      * by injection EC as <-.
Qed.

(** An acknowledgement does not mean that the block was stored: the
    handler drops the error of the write, so a peer whose disk refuses every
    write still acknowledges a valid push, with its disk unchanged. *)
Theorem PushBlock_ack_without_storing (fuel : nat) (err : error) (st : Serving) (b : Block) :
  zlen (to_bytes (CID b)) ≤ maxCIDLength → zlen (Data b) ≤ maxPushSize → valid_block b →
  sv_cache st = None →
  let fw := λ _, Some {| flt_err := err; flt_written := None |} in
  let handle := BlockPushHandler_handleStream fuel fw st in
  PushBlock (served_by handle) b = Some (Ok ()) ∧
  fst <$> handle (accept no_faults (NewReader (push_request b))) = Some st.
Proof.
  intros Hc Hd Hv Hcache fw handle.
  destruct (read_push_request b Hc Hd) as (sr & Hread & Hout & Hnf).
  assert (handle (accept no_faults (NewReader (push_request b))) =
    Some (st, snd (ignore (Write [x01]) sr))) as Hh.
  { unfold handle, BlockPushHandler_handleStream. rewrite Hread, decide_True by by symmetry.
    unfold Store.Put, WriteFile, fw. simpl. unfold cache_put. simpl. rewrite Hcache. simpl.
    by destruct st. }
  split; [|by rewrite Hh].
  rewrite (push_exchange_reply _ b x01); [done|done|done|done|].
  simpl. rewrite Hh. simpl. rewrite ignore_Write by done. simpl. by rewrite Hout.
Qed.

(** ** Concrete inputs *)

Section witnesses.
Import Store.Examples.

Definition abc : Block := Eval vm_compute in block_of (to_bytes "abc").

Lemma abc_valid : valid_block abc.
Proof. vm_compute. reflexivity. Qed.

(** A provider with an empty disk and "abc" in its cache. *)
Definition provider : Serving :=
  {| sv_store := store0; sv_disk := disk0;
     sv_cache := Lru.Put (λ _, false) 0 (NewLRUCache 1000) abc |}.

Lemma FetchBlock_served_witness :
  let e := served_by (BlockTransferHandler_handleStream 5 None provider) in
  (∀ b, fst (lookupBlock None provider (CID abc)) = Some b → CID b = CID abc → valid_block b →
     zlen (Data b) < 2 ^ 32 → is_Some (cache_put 5 (snd (lookupBlock None provider (CID abc))) b) →
     FetchBlock e (CID abc) = Some (Ok b)) ∧
  (fst (lookupBlock None provider (CID abc)) = None →
     FetchBlock e (CID abc) = Some (Err (Errorf ("block not found: " +:+ "block not found: " +:+ CID abc)))).
Proof. apply (FetchBlock_served 5 None provider (CID abc)). vm_compute. discriminate. Defined.

Lemma fetch_abc :
  FetchBlock (served_by (BlockTransferHandler_handleStream 5 None provider)) (CID abc) = Some (Ok abc).
Proof. vm_compute. reflexivity. Qed.

Lemma FetchBlock_integrity_witness : CID abc = CID abc ∧ ComputeCID (Data abc) = CID abc.
Proof. exact (FetchBlock_integrity _ (CID abc) abc fetch_abc). Defined.

Definition receiver : Serving := {| sv_store := store0; sv_disk := disk0; sv_cache := None |}.

Lemma PushBlock_served_witness :
  let handle := BlockPushHandler_handleStream 5 (λ _, None) receiver in
  let received := handle (accept no_faults (NewReader (push_request abc))) in
  (¬ valid_block abc →
     PushBlock (served_by handle) abc = Some (Err rejected) ∧ ∃ s, received = Some (receiver, s)) ∧
  (valid_block abc → ∀ st', fst <$> received = Some st' →
     PushBlock (served_by handle) abc = Some (Ok ()) ∧
     ((None : fault) = None → store_ok (sv_store receiver) (sv_disk receiver) →
        Store.Get None (sv_store st') (sv_disk st') (CID abc) = Ok abc)).
Proof. apply (PushBlock_served 5 (λ _, None) receiver abc); vm_compute; discriminate. Defined.

Lemma PushBlock_ack_without_storing_witness :
  let fw := λ _, Some {| flt_err := Errorf "no space left on device"; flt_written := None |} in
  let handle := BlockPushHandler_handleStream 5 fw receiver in
  PushBlock (served_by handle) abc = Some (Ok ()) ∧
  fst <$> handle (accept no_faults (NewReader (push_request abc))) = Some receiver.
Proof.
  apply (PushBlock_ack_without_storing 5 (Errorf "no space left on device") receiver abc);
    [vm_compute; discriminate|vm_compute; discriminate|apply abc_valid|reflexivity].
Defined.

End witnesses.
