(* ===== verification/CacheSummary.v ===== *)
(** * Cooperative caching ([internal/protocol/cachesummary.go], and the
    broadcast and receive callbacks of [internal/node/node.go])

    A node periodically sends every connected peer a Bloom filter of the
    blocks in its cache; a peer keeps the last filter of each sender and asks
    it which providers probably have a block at hand. *)

From Stdlib Require Import Init.Byte.
From S2P Require Import Prelude Float64 Runtime Path Policy Stream Chunker Lru Bloom Probe Manager.

(** ** The protocol *)

Definition maxSummarySize : Z := Z.shiftl 1 20.

Definition read_summary : Stream bytes :=
  length ← Read_le 4;
  if maxSummarySize <? length then stream_fail (Errorf "data too large")
  else Read (Z.to_nat length).

(** One accepted stream from [remote]; every failure is logged and ends the
    handler.  [St] is the state the callback works on. *)
Definition CacheSummaryHandler_handleStream {St}
    (OnReceive : option (peer_ID → bytes → St → outcome St)) (remote : peer_ID) (st : St)
    (s : stream) : outcome St :=
  match read_summary s with
  | (Ok data, _) => match OnReceive with Some f => f remote data st | None => mret st end
  | (Err _, _) => mret st
  | (Panic w, _) => Panic w
  end.

Definition summary_exchange (data : bytes) : Stream unit :=
  _ ← or_wrap "write length" (Write_le 4 (zlen data));
  or_wrap "write data" (Write data).

(** The result, and the bytes that reached the peer. *)
Definition SendCacheSummary (e : stream_env) (data : bytes) : outcome unit * bytes :=
  match env_open e with
  | Some err => (Err (Wrapf "open stream" err), [])
  | None => let '(r, s) := summary_exchange data (dial e) in (r, s_out s)
  end.

(** ** The node's side *)

Section node.
Context `{ML : MathLib, PID : PeerID}.

(** The [OnReceive] callback [Start] installs; the log line slices the
    sender's printed ID. *)
Definition OnReceive_summary (from : peer_ID) (data : bytes) (blooms : PeerBloomStore)
  : outcome PeerBloomStore :=
  match BloomFromBytes data with
  | None => mret blooms
  | Some bf => _ ← first8 (peer_String from); mret (Set_ blooms from (Some bf))
  end.

(** The sends, in order: each peer contacted and the bytes it received. *)
Fixpoint send_summaries (self : peer_ID) (env : peer_ID → stream_env) (data : bytes)
    (peers : list peer_ID) : outcome (list (peer_ID * bytes)) :=
  match peers with
  | [] => mret []
  | p :: peers' =>
      if decide (p = self) then send_summaries self env data peers'
      else
        let '(r, wire) := SendCacheSummary (env p) data in
        _ ← (match r with Ok _ => mret () | _ => _ ← first8 (peer_String p); mret () end);
        rest ← send_summaries self env data peers';
        mret ((p, wire) :: rest)
  end.

Definition empty_filter (cids : list string) : BloomFilter :=
  NewBloomFilter (Z.max (zlen cids) 100) (lit 1 100).

Definition broadcastCacheSummary (o : order) (self : peer_ID) (BlockCache : option LRUCache)
    (peers : list peer_ID) (env : peer_ID → stream_env) : outcome (list (peer_ID * bytes)) :=
  match BlockCache with
  | None => mret []
  | Some c =>
      let cids := CIDs o c in
      if decide (cids = []) then mret []
      else
        bf ← add_all (empty_filter cids) cids;
        send_summaries self env (Bytes bf) peers
  end.

(** What a peer's filter store becomes when [sender]'s bytes arrive. *)
Definition receive (sender : peer_ID) (wire : bytes) (blooms : PeerBloomStore)
  : outcome PeerBloomStore :=
  CacheSummaryHandler_handleStream (Some OnReceive_summary) sender blooms
    (accept no_faults (NewReader wire)).

(** ** Lemmas *)

Definition frame (data : bytes) : bytes := le_put 4 (zlen data) ++ data.

Lemma read_summary_frame data :
  zlen data ≤ maxSummarySize →
  fst (read_summary (accept no_faults (NewReader (frame data)))) = Ok data.
Proof.
  intros H. unfold read_summary, frame. unfold maxSummarySize in H. change (Z.shiftl 1 20) with (2 ^ 20) in H.
  erewrite bind_step by (apply (Read_le_step 4 _ (zlen data) data EOF); reflexivity).
  rewrite Z.mod_small by lia. rewrite (proj2 (Z.ltb_ge _ _)) by done.
  rewrite Nat2Z.id. erewrite (Read_step _ _ data []); [done| |done]. simpl. by rewrite app_nil_r.
Qed.

Lemma SendCacheSummary_ok e data :
  env_open e = None → (∀ k, env_write e k = None) →
  SendCacheSummary e data = (Ok (), frame data).
Proof.
  intros Ho Hw. unfold SendCacheSummary, summary_exchange, Write_le. rewrite Ho.
  erewrite bind_step by (apply or_wrap_step, Write_step, Hw).
  by erewrite or_wrap_step by (apply Write_step, Hw).
Qed.

(** Printed peer IDs are long enough for the log lines. *)
Definition printable (p : peer_ID) : Prop := (8 ≤ String.length (peer_String p))%nat.

Lemma first8_ok p : printable p → first8 (peer_String p) = Ok (String.substring 0 8 (peer_String p)).
Proof. intros H. unfold first8. by rewrite decide_True by done. Qed.

Lemma send_summaries_sent self env data peers :
  Forall printable peers →
  ∃ sent, send_summaries self env data peers = Ok sent ∧
    sent = (λ p, (p, snd (SendCacheSummary (env p) data))) <$> List.filter (λ p, bool_decide (p ≠ self)) peers.
Proof.
  induction 1 as [|p peers Hp _ (sent & IH & Hs)]; simpl; [by eexists|].
  destruct (decide (p = self)) as [->|Hne].
  - rewrite bool_decide_eq_false_2 by naive_solver. eauto.
  - rewrite bool_decide_eq_true_2 by done. rewrite IH, fmap_cons, <-Hs.
    destruct (SendCacheSummary (env p) data) as [r wire].
    assert ((match r with Ok _ => mret () | _ => _ ← first8 (peer_String p); mret () end : outcome unit)
            = Ok ()) as ->.
    { destruct r; [done|by rewrite first8_ok..]. }
    by eexists.
Qed.

Lemma add_all_shape bf keys bf' :
  add_all bf keys = Ok bf' → size bf' = size bf ∧ numHash bf' = numHash bf ∧
    length (bits bf') = length (bits bf).
Proof.
  revert bf. induction keys as [|k keys IH]; intros bf; simpl; [by intros [= ->]|].
  intros (bf1 & H1 & H2)%bind_Ok_inv. apply IH in H2 as (-> & -> & ->).
  unfold Add in H1. apply bind_Ok_inv in H1 as (idxs & _ & H1).
  apply bind_Ok_inv in H1 as (b & Hb & [= <-]). simpl. split_and!; [done..|].
  clear -Hb. revert Hb. generalize (bits bf). induction idxs as [|i idxs IH]; intros b0; simpl.
  { by intros [= ->]. }
  case_match; [|done]. intros ->%IH. apply length_insert.
Qed.

Lemma CIDs_cached o c k : wf c → k ∈ CIDs o c ↔ is_Some (cached c k).
Proof.
  intros Hwf. unfold CIDs. rewrite elem_of_range_keys. unfold cached. rewrite fmap_is_Some.
  split.
  - intros [h Hh]. destruct (proj1 (wf_items _ Hwf k h) Hh) as (e & He & Hk).
    destruct (find_elem c k) as [[]|] eqn:E; [by eexists|].
    pose proof (proj2 (find_elem_Some c k h e Hwf)). naive_solver.
  - intros [[h e] He]. unfold find_elem in He. destruct (items c !! k); [by eexists|done].
Qed.

Lemma CIDs_nonempty o c : wf c → eviction c ≠ [] → CIDs o c ≠ [].
Proof.
  intros Hwf Hne H0. destruct (eviction c) as [|[h e] l] eqn:E; [done|].
  assert (key e ∈ CIDs o c) as Hin; [|rewrite H0 in Hin; by apply elem_of_nil in Hin].
  unfold CIDs. apply elem_of_range_keys. exists h. apply (wf_items _ Hwf). exists e.
  rewrite E. split; [by left|done].
Qed.

Lemma read_summary_inv s data s' :
  read_summary s = (Ok data, s') →
  ∃ rest, rd_data (inbox s) = frame data ++ rest ∧ zlen data ≤ maxSummarySize.
Proof.
  unfold read_summary. intros (n & s1 & Hn & H)%Stream_bind_Ok.
  unfold Read_le in Hn. apply Stream_bind_Ok in Hn as (b & s0 & Hb & [= <- <-]).
  apply Read_Ok in Hb as (Hl & Hin & _). pose proof (le_get_bound b) as Hbound.
  destruct (maxSummarySize <? le_get b) eqn:E; [done|]. zbool.
  apply Read_Ok in H as (Hd & Hin2 & _).
  exists (rd_data (inbox s')). unfold frame.
  assert (zlen data = le_get b) as Hz by lia. rewrite Hz, Hin, Hin2, <-app_assoc.
  rewrite <-Hl, le_put_get. split; [done|lia].
Qed.

Lemma read_summary_no_panic : no_panic read_summary.
Proof. unfold read_summary. auto with pathaware. Qed.

(** A peer's filter store changes only when a whole summary arrives: a
    length, at most one MiB, and that many bytes.  Then the filter is decoded
    and stored for its sender; an oversized, cut short or missing message
    leaves the store as it was, and nothing panics. *)
Theorem receive_spec (sender : peer_ID) (wire : bytes) (blooms : PeerBloomStore) :
  (∀ data rest, wire = frame data ++ rest → zlen data ≤ maxSummarySize →
     receive sender wire blooms = OnReceive_summary sender data blooms) ∧
  ((¬ ∃ data rest, wire = frame data ++ rest ∧ zlen data ≤ maxSummarySize) →
     receive sender wire blooms = Ok blooms).
Proof.
  unfold receive, CacheSummaryHandler_handleStream. split.
  - intros data rest -> Hl. unfold read_summary, frame, maxSummarySize in *.
    change (Z.shiftl 1 20) with (2 ^ 20) in *. rewrite <-app_assoc.
    erewrite bind_step by (apply (Read_le_step 4 _ (zlen data) (data ++ rest) EOF); reflexivity).
    rewrite Z.mod_small by lia. rewrite (proj2 (Z.ltb_ge _ _)) by done. rewrite Nat2Z.id.
    by erewrite (Read_step _ _ data rest EOF).
  - intros Hno. destruct (read_summary _) as [[data|e|w] s] eqn:E; [|done|].
    + exfalso. apply Hno. apply read_summary_inv in E as (rest & Hw & Hl). by exists data, rest.
    + by apply read_summary_no_panic in E.
Qed.

(** C10: cooperative caching works end to end: whatever the iteration order of
    the cache, a peer with a working connection that receives the broadcast
    of a non-empty cache will report every block of that cache as probably
    held by the sender, and keeps the filters of all other peers; the size of
    the filter must leave the message within the protocol's one MiB. *)
Theorem broadcast_informs_peers (o : order) (self p : peer_ID) (c : LRUCache)
    (peers : list peer_ID) (env : peer_ID → stream_env) (blooms : PeerBloomStore) :
  wf c → eviction c ≠ [] → p ∈ peers → p ≠ self → Forall printable (self :: peers) →
  env_open (env p) = None → (∀ k, env_write (env p) k = None) →
  size (empty_filter (CIDs o c)) ≤ 8 * (maxSummarySize - 8) →
  numHash (empty_filter (CIDs o c)) < 2 ^ 32 →
  ∃ sent wire blooms',
    broadcastCacheSummary o self (Some c) peers env = Ok sent ∧ (p, wire) ∈ sent ∧
    receive self wire blooms = Ok blooms' ∧
    (∀ cid, is_Some (cached c cid) → PeerMayHave blooms' self cid = Ok true) ∧
    (∀ q, q ≠ self → blooms' !! q = blooms !! q).
Proof.
  intros Hwf Hne Hp Hps [Hself Hpr]%Forall_cons Ho Hw Hsize Hhash.
  unfold maxSummarySize in Hsize. change (Z.shiftl 1 20) with (2 ^ 20) in Hsize.
  destruct (NewBloomFilter_shape (Z.max (zlen (CIDs o c)) 100) (lit 1 100)) as (Hbf & H8 & H1 & Hbits).
  { fold (empty_filter (CIDs o c)). lia. }
  fold (empty_filter (CIDs o c)) in Hbf, H8, H1, Hbits.
  destruct (add_all_wf _ (CIDs o c) Hbf) as (bf & Hadd & Hbf' & Hin & _).
  pose proof (add_all_shape _ _ _ Hadd) as (Hs & Hh & Hl).
  destruct (send_summaries_sent self env (Bytes bf) peers Hpr) as (sent & Hsend & Hsent).
  assert (zlen (Bytes bf) ≤ maxSummarySize) as Hlen.
  { unfold Bytes. rewrite !length_app, !length_le_put, Hl, Hbits, length_replicate.
    change maxSummarySize with (2 ^ 20). Z.div_mod_to_equations. lia. }
  exists sent, (frame (Bytes bf)), (Set_ blooms self (Some bf)). split_and!.
  - unfold broadcastCacheSummary. rewrite decide_False; [by rewrite Hadd|].
    by apply CIDs_nonempty.
  - rewrite Hsent, list_elem_of_fmap. exists p. rewrite SendCacheSummary_ok by done. split; [done|].
    apply list_elem_of_In, filter_In. split; [by apply list_elem_of_In|by apply bool_decide_eq_true_2].
  - unfold receive, CacheSummaryHandler_handleStream.
    pose proof (read_summary_frame (Bytes bf) Hlen) as Hread.
    destruct (read_summary _) as [r s]. simpl in Hread. subst r.
    unfold OnReceive_summary. rewrite Bytes_round_trip by lia. by rewrite first8_ok.
  - intros cid Hc. unfold PeerMayHave, Set_. rewrite lookup_insert_eq. apply Hin. by apply CIDs_cached.
  - intros q Hq. by apply lookup_insert_ne.
Qed.

End node.

(** ** Concrete inputs *)

Section witnesses.
#[local] Instance printed : PeerID := {| peer_String := λ p, "12D3KooW" +:+ p |}.

(** A peer that only receives. *)
Definition served_nowhere : stream_env :=
  {| env_open := None; env_write := no_faults; env_closeWrite := None;
     env_peer := λ _, NewReader [] |}.

Lemma broadcast_informs_peers_witness :
  let ML := Policy.Examples.coarse_math in
  ∃ sent wire blooms',
    broadcastCacheSummary id_order "A" (Some cache_ab) ["A"; "B"]
      (λ _, served_nowhere) = Ok sent ∧ ("B", wire) ∈ sent ∧
    receive "A" wire NewPeerBloomStore = Ok blooms' ∧
    (∀ cid, is_Some (cached cache_ab cid) → PeerMayHave blooms' "A" cid = Ok true) ∧
    (∀ q, q ≠ "A" → blooms' !! q = NewPeerBloomStore !! q).
Proof.
  apply (broadcast_informs_peers (ML := Policy.Examples.coarse_math));
    [apply cache_ab_wf|vm_compute; discriminate|right; left|discriminate| |reflexivity|
     reflexivity|vm_compute; discriminate|vm_compute; reflexivity].
  repeat constructor; vm_compute; lia.
Defined.

End witnesses.
