(* ===== verification/Node.v ===== *)
(** * The node: configuration and replication ([internal/node/config.go] and
    the replication of popular blocks in [internal/node/node.go])

    Every minute the node pushes the blocks its tracker calls popular to the
    connected peers: whole, or as Reed-Solomon fragments dealt out in turn.
    The peers are stream environments, one per peer and block. *)

From Stdlib Require Import Init.Byte.
From S2P Require Import Prelude Float64 Runtime Stream Path Probe Manager Sha256 Chunker Lru Store Replication Erasure BlockTransfer.

(** ** Configuration *)

Record Config := {
  ListenAddrs : list string;
  BootstrapPeers : list string;
  DataDir : path;
  EnableRelay : bool;
  EnableMDNS : bool;
  APIAddr : string;
  MetricsAddr : string;
  PathPolicy : string;
  CacheMaxBytes : Z;
  ChunkSizeBytes : Z;
  EnableErasure : bool;
  DataShards : Z;
  ParityShards : Z;
  AdaptiveChunking : bool;
  MinChunkSize : Z;
  MaxChunkSize : Z;
  PathEpsilon : float64;
  DisableBloomExchange : bool;
  cfg_ProbeInterval : Duration;
  cfg_ProbeTimeout : Duration;
  LogLevel : string
}.

(** [home] is what [os.UserHomeDir] returns. *)
Definition DefaultConfig (home : path) : Config :=
  {| ListenAddrs := ["/ip4/0.0.0.0/tcp/9000"];
     BootstrapPeers := [];
     DataDir := Join home [".pathaware-libp2p"];
     EnableRelay := true;
     EnableMDNS := true;
     APIAddr := "127.0.0.1:9090";
     MetricsAddr := ":2112";
     PathPolicy := "balanced";
     CacheMaxBytes := 128 * 1024 * 1024;
     ChunkSizeBytes := 256 * 1024;
     EnableErasure := false;
     DataShards := 4;
     ParityShards := 2;
     AdaptiveChunking := false;
     MinChunkSize := 64 * 1024;
     MaxChunkSize := 1024 * 1024;
     PathEpsilon := lit 1 10;
     DisableBloomExchange := false;
     cfg_ProbeInterval := 10 * Second;
     cfg_ProbeTimeout := 3 * Second;
     LogLevel := "info" |}.

(** The threshold [Start] gives the replication tracker. *)
Definition node_threshold : Z := 5.

Section replication.
Context `{PID : PeerID, RS : ReedSolomon}.
Context (self : peer_ID) (env : peer_ID → Block → stream_env).

(** One push and whether the peer acknowledged it. *)
Record push := { pushed_to : peer_ID; pushed : Block; acked : bool }.

(** [replicated]: the acknowledged pushes of a cycle. *)
Definition replicated (log : list push) : Z := zlen (List.filter acked log).

(** [protocol.PushBlock] and the log line of a failure, which slices the
    printed peer ID and runs [also]. *)
Definition try_push (also : outcome unit) (p : peer_ID) (b : Block) : blocking push :=
  match PushBlock (env p b) b with
  | Some (Ok _) => mret {| pushed_to := p; pushed := b; acked := true |}
  | Some (Err _) => _ ← now (first8 (peer_String p)); _ ← now also; mret {| pushed_to := p; pushed := b; acked := false |}
  | Some (Panic w) => now (Panic w)
  | None => None
  end.

Definition log_cid (cid : string) : outcome unit := _ ← first8 cid; mret ().

Definition eligible (peers : list peer_ID) : list peer_ID :=
  List.filter (λ p, bool_decide (p ≠ self)) peers.

(** ** Full copies *)

Fixpoint replicate_full (fr : nat → fault) (s : Store) (d : Disk) (peers : list peer_ID) (i : nat)
    (popular : list string) : blocking (list push) :=
  match popular with
  | [] => mret []
  | cid :: popular' =>
      pushes ← (match Store.Get (fr i) s d cid with
                | Ok block => mapM (λ p, try_push (log_cid cid) p block) (eligible peers)
                | Err _ => mret []
                | Panic w => now (Panic w)
                end : blocking (list push));
      rest ← replicate_full fr s d peers (S i) popular';
      mret (pushes ++ rest)
  end.

(** ** Erasure-coded fragments *)

(** A failed write of a fragment is logged. *)
Fixpoint store_fragments (fmk fwr : nat → fault) (s : Store) (d : Disk) (cid : string) (i : nat)
    (fs : list Fragment) : outcome unit * Disk :=
  match fs with
  | [] => (Ok (), d)
  | f :: fs' =>
      match PutFragment (fmk i) (fwr i) s d cid (Index f) (frag_Data f) with
      | (Ok _, d') => store_fragments fmk fwr s d' cid (S i) fs'
      | (Err _, d') =>
          match log_cid cid with
          | Ok _ => store_fragments fmk fwr s d' cid (S i) fs'
          | r => (r, d')
          end
      | (Panic w, d') => (Panic w, d')
      end
  end.

Definition fragment_block (f : Fragment) : Block := {| CID := frag_CID f; Data := frag_Data f |}.

(** Fragment [i] goes to peer [i] modulo their number. *)
Fixpoint push_fragments (targets : list peer_ID) (i : nat) (fs : list Fragment)
  : blocking (list push) :=
  match fs with
  | [] => mret []
  | f :: fs' =>
      match targets !! Nat.modulo i (length targets) with
      | None => now (Panic "index out of range")
      | Some target =>
          r ← try_push (mret ()) target (fragment_block f);
          rest ← push_fragments targets (S i) fs';
          mret (r :: rest)
      end
  end.

Definition data_shards (cfg : Config) : Z := if DataShards cfg <=? 0 then 4 else DataShards cfg.
Definition parity_shards (cfg : Config) : Z := if ParityShards cfg <=? 0 then 2 else ParityShards cfg.

(** The loop body for one block. *)
Definition replicate_block_erasure (cfg : Config) (fmk fwr : nat → fault) (s : Store) (d : Disk)
    (peers : list peer_ID) (cid : string) (block : Block) : blocking (list push) * Disk :=
  match Encode (Data block) cid (data_shards cfg) (parity_shards cfg) with
  | Err _ => (_ ← now (log_cid cid); mret [], d)
  | Panic w => (now (Panic w), d)
  | Ok fragments =>
      match store_fragments fmk fwr s d cid 0 fragments with
      | (Ok _, d') => (if decide (eligible peers = []) then mret [] else push_fragments (eligible peers) 0 fragments, d')
      | (Err e, d') => (now (Err e), d')
      | (Panic w, d') => (now (Panic w), d')
      end
  end.

(** [fr], [fmk], [fwr]: the faults of the reads, and of the calls for each
    fragment, of the [i]-th popular block. *)
Fixpoint replicateWithErasure (cfg : Config) (fr : nat → fault) (fmk fwr : nat → nat → fault)
    (s : Store) (d : Disk) (peers : list peer_ID) (i : nat) (popular : list string)
  : blocking (list push) * Disk :=
  match popular with
  | [] => (mret [], d)
  | cid :: popular' =>
      let '(r, d') := match Store.Get (fr i) s d cid with
                      | Ok block => replicate_block_erasure cfg (fmk i) (fwr i) s d peers cid block
                      | Err _ => (mret [], d)
                      | Panic w => (now (Panic w), d)
                      end in
      match r with
      | Some (Ok pushes) =>
          let '(rest, d'') := replicateWithErasure cfg fr fmk fwr s d' peers (S i) popular' in
          (l ← rest; mret (pushes ++ l), d'')
      | _ => (r, d')
      end
  end.

(** The pushes of a cycle, if it ends, and the disk it leaves. *)
Definition replicatePopularBlocks (o : order) (cfg : Config) (rt : ReplicationTracker)
    (fr : nat → fault) (fmk fwr : nat → nat → fault) (s : Store) (d : Disk) (peers : list peer_ID)
  : blocking (list push) * Disk :=
  let popular := PopularBlocks o rt in
  if decide (popular = []) then (mret [], d)
  else if decide (peers = []) then (mret [], d)
  else if EnableErasure cfg then replicateWithErasure cfg fr fmk fwr s d peers 0 popular
  else (replicate_full fr s d peers 0 popular, d).

(** ** Lemmas *)

(** Strings the log lines can slice. *)
Definition sliceable (s : string) : Prop := (8 ≤ String.length s)%nat.

Lemma first8_sliceable s : sliceable s → first8 s = Ok (String.substring 0 8 s).
Proof. intros H. unfold first8. by rewrite decide_True. Qed.

Lemma log_cid_ok cid : sliceable cid → log_cid cid = Ok ().
Proof. intros H. unfold log_cid. by rewrite first8_sliceable. Qed.

Definition attempt (p : peer_ID) (b : Block) : push :=
  {| pushed_to := p; pushed := b; acked := succeeded (PushBlock (env p b) b) |}.

(** The peer's name can be logged, and it does not keep the node waiting. *)
Definition responsive (p : peer_ID) (b : Block) : Prop :=
  sliceable (peer_String p) ∧ PushBlock (env p b) b ≠ None.

Lemma try_push_attempt also p b :
  responsive p b → also = Ok () → try_push also p b = Some (Ok (attempt p b)).
Proof.
  intros [Hp Hr] Ha. unfold try_push, attempt. destruct (PushBlock (env p b) b) as [[u|e|w]|] eqn:E; [done| | |done].
  - by rewrite first8_sliceable, Ha.
  - by apply PushBlock_no_panic in E.
Qed.

Lemma elem_of_eligible p peers : p ∈ eligible peers ↔ p ∈ peers ∧ p ≠ self.
Proof. unfold eligible. by rewrite elem_of_filter_bool, bool_decide_eq_true. Qed.

Lemma mapM_attempts also b ps :
  Forall (λ p, responsive p b) ps → also = Ok () →
  mapM (M := blocking) (λ p, try_push also p b) ps = Some (Ok ((λ p, attempt p b) <$> ps)).
Proof.
  intros Hps Ha. induction Hps as [|p ps Hp _ IH]; [done|].
  cbn [mapM]. rewrite try_push_attempt by done. cbn [mbind blocking_bind]. by rewrite IH.
Qed.

Lemma Forall_eligible (P : peer_ID → Prop) peers : Forall P peers → Forall P (eligible peers).
Proof. rewrite !Forall_forall. intros H p [Hp _]%elem_of_eligible. by apply H. Qed.

(** The pushes a full cycle makes, in order. *)
Fixpoint full_plan (fr : nat → fault) (s : Store) (d : Disk) (peers : list peer_ID) (i : nat)
    (popular : list string) : list push :=
  match popular with
  | [] => []
  | cid :: popular' =>
      match Store.Get (fr i) s d cid with Ok b => (λ p, attempt p b) <$> eligible peers | _ => [] end ++
      full_plan fr s d peers (S i) popular'
  end.

(** The peers keep no push of a popular block waiting. *)
Definition all_responsive (fr : nat → fault) (s : Store) (d : Disk) (peers : list peer_ID) (i : nat)
    (popular : list string) : Prop :=
  ∀ k cid b p, popular !! k = Some cid → Store.Get (fr (i + k)%nat) s d cid = Ok b → p ∈ peers →
    responsive p b.

Lemma replicate_full_plan fr s d peers i popular :
  all_responsive fr s d peers i popular → Forall sliceable popular →
  replicate_full fr s d peers i popular = Some (Ok (full_plan fr s d peers i popular)).
Proof.
  intros Hp Hc. revert i Hp.
  induction Hc as [|cid popular Hcid _ IH]; intros i Hp; cbn [replicate_full full_plan]; [done|].
  rewrite IH by (intros k c b p Hk Hg; rewrite Nat.add_succ_comm in Hg; by apply (Hp (S k) c b p)).
  destruct (Store.Get (fr i) s d cid) as [b|e|w] eqn:E.
  - rewrite mapM_attempts; [done| |by apply log_cid_ok]. apply Forall_eligible, Forall_forall.
    intros p Hin. apply (Hp O cid b p); [done|by rewrite Nat.add_0_r|done].
  - done.
  - by apply Store.Get_no_panic in E.
Qed.

Lemma full_plan_no_peers fr s d i popular : full_plan fr s d [] i popular = [].
Proof. revert i. induction popular as [|cid l IH]; intros i; simpl; [done|]. rewrite IH. by case_match. Qed.

Lemma elem_of_full_plan fr s d peers i popular q :
  q ∈ full_plan fr s d peers i popular ↔
  ∃ k cid b p, popular !! k = Some cid ∧ Store.Get (fr (i + k)%nat) s d cid = Ok b ∧
    p ∈ peers ∧ p ≠ self ∧ q = attempt p b.
Proof.
  revert i. induction popular as [|cid popular IH]; intros i; simpl.
  { rewrite elem_of_nil. split; [done|]. by intros (k & ? & ? & ? & [=] & _). }
  rewrite elem_of_app, IH. split.
  - intros [Hq|(k & c & b & p & Hk & Hg & H)].
    + destruct (Store.Get (fr i) s d cid) as [b| |] eqn:E; [|by apply elem_of_nil in Hq..].
      apply list_elem_of_fmap in Hq as (p & -> & Hp). apply elem_of_eligible in Hp as [Hp Hs].
      exists O, cid, b, p. by rewrite Nat.add_0_r.
    + exists (S k), c, b, p. by rewrite Nat.add_succ_r.
  - intros ([|k] & c & b & p & Hk & Hg & Hp & Hs & ->); simpl in Hk.
    + injection Hk as ->. rewrite Nat.add_0_r in Hg. rewrite Hg. left.
      apply list_elem_of_fmap. exists p. split; [done|]. by apply elem_of_eligible.
    + right. exists k, c, b, p. by rewrite Nat.add_succ_r in Hg.
Qed.

(** A full replication cycle pushes exactly the popular blocks that the
    store can read, each to every connected peer other than the node itself,
    counts exactly the acknowledged pushes, goes on after every failed read or
    push, and leaves the local disk alone, provided every peer answers or closes
    its streams. *)
Theorem replicatePopularBlocks_full (o : order) (cfg : Config) (rt : ReplicationTracker)
    (fr : nat → fault) (fmk fwr : nat → nat → fault) (s : Store) (d : Disk) (peers : list peer_ID) :
  EnableErasure cfg = false → all_responsive fr s d peers 0 (PopularBlocks o rt) →
  Forall sliceable (PopularBlocks o rt) →
  ∃ log, replicatePopularBlocks o cfg rt fr fmk fwr s d peers = (Some (Ok log), d) ∧
    (∀ q, q ∈ log ↔ ∃ k cid b p, PopularBlocks o rt !! k = Some cid ∧
       Store.Get (fr k) s d cid = Ok b ∧ p ∈ peers ∧ p ≠ self ∧
       q = {| pushed_to := p; pushed := b; acked := succeeded (PushBlock (env p b) b) |}) ∧
    replicated log = zlen (List.filter (λ q, succeeded (PushBlock (env (pushed_to q) (pushed q)) (pushed q))) log).
Proof.
  intros He Hp Hc. exists (full_plan fr s d peers 0 (PopularBlocks o rt)). split_and!.
  - unfold replicatePopularBlocks. rewrite He, replicate_full_plan by done.
    case_decide as H1; [by rewrite H1|]. case_decide as H2; [|done].
    by rewrite H2, full_plan_no_peers.
  - intros q. rewrite elem_of_full_plan. done.
  - unfold replicated. do 2 f_equal. apply filter_ext_in. intros q Hq%list_elem_of_In.
    apply elem_of_full_plan in Hq as (k & cid & b & p & _ & _ & _ & _ & ->). done.
Qed.

(** ** Fragments in turn *)

Definition owner (targets : list peer_ID) (i : nat) : peer_ID :=
  default "" (targets !! Nat.modulo i (length targets)).

Lemma owner_lookup targets i :
  targets ≠ [] → targets !! Nat.modulo i (length targets) = Some (owner targets i).
Proof.
  intros Hne. unfold owner.
  destruct (lookup_lt_is_Some_2 targets (Nat.modulo i (length targets))) as [t Ht]; [|by rewrite Ht].
  apply Nat.mod_upper_bound. by destruct targets.
Qed.

Lemma push_fragments_attempts targets i fs :
  targets ≠ [] → (∀ p f, p ∈ targets → f ∈ fs → responsive p (fragment_block f)) →
  push_fragments targets i fs =
    Some (Ok (imap (λ k f, attempt (owner targets (i + k)) (fragment_block f)) fs)).
Proof.
  intros Hne. revert i. induction fs as [|f fs IH]; intros i Hp; [done|].
  cbn [push_fragments]. rewrite owner_lookup by done.
  rewrite try_push_attempt; [|apply Hp; [eapply list_elem_of_lookup_2, owner_lookup, Hne|by left]|done].
  cbn [mbind blocking_bind]. rewrite IH by (intros p g Hin Hg; apply Hp; [done|by right]).
  rewrite imap_cons, Nat.add_0_r. cbn [mbind blocking_bind].
  unfold mret at 1, blocking_ret. do 3 f_equal.
  apply imap_ext. intros k x _. simpl. by rewrite Nat.add_succ_r.
Qed.

Lemma store_fragments_total fmk fwr s d cid i fs :
  sliceable cid → ∃ d', store_fragments fmk fwr s d cid i fs = (Ok (), d').
Proof.
  intros Hc. revert d i. induction fs as [|f fs IH]; intros d i; simpl; [by eexists|].
  destruct (PutFragment _ _ s d cid (Index f) (frag_Data f)) as [[u|e|w] d'] eqn:E; [apply IH| |].
  - rewrite log_cid_ok by done. apply IH.
  - exfalso. revert E. unfold PutFragment, MkdirAll, WriteFile. by repeat case_match.
Qed.

Lemma length_filter_fmap {A B} (P : B → bool) (g : A → B) l :
  length (List.filter (λ x, P (g x)) l) = length (List.filter P (g <$> l)).
Proof. induction l as [|x l IH]; [done|]. rewrite fmap_cons. simpl. case_match; simpl; by rewrite IH. Qed.

Lemma length_filter_take {A} (P : A → bool) n l :
  (length (List.filter P (take n l)) ≤ length (List.filter P l))%nat.
Proof.
  rewrite <-(take_drop n l) at 2. rewrite List.filter_app, length_app. lia.
Qed.

(** One round of the dealing. *)
Lemma owner_round targets k r : targets ≠ [] → (r ≤ length targets)%nat →
  owner targets <$> seq (k * length targets) r = take r targets.
Proof.
  intros Hne Hr. apply list_eq. intros j. rewrite list_lookup_fmap.
  destruct (decide (j < r)%nat) as [Hj|Hj].
  - rewrite lookup_seq_lt, lookup_take_lt by done. simpl.
    assert (Nat.modulo (k * length targets + j) (length targets) = j) as Hm.
    { rewrite Nat.add_comm, Nat.Div0.mod_add. apply Nat.mod_small. lia. }
    rewrite <-(owner_lookup targets (k * length targets + j)) by done. by rewrite Hm.
  - rewrite lookup_seq_ge, lookup_take_ge by lia. done.
Qed.

(** The share of a set of peers in the first [T] fragments. *)
Lemma lost_share (lost : peer_ID → bool) targets k T :
  targets ≠ [] → (T ≤ k * length targets)%nat →
  (length (List.filter (λ i, lost (owner targets i)) (seq 0 T)) ≤
   k * length (List.filter lost targets))%nat.
Proof.
  intros Hne. revert T. induction k as [|k IH]; intros T HT; [by replace T with O by lia|].
  destruct (decide (T ≤ k * length targets)%nat) as [Hle|Hgt]; [specialize (IH T Hle); lia|].
  replace T with (k * length targets + (T - k * length targets))%nat by lia.
  rewrite seq_app, List.filter_app, length_app, Nat.add_0_l.
  specialize (IH (k * length targets)%nat ltac:(lia)).
  rewrite (length_filter_fmap lost (owner targets) (seq (k * length targets) _)), owner_round by (done || lia).
  pose proof (length_filter_take lost (T - k * length targets) targets). simpl. lia.
Qed.

Lemma length_filter_negb {A} (P : A → bool) l :
  (length (List.filter P l) + length (List.filter (λ x, negb (P x)) l) = length l)%nat.
Proof. induction l as [|x l IH]; [done|]. simpl. destruct (P x); simpl; lia. Qed.

(** The fragments that peers still there have acknowledged. *)
Definition held (lost : peer_ID → bool) (log : list push) (fs : list Fragment) : list Fragment :=
  List.filter (λ f, existsb (λ q, acked q && negb (lost (pushed_to q)) &&
                                  bool_decide (pushed q = fragment_block f)) log) fs.

Context {RSL : ReedSolomonLaws RS}.

(** C9: fault tolerance of erasure-coded replication.  The fragments of a
    block are dealt out in turn, each as a block that hashes to its own
    identifier.  If the lost peers had at most [ParityShards] fragments
    between them, counting a full round for each, and the others acknowledged
    theirs, the fragments of the others decode to the block.  The node waits
    for each peer in turn, without a deadline: a lost peer may refuse, fail or
    disappear, but must not leave a stream open and silent. *)
Theorem erasure_survives_peer_loss (cfg : Config) (fmk fwr : nat → fault) (s : Store) (d : Disk)
    (peers : list peer_ID) (cid : string) (block : Block) (fs : list Fragment) (lost : peer_ID → bool) :
  let targets := eligible peers in
  let rounds := (data_shards cfg + parity_shards cfg + zlen targets - 1) / zlen targets in
  Encode (Data block) cid (data_shards cfg) (parity_shards cfg) = Ok fs →
  sliceable cid → (∀ p f, p ∈ targets → f ∈ fs → responsive p (fragment_block f)) → targets ≠ [] →
  rounds * zlen (List.filter lost targets) ≤ parity_shards cfg →
  (∀ q f, q ∈ targets → lost q = false → f ∈ fs →
     PushBlock (env q (fragment_block f)) (fragment_block f) = Some (Ok ())) →
  ∃ log d', replicate_block_erasure cfg fmk fwr s d peers cid block = (Some (Ok log), d') ∧
    zlen log = data_shards cfg + parity_shards cfg ∧ (∀ q, q ∈ log → valid_block (pushed q)) ∧
    Decode (held lost log fs) (zlen (Data block)) (data_shards cfg) (parity_shards cfg) = Ok (Data block).
Proof.
  intros targets rounds E Hc Hp Hne Hlost Hack.
  destruct (store_fragments_total fmk fwr s d cid 0 fs Hc) as [d' Hd'].
  set (log := imap (λ k f, attempt (owner targets k) (fragment_block f)) fs).
  destruct (Encode_inv _ _ _ _ _ E) as (_ & _ & shards & cw & pad & Hfs & Hcw & Hd0 & Hp0 & _).
  assert (zlen fs = data_shards cfg + parity_shards cfg) as Hlen by (by rewrite Hfs, length_imap).
  assert (∀ i f, fs !! i = Some f → Index f = Z.of_nat i ∧ frag_CID f = ComputeCID (frag_Data f)) as Hidx.
  { intros i f. rewrite Hfs, list_lookup_imap. destruct (cw !! i); [|done]. by intros [= <-]. }
  exists log, d'. split_and!.
  - unfold replicate_block_erasure. rewrite E, Hd', decide_False by done.
    by rewrite push_fragments_attempts.
  - unfold log. by rewrite length_imap.
  - intros q (i & f & -> & Hi)%elem_of_lookup_imap_1. by apply Hidx in Hi as [_ Hi].
  - set (idx := List.filter (λ i, negb (lost (owner targets i))) (seq 0 (length fs))).
    destruct (Decode_cover (Data block) cid _ _ fs (held lost log fs) idx E) as (Hdata & pad' & HD).
    + apply Forall_forall. intros f Hf. by apply elem_of_filter_bool in Hf as [Hf _].
    + apply NoDup_filter_bool, NoDup_seq.
    + pose proof (length_filter_negb (λ i, lost (owner targets i)) (seq 0 (length fs))) as Hsum.
      rewrite length_seq in Hsum. change (List.filter (λ x, negb _) _) with idx in Hsum.
      assert (0 < zlen targets) by (destruct targets; [done|simpl; lia]).
      assert (zlen fs ≤ rounds * zlen targets).
      { rewrite Hlen. unfold rounds. Z.div_mod_to_equations. nia. }
      assert (0 ≤ rounds) by (apply Z.div_pos; lia).
      assert (length fs ≤ Z.to_nat rounds * length targets)%nat as Hk.
      { apply Nat2Z.inj_le. by rewrite Nat2Z.inj_mul, Z2Nat.id. }
      pose proof (lost_share lost targets (Z.to_nat rounds) (length fs) Hne Hk) as Hshare.
      apply Nat2Z.inj_le in Hshare. rewrite Nat2Z.inj_mul, Z2Nat.id in Hshare by done.
      clearbody idx rounds targets. lia.
    + intros i (Hi & Hil)%elem_of_filter_bool. apply elem_of_seq in Hi as [_ Hi].
      destruct (lookup_lt_is_Some_2 fs i Hi) as [f Hf].
      apply list_elem_of_fmap. exists f. destruct (Hidx i f Hf) as [Hif _]. split; [done|].
      apply elem_of_filter_bool. split; [by eapply list_elem_of_lookup_2|].
      apply existsb_exists. exists (attempt (owner targets i) (fragment_block f)). split.
      * apply list_elem_of_In. unfold log. apply elem_of_lookup_imap. by exists i, f.
      * apply negb_true_iff in Hil. simpl. rewrite Hil, bool_decide_eq_true_2 by done.
        rewrite Hack; [done| |done|by eapply list_elem_of_lookup_2].
        eapply list_elem_of_lookup_2, owner_lookup, Hne.
    + rewrite HD. by rewrite trim_padding.
Qed.

End replication.

(** ** Concrete inputs *)

Section witnesses.
Import Store.Examples Erasure.Examples.

#[local] Instance printed : PeerID := {| peer_String := λ p, "12D3KooW" +:+ p |}.

(** Peers that run the push handler with an empty disk. *)
Definition honest (p : peer_ID) (b : Block) : stream_env :=
  served_by (BlockPushHandler_handleStream 5 (λ _, None) receiver).

Definition small_code : Config :=
  let c := DefaultConfig ["home"] in
  {| ListenAddrs := ListenAddrs c; BootstrapPeers := BootstrapPeers c; DataDir := DataDir c;
     EnableRelay := EnableRelay c; EnableMDNS := EnableMDNS c; APIAddr := APIAddr c;
     MetricsAddr := MetricsAddr c; PathPolicy := PathPolicy c; CacheMaxBytes := CacheMaxBytes c;
     ChunkSizeBytes := ChunkSizeBytes c; EnableErasure := true; DataShards := 1; ParityShards := 2;
     AdaptiveChunking := AdaptiveChunking c; MinChunkSize := MinChunkSize c;
     MaxChunkSize := MaxChunkSize c; PathEpsilon := PathEpsilon c;
     DisableBloomExchange := DisableBloomExchange c; cfg_ProbeInterval := cfg_ProbeInterval c;
     cfg_ProbeTimeout := cfg_ProbeTimeout c; LogLevel := LogLevel c |}.

(** Two of the three other peers are lost. *)
Lemma erasure_survives_peer_loss_witness :
  let block := {| CID := "parent-block"; Data := sample |} in
  let fs := imap (fragment_of "parent-block" 1 3) (replicate 3 sample) in
  let lost := λ p, bool_decide (p ∈ ["B"; "C"]) in
  ∃ log d', replicate_block_erasure "A" honest small_code (λ _, None) (λ _, None) store0 disk0
      ["A"; "B"; "C"; "D"] "parent-block" block = (Some (Ok log), d') ∧
    zlen log = 1 + 2 ∧ (∀ q, q ∈ log → valid_block (pushed q)) ∧
    Decode (held lost log fs) (zlen sample) 1 2 = Ok sample.
Proof.
  intros block fs lost.
  apply (erasure_survives_peer_loss "A" honest small_code (λ _, None) (λ _, None) store0 disk0
    ["A"; "B"; "C"; "D"] "parent-block" block fs lost).
  - vm_compute. reflexivity.
  - unfold sliceable. simpl. lia.
  - intros p f _ Hf. split; [unfold sliceable; simpl; lia|]. unfold fs in Hf. cbn [imap replicate] in Hf.
    repeat (apply elem_of_cons in Hf as [->|Hf]; [vm_compute; discriminate|]).
    by apply not_elem_of_nil in Hf.
  - discriminate.
  - vm_compute. discriminate.
  - intros q f _ _ Hf. unfold fs in Hf. cbn [imap replicate] in Hf.
    repeat (apply elem_of_cons in Hf as [->|Hf]; [vm_compute; reflexivity|]).
    by apply not_elem_of_nil in Hf.
Defined.

Definition popular_abc : ReplicationTracker :=
  {| Replication.fetchCount := {[CID abc := 7]}; threshold := node_threshold |}.

Lemma replicatePopularBlocks_full_witness :
  let d := snd (Store.Put None store0 disk0 abc) in
  let cfg := DefaultConfig ["home"] in
  ∃ log, replicatePopularBlocks "A" honest id_order cfg popular_abc (λ _, None) (λ _ _, None)
      (λ _ _, None) store0 d ["A"; "B"] = (Some (Ok log), d) ∧
    (∀ q, q ∈ log ↔ ∃ k cid b p, PopularBlocks id_order popular_abc !! k = Some cid ∧
       Store.Get None store0 d cid = Ok b ∧ p ∈ ["A"; "B"] ∧ p ≠ "A" ∧
       q = {| pushed_to := p; pushed := b; acked := succeeded (PushBlock (honest p b) b) |}) ∧
    replicated log =
      zlen (List.filter (λ q, succeeded (PushBlock (honest (pushed_to q) (pushed q)) (pushed q))) log).
Proof.
  intros d cfg.
  apply (replicatePopularBlocks_full "A" honest id_order cfg popular_abc (λ _, None) (λ _ _, None)
    (λ _ _, None) store0 d ["A"; "B"]).
  - reflexivity.
  - assert (PopularBlocks id_order popular_abc = [CID abc]) as -> by (vm_compute; reflexivity).
    intros [|[|k]] cid b p Hk Hg _; [|discriminate Hk..]. injection Hk as <-. subst d.
    assert (b = abc) as -> by (injection Hg as <-; vm_compute; reflexivity).
    split; [unfold sliceable; simpl; lia|vm_compute; discriminate].
  - assert (PopularBlocks id_order popular_abc = [CID abc]) as -> by (vm_compute; reflexivity).
    constructor; [unfold sliceable; vm_compute; lia|constructor].
Defined.

End witnesses.
