(* ===== verification/Fetch.v ===== *)
(** * Fetching content ([handleFetch] of [internal/node/api.go])

    The handler reads a manifest, checks its signature, and fetches the
    chunks in batches of four concurrent goroutines.  A goroutine looks in the
    cache, then in the store, then asks the network and stores what it gets;
    each of these is one atomic step, and a schedule says in which order the
    goroutines of a batch take theirs.  Two of the steps may never come: the
    cache's lock may be held for ever, and the network call has no deadline. *)

From S2P Require Import Prelude Stream Sha256 Chunker Json Codec Lru Store Signing.

(** ** HTTP replies *)

(** [err.Error()] *)
Fixpoint Error (e : error) : string :=
  match e with
  | Errorf msg => msg
  | Wrapf ctx inner => ctx +:+ ": " +:+ Error inner
  | Stalled => ""
  end.

Inductive reply (A : Type) :=
  | HttpError (code : Z) (msg : string)      (* [http.Error] *)
  | Reply (a : A).                           (* status 200 *)
Arguments HttpError {A} code msg.
Arguments Reply {A} a.

Definition StatusBadRequest : Z := 400.
Definition StatusForbidden : Z := 403.
Definition StatusNotFound : Z := 404.
Definition StatusMethodNotAllowed : Z := 405.
Definition StatusInternalServerError : Z := 500.
Definition StatusServiceUnavailable : Z := 503.

Definition method_not_allowed {A} : reply A := HttpError StatusMethodNotAllowed "method not allowed".

(** ** One batch of goroutines *)

(** Where the goroutine of a chunk is. *)
Inductive worker :=
  | AtCache
  | AtStore
  | AtNetwork
  | AtPut (b : Block)
  | Finished (r : option Block).             (* [None]: it recorded an error *)

Record FetchState := {
  fs_disk : Disk;
  fs_cache : option LRUCache;
  fs_err : option error;                     (* [fetchErr] *)
  fs_panic : option string;                  (* a goroutine has brought the process down *)
  fs_workers : list worker
}.

Definition set_worker (st : FetchState) (i : nat) (w : worker) : FetchState :=
  {| fs_disk := fs_disk st; fs_cache := fs_cache st; fs_err := fs_err st; fs_panic := fs_panic st;
     fs_workers := <[i := w]> (fs_workers st) |}.
Definition with_fs_cache (st : FetchState) (c : LRUCache) : FetchState :=
  {| fs_disk := fs_disk st; fs_cache := Some c; fs_err := fs_err st; fs_panic := fs_panic st;
     fs_workers := fs_workers st |}.
Definition with_fs_disk (st : FetchState) (d : Disk) : FetchState :=
  {| fs_disk := d; fs_cache := fs_cache st; fs_err := fs_err st; fs_panic := fs_panic st;
     fs_workers := fs_workers st |}.
(** The first error is kept. *)
Definition with_fs_err (st : FetchState) (e : error) : FetchState :=
  {| fs_disk := fs_disk st; fs_cache := fs_cache st; fs_err := Some (default e (fs_err st));
     fs_panic := fs_panic st; fs_workers := fs_workers st |}.
Definition with_fs_panic (st : FetchState) (w : string) : FetchState :=
  {| fs_disk := fs_disk st; fs_cache := fs_cache st; fs_err := fs_err st; fs_panic := Some w;
     fs_workers := fs_workers st |}.

Definition block_unavailable (cid : string) : error := Errorf ("block unavailable: " +:+ cid).

Section fetch.
Context `{JE : JSONErrors, E : Ed25519}.
Context (store : Store).
(** By chunk index: the faults of the store's reads and, with the block, of
    its writes; whether the goroutine is ever given the lock of the cache; and
    what [fetchBlockFromNetwork] returns, if it does. *)
Context (fr : nat → fault) (fw : nat → string → fault) (lock : nat → bool)
  (net : nat → string → blocking Block).

(** The next step of goroutine [i], which fetches chunk [n + i]; none while it
    waits, and none after a panic. *)
Definition worker_step (n : nat) (cids : list string) (i : nat) (st : FetchState) : FetchState :=
  match fs_panic st, fs_workers st !! i, cids !! i with
  | None, Some w, Some chunkCID =>
      match w with
      | AtCache =>
          match fs_cache st with
          | None => set_worker st i AtStore
          | Some c =>
              if lock (n + i)%nat then
                match Lru.Get c chunkCID with
                | (Some b, c') => set_worker (with_fs_cache st c') i (Finished (Some b))
                | (None, c') => set_worker (with_fs_cache st c') i AtStore
                end
              else st
          end
      | AtStore =>
          match Store.Get (fr (n + i)%nat) store (fs_disk st) chunkCID with
          | Ok b => set_worker st i (Finished (Some b))
          | Err _ => set_worker st i AtNetwork
          | Panic w => with_fs_panic st w
          end
      | AtNetwork =>
          match net (n + i)%nat chunkCID with
          | Some (Ok b) => set_worker st i (AtPut b)
          | Some (Err _) => set_worker (with_fs_err st (block_unavailable chunkCID)) i (Finished None)
          | Some (Panic w) => with_fs_panic st w
          | None => st
          end
      | AtPut b =>
          let '(_, d') := Store.Put (fw (n + i)%nat (CID b)) store (fs_disk st) b in
          set_worker (with_fs_disk st d') i (Finished (Some b))
      | Finished _ => st
      end
  | _, _, _ => st
  end.

Definition run_workers (n : nat) (cids : list string) (sched : list nat) (st : FetchState) : FetchState :=
  fold_left (λ st i, worker_step n cids i st) sched st.

(** The results, once [wg.Wait] returns; a failed goroutine leaves the zero
    value in its slot. *)
Definition result_of (w : worker) : option Block :=
  match w with Finished r => Some (default zero_block r) | _ => None end.

Definition start_batch (st : FetchState) (cids : list string) : FetchState :=
  {| fs_disk := fs_disk st; fs_cache := fs_cache st; fs_err := fs_err st; fs_panic := fs_panic st;
     fs_workers := replicate (length cids) AtCache |}.

Definition fetchConcurrency : nat := 4.

(** The batches from chunk [n] on; [sched n] is the schedule of the batch
    that starts there.  No blocks: [wg.Wait] of the last batch begun has not
    returned when its schedule ends. *)
Fixpoint fetch_batches (fuel n : nat) (cids : list string) (sched : nat → list nat)
    (st : FetchState) (blocks : list Block) : option (list Block) * FetchState :=
  match fuel with
  | O => (None, st)
  | S fuel' =>
      if decide (cids = []) then (Some blocks, st)
      else
        let batch := take fetchConcurrency cids in
        let st' := run_workers n batch (sched n) (start_batch st batch) in
        match fs_panic st', mapM result_of (fs_workers st') with
        | None, Some bs =>
            match fs_err st' with
            | Some e => (Some blocks, st')
            | None => fetch_batches fuel' (n + fetchConcurrency) (drop fetchConcurrency cids) sched st'
                        (blocks ++ bs)
            end
        | _, _ => (None, st')
        end
  end.

(** How far a request gets: a reply; [wg.Wait] still waiting when the
    schedules end; or the panic of a goroutine, which ends the process. *)
Inductive fetch_end :=
  | Replied (r : reply bytes)
  | Waiting
  | Crashed (w : string).

(** [frm]: the fault of reading the manifest.  The state the request leaves
    is the disk and the cache of the returned state.  A [Panic] is one of the
    handler's own goroutine, which the server recovers. *)
Definition handleFetch (frm : fault) (d : Disk) (cache : option LRUCache) (sched : nat → list nat)
    (get : bool) (rootCID : string) : outcome fetch_end * FetchState :=
  let st := {| fs_disk := d; fs_cache := cache; fs_err := None; fs_panic := None; fs_workers := [] |} in
  let replied r st := (Ok (Replied r), st) in
  if negb get then replied method_not_allowed st
  else if decide (rootCID = "") then replied (HttpError StatusBadRequest "missing 'cid' parameter") st
  else match GetManifest frm store d rootCID with
  | Panic w => (Panic w, st)
  | Err e => replied (HttpError StatusNotFound ("manifest not found: " +:+ Error e)) st
  | Ok manifest =>
      match (if decide (Signature manifest = "") then Ok () else VerifyManifest manifest) with
      | Panic w => (Panic w, st)
      | Err e => replied (HttpError StatusForbidden ("manifest signature invalid: " +:+ Error e)) st
      | Ok _ =>
          match fetch_batches (S (length (ChunkCIDs manifest))) 0 (ChunkCIDs manifest) sched st [] with
          | (None, st') => (Ok (match fs_panic st' with Some w => Crashed w | None => Waiting end), st')
          | (Some blocks, st') =>
              match fs_err st' with
              | Some e => replied (HttpError StatusNotFound (Error e)) st'
              | None => replied (Reply (concat (Data <$> blocks))) st'
              end
          end
      end
  end.

(** ** Every fair schedule completes *)

(** The steps a goroutine has left, at most. *)
Definition rank (w : worker) : nat :=
  match w with AtCache => 4 | AtStore => 3 | AtNetwork => 2 | AtPut _ => 1 | Finished _ => 0 end.

Definition rank_at (st : FetchState) (i : nat) : nat :=
  match fs_workers st !! i with Some w => rank w | None => 0 end.

Lemma rank_at_set st i j w : fs_workers st !! i = Some w →
  ∀ w', rank_at (set_worker st i w') j = if decide (i = j) then rank w' else rank_at st j.
Proof.
  intros Hi w'. unfold rank_at, set_worker. simpl. case_decide as Hij.
  - subst. by rewrite list_lookup_insert_eq by by eapply lookup_lt_Some.
  - by rewrite list_lookup_insert_ne.
Qed.

Definition never_panics : Prop := ∀ i cid w, net i cid ≠ Some (Panic w).

(** A call without a deadline keeps the goroutine of a chunk waiting. *)
Definition kept_waiting (cached : bool) (n : nat) (cid : string) : Prop :=
  cached = true ∧ lock n = false ∨ net n cid = None.

(** A node keeps its cache, or its lack of one. *)
Definition has_cache (st : FetchState) : bool := bool_decide (is_Some (fs_cache st)).

(** Goroutine [j] of the batch from chunk [n] on is where it waits for ever. *)
Definition waits (n : nat) (cids : list string) (st : FetchState) (j : nat) : Prop :=
  ∃ c, cids !! j = Some c ∧
    (fs_workers st !! j = Some AtCache ∧ has_cache st = true ∧ lock (n + j)%nat = false ∨
     fs_workers st !! j = Some AtNetwork ∧ net (n + j)%nat c = None).

Lemma waits_kept n cids st j : waits n cids st j →
  ∃ c, cids !! j = Some c ∧ kept_waiting (has_cache st) (n + j) c.
Proof. intros (c & Hc & [(_ & H)|[_ H]]); exists c; (split; [done|]); [by left|by right]. Qed.

(** A batch in progress: no panic, a goroutine for each chunk, and a cache if
    there was one. *)
Definition in_progress (c : bool) (cids : list string) (st : FetchState) : Prop :=
  fs_panic st = None ∧ length (fs_workers st) = length cids ∧ has_cache st = c.

Lemma in_progress_set c cids st st1 i w :
  in_progress c cids st → fs_panic st1 = None → fs_workers st1 = fs_workers st → has_cache st1 = c →
  in_progress c cids (set_worker st1 i w).
Proof. intros (_ & Hl & _) Hp Hw Hc. split_and!; [done|simpl; by rewrite length_insert, Hw|done]. Qed.

Lemma waits_set n cids st st1 i w j :
  fs_workers st1 = fs_workers st → has_cache st1 = has_cache st → i ≠ j →
  waits n cids st j → waits n cids (set_worker st1 i w) j.
Proof.
  intros Hw Hc Hij (c & Hj & H). exists c. split; [done|]. simpl.
  rewrite list_lookup_insert_ne, Hw by done. change (has_cache (set_worker st1 i w)) with (has_cache st1).
  by rewrite Hc.
Qed.

(** A step of goroutine [i] takes it one step on, unless it waits. *)
Lemma worker_step_progress c n cids i st :
  never_panics → in_progress c cids st →
  let st' := worker_step n cids i st in
  in_progress c cids st' ∧ (∀ j, waits n cids st j → waits n cids st' j) ∧
  ∀ j, waits n cids st' j ∨ (rank_at st' j ≤ rank_at st j - (if decide (i = j) then 1 else 0))%nat.
Proof.
  intros Hnet Hip. pose proof Hip as (Hpan & Hl & Hc). unfold worker_step. rewrite Hpan.
  assert (∀ w, fs_workers st !! i = Some w → (rank w = 0%nat ∨ waits n cids st i) →
    in_progress c cids st ∧ (∀ j, waits n cids st j → waits n cids st j) ∧
    ∀ j, waits n cids st j ∨ (rank_at st j ≤ rank_at st j - (if decide (i = j) then 1 else 0))%nat) as Hstay.
  { intros w Ew Hw. split_and!; [done|done|]. intros j. case_decide; [subst|right; lia].
    unfold rank_at. rewrite Ew. destruct Hw as [->|Hw]; [right; lia|by left]. }
  destruct (fs_workers st !! i) as [w|] eqn:Ew.
  2: { split_and!; [done|done|]. intros j. right. case_decide; [subst; unfold rank_at; rewrite Ew|]; lia. }
  destruct (cids !! i) as [ci|] eqn:Ec.
  2: { apply lookup_lt_Some in Ew. apply lookup_ge_None in Ec. lia. }
  assert (∀ st1 w', fs_panic st1 = None → fs_workers st1 = fs_workers st → has_cache st1 = c →
    (rank w' < rank w)%nat → ¬ waits n cids st i →
    let st' := set_worker st1 i w' in
    in_progress c cids st' ∧ (∀ j, waits n cids st j → waits n cids st' j) ∧
    ∀ j, waits n cids st' j ∨ (rank_at st' j ≤ rank_at st j - (if decide (i = j) then 1 else 0))%nat) as Hset.
  { intros st1 w' Hp1 Hw1 Hc1 Hr Hnw st'. split_and!; [by eapply in_progress_set| |].
    - intros j Hj. eapply waits_set; [exact Hw1|congruence| |done]. by intros ->.
    - intros j. right. unfold st'. rewrite (rank_at_set st1 i j w) by by rewrite Hw1.
      unfold rank_at. rewrite Hw1. case_decide; [|lia]. subst. rewrite Ew. lia. }
  assert (∀ w0, fs_workers st !! i = Some w0 → (w0 = AtCache ∧ has_cache st && negb (lock (n + i)%nat) = false) ∨
     (w0 = AtNetwork ∧ net (n + i)%nat ci ≠ None) ∨ (w0 ≠ AtCache ∧ w0 ≠ AtNetwork) → ¬ waits n cids st i) as Hnw.
  { intros w0 E0 H (c' & Hc' & [(E1 & H1 & H2)|[E1 H1]]); rewrite E0 in E1; injection E1 as ->;
      destruct H as [[? H]|[[? H]|[? ?]]]; try done.
    - by rewrite H1, H2 in H.
    - congruence. }
  destruct w as [| | |b|r].
  - destruct (fs_cache st) as [ch|] eqn:Ech.
    + assert (has_cache st = true) as Hhc by (unfold has_cache; rewrite Ech; by apply bool_decide_eq_true_2).
      assert (c = true) as Hct by congruence.
      destruct (lock (n + i)) eqn:El.
      * assert (¬ waits n cids st i) as Hw by (eapply Hnw; [done|left; by rewrite andb_false_r]).
        destruct (Lru.Get ch ci) as [[b|] c'];
          (apply Hset; [done|done|rewrite Hct; by apply bool_decide_eq_true_2|simpl; lia|done]).
      * apply (Hstay _ eq_refl). right. exists ci. split; [done|]. left. done.
    + apply Hset; [done|done|done|simpl; lia|].
      eapply Hnw; [done|left; split; [done|]]. unfold has_cache. rewrite Ech. by rewrite bool_decide_eq_false_2 by by intros [? ?].
  - assert (¬ waits n cids st i) as Hw by (eapply Hnw; [done|by right; right]).
    destruct (Store.Get _ store (fs_disk st) ci) as [b|e|v] eqn:Eg;
      [..|by apply Store.Get_no_panic in Eg]; (apply Hset; [done|done|done|simpl; lia|done]).
  - destruct (net (n + i) ci) as [[b|e|v]|] eqn:En; [| |by apply Hnet in En|].
    1,2: apply Hset; [done|done|done|simpl; lia|]; eapply Hnw; [done|right; left; by rewrite ?En].
    apply (Hstay _ eq_refl). right. exists ci. split; [done|]. by right.
  - destruct (Store.Put _ store (fs_disk st) b) as [r d'].
    apply Hset; [done|done|done|simpl; lia|]. eapply Hnw; [done|by right; right].
  - apply (Hstay _ eq_refl). by left.
Qed.

Lemma run_workers_progress c n cids sched st :
  never_panics → in_progress c cids st →
  let st' := run_workers n cids sched st in
  in_progress c cids st' ∧ (∀ j, waits n cids st j → waits n cids st' j) ∧
  ∀ j, waits n cids st' j ∨ (rank_at st' j ≤ rank_at st j - count_occ Nat.eq_dec sched j)%nat.
Proof.
  intros Hnet. revert st. induction sched as [|i sched IH]; intros st Hip.
  { split_and!; [done|done|]. intros j. right. simpl. lia. }
  destruct (worker_step_progress c n cids i st Hnet Hip) as (H1 & W1 & R1).
  destruct (IH _ H1) as (H2 & W2 & R2). cbn [run_workers fold_left] in *. split_and!; [done|auto|].
  intros j. destruct (R2 j) as [?|Hr2]; [by left|]. destruct (R1 j) as [?|Hr1]; [left; auto|]. right.
  revert Hr1 Hr2. unfold run_workers. cbn [count_occ]. destruct (Nat.eq_dec i j); case_decide; lia.
Qed.

Lemma all_finished ws : (∀ i w, ws !! i = Some w → rank w = 0%nat) → is_Some (mapM result_of ws).
Proof.
  intros H. apply mapM_is_Some. apply Forall_forall. intros w [i Hi]%list_elem_of_lookup.
  specialize (H i w Hi). destruct w; try discriminate. by eexists.
Qed.

(** Every goroutine of a batch gets its four steps. *)
Definition fair (sched : list nat) : Prop :=
  ∀ i, (i < fetchConcurrency)%nat → (4 ≤ count_occ Nat.eq_dec sched i)%nat.

(** The end of a batch under a fair schedule. *)
Lemma batch_end n batch sched st :
  never_panics → fair sched → (length batch ≤ fetchConcurrency)%nat → fs_panic st = None →
  let st' := run_workers n batch sched (start_batch st batch) in
  fs_panic st' = None ∧ has_cache st' = has_cache st ∧
  ((∃ j c, batch !! j = Some c ∧ kept_waiting (has_cache st) (n + j) c) ∨
   is_Some (mapM result_of (fs_workers st'))).
Proof.
  intros Hnet Hfair Hl Hp.
  destruct (run_workers_progress (has_cache st) n batch sched (start_batch st batch) Hnet) as ((H1 & H2 & H3) & _ & R).
  { split_and!; [done|apply length_replicate|done]. }
  split_and!; [done|done|]. set (st' := run_workers _ _ _ _) in *.
  destruct (decide (Forall (λ w, rank w = 0%nat) (fs_workers st'))) as [Hall|Hn].
  { right. apply all_finished. intros i w Hi. rewrite Forall_forall in Hall. by eapply Hall, list_elem_of_lookup_2. }
  left. apply not_Forall_Exists in Hn; [|apply _]. apply Exists_exists in Hn as (w & [j Hj]%list_elem_of_lookup & Hw).
  pose proof (lookup_lt_Some _ _ _ Hj) as Hlt. rewrite H2 in Hlt.
  destruct (R j) as [Hwait|Hr].
  - apply waits_kept in Hwait as (c & Hc & Hk). rewrite H3 in Hk. by exists j, c.
  - exfalso. apply Hw. unfold rank_at in Hr. rewrite Hj in Hr. cbn [start_batch fs_workers] in Hr.
    rewrite lookup_replicate_2 in Hr by done. change (rank AtCache) with 4%nat in Hr.
    specialize (Hfair j ltac:(lia)). lia.
Qed.

Lemma fetch_batches_complete fuel n cids sched st blocks :
  never_panics → (∀ n, fair (sched n)) → (length cids < fuel)%nat → fs_panic st = None →
  let '(r, st') := fetch_batches fuel n cids sched st blocks in
  fs_panic st' = None ∧
  (is_Some r ∨ ∃ k c, cids !! k = Some c ∧ kept_waiting (has_cache st) (n + k) c).
Proof.
  intros Hnet Hfair. revert n cids st blocks.
  induction fuel as [|fuel IH]; intros n cids st blocks Hl Hp; [lia|].
  cbn [fetch_batches]. case_decide as Hc; [split; [done|left; by eexists]|].
  set (batch := take fetchConcurrency cids).
  destruct (batch_end n batch (sched n) st Hnet (Hfair n)) as (Hp' & Hc' & Hend);
    [unfold batch; rewrite length_take; lia|done|].
  set (st1 := run_workers _ _ _ _) in *. rewrite Hp'.
  assert (∀ j c, batch !! j = Some c → cids !! j = Some c) as Hin.
  { intros j c Hj. unfold batch in Hj. by apply lookup_take_Some in Hj as [? _]. }
  destruct (mapM result_of (fs_workers st1)) as [bs|] eqn:Em.
  - destruct (fs_err st1); [split; [done|left; by eexists]|].
    specialize (IH (n + fetchConcurrency)%nat (drop fetchConcurrency cids) st1 (blocks ++ bs)).
    destruct (fetch_batches _ _ _ _ _ _) as [r st']. destruct IH as [H1 H2].
    { rewrite length_drop. destruct cids; [done|]. unfold fetchConcurrency. simpl in *. lia. }
    { done. }
    split; [done|]. destruct H2 as [?|(k & c & Hk & Hw)]; [by left|right].
    exists (fetchConcurrency + k)%nat, c. rewrite lookup_drop in Hk. split; [done|].
    rewrite Hc' in Hw. by rewrite Nat.add_assoc.
  - split; [done|]. right. destruct Hend as [(j & c & Hj & Hw)|[? H]]; [|congruence].
    exists j, c. split; [by apply Hin|done].
Qed.

Lemma GetManifest_no_panic f d root w : GetManifest f store d root ≠ Panic w.
Proof.
  intros Em. unfold GetManifest in Em.
  assert (∀ w', ReadFile f d (manifestPath store root) ≠ Panic w') as Hr.
  { intros w'. unfold ReadFile. by repeat case_match. }
  destruct (ReadFile f d _) as [data|e|w'] eqn:Er; simpl in Em; [|done|by destruct (Hr w')].
  pose proof (Unmarshal_Manifest_no_panic data w). by destruct (Unmarshal_Manifest data).
Qed.

(** ** A network that never answers *)

Section silence.
Context (Hsilent : ∀ i cid, net i cid = None).
Context (d : Disk) (cid : string) (Hmissing : is_ok (Store.Get None store d cid) = false).

(** The chunk is in no cache that the request has used. *)
Definition uncached (cache : option LRUCache) : Prop :=
  ∀ c, cache = Some c → wf c ∧ cached c cid = None.

Record silent_inv (cids : list string) (st : FetchState) : Prop := {
  si_disk : fs_disk st = d;
  si_cache : uncached (fs_cache st);
  si_err : fs_err st = None;
  si_workers : ∀ i w, fs_workers st !! i = Some w →
    (∀ b, w ≠ AtPut b) ∧ w ≠ Finished None ∧ (cids !! i = Some cid → rank w ≠ 0%nat)
}.

Lemma uncached_Get c k : uncached (Some c) → uncached (Some (snd (Lru.Get c k))).
Proof.
  intros H ? [= <-]. destruct (H c eq_refl) as [Hwf Hn]. split; [by apply Get_wf|].
  destruct (cached (snd (Lru.Get c k)) cid) as [b|] eqn:Eb; [|reflexivity]. apply cached_Some in Eb as [Hb Hk]; [|by apply Get_wf].
  apply Get_blocks in Hb; [|done]. assert (cached c cid = Some b) by by apply cached_Some. congruence.
Qed.

Lemma silent_step n cids i st : silent_inv cids st → silent_inv cids (worker_step n cids i st).
Proof.
  intros Hi. pose proof Hi as [Hd Hc He Hw]. unfold worker_step.
  destruct (fs_panic st); [done|]. destruct (fs_workers st !! i) as [w|] eqn:Ew; [|done].
  destruct (cids !! i) as [c|] eqn:Ec; [|done].
  assert (∀ st1 w', fs_disk st1 = d → uncached (fs_cache st1) → fs_err st1 = None → fs_workers st1 = fs_workers st →
    (∀ b, w' ≠ AtPut b) → w' ≠ Finished None → (c = cid → rank w' ≠ 0%nat) →
    silent_inv cids (set_worker st1 i w')) as Hset.
  { intros st1 w' H1 H2 H3 H4 H5 H6 H7. split; [done..|]. intros j wj. simpl. rewrite H4.
    intros [(<- & <- & _)|[_ Hj]]%list_lookup_insert_Some; [|by apply Hw].
    split_and!; [done|done|]. rewrite Ec. intros [= ->]. by apply H7. }
  destruct (Hw i w Ew) as (Hput & Hnone & Hrank).
  destruct w as [| | |b|r].
  - destruct (fs_cache st) as [ch|] eqn:Ech; [|apply Hset; [done|by rewrite Ech|done..|by intros]].
    destruct (lock (n + i)); [|done]. pose proof (uncached_Get ch c Hc) as Hc'.
    assert (∀ b, fst (Lru.Get ch c) = Some b → c ≠ cid) as Hg.
    { intros b. rewrite Get_cached. intros Hb ->. destruct (Hc ch eq_refl) as [_ Hn]. congruence. }
    destruct (Lru.Get ch c) as [[b|] c']; (apply Hset; [done..| |]); try done.
    intros Hcc. by destruct (Hg b eq_refl).
  - destruct (Store.Get _ store (fs_disk st) c) as [b|e|v] eqn:Eg; [| |by apply Store.Get_no_panic in Eg];
      (apply Hset; [done..|]); [|done].
    intros ->. pose proof Eg as (Hf & _)%Store.Get_Ok. rewrite Hf, Hd in Eg. by rewrite Eg in Hmissing.
  - by rewrite Hsilent.
  - by destruct (Hput b).
  - done.
Qed.

Lemma silent_run n cids sched st : silent_inv cids st → silent_inv cids (run_workers n cids sched st).
Proof. revert st. induction sched as [|i l IH]; intros st Hi; [done|]. by apply IH, silent_step. Qed.

Lemma fetch_batches_silent fuel n cids sched st blocks :
  cid ∈ cids → fs_disk st = d → uncached (fs_cache st) → fs_err st = None →
  fst (fetch_batches fuel n cids sched st blocks) = None.
Proof.
  revert n cids st blocks. induction fuel as [|fuel IH]; intros n cids st blocks Hin Hd Hc He; [done|].
  cbn [fetch_batches]. rewrite decide_False by (intros ->; by apply elem_of_nil in Hin).
  set (batch := take fetchConcurrency cids).
  assert (silent_inv batch (run_workers n batch (sched n) (start_batch st batch))) as [Hd1 Hc1 He1 Hw1].
  { apply silent_run. split; [done..|]. intros i w [-> _]%lookup_replicate_1. split_and!; done. }
  set (st1 := run_workers _ _ _ _) in *. destruct (fs_panic st1); [done|].
  destruct (mapM result_of (fs_workers st1)) as [bs|] eqn:Em; [|done]. rewrite He1. apply IH; [|done..].
  rewrite <-(take_drop fetchConcurrency cids) in Hin. apply elem_of_app in Hin as [Hin|?]; [exfalso|done].
  apply list_elem_of_lookup in Hin as [i Hi]. fold batch in Hi.
  assert (length (fs_workers st1) = length batch) as Hl.
  { unfold st1, run_workers. generalize (sched n). intros l.
    assert (∀ st0, length (fs_workers (fold_left (λ st i, worker_step n batch i st) l st0)) =
      length (fs_workers st0)) as ->; [|apply length_replicate].
    induction l as [|k l IHl]; intros st0; [done|]. cbn [fold_left]. rewrite IHl. unfold worker_step.
    repeat case_match; simpl; by rewrite ?length_insert. }
  destruct (lookup_lt_is_Some_2 (fs_workers st1) i) as [w Ew]; [rewrite Hl; by eapply lookup_lt_Some|].
  destruct (Hw1 i w Ew) as (_ & _ & Hr). specialize (Hr Hi).
  apply mapM_Some_1 in Em. eapply Forall2_lookup_l in Em as (b & _ & Hb); [|exact Ew].
  by destruct w.
Qed.
End silence.

(** C24: every fetch ends with a reply, under any schedule that lets every
    goroutine of a batch take its four steps, unless one of two calls that
    have no deadline does not return for one of the chunks: taking the
    cache's lock, or asking the network (none of the network calls
    panicking).  And it takes a network that answers: if no network call
    returns, no schedule ends a fetch one of whose chunks is neither in the
    cache nor in the store. *)
Theorem handleFetch_completes (frm : fault) (d : Disk) (cache : option LRUCache)
    (sched : nat → list nat) (get : bool) (rootCID : string) :
  (never_panics → (∀ n, fair (sched n)) →
   let r := fst (handleFetch frm d cache sched get rootCID) in
   (∃ rep, r = Ok (Replied rep)) ∨
   r = Ok Waiting ∧ ∃ m n c, GetManifest frm store d rootCID = Ok m ∧ ChunkCIDs m !! n = Some c ∧
     kept_waiting (bool_decide (is_Some cache)) n c) ∧
  ((∀ i cid, net i cid = None) → ∀ m cid, rootCID ≠ "" → GetManifest frm store d rootCID = Ok m →
   (Signature m = "" ∨ VerifyManifest m = Ok ()) → cid ∈ ChunkCIDs m →
   is_ok (Store.Get None store d cid) = false → uncached cid cache →
   ∀ rep, fst (handleFetch frm d cache sched true rootCID) ≠ Ok (Replied rep)).
Proof.
  set (st0 := {| fs_disk := d; fs_cache := cache; fs_err := None; fs_panic := None; fs_workers := [] |}).
  split.
  - intros Hnet Hfair. unfold handleFetch. destruct (negb get); [left; by eexists|].
    case_decide; [left; by eexists|].
    destruct (GetManifest frm store d rootCID) as [m|e|w] eqn:Em;
      [|left; by eexists|by apply GetManifest_no_panic in Em].
    destruct (if decide (Signature m = "") then Ok () else VerifyManifest m) as [u|e|w] eqn:Ev;
      [|left; by eexists|case_decide; [done|by apply VerifyManifest_no_panic in Ev]].
    pose proof (fetch_batches_complete (S (length (ChunkCIDs m))) 0 (ChunkCIDs m) sched st0 [] Hnet Hfair
      (Nat.lt_succ_diag_r _) eq_refl) as Hend. fold st0.
    destruct (fetch_batches _ _ _ _ _ _) as [[bs|] st'].
    + left. destruct (fs_err st'); by eexists.
    + destruct Hend as (-> & [[? Hno]|(k & c & Hk & Hw)]); [done|]. right. split; [done|]. by exists m, k, c.
  - intros Hsil m cid Hroot Em Hsig Hin Hmiss Hunc rep. unfold handleFetch. cbn [negb].
    rewrite decide_False, Em by done.
    assert ((if decide (Signature m = "") then Ok () else VerifyManifest m) = Ok ()) as ->.
    { case_decide; [done|]. by destruct Hsig. }
    pose proof (fetch_batches_silent Hsil d cid Hmiss (S (length (ChunkCIDs m))) 0 (ChunkCIDs m) sched st0 []
      Hin eq_refl Hunc eq_refl) as H. fold st0.
    destruct (fetch_batches _ _ _ _ _ _) as [r st']. simpl in H. subst r. simpl. by case_match.
Qed.

(** ** What a fetch returns *)

(** A write of a file that fails part way truncates it, and the store serves
    what is left ([Store.torn_write_is_served]).  [whole] is the set of
    identifiers, of blocks or of content, whose files no write tears: what
    follows holds of those. *)
Context (whole : string → Prop).

(** Every block of the store, and of the cache, with a whole identifier that
    holds no separator hashes to it.  (A request for an identifier with
    separators can read, and cache, any file that ends in [.block].) *)
Definition valid_disk (d : Disk) : Prop :=
  ∀ cid b, whole cid → no_slash cid → Store.Get None store d cid = Ok b → valid_block b.
Definition valid_cache (cache : option LRUCache) : Prop :=
  ∀ c, cache = Some c → wf c ∧ Forall (λ b, whole (CID b) → no_slash (CID b) → valid_block b) (blocks c).

Lemma Put_valid f d b :
  Forall seg_ok (dir store) → valid_disk d → valid_block b → (whole (CID b) → untorn f) →
  valid_disk (snd (Store.Put f store d b)).
Proof.
  intros Hdir Hd Hb Hf cid b' Hwh Hns. unfold Store.Put.
  destruct (WriteFile f d (blockPath store (CID b)) (Data b)) as [r d'] eqn:EW. simpl.
  apply WriteFile_effect in EW as (_ & Heff & _). intros Hget.
  apply Store.Get_Ok in Hget as (_ & Hc & Hfile).
  destruct Heff as [Heq|(n & Heq & Htorn)]; rewrite Heq in Hfile.
  { apply (Hd cid); [done..|]. rewrite <-Hc in *. rewrite (Store.Get_file _ _ _ (Data b')) by done.
    by destruct b'. }
  destruct (decide (blockPath store (CID b) = blockPath store cid)) as [Hp|Hp].
  - rewrite Hp, lookup_insert_eq in Hfile.
    assert (no_slash (CID b)) as Hnb by (rewrite Hb; apply ComputeCID_no_slash).
    rewrite !blockPath_plain in Hp by done. apply app_inj_2 in Hp as [_ [= Hp]]; [|done].
    apply string_app_inj_r in Hp. rewrite <-Hp in Hwh.
    assert (¬ (n < length (Data b))%nat) as Hn.
    { intros Hlt. destruct (Htorn Hlt) as (e & He & Hw). by rewrite (Hf Hwh e He) in Hw. }
    rewrite take_ge in Hfile by lia. injection Hfile as Hdata.
    unfold valid_block in *. by rewrite Hc, <-Hp, <-Hdata.
  - rewrite lookup_insert_ne in Hfile by done. apply (Hd cid); [done..|].
    rewrite <-Hc in *. rewrite (Store.Get_file _ _ _ (Data b')) by done. by destruct b'.
Qed.

Lemma cache_Get_valid c k : valid_cache (Some c) →
  valid_cache (Some (snd (Lru.Get c k))) ∧
  ∀ b, fst (Lru.Get c k) = Some b → CID b = k ∧ (whole k → no_slash k → valid_block b).
Proof.
  intros Hc. destruct (Hc c eq_refl) as [Hwf Hv]. rewrite Forall_forall in Hv. split.
  - intros c' [= <-]. split; [by apply Get_wf|]. apply Forall_forall. intros b Hb.
    apply Hv. by eapply Get_blocks.
  - intros b. rewrite Get_cached. intros [Hb <-]%cached_Some; [|done]. split; [done|by apply Hv].
Qed.

(** A goroutine holds a block of its chunk, or has left an error. *)
Definition worker_ok (err : option error) (cid : string) (w : worker) : Prop :=
  match w with
  | AtPut b | Finished (Some b) => CID b = cid ∧ valid_block b
  | Finished None => is_Some err
  | _ => True
  end.

Record fetch_inv (cids : list string) (st : FetchState) : Prop := {
  inv_disk : valid_disk (fs_disk st);
  inv_cache : valid_cache (fs_cache st);
  inv_workers : Forall2 (worker_ok (fs_err st)) cids (fs_workers st)
}.

Definition net_valid : Prop := ∀ i cid b, net i cid = Some (Ok b) → CID b = cid ∧ valid_block b.
Definition clean_writes : Prop := ∀ i cid, whole cid → untorn (fw i cid).
(** Chunks the guarantees are about. *)
Definition sound_cid (cid : string) : Prop := whole cid ∧ no_slash cid.

Section integrity.
Context (Hdir : Forall seg_ok (dir store)) (Hnet : net_valid) (Hfw : clean_writes).

Lemma worker_ok_set err cids ws i cid w :
  Forall2 (worker_ok err) cids ws → cids !! i = Some cid → worker_ok err cid w →
  Forall2 (worker_ok err) cids (<[i := w]> ws).
Proof.
  intros H Hc Hw. rewrite <-(list_insert_id cids i cid Hc). by apply Forall2_insert.
Qed.

Lemma worker_ok_err e cids ws err :
  Forall2 (worker_ok err) cids ws → Forall2 (worker_ok (Some (default e err))) cids ws.
Proof.
  intros H. eapply Forall2_impl; [exact H|]. intros c [| | |b|[b|]]; simpl; try done.
Qed.

Lemma worker_step_inv n cids i st :
  Forall sound_cid cids → fetch_inv cids st → fetch_inv cids (worker_step n cids i st).
Proof.
  intros Hns Hinv. pose proof Hinv as [Hd Hc Hw]. unfold worker_step.
  destruct (fs_panic st); [done|].
  destruct (fs_workers st !! i) as [w|] eqn:Ew; [|done].
  destruct (cids !! i) as [c|] eqn:Ec; [|done].
  assert (sound_cid c) as [Hwc Hnc] by (rewrite Forall_forall in Hns; by eapply Hns, list_elem_of_lookup_2).
  assert (worker_ok (fs_err st) c w) as Hwi by (by eapply Forall2_lookup_lr).
  destruct w as [| | |b|r].
  - destruct (fs_cache st) as [ch|] eqn:Ech.
    + destruct (lock (n + i)); [|done]. destruct (cache_Get_valid ch c Hc) as [Hc' Hb].
      destruct (Lru.Get ch c) as [[b|] c']; (split; [done|done|]);
        (eapply worker_ok_set; [done|done|]); [|done].
      destruct (Hb b eq_refl) as [Hcb Hvb]. split; [done|by apply Hvb].
    + split; [done| |by eapply worker_ok_set]. simpl. by rewrite Ech.
  - destruct (Store.Get _ store (fs_disk st) c) as [b|e|v] eqn:Eg; [| |by apply Store.Get_no_panic in Eg];
      (split; [done|done|]); (eapply worker_ok_set; [done|done|]); [|done].
    pose proof Eg as (Hf & Hcb & _)%Store.Get_Ok. rewrite Hf in Eg. split; [done|by eapply Hd].
  - destruct (net (n + i) c) as [[b|e|v]|] eqn:En; [| |by split|done]; split; try done.
    + eapply worker_ok_set; [done|done|]. by apply (Hnet (n + i)%nat c b).
    + simpl. eapply worker_ok_set; [by apply worker_ok_err|done|by eexists].
  - destruct (Store.Put _ store (fs_disk st) b) as [r d'] eqn:EP. split; [|done|].
    + replace d' with (snd (Store.Put (fw (n + i)%nat (CID b)) store (fs_disk st) b)) by by rewrite EP.
      apply Put_valid; [done|done|apply Hwi|apply Hfw].
    + by eapply worker_ok_set.
  - done.
Qed.

Lemma run_workers_inv n cids sched st :
  Forall sound_cid cids → fetch_inv cids st → fetch_inv cids (run_workers n cids sched st).
Proof.
  intros Hns. revert st. induction sched as [|i sched IH]; intros st Hi; [done|].
  by apply IH, worker_step_inv.
Qed.

Lemma results_ok cids ws bs :
  Forall2 (worker_ok None) cids ws → mapM result_of ws = Some bs →
  CID <$> bs = cids ∧ Forall valid_block bs.
Proof.
  intros H. revert bs. induction H as [|c w cids ws Hw _ IH]; intros bs; simpl; [by intros [= <-]|].
  intros (r & Hr & (bs' & Hbs & [= <-])%bind_Some)%bind_Some.
  destruct (IH bs' Hbs) as [<- Hv].
  destruct w as [| | |b|[b|]]; try discriminate; [|by destruct Hw].
  injection Hr as <-. destruct Hw as [<- Hvb]. simpl. split; [done|by constructor].
Qed.

(** However a fetch ends, disk and cache stay valid; the blocks of a complete
    one are the chunks. *)
Lemma fetch_batches_ok fuel n cids sched st blocks :
  Forall sound_cid cids → valid_disk (fs_disk st) → valid_cache (fs_cache st) → fs_err st = None →
  let '(r, st') := fetch_batches fuel n cids sched st blocks in
  valid_disk (fs_disk st') ∧ valid_cache (fs_cache st') ∧
  ∀ bs, r = Some bs → fs_err st' = None →
    ∃ bs', bs = blocks ++ bs' ∧ CID <$> bs' = cids ∧ Forall valid_block bs'.
Proof.
  revert n cids st blocks. induction fuel as [|fuel IH]; intros n cids st blocks Hns Hd Hc He; [done|].
  cbn [fetch_batches]. case_decide as Hnil.
  { split_and!; [done|done|]. intros bs [= <-] _. exists []. rewrite app_nil_r. by subst. }
  set (batch := take fetchConcurrency cids).
  assert (Forall sound_cid batch ∧ Forall sound_cid (drop fetchConcurrency cids)) as [Hnb Hnd]
    by (apply Forall_app; unfold batch; by rewrite take_drop).
  assert (fetch_inv batch (run_workers n batch (sched n) (start_batch st batch))) as [Hd1 Hc1 Hw1].
  { apply run_workers_inv; [done|]. split; [done|done|]. simpl.
    apply Forall2_replicate_r; [done|]. by apply Forall_forall. }
  set (st1 := run_workers _ _ _ _) in *. destruct (fs_panic st1); [done|].
  destruct (mapM result_of (fs_workers st1)) as [bs1|] eqn:Ebs; [|done].
  destruct (fs_err st1) as [e|] eqn:Ee1.
  { split_and!; [done|done|]. intros bs _ Herr. congruence. }
  destruct (results_ok _ _ _ Hw1 Ebs) as [Hcid Hv].
  specialize (IH (n + fetchConcurrency)%nat _ st1 (blocks ++ bs1) Hnd Hd1 Hc1 Ee1).
  destruct (fetch_batches _ _ _ _ _ _) as [r st']. destruct IH as (Hd' & Hc' & Hbs).
  split_and!; [done|done|]. intros bs Hr Herr. destruct (Hbs bs Hr Herr) as (bs' & -> & Hcid' & Hv').
  exists (bs1 ++ bs'). rewrite app_assoc, fmap_app, Hcid, Hcid'.
  split_and!; [done|apply take_drop|by apply Forall_app].
Qed.

(** A body is only ever made of valid blocks, in the manifest's order; and
    however the request ends, it leaves valid blocks only. *)
Lemma handleFetch_valid (frm : fault) (d : Disk) (cache : option LRUCache)
    (sched : nat → list nat) (rootCID : string) :
  valid_disk d → valid_cache cache →
  (∀ m, GetManifest frm store d rootCID = Ok m → Forall sound_cid (ChunkCIDs m)) →
  let '(r, st') := handleFetch frm d cache sched true rootCID in
  valid_disk (fs_disk st') ∧ valid_cache (fs_cache st') ∧
  ∀ body, r = Ok (Replied (Reply body)) →
  ∃ m blocks, GetManifest frm store d rootCID = Ok m ∧
    (Signature m = "" ∨ VerifyManifest m = Ok ()) ∧
    body = concat (Data <$> blocks) ∧ CID <$> blocks = ChunkCIDs m ∧ Forall valid_block blocks.
Proof.
  intros Hd Hc Hns. unfold handleFetch. cbn [negb].
  case_decide as Hroot; [done|].
  destruct (GetManifest frm store d rootCID) as [m|e|w] eqn:Em; [|done|done].
  assert (∀ u, (if decide (Signature m = "") then Ok () else VerifyManifest m) = Ok u →
    Signature m = "" ∨ VerifyManifest m = Ok ()) as Hsig.
  { intros []. case_decide; [by left|by right]. }
  destruct (if decide (Signature m = "") then Ok () else VerifyManifest m) as [u|e|w]; [|done|done].
  set (st0 := {| fs_disk := d; fs_cache := cache; fs_err := None; fs_panic := None; fs_workers := [] |}).
  pose proof (fetch_batches_ok (S (length (ChunkCIDs m))) 0 (ChunkCIDs m) sched st0 []
    (Hns m eq_refl) Hd Hc eq_refl) as H.
  destruct (fetch_batches _ _ _ _ _ _) as [[bs|] st']; destruct H as (Hd' & Hc' & Hbs); [|split_and!; [done|done|]; intros body; by destruct (fs_panic st')].
  destruct (fs_err st') as [e|]; [by split_and!|]. split_and!; [done|done|].
  intros body [= <-]. destruct (Hbs bs eq_refl eq_refl) as (bs' & Hb & Hcid & Hv).
  exists m, bs'. simpl in Hb. subst. split_and!; try done. by eapply Hsig.
Qed.

End integrity.

(** ** Content that is all local *)

Section local_fetch.
Context (Hfr : ∀ i, fr i = None).

(** Chunks the store has. *)
Definition stored (d : Disk) (cid : string) : Prop := is_ok (Store.Get None store d cid) = true.

Definition local_worker (w : worker) : Prop :=
  match w with AtCache | AtStore | Finished (Some _) => True | _ => False end.

Record local_inv (d : Disk) (cids : list string) (st : FetchState) : Prop := {
  li_disk : fs_disk st = d;
  li_err : fs_err st = None;
  li_workers : Forall local_worker (fs_workers st)
}.

Lemma worker_step_local d n cids i st :
  Forall (stored d) cids → local_inv d cids st → local_inv d cids (worker_step n cids i st).
Proof.
  intros Hs Hinv. pose proof Hinv as [Hd He Hw]. unfold worker_step. destruct (fs_panic st); [done|].
  destruct (fs_workers st !! i) as [w|] eqn:Ew; [|done].
  destruct (cids !! i) as [c|] eqn:Ec; [|done].
  assert (local_worker w) as Hwi by (rewrite Forall_forall in Hw; by eapply Hw, list_elem_of_lookup_2).
  assert (∀ st1 w', fs_disk st1 = d → fs_err st1 = None → fs_workers st1 = fs_workers st →
    local_worker w' → local_inv d cids (set_worker st1 i w')) as Hset.
  { intros st1 w' H1 H2 H3 H4. split; [done|done|]. simpl. rewrite H3. by apply Forall_insert. }
  destruct w as [| | |b|r].
  - destruct (fs_cache st) as [ch|]; [|by apply Hset]. destruct (lock _); [|done].
    destruct (Lru.Get ch c) as [[b|] c']; by apply Hset.
  - assert (stored d c) as Hst by (rewrite Forall_forall in Hs; by eapply Hs, list_elem_of_lookup_2).
    rewrite Hfr, Hd. unfold stored in Hst. destruct (Store.Get None store d c); [by apply Hset|done|done].
  - done.
  - done.
  - done.
Qed.

Lemma run_workers_local d n cids sched st :
  Forall (stored d) cids → local_inv d cids st → local_inv d cids (run_workers n cids sched st).
Proof.
  intros Hs. revert st. induction sched as [|i sched IH]; intros st Hi; [done|].
  by apply IH, worker_step_local.
Qed.

Lemma start_batch_local d st batch :
  fs_disk st = d → fs_err st = None → local_inv d batch (start_batch st batch).
Proof. intros Hd He. split; [done|done|]. simpl. by apply Forall_replicate. Qed.

(** No goroutine fails. *)
Lemma fetch_batches_local d fuel n cids sched st blocks :
  Forall (stored d) cids → fs_disk st = d → fs_err st = None →
  fs_err (snd (fetch_batches fuel n cids sched st blocks)) = None.
Proof.
  revert n cids st blocks. induction fuel as [|fuel IH]; intros n cids st blocks Hs Hd He; [done|].
  cbn [fetch_batches]. case_decide; [done|].
  set (batch := take fetchConcurrency cids).
  destruct (run_workers_local d n batch (sched n) (start_batch st batch)) as [Hd1 He1 _];
    [by apply Forall_take|by apply start_batch_local|].
  destruct (fs_panic _); [done|]. destruct (mapM result_of _); [|done].
  rewrite He1. apply IH; [by apply Forall_drop|done|done].
Qed.

End local_fetch.
End fetch.

(** A fetch of local content asks neither the network nor the disk to write,
    so it does not depend on what they would answer. *)

Section local_independence.
Context `{JE : JSONErrors, E : Ed25519}.
Context (store : Store) (fr : nat → fault) (fw fw' : nat → string → fault) (lock : nat → bool)
  (net net' : nat → string → blocking Block).
Context (Hfr : ∀ i, fr i = None).

Lemma worker_step_local_net d n cids i st :
  Forall (stored store d) cids → local_inv d cids st →
  worker_step store fr fw lock net n cids i st = worker_step store fr fw' lock net' n cids i st.
Proof.
  intros Hs [Hd He Hw]. unfold worker_step. destruct (fs_panic st); [done|].
  destruct (fs_workers st !! i) as [w|] eqn:Ew; [|done].
  destruct (cids !! i) as [c|] eqn:Ec; [|done].
  assert (local_worker w) as Hwi by (rewrite Forall_forall in Hw; by eapply Hw, list_elem_of_lookup_2).
  by destruct w.
Qed.

Lemma run_workers_local_net d n cids sched st :
  Forall (stored store d) cids → local_inv d cids st →
  run_workers store fr fw lock net n cids sched st = run_workers store fr fw' lock net' n cids sched st.
Proof.
  intros Hs. revert st. induction sched as [|i sched IH]; intros st Hi; [done|].
  unfold run_workers in *. cbn [fold_left]. rewrite (worker_step_local_net d) by done.
  apply IH. by apply worker_step_local.
Qed.

Lemma fetch_batches_local_net d fuel n cids sched st blocks :
  Forall (stored store d) cids → fs_disk st = d → fs_err st = None →
  fetch_batches store fr fw lock net fuel n cids sched st blocks =
  fetch_batches store fr fw' lock net' fuel n cids sched st blocks.
Proof.
  revert n cids st blocks. induction fuel as [|fuel IH]; intros n cids st blocks Hs Hd He; [done|].
  cbn [fetch_batches]. case_decide; [done|]. set (batch := take fetchConcurrency cids).
  pose proof (start_batch_local d st batch Hd He) as Hi.
  assert (Forall (stored store d) batch) as Hb by by apply Forall_take.
  rewrite (run_workers_local_net d) by done.
  destruct (run_workers_local store fr fw' lock net' Hfr d n batch (sched n) (start_batch st batch) Hb Hi)
    as [Hd1 He1 _].
  destruct (fs_panic _); [done|]. destruct (mapM result_of _); [|done].
  rewrite He1. apply IH; [by apply Forall_drop|done|done].
Qed.

End local_independence.
