(* ===== verification/Providers.v ===== *)
(** * Content routing and provider selection ([internal/content/routing.go],
    and [fetchBlockFromNetwork] of [internal/node/api.go])

    A block that is not local is looked for in the DHT; its providers are
    ordered by path quality, those whose Bloom filter claims the block come
    first, and they are raced and then tried one after the other, without a
    deadline: a provider that accepts the stream and stays silent is waited
    for.  (The lookup in the DHT has one, of 15 seconds.) *)

From stdpp Require Import sorting.
From S2P Require Import Prelude Float64 Runtime Path Policy Stream Chunker Bloom Probe Manager BlockTransfer CacheSummary.

(** ** The content router *)

(** Packages go-multihash and go-cid, and the Kademlia DHT. *)
Class Multiformats := {
  mh_Sum : bytes → outcome bytes;
  NewCidV1 : bytes → string
}.

Record AddrInfo := { ai_ID : peer_ID; ai_Addrs : list string }.

Record DHT := {
  dht_Provide : string → outcome unit;
  dht_FindProviders : string → Z → list AddrInfo      (* the channel's items, in order *)
}.

Section routing.
Context `{MF : Multiformats}.

Definition cidFromString (s : string) : outcome string :=
  hash ← wrap_err "compute multihash" (mh_Sum (to_bytes s));
  mret (NewCidV1 hash).

Definition Provide (cr : DHT) (contentCID : string) : outcome unit :=
  c ← wrap_err "create CID" (cidFromString contentCID);
  wrap_err ("provide CID " +:+ contentCID) (dht_Provide cr c).

Definition FindProviders (cr : DHT) (contentCID : string) (maxPeers : Z) : outcome (list AddrInfo) :=
  c ← wrap_err "create CID" (cidFromString contentCID);
  mret (List.filter (λ p, negb (bool_decide (ai_ID p = ""))) (dht_FindProviders cr c maxPeers)).

(** The announcements it makes, each with its result; failures are logged. *)
Definition ProvideBlocks (cr : DHT) (m : Manifest) : outcome unit * list (string * outcome unit) :=
  (Ok (), (λ c, (c, Provide cr c)) <$> (RootCID m :: ChunkCIDs m)).
End routing.

(** ** Provider selection *)

Section providers.
Context `{ML : MathLib, LA : LinAlg, PID : PeerID, MF : Multiformats}.

(** Success rate over RTT; [-1] without a path. *)
Definition provider_score (best : option Path) : float64 :=
  match best with
  | None => minus1
  | Some p =>
      let m := path_Metrics p in
      if 0 <? AvgRTT m then fdiv (SuccessRate m) (Seconds (AvgRTT m)) else SuccessRate m
  end.

(** [os i]: the runtime's order for the [i]-th iteration over a path set. *)
Fixpoint score_providers (os : nat → order) (hour : Z) (m : Manager) (i : nat)
    (providers : list AddrInfo) : Rand (list (AddrInfo * float64) * Manager) :=
  match providers with
  | [] => mret ([], m)
  | p :: providers' =>
      '(best, m1) ← BestPath (os i) hour m (ai_ID p);
      '(rest, m2) ← score_providers os hour m1 (S i) providers';
      mret ((p, provider_score best) :: rest, m2)
  end.

Definition sortProvidersByPathQuality (os : nat → order) (hour : Z) (m : Manager)
    (providers : list AddrInfo) : Rand (list AddrInfo * Manager) :=
  '(scores, m') ← score_providers os hour m 0 providers;
  mret (fst <$> insertion_sort scores, m').

(** The providers a filter claims the block for, and the rest. *)
Fixpoint partition_cached (blooms : PeerBloomStore) (cid : string) (providers : list AddrInfo)
  : outcome (list AddrInfo * list AddrInfo) :=
  match providers with
  | [] => mret ([], [])
  | p :: providers' =>
      may ← PeerMayHave blooms (ai_ID p) cid;
      '(cached, rest) ← partition_cached blooms cid providers';
      mret (if (may : bool) then (p :: cached, rest) else (cached, p :: rest))
  end.

Definition boostCachedProviders (providers : list AddrInfo) (blooms : PeerBloomStore) (cid : string)
  : outcome (list AddrInfo) :=
  '(cached, rest) ← partition_cached blooms cid providers; mret (cached ++ rest).

(** ** Fetching from providers *)

Definition no_provider (cid : string) : error := Errorf ("no provider had block " +:+ cid).

(** The first provider that serves the block; a failure is logged by [log]. *)
Fixpoint try_serial (log : peer_ID → outcome unit) (env : peer_ID → stream_env) (cid : string)
    (providers : list AddrInfo) : blocking (option (peer_ID * Block)) :=
  match providers with
  | [] => mret None
  | p :: providers' =>
      match FetchBlock (env (ai_ID p)) cid with
      | Some (Ok b) => mret (Some (ai_ID p, b))
      | Some (Err _) => _ ← now (log (ai_ID p)); try_serial log env cid providers'
      | Some (Panic w) => now (Panic w)
      | None => None
      end
  end.

Definition fetchBlockSerial (env : peer_ID → stream_env) (cid : string) (providers : list AddrInfo)
  : blocking Block :=
  r ← try_serial (λ _, mret ()) env cid providers;
  match r with Some (_, b) => mret b | None => now (Err (no_provider cid)) end.

(** The results in their order of arrival: the first success wins.  A result
    that never arrives ([waiting]: there has been one) is waited for once the
    others have failed. *)
Fixpoint race (results : list (blocking Block)) (waiting : bool) (lastErr : error) : blocking Block :=
  match results with
  | [] => if waiting then None else now (Err (Wrapf "all multipath fetches failed" lastErr))
  | Some (Ok b) :: _ => mret b
  | Some (Err e) :: results' => race results' waiting e
  | Some (Panic w) :: _ => now (Panic w)
  | None :: results' => race results' true lastErr
  end.

(** [arrive]: the order in which the goroutines finish. *)
Definition fetchBlockMultipath (arrive : order) (env : peer_ID → stream_env) (cid : string)
    (pm : option Manager) (providers : list AddrInfo) : blocking Block :=
  if negb (bool_decide (is_Some pm)) || (zlen providers <? 2) then fetchBlockSerial env cid providers
  else race (iter arrive ((λ p, FetchBlock (env (ai_ID p)) cid) <$> providers)) false (Errorf "").

(** What a failed serial attempt logs. *)
Definition log_peer (p : peer_ID) : outcome unit := _ ← first8 (peer_String p); mret ().

(** [len(filtered) >= 2 && a.node.PathManager != nil] *)
Definition races (pm : option Manager) (ordered : list AddrInfo) : bool :=
  (2 <=? zlen ordered) && bool_decide (is_Some pm).

(** The race, when there are two providers and a path manager, then the
    fallback; [race_env] and [serial_env] are the network during the two.
    With metrics on, a serial success asks for the best path once more. *)
Definition fetch_ordered (pm : option Manager) (metrics : bool) (o : order) (hour : Z)
    (arrive : order) (race_env serial_env : peer_ID → stream_env) (blockCID : string)
    (ordered : list AddrInfo) : Rand (blocking Block * option Manager) :=
  let raced := if races pm ordered then fetchBlockMultipath arrive race_env blockCID pm ordered
               else now (Err (Errorf "")) in
  match raced with
  | Some (Ok b) => mret (Some (Ok b), pm)
  | Some (Panic w) => mret (now (Panic w), pm)
  | None => mret (None, pm)
  | Some (Err _) =>
      match try_serial log_peer serial_env blockCID ordered with
      | Some (Ok (Some (p, b))) =>
          match pm, metrics with
          | Some m, true => '(_, m') ← BestPath o hour m p; mret (Some (Ok b), Some m')
          | _, _ => mret (Some (Ok b), pm)
          end
      | Some (Ok None) => mret (now (Err (no_provider blockCID)), pm)
      | Some (Err e) => mret (now (Err e), pm)
      | Some (Panic w) => mret (now (Panic w), pm)
      | None => mret (None, pm)
      end
  end.

Definition sort_if_managed (os : nat → order) (hour : Z) (pm : option Manager)
    (providers : list AddrInfo) : Rand (list AddrInfo * option Manager) :=
  match pm with
  | Some m => '(l, m') ← sortProvidersByPathQuality os hour m providers; mret (l, Some m')
  | None => mret (providers, None)
  end.

Definition fetchBlockFromNetwork (router : option DHT) (self : peer_ID) (pm : option Manager)
    (blooms : option PeerBloomStore) (metrics : bool) (os : nat → order) (hour : Z) (arrive : order)
    (race_env serial_env : peer_ID → stream_env) (blockCID : string)
  : Rand (blocking Block * option Manager) :=
  match router with
  | None => mret (now (Err (Errorf "no content router")), pm)
  | Some cr =>
      match wrap_err "find providers" (FindProviders cr blockCID 10) with
      | Err e => mret (now (Err e), pm)
      | Panic w => mret (now (Panic w), pm)
      | Ok providers =>
          let filtered := List.filter (λ p, negb (bool_decide (ai_ID p = self))) providers in
          if decide (filtered = []) then mret (now (Err (no_provider blockCID)), pm)
          else
            '(sorted, pm1) ← sort_if_managed os hour pm filtered;
            match (match blooms with
                   | Some bl => boostCachedProviders sorted bl blockCID
                   | None => Ok sorted
                   end) with
            | Panic w => mret (now (Panic w), pm1)
            | Err e => mret (now (Err e), pm1)
            | Ok ordered =>
                fetch_ordered pm1 metrics (os (length filtered)) hour arrive race_env serial_env
                  blockCID ordered
            end
      end
  end.

(** ** Lemmas *)

Lemma BestPath_known o hour m target g r m' g' :
  BestPath o hour m target g = ((r, m'), g') →
  pathSets m' = pathSets m ∧ ∀ q, r = Some q → ∃ ps id, pathSets m !! target = Some ps ∧ Get ps id = Some q.
Proof.
  unfold BestPath. destruct (pathSets m !! target) as [ps|] eqn:E; [|by intros [= <- <- _]].
  unfold mbind, Rand_bind. pose proof (select_path_spec o hour (policy m) ps g) as H.
  destruct (select_path _ _ _ _ _) as [[r' pol'] g1]. destruct H as (_ & Hin & _).
  intros [= -> <- _]. split; [done|]. intros q Hq. apply Hin in Hq.
  apply elem_of_range_values in Hq as [id Hid]. by exists ps, id.
Qed.

(** A score is that of a path the manager knows to the provider. *)
Definition scores_known (m : Manager) (x : AddrInfo * float64) : Prop :=
  ∃ best, snd x = provider_score best ∧
    ∀ q, best = Some q → ∃ ps id, pathSets m !! ai_ID (fst x) = Some ps ∧ Get ps id = Some q.

Lemma score_providers_spec os hour m i providers g :
  let '((scored, m'), g') := score_providers os hour m i providers g in
  fst <$> scored = providers ∧ Forall (scores_known m) scored ∧ pathSets m' = pathSets m.
Proof.
  revert m i g. induction providers as [|p providers IH]; intros m i g; simpl; [by repeat constructor|].
  unfold mbind, Rand_bind. destruct (BestPath (os i) hour m (ai_ID p) g) as [[best m1] g1] eqn:EB.
  apply BestPath_known in EB as [Hm1 Hbest]. specialize (IH m1 (S i) g1).
  destruct (score_providers os hour m1 (S i) providers g1) as [[rest m2] g2].
  destruct IH as (<- & Hall & Hm2). simpl. split_and!; [done| |congruence].
  constructor; [by exists best|]. eapply Forall_impl; [exact Hall|].
  intros [q s] (b & Hb & Hk). exists b. split; [done|]. by rewrite <-Hm1.
Qed.

Lemma sort_if_managed_perm os hour pm providers g :
  ∃ sorted pm1 g1, sort_if_managed os hour pm providers g = ((sorted, pm1), g1) ∧ sorted ≡ₚ providers ∧
    (is_Some pm1 ↔ is_Some pm).
Proof.
  unfold sort_if_managed. destruct pm as [m|]; [|by eexists _, _, _].
  unfold sortProvidersByPathQuality, mbind, Rand_bind.
  pose proof (score_providers_spec os hour m 0 providers g) as H.
  destruct (score_providers _ _ _ _ _ _) as [[sc m'] g']. destruct H as (Hsc & _).
  eexists _, _, _. split; [done|]. split; [by rewrite insertion_sort_perm, Hsc|].
  split; intros _; by eexists.
Qed.

(** Sorting by path quality permutes the providers, scores each by a path
    the manager knows to it (or by [-1]), puts them in decreasing order of
    score when the scores are numbers, and leaves the known paths alone. *)
Theorem sortProviders_spec (os : nat → order) (hour : Z) (m : Manager) (providers : list AddrInfo)
    (g : rng) :
  let '((l, m'), _) := sortProvidersByPathQuality os hour m providers g in
  pathSets m' = pathSets m ∧
  ∃ ranked, l = fst <$> ranked ∧ fst <$> ranked ≡ₚ providers ∧ Forall (scores_known m) ranked ∧
    (Forall (λ x, is_nan (snd x) = false) ranked →
     StronglySorted (λ x y, fle (snd y) (snd x) = true) ranked).
Proof.
  unfold sortProvidersByPathQuality, mbind, Rand_bind.
  pose proof (score_providers_spec os hour m 0 providers g) as H.
  destruct (score_providers os hour m 0 providers g) as [[scored m'] g'].
  destruct H as (<- & Hk & Hm). simpl. split; [done|]. exists (insertion_sort scored).
  split_and!; [done|by rewrite insertion_sort_perm|by rewrite insertion_sort_perm|].
  intros Hn. apply insertion_sort_by_score. by rewrite insertion_sort_perm in Hn.
Qed.

Lemma partition_cached_perm blooms cid providers c r :
  partition_cached blooms cid providers = Ok (c, r) →
  c ++ r ≡ₚ providers ∧ c = List.filter (λ p, bool_decide (PeerMayHave blooms (ai_ID p) cid = Ok true)) providers ∧
  r = List.filter (λ p, bool_decide (PeerMayHave blooms (ai_ID p) cid = Ok false)) providers.
Proof.
  revert c r. induction providers as [|p providers IH]; intros c r; [by intros [= <- <-]|].
  simpl. destruct (PeerMayHave blooms (ai_ID p) cid) as [may|e|w] eqn:Em; [|done|done].
  cbn [mbind outcome_bind].
  destruct (partition_cached blooms cid providers) as [[c1 r1]|e|w] eqn:Ep; [|done|done].
  cbn. destruct (IH c1 r1 eq_refl) as (Hp & Hc & Hr). destruct may; intros [= <- <-].
  - rewrite (bool_decide_eq_true_2 (Ok true = Ok true)), (bool_decide_eq_false_2 (Ok true = Ok false))
      by done.
    split_and!; [simpl; by rewrite Hp|by rewrite <-Hc|done].
  - rewrite (bool_decide_eq_true_2 (Ok false = Ok false)), (bool_decide_eq_false_2 (Ok false = Ok true))
      by done.
    split_and!; [by rewrite <-Permutation_middle, Hp|done|by rewrite <-Hr].
Qed.

Lemma partition_cached_ok blooms cid providers :
  (∀ p, p ∈ providers → is_ok (PeerMayHave blooms (ai_ID p) cid) = true) →
  ∃ c r, partition_cached blooms cid providers = Ok (c, r).
Proof.
  induction providers as [|p providers IH]; intros H; simpl; [by exists [], []|].
  pose proof (H p ltac:(by left)) as Hp. destruct (PeerMayHave blooms (ai_ID p) cid) as [may| |]; [|done..].
  cbn [mbind outcome_bind]. destruct IH as (c & r & ->); [intros q Hq; apply H; by right|].
  cbn. destruct may; by eexists _, _.
Qed.

Lemma partition_cached_panics blooms cid providers p w :
  p ∈ providers → PeerMayHave blooms (ai_ID p) cid = Panic w →
  (∀ q e, PeerMayHave blooms (ai_ID q) cid ≠ Err e) →
  ∃ w', partition_cached blooms cid providers = Panic w'.
Proof.
  intros Hin Hp Hne. induction providers as [|q providers IH]; [by apply elem_of_nil in Hin|].
  simpl. destruct (PeerMayHave blooms (ai_ID q) cid) as [may|e|w'] eqn:Eq;
    [|by apply Hne in Eq|by exists w'].
  cbn [mbind outcome_bind]. apply elem_of_cons in Hin as [->|Hin]; [by rewrite Hp in Eq|].
  destruct (IH Hin) as [w' ->]. by exists w'.
Qed.

(** Boosting is a stable partition: the providers whose filter claims the
    block, then the others, each group in its old order; and it fails only
    when a stored filter makes a membership test panic. *)
Theorem boostCachedProviders_spec (providers : list AddrInfo) (blooms : PeerBloomStore) (cid : string) :
  let claims b p := bool_decide (PeerMayHave blooms (ai_ID p) cid = Ok b) in
  match boostCachedProviders providers blooms cid with
  | Ok l => l = List.filter (claims true) providers ++ List.filter (claims false) providers ∧
            l ≡ₚ providers
  | _ => ∃ p, p ∈ providers ∧ is_ok (PeerMayHave blooms (ai_ID p) cid) = false
  end.
Proof.
  intros claims. unfold boostCachedProviders.
  destruct (decide (Forall (λ p, is_ok (PeerMayHave blooms (ai_ID p) cid) = true) providers)) as [Hall|Hn].
  - rewrite Forall_forall in Hall. destruct (partition_cached_ok blooms cid providers Hall) as (c & r & E).
    rewrite E. cbn. apply partition_cached_perm in E as (Hp & -> & ->). done.
  - assert (∃ p, p ∈ providers ∧ is_ok (PeerMayHave blooms (ai_ID p) cid) = false) as Hex.
    { apply not_Forall_Exists in Hn; [|apply _]. apply Exists_exists in Hn as (p & Hp & Hf).
      exists p. split; [done|]. by apply not_true_is_false. }
    destruct (partition_cached blooms cid providers) as [[c r]|e|w] eqn:E; [exfalso|exact Hex|exact Hex].
    destruct Hex as (p & Hp & Hf). apply partition_cached_perm in E as (Hperm & -> & ->).
    rewrite <-Hperm, elem_of_app, !elem_of_filter_bool, !bool_decide_eq_true in Hp.
    destruct Hp as [[_ Hp]|[_ Hp]]; by rewrite Hp in Hf.
Qed.

(** ** What the network fetch promises *)

Definition served_block (cid : string) (r : blocking Block) : Prop :=
  ∀ b, r = Some (Ok b) → CID b = cid ∧ valid_block b.

Lemma FetchBlock_valid e cid : served_block cid (FetchBlock e cid).
Proof.
  intros b. unfold FetchBlock, with_open_stream. destruct (env_open e); [done|].
  destruct (fetch_exchange cid (dial e)) as [r s'] eqn:E. destruct (s_hung s'); [done|]. intros [= ->].
  by apply fetch_exchange_integrity in E.
Qed.

(** A provider serves the block, or never answers. *)
Definition serves (env : peer_ID → stream_env) (cid : string) (p : AddrInfo) : Prop :=
  succeeded (FetchBlock (env (ai_ID p)) cid) = true.
Definition stalls (env : peer_ID → stream_env) (cid : string) (p : AddrInfo) : Prop :=
  FetchBlock (env (ai_ID p)) cid = None.

(** A result that is a valid block, an error, or no result: no panic. *)
Definition sound_result (cid : string) (r : blocking Block) : Prop :=
  served_block cid r ∧ ∀ w, r ≠ Some (Panic w).

Lemma sound_err cid e : sound_result cid (now (Err e)).
Proof. done. Qed.
Lemma sound_none cid : sound_result cid None.
Proof. done. Qed.
Lemma FetchBlock_sound e cid : sound_result cid (FetchBlock e cid).
Proof. split; [apply FetchBlock_valid|apply FetchBlock_no_panic]. Qed.
#[local] Hint Resolve sound_err sound_none : core.

(** In turn: success exactly if one serves, when all answer; and, at worst,
    an end that is not reached. *)
Lemma try_serial_spec log env cid providers :
  (∀ p, p ∈ providers → log (ai_ID p) = Ok ()) →
  match try_serial log env cid providers with
  | Some (Ok (Some (p, b))) => sound_result cid (Some (Ok b)) ∧ ∃ a, a ∈ providers ∧ serves env cid a
  | Some (Ok None) => ∀ p, p ∈ providers → ¬ serves env cid p ∧ ¬ stalls env cid p
  | None => ∃ p, p ∈ providers ∧ stalls env cid p
  | _ => False
  end.
Proof.
  unfold serves, stalls. induction providers as [|p providers IH]; intros Hlog; simpl; [set_solver|].
  destruct (FetchBlock (env (ai_ID p)) cid) as [[b|e|w]|] eqn:E.
  - cbn. rewrite <-E. split; [apply FetchBlock_sound|]. exists p. split; [by left|by rewrite E].
  - rewrite Hlog by by left. cbn [now mbind blocking_bind].
    specialize (IH (λ q Hq, Hlog q (list_elem_of_further _ _ _ Hq))).
    destruct (try_serial log env cid providers) as [[[[q b]|]|e'|w]|]; try done.
    + destruct IH as (H & a & Ha & Hs). split; [done|]. exists a. split; [by right|done].
    + intros q [->|Hq]%elem_of_cons; [by rewrite E|by apply IH].
    + destruct IH as (q & Hq & Hs). exists q. split; [by right|done].
  - by apply FetchBlock_no_panic in E.
  - exists p. split; [by left|done].
Qed.

Lemma race_spec results waiting e cid :
  Forall (sound_result cid) results →
  let r := race results waiting e in
  sound_result cid r ∧ (succeeded r = true ↔ ∃ x, x ∈ results ∧ succeeded x = true) ∧
  (r = None ↔ (∀ x, x ∈ results → succeeded x = false) ∧ (waiting = true ∨ None ∈ results)).
Proof.
  intros Hs. revert waiting e. induction Hs as [|r results [Hr Hw] _ IH]; intros waiting e; cbn [race].
  { destruct waiting; (split; [done|]); set_solver. }
  destruct r as [[b|e'|w]|]; [|specialize (IH waiting e')|by destruct (Hw w)|specialize (IH true e)].
  - split; [done|]. split; [set_solver|]. split; [done|]. intros [H _]. by specialize (H _ (list_elem_of_here _ _)).
  - destruct IH as (H1 & H2 & H3). split_and!; [done|rewrite H2|rewrite H3]; set_solver.
  - destruct IH as (H1 & H2 & H3). split_and!; [done|rewrite H2|rewrite H3]; set_solver.
Qed.

Lemma fetchBlockMultipath_race arrive env cid pm providers :
  races pm providers = true →
  let r := fetchBlockMultipath arrive env cid pm providers in
  sound_result cid r ∧ (succeeded r = true ↔ ∃ p, p ∈ providers ∧ serves env cid p) ∧
  (r = None ↔ (∀ p, p ∈ providers → ¬ serves env cid p) ∧ ∃ p, p ∈ providers ∧ stalls env cid p).
Proof.
  unfold races, fetchBlockMultipath. intros [Hl Hp]%andb_true_iff. rewrite Hp.
  rewrite (proj2 (Z.ltb_ge _ _)) by by apply Z.leb_le. cbn [negb orb].
  destruct (race_spec (iter arrive ((λ p, FetchBlock (env (ai_ID p)) cid) <$> providers)) false (Errorf "") cid)
    as (H1 & H2 & H3).
  { rewrite iter_perm. apply Forall_fmap, Forall_forall. intros. apply FetchBlock_sound. }
  split_and!; [done|rewrite H2|rewrite H3].
  - setoid_rewrite elem_of_iter. setoid_rewrite list_elem_of_fmap. unfold serves. naive_solver.
  - rewrite elem_of_iter, list_elem_of_fmap. setoid_rewrite elem_of_iter.
    setoid_rewrite list_elem_of_fmap. setoid_rewrite not_true_iff_false. unfold stalls. naive_solver.
Qed.

(** The result of a fetch from these providers: who wins, who is waited for. *)
Definition fetch_outcome (racing : bool) (race_env serial_env : peer_ID → stream_env) (cid : string)
    (ordered : list AddrInfo) (r : blocking Block) : Prop :=
  sound_result cid r ∧
  (racing = true → (∃ p, p ∈ ordered ∧ serves race_env cid p) → succeeded r = true) ∧
  (racing = true → (∀ p, p ∈ ordered → ¬ serves race_env cid p) →
    (∃ p, p ∈ ordered ∧ stalls race_env cid p) → r = None) ∧
  ((racing = true → ∀ p, p ∈ ordered → ¬ serves race_env cid p ∧ ¬ stalls race_env cid p) →
    (∀ p, p ∈ ordered → ¬ stalls serial_env cid p) →
    r ≠ None ∧ (succeeded r = true ↔ ∃ p, p ∈ ordered ∧ serves serial_env cid p)).

Lemma fetch_outcome_proper racing race_env serial_env cid l l' r :
  (∀ p, p ∈ l ↔ p ∈ l') → fetch_outcome racing race_env serial_env cid l r →
  fetch_outcome racing race_env serial_env cid l' r.
Proof. intros Hl. unfold fetch_outcome. by setoid_rewrite Hl. Qed.

(** What the serial attempts add after a race that failed or was not run. *)
Lemma serial_outcome racing race_env serial_env cid ordered r :
  sound_result cid r →
  (racing = true → ∀ p, p ∈ ordered → ¬ serves race_env cid p ∧ ¬ stalls race_env cid p) →
  (succeeded r = true → ∃ p, p ∈ ordered ∧ serves serial_env cid p) →
  (r = None → ∃ p, p ∈ ordered ∧ stalls serial_env cid p) →
  (r ≠ None → succeeded r = false → ∀ p, p ∈ ordered → ¬ serves serial_env cid p) →
  fetch_outcome racing race_env serial_env cid ordered r.
Proof.
  intros Hr Hrace Hok Hnone Hfail. split_and!; [done| | |].
  - intros Hb (p & Hp & Hs). by destruct (Hrace Hb p Hp).
  - intros Hb _ (p & Hp & Hs). by destruct (Hrace Hb p Hp).
  - intros _ Hns. assert (r ≠ None) as Hne.
    { intros H. destruct (Hnone H) as (p & Hp & Hst). by apply (Hns p). }
    split; [done|]. split; [done|]. intros (p & Hp & Hs).
    destruct (succeeded r) eqn:Er; [done|]. by destruct (Hfail Hne eq_refl p Hp).
Qed.

Lemma fetch_ordered_spec pm metrics o hour arrive race_env serial_env cid ordered g :
  (∀ p, p ∈ ordered → (8 ≤ String.length (peer_String (ai_ID p)))%nat) →
  fetch_outcome (races pm ordered) race_env serial_env cid ordered
    (fst (fst (fetch_ordered pm metrics o hour arrive race_env serial_env cid ordered g))).
Proof.
  intros Hprint. unfold fetch_ordered.
  assert (∀ r, (∀ p, p ∈ ordered → log_peer (ai_ID p) = Ok ()) → (races pm ordered = true →
      ∀ p, p ∈ ordered → ¬ serves race_env cid p ∧ ¬ stalls race_env cid p) →
    r = (match try_serial log_peer serial_env cid ordered with
         | Some (Ok (Some (_, b))) => Some (Ok b) | Some (Ok None) => now (Err (no_provider cid))
         | Some (Err e) => now (Err e) | Some (Panic w) => now (Panic w) | None => None end) →
    fetch_outcome (races pm ordered) race_env serial_env cid ordered r) as Hserial.
  { intros r Hlog Hrace ->. clear - Hlog Hrace. pose proof (try_serial_spec log_peer serial_env cid ordered Hlog) as H.
    destruct (try_serial _ _ _ _) as [[[[p b]|]|e|w]|]; try done; apply serial_outcome; try done.
    - apply H.
    - intros _. apply H.
    - intros _ _ p Hp. by apply H. }
  assert (∀ p, p ∈ ordered → log_peer (ai_ID p) = Ok ()) as Hlog.
  { intros p Hp. unfold log_peer, first8. by rewrite decide_True by by apply Hprint. }
  assert (∀ rest, rest = fst (fst ((match try_serial log_peer serial_env cid ordered with
      | Some (Ok (Some (p, b))) => match pm, metrics with
          | Some m, true => '(_, m') ← BestPath o hour m p; mret (Some (Ok b), Some m')
          | _, _ => mret (Some (Ok b), pm) end
      | Some (Ok None) => mret (now (Err (no_provider cid)), pm)
      | Some (Err e) => mret (now (Err e), pm)
      | Some (Panic w) => mret (now (Panic w), pm)
      | None => mret (None, pm) end : Rand (blocking Block * option Manager)) g)) →
    rest = (match try_serial log_peer serial_env cid ordered with
         | Some (Ok (Some (_, b))) => Some (Ok b) | Some (Ok None) => now (Err (no_provider cid))
         | Some (Err e) => now (Err e) | Some (Panic w) => now (Panic w) | None => None end)) as Hrest.
  { intros rest ->. destruct (try_serial _ _ _ _) as [[[[p b]|]|e|w]|]; try done.
    destruct pm as [m|]; [destruct metrics|]; try done. unfold mbind, Rand_bind.
    by destruct (BestPath o hour m p g) as [[? ?] ?]. }
  destruct (races pm ordered) eqn:Er; [|by apply Hserial; [..|by apply Hrest]].
  destruct (fetchBlockMultipath_race arrive race_env cid pm ordered Er) as (Hs & Hok & Hnone).
  destruct (fetchBlockMultipath arrive race_env cid pm ordered) as [[b|e|w]|]; cbn [succeeded] in *.
  - cbn. destruct (proj1 Hok eq_refl) as (p & Hp & Hsv). split_and!; [done|done| |].
    + intros _ H. by destruct (H p Hp).
    + intros H. by destruct (H eq_refl p Hp).
  - apply Hserial; [done| |by apply Hrest]. intros _ p Hp.
    assert (¬ ∃ p, p ∈ ordered ∧ serves race_env cid p) as Hno by (by intros H%Hok).
    assert (∀ p, p ∈ ordered → ¬ serves race_env cid p) as Hno' by (intros q Hq Hsq; apply Hno; by exists q).
    split; [by apply Hno'|]. intros Hst. by assert (@None (outcome Block) = None) as Heq by done;
      assert (Some (@Err Block e) = None) by (apply Hnone; split; [done|by exists p]).
  - by destruct Hs as [_ Hw], (Hw w).
  - cbn. destruct (proj1 Hnone eq_refl) as [Hno (p & Hp & Hst)]. split_and!; [done| |done|].
    + intros _ (q & Hq & Hsq). by apply Hno in Hsq.
    + intros H. by destruct (H eq_refl p Hp).
Qed.

(** Whatever the router, the filters and the peers do, even when a call
    panics, a block that comes back is the one asked for. *)
Lemma try_serial_served log env cid providers p b :
  try_serial log env cid providers = Some (Ok (Some (p, b))) → served_block cid (Some (Ok b)).
Proof.
  induction providers as [|a l IH]; simpl; [done|].
  destruct (FetchBlock (env (ai_ID a)) cid) as [[b'|e|w]|] eqn:E; [| |done|done].
  - intros [= _ <-]. rewrite <-E. apply FetchBlock_valid.
  - destruct (log (ai_ID a)); [|done|done]. exact IH.
Qed.

Lemma fetch_ordered_served pm metrics o hour arrive race_env serial_env cid ordered g :
  served_block cid (fst (fst (fetch_ordered pm metrics o hour arrive race_env serial_env cid ordered g))).
Proof.
  unfold fetch_ordered.
  destruct (if races pm ordered then _ else _) as [[b|e|w]|] eqn:Er; [| |done|done].
  - destruct (races pm ordered) eqn:Hrc; [|done].
    destruct (fetchBlockMultipath_race arrive race_env cid pm ordered Hrc) as ([Hs _] & _).
    rewrite Er in Hs. exact Hs.
  - destruct (try_serial log_peer serial_env cid ordered) as [[[[p b]|]|e'|w]|] eqn:Es; [|done..].
    apply try_serial_served in Es.
    destruct pm as [m|]; [destruct metrics|]; try exact Es.
    unfold mbind, Rand_bind. by destruct (BestPath o hour m p g) as [[? ?] ?].
Qed.

Lemma fetchBlockFromNetwork_served router self pm blooms metrics os hour arrive race_env serial_env cid g :
  served_block cid (fst (fst (fetchBlockFromNetwork router self pm blooms metrics os hour arrive
                                race_env serial_env cid g))).
Proof.
  unfold fetchBlockFromNetwork. destruct router as [cr|]; [|done].
  destruct (wrap_err _ _) as [providers|e|w]; [|done|done]. case_decide; [done|].
  unfold mbind, Rand_bind. destruct (sort_if_managed _ _ _ _ _) as [[sorted pm1] g1].
  destruct (match blooms with Some bl => _ | None => _ end); [|done|done].
  apply fetch_ordered_served.
Qed.

(** The providers that are asked: all but the node itself. *)
Definition other_providers (self : peer_ID) (providers : list AddrInfo) : list AddrInfo :=
  List.filter (λ p, negb (bool_decide (ai_ID p = self))) providers.

(** C7: the network fetch is sound and finds what is there, as long as it is
    not kept waiting, whatever the order of arrival, the policy and the
    filters.  With printable peer IDs and filters that can be queried, it
    never panics, and any block it returns carries the requested identifier
    and hashes to it.  With a path manager, two or more providers other than
    the node itself are raced, and one that serves the block there is enough
    even if all the others never answer; but if none serves it and one never
    answers, the fetch never ends.  If there is no race, or all fail in it,
    the providers are asked in turn, and if each of them answers or closes its
    stream the fetch ends, with success exactly if one of them serves. *)
Theorem fetchBlockFromNetwork_spec (cr : DHT) (self : peer_ID) (pm : option Manager)
    (blooms : option PeerBloomStore) (metrics : bool) (os : nat → order) (hour : Z) (arrive : order)
    (race_env serial_env : peer_ID → stream_env) (cid : string) (providers : list AddrInfo) (g : rng) :
  FindProviders cr cid 10 = Ok providers →
  (∀ p, p ∈ providers → (8 ≤ String.length (peer_String (ai_ID p)))%nat) →
  (∀ bl p, blooms = Some bl → p ∈ providers → is_ok (PeerMayHave bl (ai_ID p) cid) = true) →
  let '((r, _), _) := fetchBlockFromNetwork (Some cr) self pm blooms metrics os hour arrive
                        race_env serial_env cid g in
  let others := other_providers self providers in
  let raced := races pm others = true in
  (∀ w, r ≠ Some (Panic w)) ∧
  (∀ b, r = Some (Ok b) → CID b = cid ∧ ComputeCID (Data b) = cid) ∧
  (raced → (∃ p, p ∈ others ∧ serves race_env cid p) → succeeded r = true) ∧
  (raced → (∀ p, p ∈ others → ¬ serves race_env cid p) → (∃ p, p ∈ others ∧ stalls race_env cid p) →
     r = None) ∧
  ((raced → ∀ p, p ∈ others → ¬ serves race_env cid p ∧ ¬ stalls race_env cid p) →
   (∀ p, p ∈ others → ¬ stalls serial_env cid p) →
   r ≠ None ∧ (succeeded r = true ↔ ∃ p, p ∈ others ∧ serves serial_env cid p)).
Proof.
  intros HF Hprint Hbloom. unfold fetchBlockFromNetwork. rewrite HF. cbn [wrap_err].
  fold (other_providers self providers). set (others := other_providers self providers).
  assert (∀ p, p ∈ others → p ∈ providers) as Hin.
  { intros p Hp. by apply elem_of_filter_bool in Hp as [? _]. }
  assert (∀ r, fetch_outcome (races pm others) race_env serial_env cid others r →
    (∀ w, r ≠ Some (Panic w)) ∧ (∀ b, r = Some (Ok b) → CID b = cid ∧ ComputeCID (Data b) = cid) ∧
    fetch_outcome (races pm others) race_env serial_env cid others r) as Hfin.
  { intros r Hr. pose proof Hr as [[Hv Hw] _]. split_and!; [done| |done].
    intros b Hb. destruct (Hv b Hb) as [<- Hvb]. split; [done|]. by symmetry. }
  case_decide as Hnil.
  { cbn. rewrite Hnil. split_and!; try done.
    intros _ _. split; [done|]. split; [done|]. intros (p & Hp & _). by apply elem_of_nil in Hp. }
  destruct (sort_if_managed_perm os hour pm others g) as (sorted & pm1 & g1 & Es & Hperm & Hpm).
  unfold mbind, Rand_bind. rewrite Es.
  assert (∃ ordered, (match blooms with Some bl => boostCachedProviders sorted bl cid | None => Ok sorted end)
    = Ok ordered ∧ ordered ≡ₚ others) as (ordered & -> & Ho).
  { destruct blooms as [bl|]; [|by exists sorted].
    destruct (partition_cached_ok bl cid sorted) as (c & r & E).
    { intros p Hp. apply Hbloom; [done|]. rewrite Hperm in Hp. by apply Hin. }
    exists (c ++ r). unfold boostCachedProviders. rewrite E. split; [done|].
    apply partition_cached_perm in E as [E _]. by rewrite E. }
  pose proof (fetch_ordered_spec pm1 metrics (os (length others)) hour arrive race_env serial_env cid
    ordered g1) as H.
  destruct (fetch_ordered _ _ _ _ _ _ _ _ _ _) as [[r pm'] g'].
  assert (races pm1 ordered = races pm others) as Hraces.
  { unfold races. rewrite Ho. f_equal. by apply bool_decide_ext. }
  assert (∀ p, p ∈ ordered ↔ p ∈ others) as Hmem by (intros p; by rewrite Ho).
  rewrite Hraces in H. apply (fetch_outcome_proper _ _ _ _ _ _ _ Hmem) in H; [|by intros p Hp%Hmem%Hin; apply Hprint].
  destruct (Hfin r H) as (H1 & H2 & _ & H3). done.
Qed.

Lemma has_bits_no_err b idxs e : has_bits b idxs ≠ Err e.
Proof. induction idxs as [|i idxs IH]; simpl; [done|]. case_match; [|done]. by case_match. Qed.

Lemma PeerMayHave_no_err blooms p cid e : PeerMayHave blooms p cid ≠ Err e.
Proof.
  unfold PeerMayHave. destruct (blooms !! p) as [[bf|]|]; [|done|done].
  unfold Contains, hashes. destruct (_ && _); [done|]. rewrite bind_Ok. apply has_bits_no_err.
Qed.

(** C40: one hostile summary brings the node down: after a peer has sent a
    filter that announces no bits but some hashes, every fetch that finds
    this peer among the providers panics, whatever the policy, the race and
    the other peers do; the panic is in a goroutine of the handler. *)
Theorem hostile_summary_crashes_fetch (p : peer_ID) (data : bytes) (bf : BloomFilter)
    (blooms blooms' : PeerBloomStore) (cr : DHT) (self : peer_ID) (pm : option Manager)
    (metrics : bool) (os : nat → order) (hour : Z) (arrive : order)
    (race_env serial_env : peer_ID → stream_env) (cid : string) (providers : list AddrInfo)
    (a : AddrInfo) (g : rng) :
  BloomFromBytes data = Some bf → size bf = 0 → 0 < numHash bf → zlen data ≤ maxSummarySize →
  receive p (frame data) blooms = Ok blooms' →
  FindProviders cr cid 10 = Ok providers → a ∈ providers → ai_ID a = p → p ≠ self →
  ∃ w, fst (fst (fetchBlockFromNetwork (Some cr) self pm (Some blooms') metrics os hour arrive
                   race_env serial_env cid g)) = Some (Panic w).
Proof.
  intros Hbf Hs Hn Hlen Hrecv HF Ha Hap Hself.
  assert (blooms' !! p = Some (Some bf)) as Hbl.
  { revert Hrecv. unfold receive, CacheSummaryHandler_handleStream.
    pose proof (read_summary_frame data Hlen) as Hread. destruct (read_summary _) as [r s].
    simpl in Hread. subst r. unfold OnReceive_summary. rewrite Hbf.
    destruct (first8 (peer_String p)); [|done|done]. cbn. intros [= <-]. apply lookup_insert_eq. }
  assert (PeerMayHave blooms' (ai_ID a) cid = Panic "integer divide by zero") as Hpanic.
  { unfold PeerMayHave. rewrite Hap, Hbl. unfold Contains, hashes.
    by rewrite (proj2 (Z.eqb_eq _ _) Hs), (proj2 (Z.ltb_lt _ _) Hn). }
  unfold fetchBlockFromNetwork. rewrite HF. cbn [wrap_err].
  set (filtered := List.filter _ providers).
  assert (a ∈ filtered) as Haf.
  { unfold filtered. rewrite elem_of_filter_bool, negb_true_iff, bool_decide_eq_false. split; [done|congruence]. }
  rewrite decide_False by (intros Hnil; rewrite Hnil in Haf; by apply elem_of_nil in Haf).
  destruct (sort_if_managed_perm os hour pm filtered g) as (sorted & pm1 & g1 & Es & Hperm & _).
  unfold mbind, Rand_bind. rewrite Es.
  destruct (partition_cached_panics blooms' cid sorted a "integer divide by zero") as [w Hw].
  - by rewrite Hperm.
  - done.
  - intros q e. apply PeerMayHave_no_err.
  - exists w. unfold boostCachedProviders. by rewrite Hw.
Qed.

End providers.

(** ** Concrete inputs *)

Section witnesses.
Import Policy.Examples.

#[local] Instance printed : PeerID := {| peer_String := λ p, "12D3KooW" +:+ p |}.
#[local] Instance identity_hash : Multiformats := {| mh_Sum := Ok; NewCidV1 := to_string |}.

Definition two_providers : list AddrInfo :=
  [{| ai_ID := "A"; ai_Addrs := [] |}; {| ai_ID := "B"; ai_Addrs := [] |}].

(** A DHT that names the same providers for every block. *)
Definition dht_ab : DHT :=
  {| dht_Provide := λ _, Ok (); dht_FindProviders := λ _ _, two_providers |}.

(** Only [B] serves, and only in the fallback. *)
Definition only_B (p : peer_ID) : stream_env :=
  if decide (p = "B") then served_by (BlockTransferHandler_handleStream 5 None provider)
  else unreachable.

Lemma fetchBlockFromNetwork_spec_witness :
  let '((r, _), _) := fetchBlockFromNetwork (ML := coarse_math) (LA := list_algebra) (Some dht_ab) "S"
    None None false (λ _, id_order) 0 id_order (λ _, unreachable) only_B (CID abc) (constant_rng f0) in
  let others := other_providers "S" two_providers in
  let raced := races None others = true in
  (∀ w, r ≠ Some (Panic w)) ∧
  (∀ b, r = Some (Ok b) → CID b = CID abc ∧ ComputeCID (Data b) = CID abc) ∧
  (raced → (∃ p, p ∈ others ∧ serves (λ _, unreachable) (CID abc) p) → succeeded r = true) ∧
  (raced → (∀ p, p ∈ others → ¬ serves (λ _, unreachable) (CID abc) p) →
     (∃ p, p ∈ others ∧ stalls (λ _, unreachable) (CID abc) p) → r = None) ∧
  ((raced → ∀ p, p ∈ others → ¬ serves (λ _, unreachable) (CID abc) p ∧
                              ¬ stalls (λ _, unreachable) (CID abc) p) →
   (∀ p, p ∈ others → ¬ stalls only_B (CID abc) p) →
   r ≠ None ∧ (succeeded r = true ↔ ∃ p, p ∈ others ∧ serves only_B (CID abc) p)).
Proof.
  apply (fetchBlockFromNetwork_spec (ML := coarse_math) (LA := list_algebra) dht_ab "S" None None false
    (λ _, id_order) 0 id_order (λ _, unreachable) only_B (CID abc) two_providers (constant_rng f0)).
  - reflexivity.
  - intros p _. simpl. lia.
  - discriminate.
Defined.

(** Nine bytes that bring the node down. *)
Lemma hostile_summary_crashes_fetch_witness :
  let bf := {| bits := [Init.Byte.x00]; size := 0; numHash := 1 |} in
  ∃ w, fst (fst (fetchBlockFromNetwork (ML := coarse_math) (LA := list_algebra) (Some dht_ab) "S" None
    (Some (Set_ NewPeerBloomStore "B" (Some bf))) false (λ _, id_order) 0 id_order
    only_B only_B (CID abc) (constant_rng f0))) = Some (Panic w).
Proof.
  apply (hostile_summary_crashes_fetch (ML := coarse_math) (LA := list_algebra) "B"
    (Bytes {| bits := [Init.Byte.x00]; size := 0; numHash := 1 |})
    {| bits := [Init.Byte.x00]; size := 0; numHash := 1 |} NewPeerBloomStore
    (Set_ NewPeerBloomStore "B" (Some {| bits := [Init.Byte.x00]; size := 0; numHash := 1 |}))
    dht_ab "S" None false (λ _, id_order) 0 id_order only_B only_B (CID abc) two_providers
    {| ai_ID := "B"; ai_Addrs := [] |} (constant_rng f0)).
  - reflexivity.
  - reflexivity.
  - reflexivity.
  - vm_compute. discriminate.
  - reflexivity.
  - reflexivity.
  - right. left.
  - reflexivity.
  - discriminate.
Defined.

End witnesses.
