(* ===== verification/Transport.v ===== *)
(** * The libp2p host, discovery and relays ([internal/transport/])

    The key file that carries a node's identity, the options given to libp2p,
    the start of the DHT with its bootstrap connections, mDNS, and the relay
    helpers.  Keys, multiaddresses and the libp2p constructors are parameters;
    every call that can fail takes its result from the environment. *)

From Stdlib Require Import Ascii.
From S2P Require Import Prelude Path Store Providers.

(** ** Third-party packages *)

(** [go-libp2p/core/crypto] and [peer.IDFromPrivateKey]. *)
Class Crypto := {
  PrivKey : Type;
  MarshalPrivateKey : PrivKey → outcome bytes;
  UnmarshalPrivateKey : bytes → outcome PrivKey;
  IDFromPrivateKey : PrivKey → peer_ID
}.

(** A marshalled key unmarshals to itself; unmarshalling returns. *)
Class CryptoLaws (C : Crypto) : Prop := {
  Unmarshal_Marshal : ∀ k raw, MarshalPrivateKey k = Ok raw → UnmarshalPrivateKey raw = Ok k;
  Unmarshal_no_panic : ∀ raw w, UnmarshalPrivateKey raw ≠ Panic w
}.

(** [go-multiaddr] and [peer.AddrInfoFromP2pAddr]; [quote] is fmt's [%q]. *)
Class Multiaddrs := {
  Multiaddr : Type;
  NewMultiaddr : string → outcome Multiaddr;
  AddrInfoFromP2pAddr : Multiaddr → outcome AddrInfo;
  NewComponent : string → string → outcome Multiaddr;
  Encapsulate : Multiaddr → Multiaddr → Multiaddr;
  quote : string → string
}.

(** ** The identity of a node ([host.go]) *)

Section keys.
Context `{CR : Crypto}.

Definition keyFileName : string := "peer.key".
Definition keyPath (dataDir : path) : path := Join dataDir [keyFileName].

(** [gen]: the result of [crypto.GenerateEd25519Key]. *)
Definition generate_key (fwr : fault) (gen : outcome PrivKey) (d : Disk) (dataDir : path)
  : outcome PrivKey * Disk :=
  match wrap_err "generate key" gen with
  | Ok priv =>
      match wrap_err "marshal key" (MarshalPrivateKey priv) with
      | Ok raw =>
          let '(r, d') := WriteFile fwr d (keyPath dataDir) raw in
          (_ ← wrap_err "write key" r; mret priv, d')
      | Err e => (Err e, d)
      | Panic w => (Panic w, d)
      end
  | Err e => (Err e, d)
  | Panic w => (Panic w, d)
  end.

Definition loadOrGenerateKey (fmk frd fwr : fault) (gen : outcome PrivKey) (d : Disk) (dataDir : path)
  : outcome PrivKey * Disk :=
  match MkdirAll fmk d dataDir with
  | (Ok _, d) =>
      match ReadFile frd d (keyPath dataDir) with
      | Ok data =>
          match UnmarshalPrivateKey data with
          | Ok priv => (Ok priv, d)
          | Err _ => generate_key fwr gen d dataDir
          | Panic w => (Panic w, d)
          end
      | Err _ => generate_key fwr gen d dataDir
      | Panic w => (Panic w, d)
      end
  | (Err e, d) => (Err e, d)
  | (Panic w, d) => (Panic w, d)
  end.

(** *** The host *)

Record HostConfig := {
  hc_ListenAddrs : list string;
  hc_DataDir : path;
  hc_EnableRelay : bool;
  hc_ForcePrivate : bool;
  hc_PrometheusRegistry : bool        (* a registry is given *)
}.

Inductive HostOption :=
  | Identity (k : PrivKey)
  | ListenAddrStrings (addrs : list string)
  | ResourceManager
  | EnableHolePunching
  | EnableRelayOption
  | ForceReachabilityPrivate
  | PrometheusRegisterer.

Definition host_options (cfg : HostConfig) (priv : PrivKey) : list HostOption :=
  [Identity priv; ListenAddrStrings (hc_ListenAddrs cfg); ResourceManager; EnableHolePunching] ++
  (if hc_EnableRelay cfg then [EnableRelayOption] else []) ++
  (if hc_ForcePrivate cfg then [ForceReachabilityPrivate] else []) ++
  (if hc_PrometheusRegistry cfg then [PrometheusRegisterer] else []).

(** A libp2p host as the node sees it: its peer ID, from the identity. *)
Record HostEnv := {
  he_mkdir : fault; he_read : fault; he_write : fault;
  he_gen : outcome PrivKey;
  he_resources : outcome unit;                          (* rcmgr.NewResourceManager *)
  he_New : list HostOption → outcome unit               (* libp2p.New *)
}.

Definition NewHost (he : HostEnv) (d : Disk) (cfg : HostConfig) : outcome peer_ID * Disk :=
  let '(k, d') := loadOrGenerateKey (he_mkdir he) (he_read he) (he_write he) (he_gen he) d (hc_DataDir cfg) in
  (priv ← wrap_err "load/generate key" k;
   _ ← wrap_err "resource manager" (he_resources he);
   _ ← wrap_err "create host" (he_New he (host_options cfg priv));
   mret (IDFromPrivateKey priv), d').
End keys.

(** ** Discovery ([discovery.go]) *)

Section discovery.
Context `{MA : Multiaddrs}.

(** [dht.New], [Bootstrap] and the connections to the bootstrap peers. *)
Record DHTEnv := {
  de_New : outcome DHT;
  de_Bootstrap : outcome unit;
  de_Connect : AddrInfo → outcome unit
}.

(** The DHT and the connections attempted, all of them before it returns;
    their failures are only logged. *)
Definition SetupDHT (de : DHTEnv) (bootstrapPeers : list AddrInfo)
  : outcome DHT * list (AddrInfo * outcome unit) :=
  match (d ← wrap_err "create DHT" (de_New de);
         _ ← wrap_err "bootstrap DHT" (de_Bootstrap de); mret d) with
  | Ok d => (Ok d, (λ pi, (pi, de_Connect de pi)) <$> bootstrapPeers)
  | r => (r, [])
  end.

Fixpoint ParseBootstrapPeers (addrs : list string) : outcome (list AddrInfo) :=
  match addrs with
  | [] => mret []
  | s :: addrs' =>
      maddr ← wrap_err ("parse multiaddr " +:+ quote s) (NewMultiaddr s);
      pi ← wrap_err ("parse peer info from " +:+ quote s) (AddrInfoFromP2pAddr maddr);
      rest ← ParseBootstrapPeers addrs';
      mret (pi :: rest)
  end.

Definition mdnsServiceTag : string := "pathaware-libp2p.local".

(** [started]: the result of the service's [Start]. *)
Definition SetupMDNS (started : outcome unit) : outcome unit := wrap_err "start mDNS" started.

(** The connection an mDNS announcement triggers, if any; [alive]: the node's
    context is not cancelled. *)
Definition HandlePeerFound (self : peer_ID) (alive : bool) (pi : AddrInfo) : option AddrInfo :=
  if decide (ai_ID pi = self) then None else if negb alive then None else Some pi.

(** ** Relays ([relay.go]) *)

Definition EnableRelayService (new : outcome unit) : outcome unit := wrap_err "enable relay service" new.

Definition hop_protocol : string := "/libp2p/circuit/relay/0.2.0/hop".

(** [protos]: [Peerstore().GetProtocols]; [addrs]: [Peerstore().Addrs]. *)
Fixpoint EnumerateRelayPeers (protos : peer_ID → outcome (list string)) (addrs : peer_ID → list string)
    (peers : list peer_ID) : list AddrInfo :=
  match peers with
  | [] => []
  | p :: peers' =>
      let rest := EnumerateRelayPeers protos addrs peers' in
      match protos p with
      | Ok ps => if existsb (λ proto, bool_decide (proto = hop_protocol)) ps
                 then {| ai_ID := p; ai_Addrs := addrs p |} :: rest else rest
      | _ => rest
      end
  end.

(** [relayID] and [targetID] in printed form. *)
Definition BuildRelayAddr (relayID targetID : string) (relayAddrs : list Multiaddr) : outcome Multiaddr :=
  match relayAddrs with
  | [] => Err (Errorf "no relay addresses available")
  | base :: _ =>
      relayComponent ← wrap_err "create relay p2p component" (NewComponent "p2p" relayID);
      circuitComponent ← wrap_err "create circuit component" (NewComponent "p2p-circuit" "");
      targetComponent ← wrap_err "create target p2p component" (NewComponent "p2p" targetID);
      mret (Encapsulate (Encapsulate (Encapsulate base relayComponent) circuitComponent) targetComponent)
  end.
End discovery.

(** ** Identity *)

Section identity.
Context `{CL : CryptoLaws}.

Lemma WriteFile_Ok f d p data d' :
  WriteFile f d p data = (Ok (), d') →
  f = None ∧ p ∉ dirs d ∧ d' = {| files := <[p := data]> (files d); dirs := dirs d |}.
Proof. unfold WriteFile. destruct f; [done|]. repeat case_decide; try done. by intros [= <-]. Qed.

(** What a successful start leaves: a key file with the key it returned. *)
Lemma loadOrGenerateKey_file fmk frd fwr gen d dataDir k d' :
  loadOrGenerateKey fmk frd fwr gen d dataDir = (Ok k, d') →
  ∃ data, files d' !! keyPath dataDir = Some data ∧ UnmarshalPrivateKey data = Ok k.
Proof.
  unfold loadOrGenerateKey, MkdirAll. destruct fmk; [done|]. set (d1 := {| files := files d; dirs := _ |}).
  assert (generate_key fwr gen d1 dataDir = (Ok k, d') →
    ∃ data, files d' !! keyPath dataDir = Some data ∧ UnmarshalPrivateKey data = Ok k) as Hgen.
  { unfold generate_key. destruct gen as [priv|e|w]; [|done..]. cbn [wrap_err].
    destruct (MarshalPrivateKey priv) as [raw|e|w] eqn:Em; [|done..]. cbn [wrap_err].
    destruct (WriteFile fwr d1 (keyPath dataDir) raw) as [[[]|e|w] d2] eqn:Ew; [|done..].
    apply WriteFile_Ok in Ew as (_ & _ & ->). intros [= <- <-]. exists raw. cbn [files].
    split; [apply lookup_insert_eq|by apply Unmarshal_Marshal]. }
  unfold ReadFile. destruct frd; [done|]. destruct (files d1 !! keyPath dataDir) as [data|] eqn:Ef; [|done].
  destruct (UnmarshalPrivateKey data) as [priv|e|w] eqn:Eu; [|done..]. intros [= <- <-]. by exists data.
Qed.

(** Once a key was loaded or generated, whatever happens on the disk outside
    the key file, the next start that can read the file gets the same key and
    leaves the file as it is, even when a new key could have been generated. *)
Lemma loadOrGenerateKey_again (fmk frd fwr fwr' : fault) (gen gen' : outcome PrivKey)
    (d d1 d2 : Disk) (dataDir : path) (k : PrivKey) :
  loadOrGenerateKey fmk frd fwr gen d dataDir = (Ok k, d1) →
  files d2 !! keyPath dataDir = files d1 !! keyPath dataDir →
  ∃ d3, loadOrGenerateKey None None fwr' gen' d2 dataDir = (Ok k, d3) ∧ files d3 = files d2.
Proof.
  intros (data & Hf & Hu)%loadOrGenerateKey_file Hsame. rewrite Hf in Hsame.
  unfold loadOrGenerateKey, MkdirAll, ReadFile. cbn [files]. rewrite Hsame, Hu. eexists. by split.
Qed.

(** A key file that cannot be read or parsed is not an error: the node
    gets a new identity and overwrites the file. *)
Theorem unreadable_key_is_replaced (frd : fault) (k : PrivKey) (raw : bytes) (d : Disk) (dataDir : path) :
  match ReadFile frd {| files := files d; dirs := list_to_set (prefixes dataDir) ∪ dirs d |} (keyPath dataDir) with
  | Ok data => is_ok (UnmarshalPrivateKey data) = false
  | _ => True
  end →
  MarshalPrivateKey k = Ok raw → parent (keyPath dataDir) = dataDir →
  keyPath dataDir ∉ (list_to_set (prefixes dataDir) : gset path) ∪ dirs d →
  ∃ d', loadOrGenerateKey None frd None (Ok k) d dataDir = (Ok k, d') ∧
        files d' !! keyPath dataDir = Some raw.
Proof.
  intros Hr Hm Hp Hd. unfold loadOrGenerateKey, MkdirAll.
  set (d1 := {| files := files d; dirs := _ |}) in *.
  assert (∃ d', generate_key None (Ok k) d1 dataDir = (Ok k, d') ∧ files d' !! keyPath dataDir = Some raw) as Hg.
  { unfold generate_key. cbn [wrap_err]. rewrite Hm. cbn [wrap_err]. unfold WriteFile.
    rewrite decide_False by done. rewrite decide_True.
    - eexists. split; [done|]. apply lookup_insert_eq.
    - rewrite Hp. unfold d1. cbn [dirs]. apply elem_of_union_l, elem_of_list_to_set, list_elem_of_fmap.
      exists (length dataDir). split; [by rewrite firstn_all|]. apply elem_of_seq. lia. }
  destruct (ReadFile frd d1 (keyPath dataDir)) as [data|e|w] eqn:E; [|done|].
  - pose proof (Unmarshal_no_panic data) as Hn. destruct (UnmarshalPrivateKey data) as [priv|e|w]; [done..|by destruct (Hn w)].
  - exfalso. revert E. unfold ReadFile. destruct frd; [done|]. by case_match.
Qed.
End identity.

(** ** Bootstrap peers and relays *)

Section lists.
Context `{MA : Multiaddrs}.

Definition parse_one (s : string) : outcome AddrInfo :=
  maddr ← wrap_err ("parse multiaddr " +:+ quote s) (NewMultiaddr s);
  wrap_err ("parse peer info from " +:+ quote s) (AddrInfoFromP2pAddr maddr).

Lemma ParseBootstrapPeers_cons s addrs :
  ParseBootstrapPeers (s :: addrs) = (pi ← parse_one s; rest ← ParseBootstrapPeers addrs; mret (pi :: rest)).
Proof. cbn [ParseBootstrapPeers]. unfold parse_one. by destruct (NewMultiaddr s). Qed.

(** The bootstrap addresses are parsed in order, and the first one that
    cannot be parsed is the error of the whole. *)
Theorem ParseBootstrapPeers_spec (addrs : list string) :
  match ParseBootstrapPeers addrs with
  | Ok peers => Forall2 (λ s pi, parse_one s = Ok pi) addrs peers
  | r => ∃ before s after, addrs = before ++ s :: after ∧
           Forall (λ s, is_ok (parse_one s) = true) before ∧
           match r with Err e => parse_one s = Err e | Panic w => parse_one s = Panic w | Ok _ => False end
  end.
Proof.
  induction addrs as [|s addrs IH]; [constructor|]. rewrite ParseBootstrapPeers_cons.
  destruct (parse_one s) as [pi|e|w] eqn:E; cbn [mbind outcome_bind]; [|by exists [], s, addrs..].
  destruct (ParseBootstrapPeers addrs) as [peers|e|w]; cbn [mbind outcome_bind mret outcome_ret]; [by constructor|..];
    destruct IH as (b & s' & a & -> & Hb & H); exists (s :: b), s', a; split_and!; try done;
    (constructor; [by rewrite E|done]).
Qed.

Lemma exists_cons {A B} (P : A → B → Prop) x (l : list A) :
  (∀ b, ¬ P x b) → (∃ p b, p ∈ x :: l ∧ P p b) ↔ ∃ p b, p ∈ l ∧ P p b.
Proof.
  intros Hx. split; [|intros (p & b & Hp & H); exists p, b; set_solver].
  intros (p & b & [->|Hp]%elem_of_cons & H); [by destruct (Hx b)|eauto].
Qed.

Lemma EnumerateRelayPeers_elem (protos : peer_ID → outcome (list string)) (addrs : peer_ID → list string)
    (peers : list peer_ID) r :
  r ∈ EnumerateRelayPeers protos addrs peers ↔
  ∃ p ps, p ∈ peers ∧ protos p = Ok ps ∧ hop_protocol ∈ ps ∧ r = {| ai_ID := p; ai_Addrs := addrs p |}.
Proof.
  assert (∀ ps, existsb (λ proto, bool_decide (proto = hop_protocol)) ps = true ↔ hop_protocol ∈ ps) as Hex.
  { intros ps. rewrite existsb_exists. setoid_rewrite bool_decide_eq_true. setoid_rewrite <-list_elem_of_In. naive_solver. }
  induction peers as [|p peers IHe]; [set_solver|].
  cbn [EnumerateRelayPeers]. destruct (protos p) as [ps|e|w] eqn:E; [destruct (existsb _ ps) eqn:Eb|..].
  - apply Hex in Eb. rewrite elem_of_cons, IHe. set_solver.
  - apply not_true_iff_false in Eb. rewrite Hex in Eb.
    rewrite IHe, exists_cons; [done|]. intros b (Hb & Hh & _). congruence.
  - rewrite IHe, exists_cons; [done|]. intros b (Hb & Hh & _). congruence.
  - rewrite IHe, exists_cons; [done|]. intros b (Hb & Hh & _). congruence.
Qed.

(** The relays are exactly the connected peers known to speak the relay
    hop protocol, in the order of the peers. *)
Theorem EnumerateRelayPeers_spec (protos : peer_ID → outcome (list string)) (addrs : peer_ID → list string)
    (peers : list peer_ID) :
  let relays := EnumerateRelayPeers protos addrs peers in
  (ai_ID <$> relays) `sublist_of` peers ∧
  ∀ r, r ∈ relays ↔ ∃ p ps, p ∈ peers ∧ protos p = Ok ps ∧ hop_protocol ∈ ps ∧
         r = {| ai_ID := p; ai_Addrs := addrs p |}.
Proof.
  split; [|apply EnumerateRelayPeers_elem]. induction peers as [|p peers IH]; [done|].
  cbn [EnumerateRelayPeers]. destruct (protos p) as [ps|e|w]; [destruct (existsb _ ps)|..];
    [by apply sublist_skip|by apply sublist_cons..].
Qed.
End lists.

(** ** Examples and witnesses *)

Module Examples.

(** Keys are byte strings behind a tag; a peer's ID is its key. *)
#[export] Instance tagged_keys : Crypto :=
  {| PrivKey := bytes; MarshalPrivateKey := λ k, Ok (Byte.x08 :: k);
     UnmarshalPrivateKey := λ raw, match raw with Byte.x08 :: k => Ok k | _ => Err (Errorf "unexpected EOF") end;
     IDFromPrivateKey := to_string |}.
#[export] Instance tagged_keys_laws : CryptoLaws tagged_keys.
Proof. split; [by intros k raw [= <-]|]. intros raw w. cbn. by repeat case_match. Qed.

Definition key_a : PrivKey := to_bytes "alice-key".
Definition key_b : PrivKey := to_bytes "other-key".
Definition home : path := ["home"; "alice"].
Definition empty_disk : Disk := {| files := ∅; dirs := {[ [] ]} |}.
Definition first_start : Disk := snd (loadOrGenerateKey None None None (Ok key_a) empty_disk home).

(** A write that stopped after one byte leaves such a file. *)
Definition torn_start : Disk :=
  snd (loadOrGenerateKey None None (Some {| flt_err := Errorf "input/output error"; flt_written := Some 0%nat |})
         (Ok key_a) empty_disk home).

Lemma unreadable_key_is_replaced_witness :
  ∃ d', loadOrGenerateKey None None None (Ok key_b) torn_start home = (Ok key_b, d') ∧
        files d' !! keyPath home = Some (Byte.x08 :: key_b).
Proof.
  apply (unreadable_key_is_replaced None key_b (Byte.x08 :: key_b) torn_start home); try done.
Defined.

(** Addresses of the form [/ip4/...]: a peer is its own address. *)
#[export] Instance plain_addrs : Multiaddrs :=
  {| Multiaddr := string;
     NewMultiaddr := λ s, match s with String "/"%char _ => Ok s | _ => Err (Errorf "must begin with /") end;
     AddrInfoFromP2pAddr := λ m, Ok {| ai_ID := m; ai_Addrs := [m] |};
     NewComponent := λ p v, Ok (if decide (v = "") then "/" +:+ p else "/" +:+ p +:+ "/" +:+ v);
     Encapsulate := λ a b, a +:+ b; quote := λ s, s |}.

Example second_address_is_bad :
  ParseBootstrapPeers ["/ip4/10.0.0.1/tcp/9000/p2p/A"; "nonsense"; "also bad"] =
  Err (Wrapf "parse multiaddr nonsense" (Errorf "must begin with /")).
Proof. by vm_compute. Qed.

Example relay_address :
  BuildRelayAddr "R" "T" ["/ip4/10.0.0.1/tcp/9000"; "/ip4/10.0.0.2/tcp/9000"] =
  Ok "/ip4/10.0.0.1/tcp/9000/p2p/R/p2p-circuit/p2p/T".
Proof. by vm_compute. Qed.
End Examples.
