(* ===== verification/ProbeLoop.v ===== *)
(** * The probe loop of the path manager ([internal/pathpolicy/manager.go])

    [Start], [Stop] and [probeLoop], the relays each round discovers
    ([transport.EnumerateRelayPeers]), and the states the manager can reach
    when probes, pruning and path queries interleave. *)

From S2P Require Import Prelude Float64 Runtime Path Policy Stream Probe Manager Providers Transport.

(** ** One round *)

(** What the loop meets at one tick: the connected peers, what the peer store
    knows of them, the probes of each target and the clock. *)
Record tick := {
  tk_peers : list peer_ID;
  tk_protos : peer_ID → outcome (list string);
  tk_addrs : peer_ID → list string;
  tk_rounds : nat → probe_round;
  tk_now : Time
}.

Definition tick_relays (tk : tick) : list peer_ID :=
  ai_ID <$> EnumerateRelayPeers (tk_protos tk) (tk_addrs tk) (tk_peers tk).

Section loop.
Context `{ML : MathLib, LA : LinAlg, PID : PeerID}.

Definition probe_tick (o : order) (m : Manager) (tk : tick) : outcome Manager :=
  probeAll o m (tk_peers tk) (tick_relays tk) (tk_rounds tk) (tk_now tk).

(** [os i]: the runtime's order for the maps of round [i]. *)
Fixpoint run_ticks (os : nat → order) (i : nat) (m : Manager) (ticks : list tick) : outcome Manager :=
  match ticks with
  | [] => mret m
  | tk :: ticks' => m' ← probe_tick (os i) m tk; run_ticks os (S i) m' ticks'
  end.

(** The loop until its context is cancelled after [ticks]; [time.NewTicker]
    panics for an interval that is not positive. *)
Definition probeLoop (os : nat → order) (m : Manager) (first : tick) (ticks : list tick) : outcome Manager :=
  m' ← probe_tick (os O) m first;
  if probeInterval m <=? 0 then Panic "non-positive interval for NewTicker"
  else run_ticks os 1 m' ticks.

(** ** Interleavings *)

(** The steps of the manager: the probes of one target, a pruning, a query.
    Ticks that supplied the relays are collected. *)
Inductive reachable (m0 : Manager) : list tick → Manager → Prop :=
  | reach_new : reachable m0 [] m0
  | reach_probe ticks m tk target r cands m' :
      reachable m0 ticks m →
      candidates (host m) target (tick_relays tk) = Ok cands → round_complete r (length cands) →
      probeTarget m target (tick_relays tk) r = Ok m' → reachable m0 (tk :: ticks) m'
  | reach_prune ticks m o now m' :
      reachable m0 ticks m → pruneStalePaths o now m = Ok m' → reachable m0 ticks m'
  | reach_best ticks m o hour target g p m' g' :
      reachable m0 ticks m → BestPath o hour m target g = ((p, m'), g') → reachable m0 ticks m'.

(** *** What the steps keep *)

(** A property of all paths, by target. *)
Definition all_paths (P : peer_ID → Path → Prop) (m : Manager) : Prop :=
  ∀ t ps id p, pathSets m !! t = Some ps → Get ps id = Some p → P t p.

Lemma process_results_all (P : Path → Prop) now cs ps :
  keyed ps →
  (∀ p r, P p → P (update_path p now r)) → Forall (λ c, P (new_path (fst (fst c)) (snd (fst c)))) cs →
  (∀ id p, Get ps id = Some p → P p) →
  ∀ id p, Get (foldl (process_result now) ps cs) id = Some p → P p.
Proof.
  intros Hk Hup Hcs. revert ps Hk. induction Hcs as [|[[id1 info] r] cs Hc Hcs IH]; intros ps Hk Hps; [done|].
  cbn [foldl]. rewrite process_result_unfold by done. apply IH.
  - apply map_Forall_insert_2; [by apply round_update_ID|done].
  - intros id p. unfold Get. rewrite lookup_insert. case_decide; [|apply Hps]. intros [= <-].
    apply Hup. cbn in Hc. destruct (Get ps id1) eqn:E; cbn; [by eapply Hps|done].
Qed.

Lemma probeTarget_all P m target relays r cands m' :
  manager_wf m → candidates (host m) target relays = Ok cands → round_complete r (length cands) →
  (∀ t p now r, P t p → P t (update_path p now r)) →
  Forall (λ c, P target (new_path (fst c) (snd c))) cands →
  probeTarget m target relays r = Ok m' → all_paths P m → all_paths P m'.
Proof.
  intros Hwf Hc Hr Hup Hn. rewrite (probeTarget_unfold _ _ _ _ _ Hc Hr). intros [= <-] HP t ps id p. cbn.
  rewrite lookup_insert. case_decide as Ht; [|apply HP]. subst t. intros [= <-].
  apply (process_results_all (P target)).
  - intros i q Hq. by apply (default_set_wf m target Hwf) in Hq as [].
  - intros q r'. apply Hup.
  - by apply (Forall_zip_l (λ c, P target (new_path (fst c) (snd c)))).
  - intros i q Hq. destruct (pathSets m !! target) as [ps|] eqn:E; [by eapply HP|].
    unfold Get, NewPathSet in Hq. cbn in Hq. by rewrite lookup_empty in Hq.
Qed.

Lemma prune_all P o now m m' :
  long_ids → manager_wf m → pruneStalePaths o now m = Ok m' → all_paths P m → all_paths P m'.
Proof.
  intros Hl Hwf. rewrite pruneStalePaths_eq by done. intros [= <-] HP t ps id p. cbn.
  rewrite lookup_fmap. intros (ps0 & Hps & ->)%fmap_Some. unfold Get, fresh.
  intros [Hp _]%map_lookup_filter_Some. by eapply HP.
Qed.

Lemma BestPath_frame o hour m target g p m' g' :
  BestPath o hour m target g = ((p, m'), g') →
  pathSets m' = pathSets m ∧ host m' = host m ∧ Name (policy m') = Name (policy m).
Proof.
  unfold BestPath. destruct (pathSets m !! target) as [ps|]; [|by intros [= <- <- <-]].
  unfold mbind, Rand_bind. pose proof (select_path_spec o hour (policy m) ps g) as H.
  destruct (select_path _ _ _ _ _) as [[r pol'] g1]. destruct H as (Hn & _). by intros [= <- <- <-].
Qed.

(** ** The reachable states are well-formed *)

Lemma NewManager_empty h cfg m : NewManager h cfg = Ok m → host m = h ∧ pathSets m = ∅.
Proof. unfold NewManager. intros (pol & _ & [= <-])%bind_Ok_inv. done. Qed.

Lemma reachable_inv h cfg m0 ticks m :
  long_ids → NewManager h cfg = Ok m0 → reachable m0 ticks m →
  manager_wf m ∧ host m = h ∧ active_policy_name m = active_policy_name m0.
Proof.
  intros Hl [Hh Hps]%NewManager_empty.
  induction 1 as [|ticks m tk target r cands m' _ IH Hc Hr Hp|ticks m o now m' _ IH Hp
                 |ticks m o hour target g p m' g' _ IH Hb].
  - split_and!; [|done..]. intros t ps. by rewrite Hps, lookup_empty.
  - destruct IH as (Hwf & Hh' & Hn). destruct (probeTarget_wf m target (tick_relays tk) r cands) as (m1 & E & Hwf' & Hh1); [done..|].
    rewrite Hp in E. injection E as <-. split_and!; [done|congruence|].
    rewrite (probeTarget_unfold _ _ _ _ _ Hc Hr) in Hp. by injection Hp as <-.
  - destruct IH as (Hwf & Hh' & Hn). rewrite pruneStalePaths_eq in Hp by done. injection Hp as <-.
    split_and!; [by apply fresh_keeps_wf|done|done].
  - destruct IH as (Hwf & Hh' & Hn). apply BestPath_frame in Hb as (Hs & Hb & Hname).
    split_and!; [unfold manager_wf; by rewrite Hs|congruence|unfold active_policy_name in *; congruence].
Qed.

(** C20: whatever probes, prunings and queries run after the manager is made,
    and in whatever order, every path is stored under its own identifier and
    target, is direct exactly when it has no relay, and has a success rate
    between 0 and 1 and a hop count of one byte; the host and the kind of
    policy stay; and no further probe or pruning panics. *)
Theorem reachable_manager_wf (h : peer_ID) (cfg : ManagerConfig) (m0 m : Manager) (ticks : list tick) :
  long_ids → NewManager h cfg = Ok m0 → reachable m0 ticks m →
  manager_wf m ∧ host m = h ∧ active_policy_name m = active_policy_name m0 ∧
  (∀ target relays r, is_ok (probeTarget m target relays r) = true) ∧
  (∀ o now, is_ok (pruneStalePaths o now m) = true).
Proof.
  intros Hl H0 Hr. destruct (reachable_inv _ _ _ _ _ Hl H0 Hr) as (Hwf & Hh & Hn). split_and!; [done..| |].
  - intros target relays r. destruct (candidates_Ok (host m) target relays Hl) as (l & E & _).
    unfold probeTarget. by rewrite E.
  - intros o now. by rewrite pruneStalePaths_eq.
Qed.

(** ** Relays *)

(** A path goes through at most one relay, which is neither the node nor the
    target and was among the relays of a tick. *)
Definition relay_ok (self : peer_ID) (ticks : list tick) (t : peer_ID) (p : Path) : Prop :=
  path_RelayChain p = [] ∨
  ∃ r tk, path_RelayChain p = [r] ∧ r ≠ t ∧ r ≠ self ∧ tk ∈ ticks ∧ r ∈ tick_relays tk.

Lemma relay_candidates_chain self target relays n l :
  relay_candidates self target relays n = Ok l →
  Forall (λ c, ∃ r, info_RelayChain (snd c) = [r] ∧ r ≠ target ∧ r ≠ self ∧ r ∈ relays) l.
Proof.
  revert n l. induction relays as [|r relays IH]; intros n l; cbn; [by intros [= <-]|].
  assert (∀ k, Forall (λ c : string * PathInfo, ∃ r0, info_RelayChain (snd c) = [r0] ∧ r0 ≠ target ∧ r0 ≠ self ∧ r0 ∈ relays) k →
    Forall (λ c : string * PathInfo, ∃ r0, info_RelayChain (snd c) = [r0] ∧ r0 ≠ target ∧ r0 ≠ self ∧ r0 ∈ r :: relays) k) as Hmono.
  { intros k Hk. eapply Forall_impl; [exact Hk|]. intros c (r0 & ? & ? & ? & ?). exists r0. set_solver. }
  destruct (bool_decide (r = target) || bool_decide (r = self)) eqn:Eb; [intros H; eauto|].
  apply orb_false_iff in Eb as [E1%bool_decide_eq_false E2%bool_decide_eq_false].
  intros (t8 & _ & (r8 & _ & (rest & Hrest & [= <-])%bind_Ok_inv)%bind_Ok_inv)%bind_Ok_inv.
  constructor; [|eauto]. exists r. split_and!; [done..|]. left.
Qed.

Lemma candidates_relay_ok self target tk ticks cands :
  candidates self target (tick_relays tk) = Ok cands →
  Forall (λ c, relay_ok self (tk :: ticks) target (new_path (fst c) (snd c))) cands.
Proof.
  intros (t8 & _ & (rest & Hrest & [= <-])%bind_Ok_inv)%bind_Ok_inv.
  constructor; [by left|]. apply relay_candidates_chain in Hrest. eapply Forall_impl; [exact Hrest|].
  intros c (r & Hc & H1 & H2 & Hin). right. exists r, tk. cbn. rewrite Hc. split_and!; [done..|left|done].
Qed.

(** C30: every path of a reachable manager goes straight to its target or
    through one relay, a connected peer that spoke the relay hop protocol in
    some round of probes and is neither the target nor the node itself. *)
Theorem relay_paths_valid (h : peer_ID) (cfg : ManagerConfig) (m0 m : Manager) (ticks : list tick)
    (t : peer_ID) (ps : PathSet) (id : string) (p : Path) :
  long_ids → NewManager h cfg = Ok m0 → reachable m0 ticks m →
  pathSets m !! t = Some ps → Get ps id = Some p →
  path_RelayChain p = [] ∨
  ∃ r tk protos, path_RelayChain p = [r] ∧ r ≠ t ∧ r ≠ h ∧ tk ∈ ticks ∧
    r ∈ tk_peers tk ∧ tk_protos tk r = Ok protos ∧ hop_protocol ∈ protos.
Proof.
  intros Hl H0 Hr Hps Hp. assert (all_paths (relay_ok h ticks) m) as Hall.
  { clear Hps Hp. induction Hr as [|ticks m tk target r cands m' Hre IH Hc Hrc Hpt|ticks m o now m' Hre IH Hpr
                     |ticks m o hour target g q m' g' Hre IH Hb].
    - apply NewManager_empty in H0 as [_ H0]. intros t' ps' id' p'. by rewrite H0, lookup_empty.
    - destruct (reachable_inv _ _ _ _ _ Hl H0 Hre) as (Hwf & Hh & _).
      eapply probeTarget_all; [done|exact Hc|exact Hrc|done| |exact Hpt|].
      + rewrite Hh in Hc. by apply candidates_relay_ok.
      + intros t' ps' id' p' H1 H2. destruct (IH _ _ _ _ H1 H2) as [?|(r' & tk' & ? & ? & ? & ? & ?)]; [by left|].
        right. exists r', tk'. split_and!; [done..|by right|done].
    - destruct (reachable_inv _ _ _ _ _ Hl H0 Hre) as (Hwf & _). by eapply prune_all.
    - apply BestPath_frame in Hb as (Hs & _). intros t' ps'. rewrite Hs. apply IH. }
  destruct (Hall _ _ _ _ Hps Hp) as [?|(r & tk & Hc & H1 & H2 & Htk & Hin)]; [by left|]. right.
  unfold tick_relays in Hin. apply list_elem_of_fmap in Hin as (a & -> & Ha).
  apply EnumerateRelayPeers_elem in Ha as (q & qs & Hq & Hqs & Hh & ->). by exists q, tk, qs.
Qed.

(** ** The loop *)

Lemma probe_targets_reachable m0 ticks m tk targets i :
  long_ids → (∀ j t cands, targets !! j = Some t → candidates (host m0) t (tick_relays tk) = Ok cands →
              round_complete (tk_rounds tk (i + j)%nat) (length cands)) →
  host m = host m0 → reachable m0 ticks m →
  ∃ m' ticks', probe_targets m targets (tick_relays tk) (tk_rounds tk) i = Ok m' ∧ host m' = host m0 ∧
    reachable m0 ticks' m'.
Proof.
  intros Hl. revert m ticks i. induction targets as [|t targets IH]; intros m ticks i Hc Hh Hr; [by exists m, ticks|].
  cbn [probe_targets]. destruct (candidates_Ok (host m) t (tick_relays tk) Hl) as (cands & Ec & _).
  assert (round_complete (tk_rounds tk i) (length cands)) as Hrc.
  { rewrite <-(Nat.add_0_r i). apply (Hc 0%nat t); [done|congruence]. }
  pose proof (probeTarget_unfold m t (tick_relays tk) _ cands Ec Hrc) as Ep. rewrite Ep. cbn [mbind outcome_bind].
  apply (IH _ (tk :: ticks)); [|done|by eapply reach_probe].
  intros j t' cs Hj. specialize (Hc (S j) t' cs Hj). by rewrite Nat.add_succ_r in Hc.
Qed.

(** Every probe of a tick finishes. *)
Definition complete_tick (h : peer_ID) (tk : tick) : Prop :=
  ∀ j t cands, tk_peers tk !! j = Some t → candidates h t (tick_relays tk) = Ok cands →
    round_complete (tk_rounds tk j) (length cands).

Lemma probe_tick_reachable o h cfg m0 ticks m tk :
  long_ids → NewManager h cfg = Ok m0 → complete_tick h tk → reachable m0 ticks m →
  ∃ m' ticks', probe_tick o m tk = Ok m' ∧ reachable m0 ticks' m'.
Proof.
  intros Hl H0 Hc Hr. destruct (reachable_inv _ _ _ _ _ Hl H0 Hr) as (_ & Hh & _).
  pose proof (proj1 (NewManager_empty _ _ _ H0)) as Hh0.
  unfold probe_tick, probeAll. remember (tk_peers tk) as peers eqn:Ep. destruct peers as [|p peers']; [by exists m, ticks|].
  destruct (probe_targets_reachable m0 ticks m tk (p :: peers') 0) as (m1 & ticks1 & E1 & Hh1 & Hr1);
    [done| |congruence|done|].
  { intros j t cands Hj Hcs. apply (Hc j t cands); [by rewrite <-Ep|congruence]. }
  rewrite E1. cbn [mbind outcome_bind].
  destruct (reachable_inv _ _ _ _ _ Hl H0 Hr1) as (Hwf & _).
  pose proof (pruneStalePaths_eq o (tk_now tk) m1 Hl Hwf) as E2. rewrite E2.
  eexists _, ticks1. split; [done|]. by eapply reach_prune.
Qed.

Lemma NewManager_interval h cfg m : NewManager h cfg = Ok m → probeInterval m = ProbeInterval cfg.
Proof. unfold NewManager. intros (pol & _ & H)%bind_Ok_inv. by injection H as <-. Qed.

Lemma run_ticks_reachable os i h cfg m0 m seen ticks :
  long_ids → NewManager h cfg = Ok m0 → Forall (complete_tick h) ticks → reachable m0 seen m →
  ∃ m' seen', run_ticks os i m ticks = Ok m' ∧ reachable m0 seen' m'.
Proof.
  intros Hl H0 Ht. revert m seen i. induction Ht as [|tk ticks Htk _ IH]; intros m seen i Hr; [by exists m, seen|].
  cbn [run_ticks]. destruct (probe_tick_reachable (os i) h cfg m0 seen m tk Hl H0 Htk Hr) as (m2 & seen2 & -> & Hr2).
  cbn [mbind outcome_bind]. by eapply IH.
Qed.

Lemma probeLoop_runs os h cfg m0 first ticks :
  long_ids → NewManager h cfg = Ok m0 → Forall (complete_tick h) (first :: ticks) → 0 < ProbeInterval cfg →
  ∃ m seen, probeLoop os m0 first ticks = Ok m ∧ reachable m0 seen m.
Proof.
  intros Hl H0 [Hf Ht]%Forall_cons Hpos. unfold probeLoop.
  destruct (probe_tick_reachable (os 0%nat) h cfg m0 [] m0 first Hl H0 Hf (reach_new m0)) as (m1 & seen & -> & Hr).
  cbn [mbind outcome_bind]. rewrite (NewManager_interval _ _ _ H0), (proj2 (Z.leb_gt _ 0)) by done.
  by eapply run_ticks_reachable.
Qed.

(** The probe loop of a manager with a positive interval runs through any
    ticks whose probes finish without an error or a panic, through reachable
    states only; with an interval that is not positive it panics after its
    first round. *)
Theorem probeLoop_spec (os : nat → order) (h : peer_ID) (cfg : ManagerConfig) (m0 : Manager) (first : tick) (ticks : list tick) :
  long_ids → NewManager h cfg = Ok m0 → Forall (complete_tick h) (first :: ticks) →
  if ProbeInterval cfg <=? 0 then probeLoop os m0 first ticks = Panic "non-positive interval for NewTicker"
  else ∃ m seen, probeLoop os m0 first ticks = Ok m ∧ reachable m0 seen m.
Proof.
  intros Hl H0 Hall. case_if; zbool; [|by apply (probeLoop_runs os h cfg)].
  apply Forall_cons in Hall as [Hf _]. unfold probeLoop.
  destruct (probe_tick_reachable (os 0%nat) h cfg m0 [] m0 first Hl H0 Hf (reach_new m0)) as (m1 & seen & -> & _).
  cbn [mbind outcome_bind]. by rewrite (NewManager_interval _ _ _ H0), (proj2 (Z.leb_le _ 0)) by lia.
Qed.
End loop.

(** ** Concrete inputs *)

Section witnesses.
Import Policy.Examples.

#[local] Instance ed25519_ids : PeerID := {| peer_String := λ p, "12D3KooW" +:+ p |}.

Definition every_30s : ManagerConfig :=
  {| ProbeInterval := 30 * Second; ProbeTimeout := 5 * Second; PolicyName := "reliability"; cfg_Epsilon := f0 |}.

(** Two peers, one of them a relay; the probes of the first are two. *)
Definition tick0 : tick :=
  {| tk_peers := ["T"; "relay"];
     tk_protos := λ p, if decide (p = "relay") then Ok ["/ipfs/ping/1.0.0"; hop_protocol] else Ok [];
     tk_addrs := λ _, [];
     tk_rounds := λ i, match i with
                       | O => sample_round
                       | _ => {| pr_finish := [0]%nat; pr_env := λ _, relay_only; pr_now := 1500 |}
                       end;
     tk_now := 2000 |}.

Lemma tick0_complete : complete_tick "H" tick0.
Proof.
  intros [|[|j]] t cands; cbn; intros [= <-]; vm_compute; intros [= <-]; apply Permutation_swap || done.
Qed.

Definition manager0 : Manager :=
  match NewManager "H" every_30s with Ok m => m | _ => sample_manager end.
Lemma manager0_new : NewManager "H" every_30s = Ok manager0.
Proof. reflexivity. Qed.

Lemma probeLoop_spec_witness :
  if ProbeInterval every_30s <=? 0
  then probeLoop (λ _, rev_order) manager0 tick0 [tick0] = Panic "non-positive interval for NewTicker"
  else ∃ m seen, probeLoop (λ _, rev_order) manager0 tick0 [tick0] = Ok m ∧ reachable manager0 seen m.
Proof.
  apply (probeLoop_spec (λ _, rev_order) "H" every_30s manager0 tick0 [tick0] ed25519_long manager0_new).
  repeat constructor; apply tick0_complete.
Defined.

Definition manager1 : Manager :=
  match probeTarget manager0 "T" (tick_relays tick0) sample_round with Ok m => m | _ => manager0 end.

Lemma candidates0 : candidates (host manager0) "T" (tick_relays tick0) = Ok sample_candidates.
Proof. vm_compute. reflexivity. Qed.

Lemma manager1_reached : reachable manager0 [tick0] manager1.
Proof.
  apply (reach_probe manager0 [] manager0 tick0 "T" sample_round sample_candidates manager1 (reach_new manager0));
    [exact candidates0|apply Permutation_swap|].
  unfold manager1. by rewrite (probeTarget_unfold _ _ _ sample_round _ candidates0) by apply Permutation_swap.
Qed.

Lemma reachable_manager_wf_witness :
  manager_wf manager1 ∧ host manager1 = "H" ∧ active_policy_name manager1 = active_policy_name manager0 ∧
  (∀ target relays r, is_ok (probeTarget manager1 target relays r) = true) ∧
  (∀ o now, is_ok (pruneStalePaths o now manager1) = true).
Proof. apply (reachable_manager_wf "H" every_30s manager0 manager1 [tick0] ed25519_long manager0_new manager1_reached). Defined.

Definition relay_path : Path :=
  match pathSets manager1 !! "T" with
  | Some ps => default (relay_via "R" "" 0 f0) (Get ps "relay-12D3KooW-via-12D3KooW")
  | None => relay_via "R" "" 0 f0
  end.

Lemma relay_paths_valid_witness :
  path_RelayChain relay_path = [] ∨
  ∃ r tk protos, path_RelayChain relay_path = [r] ∧ r ≠ "T" ∧ r ≠ "H" ∧ tk ∈ [tick0] ∧
    r ∈ tk_peers tk ∧ tk_protos tk r = Ok protos ∧ hop_protocol ∈ protos.
Proof.
  apply (relay_paths_valid "H" every_30s manager0 manager1 [tick0] "T"
    (default ∅ (pathSets manager1 !! "T")) "relay-12D3KooW-via-12D3KooW" relay_path
    ed25519_long manager0_new manager1_reached); vm_compute; reflexivity.
Defined.

Example relay_path_chain : path_RelayChain relay_path = ["relay"].
Proof. vm_compute. reflexivity. Qed.
End witnesses.
