(* ===== verification/Lifecycle.v ===== *)
(** * Starting and stopping a node ([internal/node/node.go],
    [internal/protocol/ids.go], [cmd/daemon.go])

    [Start] opens the host, registers the protocol handlers, opens the store,
    joins the DHT and starts the background loops; it returns at the first
    step that fails.  [Stop] closes what it finds, and each close may fail.
    Both run in a monad over the node, the disk and the trace of what they open
    and close; what runs on after both can be read off the trace. *)

From S2P Require Import Prelude Float64 Runtime Path Policy Stream Probe Manager Sha256 Chunker Codec Json Lru Bloom Store Replication Node Providers Transport ProbeLoop.

(** ** Protocol identifiers *)

Definition BlockTransferID : string := "/pathaware-libp2p/block/1.0.0".
Definition PathProbeID : string := "/pathaware-libp2p/probe/1.0.0".
Definition PingID : string := "/pathaware-libp2p/ping/1.0.0".
Definition CacheSummaryID : string := "/pathaware-libp2p/cache-summary/1.0.0".
Definition BlockPushID : string := "/pathaware-libp2p/block-push/1.0.0".

Section lifecycle.
Context `{ML : MathLib, LA : LinAlg, PID : PeerID, JE : JSONErrors, CR : Crypto, MA : Multiaddrs}.

(** ** The node *)

(** The fields of [Node]; a nil pointer is [None].  The metrics and the router
    carry no state of their own beyond being there; the host is known by its
    peer ID. *)
Record Node := {
  n_Cfg : Config;
  n_Host : option peer_ID;
  n_DHT : option DHT;
  n_Metrics : bool;
  n_PathManager : option Manager;
  n_ContentStore : option Store;
  n_ContentRouter : option DHT;
  n_BlockCache : option LRUCache;
  n_ReplicationTracker : option ReplicationTracker;
  n_PeerBlooms : option PeerBloomStore;
  n_cancel : bool;                      (* the context and its cancel function exist *)
  n_mdns : bool;
  n_startedAt : option Time
}.

Definition New (cfg : Config) : outcome Node :=
  Ok {| n_Cfg := cfg; n_Host := None; n_DHT := None; n_Metrics := false; n_PathManager := None;
        n_ContentStore := None; n_ContentRouter := None; n_BlockCache := None;
        n_ReplicationTracker := None; n_PeerBlooms := None; n_cancel := false; n_mdns := false;
        n_startedAt := None |}.

(** Assignments to fields. *)
Definition set_started (now : Time) (n : Node) : Node :=
  {| n_Cfg := n_Cfg n; n_Host := n_Host n; n_DHT := n_DHT n; n_Metrics := true; n_PathManager := n_PathManager n;
     n_ContentStore := n_ContentStore n; n_ContentRouter := n_ContentRouter n; n_BlockCache := n_BlockCache n;
     n_ReplicationTracker := n_ReplicationTracker n; n_PeerBlooms := n_PeerBlooms n; n_cancel := true;
     n_mdns := n_mdns n; n_startedAt := Some now |}.
Definition set_host (h : peer_ID) (n : Node) : Node :=
  {| n_Cfg := n_Cfg n; n_Host := Some h; n_DHT := n_DHT n; n_Metrics := n_Metrics n; n_PathManager := n_PathManager n;
     n_ContentStore := n_ContentStore n; n_ContentRouter := n_ContentRouter n; n_BlockCache := n_BlockCache n;
     n_ReplicationTracker := n_ReplicationTracker n; n_PeerBlooms := n_PeerBlooms n; n_cancel := n_cancel n;
     n_mdns := n_mdns n; n_startedAt := n_startedAt n |}.
(** The store and the cache that asks it for pins. *)
Definition set_store (s : Store) (c : LRUCache) (n : Node) : Node :=
  {| n_Cfg := n_Cfg n; n_Host := n_Host n; n_DHT := n_DHT n; n_Metrics := n_Metrics n; n_PathManager := n_PathManager n;
     n_ContentStore := Some s; n_ContentRouter := n_ContentRouter n; n_BlockCache := Some c;
     n_ReplicationTracker := n_ReplicationTracker n; n_PeerBlooms := n_PeerBlooms n; n_cancel := n_cancel n;
     n_mdns := n_mdns n; n_startedAt := n_startedAt n |}.
(** The replication tracker and the peers' filters. *)
Definition set_tracking (rt : ReplicationTracker) (bl : PeerBloomStore) (n : Node) : Node :=
  {| n_Cfg := n_Cfg n; n_Host := n_Host n; n_DHT := n_DHT n; n_Metrics := n_Metrics n; n_PathManager := n_PathManager n;
     n_ContentStore := n_ContentStore n; n_ContentRouter := n_ContentRouter n; n_BlockCache := n_BlockCache n;
     n_ReplicationTracker := Some rt; n_PeerBlooms := Some bl; n_cancel := n_cancel n;
     n_mdns := n_mdns n; n_startedAt := n_startedAt n |}.
(** The DHT and the router over it. *)
Definition set_dht (d : DHT) (n : Node) : Node :=
  {| n_Cfg := n_Cfg n; n_Host := n_Host n; n_DHT := Some d; n_Metrics := n_Metrics n; n_PathManager := n_PathManager n;
     n_ContentStore := n_ContentStore n; n_ContentRouter := Some d; n_BlockCache := n_BlockCache n;
     n_ReplicationTracker := n_ReplicationTracker n; n_PeerBlooms := n_PeerBlooms n; n_cancel := n_cancel n;
     n_mdns := n_mdns n; n_startedAt := n_startedAt n |}.
Definition set_mdns (n : Node) : Node :=
  {| n_Cfg := n_Cfg n; n_Host := n_Host n; n_DHT := n_DHT n; n_Metrics := n_Metrics n; n_PathManager := n_PathManager n;
     n_ContentStore := n_ContentStore n; n_ContentRouter := n_ContentRouter n; n_BlockCache := n_BlockCache n;
     n_ReplicationTracker := n_ReplicationTracker n; n_PeerBlooms := n_PeerBlooms n; n_cancel := n_cancel n;
     n_mdns := true; n_startedAt := n_startedAt n |}.
Definition set_manager (m : Manager) (n : Node) : Node :=
  {| n_Cfg := n_Cfg n; n_Host := n_Host n; n_DHT := n_DHT n; n_Metrics := n_Metrics n; n_PathManager := Some m;
     n_ContentStore := n_ContentStore n; n_ContentRouter := n_ContentRouter n; n_BlockCache := n_BlockCache n;
     n_ReplicationTracker := n_ReplicationTracker n; n_PeerBlooms := n_PeerBlooms n; n_cancel := n_cancel n;
     n_mdns := n_mdns n; n_startedAt := n_startedAt n |}.

(** ** The trace *)

Inductive event :=
  | HostOpened
  | HandlerRegistered (protocol : string)
  | DHTOpened
  | RelayServiceEnabled
  | MDNSStarted
  | MetricsServerStarted
  | APIServerStarted
  | ProbeLoopStarted
  | ReplicationLoopStarted
  | SummaryLoopStarted
  | ProbeLoopCancelled
  | MDNSClosed
  | ContextCancelled
  | Drained
  | DHTClosed
  | HostClosed.

(** What the node holds open in the process. *)
Inductive resource :=
  | RHost | RDHT | RRelayService | RMDNS | RMetricsServer | RAPIServer
  | RProbeLoop | RReplicationLoop | RSummaryLoop.
#[export] Instance resource_eq_dec : EqDecision resource.
Proof. solve_decision. Defined.

(** An event opens or closes a resource; the loops end with their context, the
    probe loop also with the manager's own.  The relay service is a [*Relay]
    that only its own [Close] ends, and [EnableRelayService] drops it. *)
Definition effect_of (r : resource) (e : event) : option bool :=
  match r, e with
  | RHost, HostOpened | RDHT, DHTOpened | RRelayService, RelayServiceEnabled | RMDNS, MDNSStarted | RMetricsServer, MetricsServerStarted
  | RAPIServer, APIServerStarted | RProbeLoop, ProbeLoopStarted | RReplicationLoop, ReplicationLoopStarted
  | RSummaryLoop, SummaryLoopStarted => Some true
  | RHost, HostClosed | RDHT, DHTClosed | RMDNS, MDNSClosed | RProbeLoop, ProbeLoopCancelled
  | RProbeLoop, ContextCancelled | RReplicationLoop, ContextCancelled
  | RSummaryLoop, ContextCancelled => Some false
  | _, _ => None
  end.

Definition open_after (r : resource) (trace : list event) : bool :=
  foldl (λ now e, default now (effect_of r e)) false trace.

(** ** The monad *)

Record world := { w_node : Node; w_disk : Disk; w_trace : list event }.

Definition Op (A : Type) : Type := world → outcome A * world.

#[export] Instance Op_ret : MRet Op := λ A a w, (Ok a, w).
#[export] Instance Op_bind : MBind Op := λ A B k m w,
  match m w with
  | (Ok a, w') => k a w'
  | (Err e, w') => (Err e, w')
  | (Panic s, w') => (Panic s, w')
  end.

Definition emit (e : event) : Op unit := λ w,
  (Ok (), {| w_node := w_node w; w_disk := w_disk w; w_trace := w_trace w ++ [e] |}).
Definition assign (f : Node → Node) : Op unit := λ w,
  (Ok (), {| w_node := f (w_node w); w_disk := w_disk w; w_trace := w_trace w |}).
Definition on_disk {A} (f : Disk → outcome A * Disk) : Op A := λ w,
  let '(r, d) := f (w_disk w) in (r, {| w_node := w_node w; w_disk := d; w_trace := w_trace w |}).
Definition call {A} (r : outcome A) : Op A := λ w, (r, w).
Definition get_node : Op Node := λ w, (Ok (w_node w), w).
Definition when (b : bool) (m : Op unit) : Op unit := if b then m else mret ().

(** ** Start *)

Record StartEnv := {
  se_now : Time;
  se_host : HostEnv;
  se_store_mkdir : fault;
  se_store_read : fault;
  se_dht : DHTEnv;
  se_relay : outcome unit;              (* relay.New *)
  se_mdns : outcome unit                (* the mDNS service's Start *)
}.

(** The host configuration of the node; a registry is always given. *)
Definition host_config (cfg : Config) : HostConfig :=
  {| hc_ListenAddrs := ListenAddrs cfg; hc_DataDir := DataDir cfg; hc_EnableRelay := EnableRelay cfg;
     hc_ForcePrivate := false; hc_PrometheusRegistry := true |}.

Definition manager_config (cfg : Config) : ManagerConfig :=
  {| ProbeInterval := cfg_ProbeInterval cfg; ProbeTimeout := cfg_ProbeTimeout cfg;
     PolicyName := PathPolicy cfg; cfg_Epsilon := PathEpsilon cfg |}.

Definition new_cache (cfg : Config) : LRUCache :=
  SetMetricsHook (SetPinChecker (NewLRUCache (CacheMaxBytes cfg))) true true.

Definition register (p : string) : Op unit := emit (HandlerRegistered p).

Definition bootstrap_addrs (cfg : Config) : outcome (list AddrInfo) :=
  match BootstrapPeers cfg with
  | [] => Ok []
  | l => wrap_err "parse bootstrap peers" (ParseBootstrapPeers l)
  end.

(** A DHT that was made stays open when its bootstrap fails. *)
Definition join_dht (de : DHTEnv) (peers : list AddrInfo) : Op DHT :=
  _ ← when (is_ok (de_New de)) (emit DHTOpened);
  call (wrap_err "setup DHT" (fst (SetupDHT de peers))).

Definition enable_relay (cfg : Config) (se : StartEnv) : Op unit :=
  when (EnableRelay cfg && is_ok (EnableRelayService (se_relay se))) (emit RelayServiceEnabled).

Definition start_mdns (cfg : Config) (se : StartEnv) : Op unit :=
  when (EnableMDNS cfg && is_ok (SetupMDNS (se_mdns se))) (_ ← emit MDNSStarted; assign set_mdns).

Definition start_loops (cfg : Config) (m : Manager) : Op unit :=
  _ ← assign (set_manager m);
  _ ← emit ProbeLoopStarted;
  _ ← emit ReplicationLoopStarted;
  when (negb (DisableBloomExchange cfg)) (emit SummaryLoopStarted).

Definition Start (se : StartEnv) : Op unit :=
  n ← get_node;
  let cfg := n_Cfg n in
  _ ← assign (set_started (se_now se));
  h ← on_disk (λ d, let '(r, d') := NewHost (se_host se) d (host_config cfg) in (wrap_err "create host" r, d'));
  _ ← emit HostOpened;
  _ ← assign (set_host h);
  _ ← register PingID;
  _ ← register PathProbeID;
  store ← on_disk (λ d, let '(r, d') := NewStore (se_store_mkdir se) (se_store_read se) d (DataDir cfg) in
                        (wrap_err "create content store" r, d'));
  _ ← assign (set_store store (new_cache cfg));
  _ ← register BlockTransferID;
  _ ← register BlockPushID;
  _ ← assign (set_tracking (NewReplicationTracker node_threshold) NewPeerBloomStore);
  _ ← register CacheSummaryID;
  peers ← call (bootstrap_addrs cfg);
  dht ← join_dht (se_dht se) peers;
  _ ← assign (set_dht dht);
  _ ← enable_relay cfg se;
  _ ← start_mdns cfg se;
  _ ← when (negb (bool_decide (MetricsAddr cfg = ""))) (emit MetricsServerStarted);
  m ← call (wrap_err "create path manager" (NewManager h (manager_config cfg)));
  start_loops cfg m.

(** ** Stop *)

(** What closing mDNS, the DHT and the host returns. *)
Record StopEnv := { sp_mdns : outcome unit; sp_dht : outcome unit; sp_host : outcome unit }.

(** A close that fails leaves its resource open; the error is only logged. *)
Definition close_logged (r : outcome unit) (e : event) : Op unit :=
  match r with Ok _ => emit e | Err _ => mret () | Panic w => call (Panic w) end.

Definition Stop (sp : StopEnv) : Op unit :=
  n ← get_node;
  _ ← when (bool_decide (is_Some (n_PathManager n))) (emit ProbeLoopCancelled);
  _ ← when (n_mdns n) (close_logged (sp_mdns sp) MDNSClosed);
  _ ← when (n_cancel n) (emit ContextCancelled);
  _ ← emit Drained;
  _ ← when (bool_decide (is_Some (n_DHT n))) (close_logged (sp_dht sp) DHTClosed);
  match n_Host n with
  | Some _ => _ ← call (wrap_err "close host" (sp_host sp)); emit HostClosed
  | None => mret ()
  end.

(** ** Queries *)

Definition node_PeerID (n : Node) : string :=
  match n_Host n with Some h => peer_String h | None => "" end.

(** The zero time before [Start]. *)
Definition Uptime (now : Time) (n : Node) : Duration := since now (n_startedAt n).

(** ** The daemon command *)

(** The command's flags; [None]: the data directory is not given. *)
Record DaemonFlags := {
  f_listen : list string;
  f_bootstrap : list string;
  f_dataDir : option path;
  f_enableRelay : bool;
  f_enableMDNS : bool;
  f_apiAddr : string;
  f_metricsAddr : string;
  f_policy : string;
  f_epsilon : float64
}.

Definition daemon_config (home : path) (f : DaemonFlags) : Config :=
  let cfg := DefaultConfig home in
  {| ListenAddrs := f_listen f; BootstrapPeers := f_bootstrap f;
     DataDir := default (DataDir cfg) (f_dataDir f);
     EnableRelay := f_enableRelay f; EnableMDNS := f_enableMDNS f;
     APIAddr := f_apiAddr f; MetricsAddr := f_metricsAddr f; PathPolicy := f_policy f;
     CacheMaxBytes := CacheMaxBytes cfg; ChunkSizeBytes := ChunkSizeBytes cfg;
     EnableErasure := EnableErasure cfg; DataShards := DataShards cfg; ParityShards := ParityShards cfg;
     AdaptiveChunking := AdaptiveChunking cfg; MinChunkSize := MinChunkSize cfg; MaxChunkSize := MaxChunkSize cfg;
     PathEpsilon := f_epsilon f; DisableBloomExchange := DisableBloomExchange cfg;
     cfg_ProbeInterval := cfg_ProbeInterval cfg; cfg_ProbeTimeout := cfg_ProbeTimeout cfg;
     LogLevel := LogLevel cfg |}.

(** The defaults of the flags. *)
Definition default_flags : DaemonFlags :=
  {| f_listen := ["/ip4/127.0.0.1/tcp/9000"]; f_bootstrap := []; f_dataDir := None; f_enableRelay := true;
     f_enableMDNS := true; f_apiAddr := "127.0.0.1:9090"; f_metricsAddr := ":2112"; f_policy := "balanced";
     f_epsilon := lit 1 10 |}.

(** The daemon up to its signal, and its stop; the command's own context is
    cancelled when it returns. *)
Definition runDaemon (se : StartEnv) (sp : StopEnv) : Op unit := λ w,
  let run : Op unit :=
    _ ← (λ w, let '(r, w') := Start se w in (wrap_err "start node" r, w'));
    _ ← emit APIServerStarted;
    Stop sp in
  let '(r, w') := run w in (r, snd (emit ContextCancelled w')).

(** ** What a start does *)

Definition fresh (cfg : Config) (d : Disk) : world :=
  {| w_node := match New cfg with Ok n => n | _ => {| n_Cfg := cfg; n_Host := None; n_DHT := None; n_Metrics := false;
       n_PathManager := None; n_ContentStore := None; n_ContentRouter := None; n_BlockCache := None;
       n_ReplicationTracker := None; n_PeerBlooms := None; n_cancel := false; n_mdns := false; n_startedAt := None |} end;
     w_disk := d; w_trace := [] |}.

(** Runs the operations of a goal as far as the results of the calls are
    known, and splits on the next result. *)
Ltac run_op := cbv beta iota zeta delta [mbind Op_bind outcome_bind mret Op_ret outcome_ret get_node assign emit register
  call on_disk when wrap_err join_dht enable_relay start_mdns start_loops is_ok fst snd SetupDHT
  w_node w_disk w_trace n_Cfg].
Ltac start_cases := unfold Start, fresh, New; run_op;
  repeat match goal with
  | |- context [match NewHost ?a ?b ?c with _ => _ end] => destruct (NewHost a b c) as [[?|?|?] ?] eqn:?; run_op
  | |- context [match NewStore ?a ?b ?c ?d with _ => _ end] => destruct (NewStore a b c d) as [[?|?|?] ?] eqn:?; run_op
  | |- context [match bootstrap_addrs ?a with _ => _ end] => destruct (bootstrap_addrs a) as [?|?|?] eqn:?; run_op
  | |- context [match de_New ?a with _ => _ end] => destruct (de_New a) as [?|?|?] eqn:?; run_op
  | |- context [match de_Bootstrap ?a with _ => _ end] => destruct (de_Bootstrap a) as [[]|?|?] eqn:?; run_op
  | |- context [match NewManager ?a ?b with _ => _ end] => destruct (NewManager a b) as [?|?|?] eqn:?; run_op
  | |- context [if ?b then _ else _] => destruct b eqn:?; run_op
  end.

(** A start succeeds or fails exactly as its five fallible steps do, in
    order: the host, the content store, the bootstrap addresses, the DHT, the
    path manager; relay service and mDNS failures do not matter. *)
Theorem Start_outcome (se : StartEnv) (cfg : Config) (d : Disk) :
  fst (Start se (fresh cfg d)) =
  let '(host, d1) := NewHost (se_host se) d (host_config cfg) in
  let '(store, d2) := NewStore (se_store_mkdir se) (se_store_read se) d1 (DataDir cfg) in
  h ← wrap_err "create host" host;
  _ ← wrap_err "create content store" store;
  peers ← bootstrap_addrs cfg;
  _ ← wrap_err "setup DHT" (fst (SetupDHT (se_dht se) peers));
  _ ← wrap_err "create path manager" (NewManager h (manager_config cfg));
  mret ().
Proof.
  start_cases; reflexivity.
Qed.

(** ** What a stop closes *)

Lemma open_after_app r t1 t2 :
  open_after r (t1 ++ t2) = foldl (λ now e, default now (effect_of r e)) (open_after r t1) t2.
Proof. unfold open_after. apply foldl_app. Qed.

(** What a stop leaves open of what it finds open: the metrics server, which
    nothing stops; the relay service, whose handle [EnableRelayService] drops;
    what its own close fails for; and a DHT whose bootstrap failed, which the
    node never got hold of.  (The API server is the daemon command's, not the
    node's.) *)
Definition survives (se : StartEnv) (sp : StopEnv) (res : resource) : bool :=
  match res with
  | RMetricsServer | RRelayService | RAPIServer => true
  | RMDNS => negb (is_ok (sp_mdns sp))
  | RDHT => negb (is_ok (sp_dht sp)) || negb (is_ok (de_Bootstrap (se_dht se)))
  | RHost => negb (is_ok (sp_host sp))
  | RProbeLoop | RReplicationLoop | RSummaryLoop => false
  end.

Definition closes_without_panic (sp : StopEnv) : Prop :=
  ∀ w, sp_mdns sp ≠ Panic w ∧ sp_dht sp ≠ Panic w ∧ sp_host sp ≠ Panic w.

(** C28: whether the start succeeded or failed, and wherever it failed, a stop
    after it runs to its end if no close panics: it fails exactly if there is
    a host and closing it fails.  Exactly those of the things the start had
    opened stay open that [survives] lists: the metrics server and the relay
    service always, the mDNS service, the DHT and the host if their own close
    fails, and a DHT whose bootstrap had failed; every background loop ends. *)
Theorem Stop_after_Start (se : StartEnv) (sp : StopEnv) (cfg : Config) (d : Disk) :
  closes_without_panic sp →
  let '(r, w1) := Start se (fresh cfg d) in
  let '(r', w2) := Stop sp w1 in
  r' = match n_Host (w_node w1) with Some _ => wrap_err "close host" (sp_host sp) | None => Ok () end ∧
  ∀ res, open_after res (w_trace w2) = open_after res (w_trace w1) && survives se sp res.
Proof.
  intros Hnp. assert (∀ w, sp_mdns sp = Panic w → False) as H1 by (intros w; by apply Hnp).
  assert (∀ w, sp_dht sp = Panic w → False) as H2 by (intros w; by apply Hnp).
  assert (∀ w, sp_host sp = Panic w → False) as H3 by (intros w; by apply Hnp). clear Hnp.
  start_cases; try match goal with E : n_Host _ = _ |- _ => discriminate E end;
    unfold Stop, close_logged, survives; run_op;
    destruct (sp_mdns sp) as [[]|?|w1]; try destruct (H1 w1 eq_refl);
    destruct (sp_dht sp) as [[]|?|w2]; try destruct (H2 w2 eq_refl);
    destruct (sp_host sp) as [[]|?|w3]; try destruct (H3 w3 eq_refl);
    (split; [reflexivity|intros [];
       repeat match goal with E : de_Bootstrap _ = _ |- _ => rewrite E; clear E end; reflexivity]).
Qed.

(** A start that fails after the host was made returns without closing
    it. *)
Theorem failed_start_leaves_host_open (se : StartEnv) (cfg : Config) (d : Disk) :
  is_ok (fst (NewHost (se_host se) d (host_config cfg))) = true →
  open_after RHost (w_trace (snd (Start se (fresh cfg d)))) = true.
Proof. start_cases; cbn; try discriminate; reflexivity. Qed.

(** ** A started node *)

Definition handlers (trace : list event) : list string :=
  omap (λ e, match e with HandlerRegistered p => Some p | _ => None end) trace.

Definition relay_on (se : StartEnv) (cfg : Config) : bool :=
  EnableRelay cfg && is_ok (EnableRelayService (se_relay se)).
Definition mdns_on (se : StartEnv) (cfg : Config) : bool := EnableMDNS cfg && is_ok (SetupMDNS (se_mdns se)).

(** A running node as its start leaves it: the parts, each in the state its
    component starts from, the handlers, and what runs in the background. *)
Record started (se : StartEnv) (cfg : Config) (n : Node) (trace : list event) : Prop := {
  st_cfg : n_Cfg n = cfg;
  st_time : n_startedAt n = Some (se_now se);
  st_metrics : n_Metrics n = true;
  st_cancel : n_cancel n = true;
  st_manager : ∃ h m, n_Host n = Some h ∧ n_PathManager n = Some m ∧ host m = h ∧ manager_wf m ∧
                 probeInterval m = cfg_ProbeInterval cfg;
  st_store : ∃ s, n_ContentStore n = Some s ∧ dir s = Join (DataDir cfg) ["blocks"] ∧
               pinFile s = Join (DataDir cfg) ["pins.json"];
  st_cache : ∃ c, n_BlockCache n = Some c ∧ wf c ∧ blocks c = [] ∧ maxBytes c = CacheMaxBytes cfg ∧ pinChecker c = true;
  st_tracker : n_ReplicationTracker n = Some (NewReplicationTracker 5);
  st_blooms : n_PeerBlooms n = Some NewPeerBloomStore;
  st_dht : ∃ d, n_DHT n = Some d ∧ n_ContentRouter n = Some d;
  st_mdns : n_mdns n = mdns_on se cfg;
  st_handlers : handlers trace = [PingID; PathProbeID; BlockTransferID; BlockPushID; CacheSummaryID];
  st_open : ∀ res, open_after res trace =
    match res with
    | RHost | RDHT | RProbeLoop | RReplicationLoop => true
    | RRelayService => relay_on se cfg
    | RMDNS => mdns_on se cfg
    | RMetricsServer => negb (bool_decide (MetricsAddr cfg = ""))
    | RSummaryLoop => negb (DisableBloomExchange cfg)
    | RAPIServer => false
    end
}.

Lemma loadPins_paths f s d : dir (loadPins f s d) = dir s ∧ pinFile (loadPins f s d) = pinFile s.
Proof. unfold loadPins. by repeat case_match. Qed.

Lemma NewStore_paths fmk frd d base s d' :
  NewStore fmk frd d base = (Ok s, d') → dir s = Join base ["blocks"] ∧ pinFile s = Join base ["pins.json"].
Proof.
  unfold NewStore. destruct (MkdirAll _ _ _) as [[[]|e|w] d1]; [|done..]. intros [= <- <-]. apply loadPins_paths.
Qed.

Lemma manager_wf_empty (m : Manager) : pathSets m = ∅ → manager_wf m.
Proof. intros H t ps. by rewrite H, lookup_empty. Qed.

Lemma new_cache_wf cfg : wf (new_cache cfg) ∧ blocks (new_cache cfg) = [] ∧
  maxBytes (new_cache cfg) = CacheMaxBytes cfg ∧ pinChecker (new_cache cfg) = true.
Proof. split; [|done]. by apply (config_change_wf (NewLRUCache (CacheMaxBytes cfg))), NewLRUCache_wf. Qed.

Definition ok_node (se : StartEnv) (cfg : Config) (h : peer_ID) (s : Store) (dht : DHT) (m : Manager) (n : Node) : Node :=
  let n1 := set_dht dht (set_tracking (NewReplicationTracker node_threshold) NewPeerBloomStore
              (set_store s (new_cache cfg) (set_host h (set_started (se_now se) n)))) in
  set_manager m (if mdns_on se cfg then set_mdns n1 else n1).

Definition ok_trace (se : StartEnv) (cfg : Config) : list event :=
  [HostOpened; HandlerRegistered PingID; HandlerRegistered PathProbeID; HandlerRegistered BlockTransferID;
   HandlerRegistered BlockPushID; HandlerRegistered CacheSummaryID; DHTOpened] ++
  (if relay_on se cfg then [RelayServiceEnabled] else []) ++
  (if mdns_on se cfg then [MDNSStarted] else []) ++
  (if negb (bool_decide (MetricsAddr cfg = "")) then [MetricsServerStarted] else []) ++
  [ProbeLoopStarted; ReplicationLoopStarted] ++
  (if negb (DisableBloomExchange cfg) then [SummaryLoopStarted] else []).

(** The only way a start succeeds. *)
Lemma Start_Ok se cfg d w :
  Start se (fresh cfg d) = (Ok (), w) →
  ∃ h d1 s d2 peers dht m,
    NewHost (se_host se) d (host_config cfg) = (Ok h, d1) ∧
    NewStore (se_store_mkdir se) (se_store_read se) d1 (DataDir cfg) = (Ok s, d2) ∧
    bootstrap_addrs cfg = Ok peers ∧ de_New (se_dht se) = Ok dht ∧
    NewManager h (manager_config cfg) = Ok m ∧
    w = {| w_node := ok_node se cfg h s dht m (w_node (fresh cfg d)); w_disk := d2; w_trace := ok_trace se cfg |}.
Proof.
  start_cases; intros H; try discriminate H; injection H as <-;
    (do 7 eexists; split_and!; [first [reflexivity|eassumption]..|]);
    unfold ok_node, ok_trace, relay_on, mdns_on, is_ok;
    repeat match goal with E : _ = true |- _ => rewrite E; clear E | E : _ = false |- _ => rewrite E; clear E end;
    reflexivity.
Qed.

(** C22: a start that succeeds has made every part of the node, in a
    well-formed initial state that follows from the configuration: metrics,
    context, start time, host, store, empty cache, empty replication counts
    and peer filters, DHT and router, path manager; the five protocols have
    handlers; and of what can run in the background exactly what the
    configuration asks for runs, the relay service and mDNS if they also
    could be started, and no API server.  (This is the state as the start
    itself makes it: what a handler that is registered early receives before
    the start returns comes on top, as steps of its own.) *)
Theorem Start_establishes (se : StartEnv) (cfg : Config) (d : Disk) (w : world) :
  Start se (fresh cfg d) = (Ok (), w) → started se cfg (w_node w) (w_trace w).
Proof.
  intros (h & d1 & s & d2 & peers & dht & m & Hh & Hs & Hp & Hd & Hm & ->)%Start_Ok.
  apply NewStore_paths in Hs as [Hs1 Hs2]. pose proof (NewManager_interval _ _ _ Hm). apply NewManager_empty in Hm as [Hm1 Hm2].
  unfold ok_node, ok_trace. split; cbn [w_node w_trace];
    try (destruct (mdns_on se cfg); reflexivity);
    try (intros res; destruct (relay_on se cfg), (mdns_on se cfg), (bool_decide _), (DisableBloomExchange cfg), res; reflexivity);
    try (destruct (relay_on se cfg), (mdns_on se cfg), (bool_decide _), (DisableBloomExchange cfg); reflexivity).
  - exists h, m. split_and!; [by destruct (mdns_on se cfg)|done|done|by apply manager_wf_empty|done].
  - exists s. split_and!; [by destruct (mdns_on se cfg)|done..].
  - exists (new_cache cfg). split; [by destruct (mdns_on se cfg)|apply new_cache_wf].
  - exists dht. by destruct (mdns_on se cfg).
Qed.

Lemma NewHost_disk he d cfg h d' :
  NewHost he d cfg = (Ok h, d') →
  ∃ k, loadOrGenerateKey (he_mkdir he) (he_read he) (he_write he) (he_gen he) d (hc_DataDir cfg) = (Ok k, d') ∧
       h = IDFromPrivateKey k.
Proof.
  unfold NewHost. destruct (loadOrGenerateKey _ _ _ _ _ _) as [k d1]. intros [= H <-].
  apply bind_Ok_inv in H as (priv & Hk%wrap_err_Ok & H). apply bind_Ok_inv in H as (? & _ & H).
  apply bind_Ok_inv in H as (? & _ & H). injection H as <-. exists priv. by subst.
Qed.

Lemma NewStore_files fmk frd d base r d' : NewStore fmk frd d base = (r, d') → files d' = files d.
Proof. unfold NewStore, MkdirAll. destruct fmk; by intros [= <- <-]. Qed.

(** C29: a node keeps its peer ID when it is started again over the same data
    directory, whatever else changed on the disk and in the configuration, if
    the key file is unchanged and can be read. *)
Theorem restart_keeps_peer_ID {CL : CryptoLaws CR} (se se' : StartEnv) (cfg cfg' : Config) (d d' : Disk) (w w' : world) :
  Start se (fresh cfg d) = (Ok (), w) →
  DataDir cfg' = DataDir cfg →
  files d' !! keyPath (DataDir cfg) = files (w_disk w) !! keyPath (DataDir cfg) →
  he_mkdir (se_host se') = None → he_read (se_host se') = None →
  Start se' (fresh cfg' d') = (Ok (), w') →
  n_Host (w_node w') = n_Host (w_node w) ∧ node_PeerID (w_node w') = node_PeerID (w_node w).
Proof.
  intros (h & d1 & s & d2 & ? & dht & m & Hh & Hs & _ & _ & _ & ->)%Start_Ok Hdir Hkey Hmk Hrd
    (h' & d1' & s' & d2' & ? & dht' & m' & Hh' & _ & _ & _ & _ & ->)%Start_Ok.
  apply NewHost_disk in Hh as (k & Hk & ->). apply NewHost_disk in Hh' as (k' & Hk' & ->).
  cbn [w_disk] in Hkey. rewrite (NewStore_files _ _ _ _ _ _ Hs) in Hkey.
  cbn [host_config hc_DataDir] in Hk, Hk'. rewrite Hdir, Hmk, Hrd in Hk'.
  destruct (loadOrGenerateKey_again _ _ _ (he_write (se_host se')) _ (he_gen (se_host se')) d d1 d' _ _ Hk Hkey) as (d3 & E & _).
  rewrite Hk' in E. injection E as -> _.
  unfold node_PeerID, ok_node. cbn [w_node]. by destruct (mdns_on se cfg), (mdns_on se' cfg').
Qed.

(** The probe loop of a started daemon runs through any rounds whose
    probes finish without a panic: the daemon's interval is positive. *)
Theorem daemon_probe_loop_runs (os : nat → order) (home : path) (f : DaemonFlags) (se : StartEnv) (d : Disk)
    (w : world) (first : tick) (ticks : list tick) :
  long_ids → Start se (fresh (daemon_config home f) d) = (Ok (), w) →
  ∃ h m, n_Host (w_node w) = Some h ∧ n_PathManager (w_node w) = Some m ∧
    (Forall (complete_tick h) (first :: ticks) →
     ∃ m' seen, probeLoop os m first ticks = Ok m' ∧ reachable m seen m' ∧ manager_wf m').
Proof.
  intros Hl (h & d1 & s & d2 & peers & dht & m & _ & _ & _ & _ & Hm & ->)%Start_Ok. exists h, m.
  unfold ok_node. cbn [w_node]. split_and!; [by destruct (mdns_on _ _)|done|]. intros Hall.
  destruct (probeLoop_runs os h _ m first ticks Hl Hm Hall) as (m' & seen & E & Hr); [done|].
  exists m', seen. split_and!; [done..|]. by destruct (reachable_inv _ _ _ _ _ Hl Hm Hr).
Qed.
End lifecycle.

(** ** Concrete inputs *)

Section witnesses.
Import Policy.Examples Store.Examples Transport.Examples.

#[local] Instance ed25519_ids : PeerID := {| peer_String := λ p, "12D3KooW" +:+ p |}.

Definition flags0 : DaemonFlags :=
  {| f_listen := ["/ip4/127.0.0.1/tcp/9000"]; f_bootstrap := ["/ip4/10.0.0.1/tcp/9000/p2p/B"]; f_dataDir := Some home;
     f_enableRelay := true; f_enableMDNS := false; f_apiAddr := "127.0.0.1:9090"; f_metricsAddr := ":2112";
     f_policy := "reliability"; f_epsilon := lit 1 10 |}.
Definition config0 : Config := daemon_config ["home"] flags0.

(** A first start with a fresh key, on an empty disk; no bootstrap peer
    answers. *)
Definition env0 (key : PrivKey) (bootstrap : outcome unit) : StartEnv :=
  {| se_now := 1000;
     se_host := {| he_mkdir := None; he_read := None; he_write := None; he_gen := Ok key; he_resources := Ok ();
                   he_New := λ _, Ok () |};
     se_store_mkdir := None; se_store_read := None;
     se_dht := {| de_New := Ok {| dht_Provide := λ _, Ok (); dht_FindProviders := λ _ _, [] |};
                  de_Bootstrap := bootstrap; de_Connect := λ _, Err (Errorf "dial backoff") |};
     se_relay := Err (Errorf "resource limit exceeded"); se_mdns := Ok () |}.

Definition start0 : outcome unit * world := Start (env0 key_a (Ok ())) (fresh config0 empty_disk).

Lemma start0_ok : start0 = (Ok (), snd start0).
Proof. rewrite (surjective_pairing start0) at 1. by f_equal. Qed.

Lemma Start_establishes_witness : started (env0 key_a (Ok ())) config0 (w_node (snd start0)) (w_trace (snd start0)).
Proof. apply (Start_establishes (env0 key_a (Ok ())) config0 empty_disk (snd start0)), start0_ok. Defined.

(** The bootstrap fails: an error, and the host stays open. *)
Definition start1 : outcome unit * world :=
  Start (env0 key_a (Err (Errorf "no addresses"))) (fresh config0 empty_disk).
Example start1_error : fst start1 = Err (Wrapf "setup DHT" (Wrapf "bootstrap DHT" (Errorf "no addresses"))).
Proof. vm_compute. reflexivity. Qed.

Lemma failed_start_leaves_host_open_witness : open_after RHost (w_trace (snd start1)) = true.
Proof. apply (failed_start_leaves_host_open (env0 key_a (Err (Errorf "no addresses"))) config0 empty_disk). vm_compute. reflexivity. Defined.

(** The second start could have made another key. *)
Definition start2 : outcome unit * world :=
  Start (env0 key_b (Ok ())) (fresh config0 (w_disk (snd start0))).
Lemma start2_ok : start2 = (Ok (), snd start2).
Proof. rewrite (surjective_pairing start2) at 1. by f_equal. Qed.

Lemma restart_keeps_peer_ID_witness :
  n_Host (w_node (snd start2)) = n_Host (w_node (snd start0)) ∧
  node_PeerID (w_node (snd start2)) = node_PeerID (w_node (snd start0)).
Proof.
  apply (restart_keeps_peer_ID (env0 key_a (Ok ())) (env0 key_b (Ok ())) config0 config0 empty_disk (w_disk (snd start0))
    (snd start0) (snd start2)); [exact start0_ok|reflexivity..|exact start2_ok].
Defined.

Lemma daemon_probe_loop_runs_witness :
  ∃ h m, n_Host (w_node (snd start0)) = Some h ∧ n_PathManager (w_node (snd start0)) = Some m ∧
    (Forall (complete_tick h) [tick0] →
     ∃ m' seen, probeLoop (λ _, rev_order) m tick0 [] = Ok m' ∧ reachable m seen m' ∧ manager_wf m').
Proof.
  apply (daemon_probe_loop_runs (λ _, rev_order) ["home"] flags0 (env0 key_a (Ok ())) empty_disk (snd start0) tick0 []);
    [intros p; unfold peer_String, ed25519_ids; rewrite string_length_app; simpl; lia|exact start0_ok].
Defined.

(** Every close succeeds. *)
Definition clean_stop : StopEnv := {| sp_mdns := Ok (); sp_dht := Ok (); sp_host := Ok () |}.

(** What a stopped node leaves behind when its DHT does not close: the DHT,
    and its metrics server. *)
Definition stuck_dht : StopEnv := {| sp_mdns := Ok (); sp_dht := Err (Errorf "datastore"); sp_host := Ok () |}.
Lemma Stop_after_Start_witness :
  let '(r', w2) := Stop stuck_dht (snd start0) in
  r' = Ok () ∧ open_after RDHT (w_trace w2) = true ∧ open_after RMetricsServer (w_trace w2) = true ∧
  open_after RProbeLoop (w_trace w2) = false.
Proof.
  pose proof (Stop_after_Start (env0 key_a (Ok ())) stuck_dht config0 empty_disk) as H.
  fold start0 in H. rewrite start0_ok in H. destruct (Stop stuck_dht (snd start0)) as [r' w2].
  destruct H as [-> H]; [intros w; split_and!; discriminate|]. rewrite !H. vm_compute. repeat split.
Defined.

Example stopped_node :
  List.filter (λ r, open_after r (w_trace (snd (Stop clean_stop (snd start0)))))
    [RHost; RDHT; RRelayService; RMDNS; RMetricsServer; RAPIServer; RProbeLoop; RReplicationLoop; RSummaryLoop]
  = [RMetricsServer].
Proof. vm_compute. reflexivity. Qed.
End witnesses.
