(* ===== verification/Cluster.v ===== *)
(** * Clusters of nodes in one process ([testutil/cluster.go])

    Tests and benchmarks start several nodes on this machine, each over a
    temporary directory and a port of its own, and connect every pair.  A node
    is known by its fields and by the trace of what it opened and closed. *)

From S2P Require Import Prelude Utf8 Json Float64 Runtime Path Policy Probe Manager Lru Bloom Store Replication Node Providers Transport ProbeLoop Lifecycle.

(** ** Configuration *)

Record ClusterOptions := {
  opt_Policy : string;
  opt_Epsilon : float64;
  opt_DisableMDNS : bool;
  opt_ProbeInterval : Duration;
  opt_DisableCache : bool;
  opt_DisableBloom : bool
}.

Definition no_options : ClusterOptions :=
  {| opt_Policy := ""; opt_Epsilon := f0; opt_DisableMDNS := false; opt_ProbeInterval := 0;
     opt_DisableCache := false; opt_DisableBloom := false |}.

Definition listen_addr (port : Z) : string := "/ip4/127.0.0.1/tcp/" +:+ pretty port.

(** The fields it does not set are zero. *)
Definition clusterConfigWithOptions (port : Z) (tmpDir : path) (opts : ClusterOptions) : Config :=
  {| ListenAddrs := [listen_addr port];
     BootstrapPeers := [];
     DataDir := tmpDir;
     EnableRelay := true;
     EnableMDNS := negb (opt_DisableMDNS opts);
     APIAddr := "127.0.0.1:" +:+ pretty (port + 1000);
     MetricsAddr := "";
     PathPolicy := if decide (opt_Policy opts = "") then "balanced" else opt_Policy opts;
     CacheMaxBytes := if opt_DisableCache opts then 1 else 16 * 1024 * 1024;
     ChunkSizeBytes := 256 * 1024;
     EnableErasure := false; DataShards := 0; ParityShards := 0;
     AdaptiveChunking := false; MinChunkSize := 0; MaxChunkSize := 0;
     PathEpsilon := if fle (opt_Epsilon opts) f0 then lit 1 10 else opt_Epsilon opts;
     DisableBloomExchange := opt_DisableBloom opts;
     cfg_ProbeInterval := if opt_ProbeInterval opts <=? 0 then 30 * Second else opt_ProbeInterval opts;
     cfg_ProbeTimeout := 3 * Second;
     LogLevel := "warn" |}.

Definition clusterConfig (port : Z) (tmpDir : path) : Config :=
  clusterConfigWithOptions port tmpDir no_options.

(** ** Making a cluster *)

Section cluster.
Context `{ML : MathLib, LA : LinAlg, PID : PeerID, MF : Multiformats, JE : JSONErrors, CR : Crypto, MA : Multiaddrs}.

Record member := { mb_node : Node; mb_trace : list event }.
Definition member_of (w : world) : member := {| mb_node := w_node w; mb_trace := w_trace w |}.
Definition world_of (m : member) (d : Disk) : world :=
  {| w_node := mb_node m; w_disk := d; w_trace := mb_trace m |}.

Record Cluster := { Nodes : list member; BasePort : Z; tmpDirs : list path }.

Definition add_dir (c : Cluster) (dir : path) : Cluster :=
  {| Nodes := Nodes c; BasePort := BasePort c; tmpDirs := tmpDirs c ++ [dir] |}.
Definition add_node (c : Cluster) (m : member) : Cluster :=
  {| Nodes := Nodes c ++ [m]; BasePort := BasePort c; tmpDirs := tmpDirs c |}.

(** The loop that starts nodes [i], [i + 1], ...; [tmp i] is the directory
    [os.MkdirTemp] makes, [None] when it fails.  The result is the cluster so
    far, and why the loop stopped early: no directory, or a node that did not
    start. *)
Inductive stopped := NoDirectory | NodeFailed (m : member).

Fixpoint start_nodes (config : Z → path → Config) (se : nat → StartEnv) (tmp : nat → option path)
    (i todo : nat) (c : Cluster) (d : Disk) : outcome (Cluster * option stopped * Disk) :=
  match todo with
  | O => mret (c, None, d)
  | S todo' =>
      match tmp i with
      | None => mret (c, Some NoDirectory, d)
      | Some tmpDir =>
          let c1 := add_dir c tmpDir in
          let cfg := config (BasePort c + Z.of_nat i) tmpDir in
          let d1 := {| files := files d; dirs := {[tmpDir]} ∪ dirs d |} in
          match Start (se i) (fresh cfg d1) with
          | (Ok _, w) => start_nodes config se tmp (S i) todo' (add_node c1 (member_of w)) (w_disk w)
          | (Err _, w) => mret (c1, Some (NodeFailed (member_of w)), w_disk w)
          | (Panic v, _) => Panic v
          end
      end
  end.

(** Cancelling the cluster's context cancels the nodes', which derive from
    it. *)
Definition cancel (m : member) : member :=
  {| mb_node := mb_node m; mb_trace := mb_trace m ++ [ContextCancelled] |}.

(** Every node is connected to all before it; failures are logged. *)
Definition connect_pairs (n : nat) : list (nat * nat) :=
  i ← seq 1 (n - 1); (λ j, (i, j)) <$> seq 0 i.

(** A cluster with the connections it tried, or nothing but the nodes that
    were made, which run on. *)
Inductive cluster_result :=
  | Made (c : Cluster) (connected : list (nat * nat)) (d : Disk)
  | NotMade (running : list member) (d : Disk).

Definition left_behind (c : Cluster) (s : stopped) : list member :=
  Nodes c ++ match s with NoDirectory => [] | NodeFailed m => [m] end.

(** [abandon]: what happens to the nodes when one does not start. *)
Definition make_cluster (abandon : member → member) (base pid : Z) (config : Z → path → Config) (se : nat → StartEnv)
    (tmp : nat → option path) (n : nat) (d : Disk) : outcome cluster_result :=
  r ← start_nodes config se tmp 0 n {| Nodes := []; BasePort := base + Z.rem pid 5000; tmpDirs := [] |} d;
  match r with
  | (c, None, d') => mret (Made c (connect_pairs (length (Nodes c))) d')
  | (c, Some s, d') => mret (NotMade (abandon <$> left_behind c s) d')
  end.

Definition NewClusterWithOptions (pid : Z) (se : nat → StartEnv) (tmp : nat → option path) (n : nat)
    (opts : ClusterOptions) (d : Disk) : outcome cluster_result :=
  make_cluster cancel 12000 pid (λ port dir, clusterConfigWithOptions port dir opts) se tmp n d.

Definition NewClusterDirect (pid : Z) (se : nat → StartEnv) (tmp : nat → option path) (n : nat) (d : Disk)
  : outcome cluster_result :=
  make_cluster cancel 11000 pid clusterConfig se tmp n d.

(** A failure ends the test at once and cancels nothing. *)
Definition NewCluster (pid : Z) (se : nat → StartEnv) (tmp : nat → option path) (n : nat) (d : Disk)
  : outcome cluster_result :=
  make_cluster id 10000 pid clusterConfig se tmp n d.

(** ** Shutting down *)

Definition stop_member (close : StopEnv) (d : Disk) (m : member) : member :=
  member_of (snd (Stop close (world_of m d))).

(** [os.RemoveAll] of each directory. *)
Definition under (dirs : list path) (p : path) : bool := existsb (λ dir, bool_decide (dir `prefix_of` p)) dirs.
Definition RemoveAll (ds : list path) (d : Disk) : Disk :=
  {| files := filter (λ x, under ds (fst x) = false) (files d);
     dirs := filter (λ p, under ds p = false) (dirs d) |}.

(** The errors of the stops are dropped. *)
Definition Cleanup (close : nat → StopEnv) (c : Cluster) (d : Disk) : list member * Disk :=
  (imap (λ i m, cancel (stop_member (close i) d m)) (Nodes c), RemoveAll (tmpDirs c) d).

(** [Cluster.Stop] of tests: the context is cancelled first. *)
Definition Stop_cluster (close : nat → StopEnv) (c : Cluster) (d : Disk) : list member * Disk :=
  (imap (λ i m, stop_member (close i) d (cancel m)) (Nodes c), RemoveAll (tmpDirs c) d).

(** ** Waiting for the mesh *)

(** Each poll sees how many peers every node has; [false]: the deadline
    passes. *)
Fixpoint WaitForMesh (polls : list (list Z)) : bool :=
  match polls with
  | [] => false
  | peers :: polls' =>
      let expected := zlen peers - 1 in
      if forallb (λ n, negb (n <? expected)) peers then true else WaitForMesh polls'
  end.

(** ** Who is connected to whom *)

Lemma elem_of_connect_pairs n i j : (i, j) ∈ connect_pairs n ↔ (j < i < n)%nat.
Proof.
  unfold connect_pairs. rewrite list_elem_of_bind. split.
  - intros (k & (x & [= -> ->] & Hx%elem_of_seq)%list_elem_of_fmap & Hk%elem_of_seq). lia.
  - intros Hij. exists i. split; [|apply elem_of_seq; lia]. apply list_elem_of_fmap. exists j.
    split; [done|]. apply elem_of_seq. lia.
Qed.

Lemma NoDup_connect_pairs n : NoDup (connect_pairs n).
Proof.
  unfold connect_pairs. generalize (n - 1)%nat. intros k. generalize 1%nat. induction k as [|k IH]; intros a.
  { constructor. }
  cbn [seq mbind list_bind]. apply NoDup_app. split_and!; [|  |apply IH].
  - apply NoDup_fmap_2; [intros ? ? [= ->]; done|apply NoDup_seq].
  - intros [i j] (x & [= -> ->] & _)%list_elem_of_fmap (k' & (y & [= -> ->] & _)%list_elem_of_fmap & Hk%elem_of_seq)%list_elem_of_bind.
    lia.
Qed.

(** Every two nodes are connected once, by the later one. *)
Theorem connect_pairs_complete (n i j : nat) :
  (i < n)%nat → (j < n)%nat → i ≠ j →
  NoDup (connect_pairs n) ∧ ((i, j) ∈ connect_pairs n ↔ (j < i)%nat) ∧
  ((i, j) ∈ connect_pairs n ↔ (j, i) ∉ connect_pairs n).
Proof. intros Hi Hj Hne. split_and!; [apply NoDup_connect_pairs|..]; rewrite !elem_of_connect_pairs; lia. Qed.

(** ** What runs, and what is left *)

Lemma pretty_inj (a b : Z) : pretty a = pretty b → a = b.
Proof. apply (inj pretty). Qed.

Lemma listen_addr_inj a b : listen_addr a = listen_addr b → a = b.
Proof.
  unfold listen_addr. intros Heq. apply pretty_inj. apply to_bytes_inj. apply (f_equal to_bytes) in Heq.
  rewrite !to_bytes_app in Heq. by apply app_inv_head in Heq.
Qed.

(** The nodes of a cluster, each started with the configuration of its port
    and its directory. *)
Definition started_as (config : Z → path → Config) (c : Cluster) : Prop :=
  ∀ k m, Nodes c !! k = Some m → ∃ dir se d w, tmpDirs c !! k = Some dir ∧
    Start se (fresh (config (BasePort c + Z.of_nat k) dir) d) = (Ok (), w) ∧ m = member_of w.

Lemma started_as_add config c dir se d w :
  length (tmpDirs c) = length (Nodes c) → started_as config c →
  Start se (fresh (config (BasePort c + Z.of_nat (length (Nodes c))) dir) d) = (Ok (), w) →
  started_as config (add_node (add_dir c dir) (member_of w)).
Proof.
  intros Hl Hc Hs k m. cbn [Nodes tmpDirs BasePort add_node add_dir]. intros [Hk|[Hk Hm]]%lookup_app_Some.
  - destruct (Hc k m Hk) as (dir' & se' & d' & w' & Hd & ?). exists dir', se', d', w'.
    by rewrite (lookup_app_l_Some _ _ _ _ Hd).
  - destruct (k - length (Nodes c))%nat as [|j] eqn:Ej; [|done]. injection Hm as <-.
    assert (k = length (Nodes c)) as -> by lia. exists dir, se, d, w. split_and!; [|done|done].
    by rewrite lookup_app_r, Hl, Nat.sub_diag by lia.
Qed.

Lemma start_nodes_started config se tmp i todo c d c' s d' :
  start_nodes config se tmp i todo c d = Ok (c', s, d') →
  length (Nodes c) = i → length (tmpDirs c) = i → started_as config c →
  BasePort c' = BasePort c ∧ started_as config c' ∧
  match s with
  | None => length (Nodes c') = (i + todo)%nat ∧ length (tmpDirs c') = (i + todo)%nat
  | Some _ => (i ≤ length (Nodes c') < i + todo)%nat
  end.
Proof.
  revert i c d. induction todo as [|todo IH]; intros i c d; cbn [start_nodes].
  { intros [= <- <- <-] Hn Ht Hc. split_and!; [done|done|lia|lia]. }
  destruct (tmp i) as [dir|]; [|intros [= <- <- <-] Hn Ht Hc; split_and!; [done|done|lia|lia]].
  set (d1 := {| files := files d; dirs := _ |}).
  destruct (Start (se i) _) as [[[]|e|v] w] eqn:Es; [| |done]; intros H Hn Ht Hc.
  - subst i. apply IH in H as (H1 & H2 & H3).
    + split_and!; [done|done|]. destruct s; [lia|destruct H3; lia].
    + simpl. rewrite length_app. simpl. lia.
    + simpl. rewrite length_app. simpl. lia.
    + by eapply started_as_add.
  - injection H as <- <- <-. split_and!; [done| |simpl; lia|simpl; lia].
    intros k m Hk. destruct (Hc k m Hk) as (dir' & se' & d' & w' & Hd & ?). exists dir', se', d', w'.
    cbn [tmpDirs add_dir]. by rewrite (lookup_app_l_Some _ _ _ _ Hd).
Qed.

Lemma make_cluster_started abandon base pid config se tmp n d r :
  make_cluster abandon base pid config se tmp n d = Ok r →
  match r with
  | Made c connected _ => BasePort c = base + Z.rem pid 5000 ∧ started_as config c ∧
      length (Nodes c) = n ∧ length (tmpDirs c) = n ∧ connected = connect_pairs n
  | NotMade running _ => ∃ c s, running = abandon <$> left_behind c s ∧ started_as config c ∧ (length (Nodes c) < n)%nat
  end.
Proof.
  unfold make_cluster. intros ([[c [s|]] d'] & H & [= <-])%bind_Ok_inv;
    apply start_nodes_started in H as (Hb & Hc & Hs); try done.
  - exists c, s. split_and!; [done|done|lia].
  - destruct Hs as [Hs Ht]. rewrite Hs. split_and!; [exact Hb|done|lia|lia|done].
Qed.

Lemma Start_cfg se cfg d w : Start se (fresh cfg d) = (Ok (), w) → n_Cfg (w_node w) = cfg.
Proof.
  intros (h & d1 & s & d2 & peers & dht & m & _ & _ & _ & _ & _ & ->)%Start_Ok. unfold ok_node. simpl.
  by destruct (mdns_on se cfg).
Qed.

Lemma started_config config c k m :
  started_as config c → Nodes c !! k = Some m →
  ∃ dir, n_Cfg (mb_node m) = config (BasePort c + Z.of_nat k) dir.
Proof. intros Hc Hm. destruct (Hc k m Hm) as (dir & se & d & w & _ & Hs%Start_cfg & ->). by exists dir. Qed.

(** A cluster that is made has the nodes asked for, each listening on an
    address of its own, with a policy, a probe interval and no metrics
    server, and every two of them were connected once. *)
Theorem cluster_made (pid : Z) (se : nat → StartEnv) (tmp : nat → option path) (n : nat) (opts : ClusterOptions)
    (d d' : Disk) (c : Cluster) (connected : list (nat * nat)) :
  NewClusterWithOptions pid se tmp n opts d = Ok (Made c connected d') →
  length (Nodes c) = n ∧ connected = connect_pairs n ∧
  NoDup (mbind (λ m, ListenAddrs (n_Cfg (mb_node m))) (Nodes c)) ∧
  Forall (λ m, MetricsAddr (n_Cfg (mb_node m)) = "" ∧ PathPolicy (n_Cfg (mb_node m)) ≠ "" ∧
               0 < cfg_ProbeInterval (n_Cfg (mb_node m))) (Nodes c).
Proof.
  intros (_ & Hc & Hl & _ & ->)%make_cluster_started. split_and!; [done|done|..].
  - assert (∀ a l, (∀ k m, l !! k = Some m → ListenAddrs (n_Cfg (mb_node m)) = [listen_addr (a + Z.of_nat k)]) →
      mbind (λ m, ListenAddrs (n_Cfg (mb_node m))) l = (λ k, listen_addr (a + Z.of_nat k)) <$> seq 0 (length l)) as Haddr.
    { intros a l. revert a. induction l as [|m l IH]; intros a Ha; [done|]. cbn [mbind list_bind length seq fmap list_fmap].
      rewrite (Ha 0%nat m eq_refl). cbn [app]. f_equal. rewrite (IH (a + 1)).
      - rewrite <-fmap_S_seq, <-list_fmap_compose. apply list_fmap_ext. intros _ k _. simpl. f_equal. lia.
      - intros k m' Hk. rewrite (Ha (S k) m' Hk). do 2 f_equal. lia. }
    rewrite (Haddr (BasePort c)).
    + apply NoDup_fmap_2; [intros x y Hxy%listen_addr_inj; lia|apply NoDup_seq].
    + intros k m Hm. by destruct (started_config _ _ _ _ Hc Hm) as [dir ->].
  - apply Forall_lookup. intros k m Hm. destruct (started_config _ _ _ _ Hc Hm) as [dir ->]. simpl.
    split_and!; [done|by case_decide|]. destruct (Z.leb_spec (opt_ProbeInterval opts) 0); [done|lia].
Qed.

(** Giving up leaves nodes running.  When a cluster is not made because
    the [k]-th node or its directory fails, the [k] nodes before it keep
    their hosts and their DHTs open, although the caller, who gets nothing,
    can no longer stop them; the cancelled context ends their loops only. *)
Theorem cluster_gives_up (pid : Z) (se : nat → StartEnv) (tmp : nat → option path) (n : nat) (opts : ClusterOptions)
    (d d' : Disk) (running : list member) :
  NewClusterWithOptions pid se tmp n opts d = Ok (NotMade running d') →
  ∃ k, (k < n)%nat ∧ (k ≤ length running ≤ S k)%nat ∧
    Forall (λ m, open_after RHost (mb_trace m) && open_after RDHT (mb_trace m) = true ∧
                 open_after RProbeLoop (mb_trace m) || open_after RReplicationLoop (mb_trace m) = false)
      (take k running).
Proof.
  intros (c & s & -> & Hc & Hk)%make_cluster_started. exists (length (Nodes c)). unfold left_behind.
  split_and!; [done|rewrite length_fmap, length_app; lia|rewrite length_fmap, length_app; destruct s; simpl; lia|].
  rewrite fmap_app, take_app_le, take_ge by (rewrite length_fmap; lia).
  apply Forall_fmap, Forall_lookup. intros k m Hm. destruct (Hc k m Hm) as (dir & se' & d1 & w & _ & Hs & ->).
  apply Start_Ok in Hs as (h & ? & st & ? & ? & ? & m0 & _ & _ & _ & _ & _ & ->). unfold ok_trace. simpl.
  by destruct (relay_on _ _), (mdns_on _ _), (opt_DisableBloom opts).
Qed.

(** Cleaning up: after closes that succeed, no node of the cluster has
    anything open but its relay service, which nothing closes, and no file is
    left under the cluster's directories, and none elsewhere is touched. *)
Theorem Cleanup_closes (pid : Z) (se : nat → StartEnv) (tmp : nat → option path) (n : nat)
    (opts : ClusterOptions) (d d1 d2 : Disk) (c : Cluster) (connected : list (nat * nat)) :
  NewClusterWithOptions pid se tmp n opts d = Ok (Made c connected d1) →
  let '(stopped, d3) := Cleanup (λ _, {| sp_mdns := Ok (); sp_dht := Ok (); sp_host := Ok () |}) c d2 in
  length stopped = n ∧ Forall (λ m, ∀ res, open_after res (mb_trace m) = true → res = RRelayService) stopped ∧
  ∀ p, files d3 !! p = if under (tmpDirs c) p then None else files d2 !! p.
Proof.
  intros (_ & Hc & Hl & _ & _)%make_cluster_started. unfold Cleanup. split_and!; [by rewrite length_imap| |].
  - apply Forall_lookup. intros k m. rewrite list_lookup_imap. intros (m1 & Hm & ->)%fmap_Some.
    destruct (Hc k m1 Hm) as (dir & se' & d0 & w & _ & Hs & ->).
    apply Start_Ok in Hs as (h & ? & st & ? & ? & ? & m0 & _ & _ & _ & _ & _ & ->).
    unfold stop_member, Stop, ok_node, ok_trace, world_of, member_of. intros res.
    destruct (mdns_on _ _), (relay_on _ _); cbn; destruct (opt_DisableBloom opts), res; done.
  - intros p. unfold RemoveAll. cbn [files]. destruct (under (tmpDirs c) p) eqn:Hu.
    + apply map_lookup_filter_None. right. intros x _. simpl. by rewrite Hu.
    + destruct (files d2 !! p) as [x|] eqn:Hp.
      * by apply map_lookup_filter_Some.
      * apply map_lookup_filter_None. by left.
Qed.

(** The mesh is formed exactly when some poll shows every node with as
    many peers as there are other nodes. *)
Theorem WaitForMesh_spec (polls : list (list Z)) :
  WaitForMesh polls = true ↔ ∃ peers, peers ∈ polls ∧ Forall (λ k, zlen peers - 1 ≤ k) peers.
Proof.
  induction polls as [|peers polls IH]; cbn [WaitForMesh].
  - split; [done|]. intros (? & []%not_elem_of_nil & _).
  - destruct (forallb _ _) eqn:Hf.
    + split; [|done]. intros _. exists peers. split; [by left|]. apply Forall_forall. intros k Hk.
      rewrite forallb_forall in Hf. specialize (Hf k). rewrite <-list_elem_of_In in Hf. specialize (Hf Hk).
      apply negb_true_iff, Z.ltb_ge in Hf. lia.
    + rewrite IH. split; [intros (p & ? & ?); exists p; split; [by right|done]|].
      intros (p & [->|Hin]%elem_of_cons & Hall); [exfalso|by exists p]. apply not_true_iff_false in Hf. apply Hf.
      apply forallb_forall. intros k Hk. rewrite <-list_elem_of_In in Hk. rewrite Forall_forall in Hall.
      specialize (Hall k Hk). apply negb_true_iff, Z.ltb_ge. lia.
Qed.

End cluster.

(** ** Concrete inputs *)

Section witnesses.
Import Policy.Examples Store.Examples Transport.Examples.

#[local] Instance printed : PeerID := {| peer_String := λ p, "12D3KooW" +:+ p |}.
#[local] Existing Instances coarse_math list_algebra.

Definition bench_options : ClusterOptions :=
  {| opt_Policy := "epsilon-greedy"; opt_Epsilon := lit 1 10; opt_DisableMDNS := true; opt_ProbeInterval := 3 * Second;
     opt_DisableCache := false; opt_DisableBloom := false |}.
Definition tmp_dirs (i : nat) : option path := Some ["tmp"; pretty (Z.of_nat i)].

Definition two_nodes : outcome cluster_result :=
  NewClusterWithOptions 4242 (λ _, env0 key_a (Ok ())) tmp_dirs 2 bench_options empty_disk.
(** The second node finds no bootstrap peer. *)
Definition one_of_two : outcome cluster_result :=
  NewClusterWithOptions 4242 (λ i, env0 key_a (if decide (i = 1%nat) then Err (Errorf "no addresses") else Ok ()))
    tmp_dirs 2 bench_options empty_disk.

Definition the_cluster (r : outcome cluster_result) : option (Cluster * list (nat * nat) * Disk) :=
  match r with Ok (Made c l d) => Some (c, l, d) | _ => None end.
Definition the_rest (r : outcome cluster_result) : option (list member * Disk) :=
  match r with Ok (NotMade l d) => Some (l, d) | _ => None end.

Definition two_made : Cluster * list (nat * nat) * Disk :=
  default ({| Nodes := []; BasePort := 0; tmpDirs := [] |}, [], empty_disk) (the_cluster two_nodes).
Definition one_left : list member * Disk := default ([], empty_disk) (the_rest one_of_two).

Lemma two_nodes_eq : two_nodes = Ok (Made (fst (fst two_made)) (snd (fst two_made)) (snd two_made)).
Proof.
  unfold two_made. assert (bool_decide (is_Some (the_cluster two_nodes)) = true) as H by (vm_compute; reflexivity).
  apply bool_decide_eq_true in H as [[[c l] d] H]. rewrite H. by destruct two_nodes as [[]| |]; inversion H.
Qed.

Lemma one_of_two_eq : one_of_two = Ok (NotMade (fst one_left) (snd one_left)).
Proof.
  unfold one_left. assert (bool_decide (is_Some (the_rest one_of_two)) = true) as H by (vm_compute; reflexivity).
  apply bool_decide_eq_true in H as [[l d] H]. rewrite H. by destruct one_of_two as [[]| |]; inversion H.
Qed.

Lemma cluster_made_witness :
  length (Nodes (fst (fst two_made))) = 2%nat ∧ snd (fst two_made) = connect_pairs 2 ∧
  NoDup (mbind (λ m, ListenAddrs (n_Cfg (mb_node m))) (Nodes (fst (fst two_made)))) ∧
  Forall (λ m, MetricsAddr (n_Cfg (mb_node m)) = "" ∧ PathPolicy (n_Cfg (mb_node m)) ≠ "" ∧
               0 < cfg_ProbeInterval (n_Cfg (mb_node m))) (Nodes (fst (fst two_made))).
Proof.
  apply (cluster_made 4242 (λ _, env0 key_a (Ok ())) tmp_dirs 2 bench_options empty_disk (snd two_made)
    (fst (fst two_made)) (snd (fst two_made))), two_nodes_eq.
Defined.

Lemma cluster_gives_up_witness :
  ∃ k, (k < 2)%nat ∧ (k ≤ length (fst one_left) ≤ S k)%nat ∧
    Forall (λ m, open_after RHost (mb_trace m) && open_after RDHT (mb_trace m) = true ∧
                 open_after RProbeLoop (mb_trace m) || open_after RReplicationLoop (mb_trace m) = false)
      (take k (fst one_left)).
Proof.
  apply (cluster_gives_up 4242
    (λ i, env0 key_a (if decide (i = 1%nat) then Err (Errorf "no addresses") else Ok ())) tmp_dirs 2 bench_options
    empty_disk (snd one_left)), one_of_two_eq.
Defined.

Example one_left_open : (λ m, open_after RHost (mb_trace m)) <$> fst one_left = [true; true].
Proof. vm_compute. reflexivity. Qed.

Lemma Cleanup_closes_witness :
  let '(stopped, d3) := Cleanup (λ _, clean_stop) (fst (fst two_made)) (snd two_made) in
  length stopped = 2%nat ∧
  Forall (λ m, ∀ res, open_after res (mb_trace m) = true → res = RRelayService) stopped ∧
  ∀ p, files d3 !! p = if under (tmpDirs (fst (fst two_made))) p then None else files (snd two_made) !! p.
Proof.
  apply (Cleanup_closes 4242 (λ _, env0 key_a (Ok ())) tmp_dirs 2 bench_options empty_disk (snd two_made)
    (snd two_made) (fst (fst two_made)) (snd (fst two_made))), two_nodes_eq.
Defined.

Lemma connect_pairs_complete_witness :
  NoDup (connect_pairs 4) ∧ ((3, 1)%nat ∈ connect_pairs 4 ↔ (1 < 3)%nat) ∧
  ((3, 1)%nat ∈ connect_pairs 4 ↔ (1, 3)%nat ∉ connect_pairs 4).
Proof. apply connect_pairs_complete; lia. Defined.

End witnesses.
