(* ===== verification/Api.v ===== *)
(** * Publishing, pinning and queries ([internal/node/api.go])

    The handlers that change or read the content store.  A request is its
    decoded form, a reply a status with a message or the value encoded into
    the body.  Publishing a file and fetching it again is the end-to-end
    path of the program. *)

From S2P Require Import Prelude Float64 Runtime Path Policy Stream Probe Manager Sha256 Chunker Json Codec Lru Store Signing Node Fetch Providers.

(** ** Requests and replies *)

Record PublishRequest := { req_FilePath : string; req_Name : string }.

Record PublishResponse := {
  pr_RootCID : string;
  pr_Name : string;
  pr_TotalSize : Z;
  pr_NumChunks : Z
}.

Record ManifestResponse := {
  mr_RootCID : string;
  mr_Name : string;
  mr_TotalSize : Z;
  mr_NumChunks : Z;
  mr_ChunkCIDs : list string;
  mr_PublisherID : string;
  mr_Signed : bool;
  mr_Verified : bool
}.

Inductive http_method := GET | POST | DELETE | OtherMethod.
#[export] Instance http_method_eq_dec : EqDecision http_method.
Proof. solve_decision. Defined.

Definition no_store {A} : reply A :=
  HttpError StatusServiceUnavailable "content store not initialized".
Definition invalid_request {A} (e : error) : reply A :=
  HttpError StatusBadRequest ("invalid request: " +:+ Error e).

Section api.
Context `{ML : MathLib, LA : LinAlg, PID : PeerID, MF : Multiformats, JE : JSONErrors, E : Ed25519}.
(** [ed25519.NewKeyFromSeed] *)
Context (NewKeyFromSeed : bytes → PrivateKey).

(** ** Publishing *)

(** The lowest average RTT in milliseconds over the best paths of the peers,
    as the code computes it: 10 stands for "none yet". *)
Definition lower_rtt (best : float64) (rttMs : float64) : float64 :=
  if feq best (of_int 10) || flt rttMs best then rttMs else best.

Fixpoint best_rtt (os : nat → order) (hour : Z) (m : Manager) (i : nat) (peers : list peer_ID)
    (best : float64) : Rand (float64 * Manager) :=
  match peers with
  | [] => mret (best, m)
  | pid :: peers' =>
      '(bp, m1) ← BestPath (os i) hour m pid;
      let best := match bp with
                  | Some p =>
                      let rtt := AvgRTT (path_Metrics p) in
                      if 0 <? rtt then lower_rtt best (of_int (Milliseconds rtt)) else best
                  | None => best
                  end in
      best_rtt os hour m1 (S i) peers' best
  end.

Definition choose_chunk_size (cfg : Config) (pm : option Manager) (os : nat → order) (hour : Z)
    (peers : list peer_ID) (fileSize : Z) : Rand (Z * option Manager) :=
  if AdaptiveChunking cfg then
    '(rtt, pm') ← (match pm with
                   | Some m => '(b, m') ← best_rtt os hour m 0 peers (of_int 10); mret (b, Some m')
                   | None => mret (of_int 10, None)
                   end : Rand (float64 * option Manager));
    mret (AdaptiveChunkSize fileSize rtt (MinChunkSize cfg) (MaxChunkSize cfg), pm')
  else
    mret (if ChunkSizeBytes cfg <=? 0 then 256 * 1024 else ChunkSizeBytes cfg, pm).

(** The first failed write ends the loop. *)
Fixpoint store_blocks (fb : nat → string → fault) (s : Store) (d : Disk) (i : nat) (blocks : list Block)
  : outcome unit * Disk :=
  match blocks with
  | [] => (Ok (), d)
  | b :: blocks' =>
      match Store.Put (fb i (CID b)) s d b with
      | (Ok _, d') => store_blocks fb s d' (S i) blocks'
      | (r, d') => (r, d')
      end
  end.

(** The key's raw bytes start with the seed; the log line slices the
    publisher. *)
Definition sign_if_keyed (privKey : bytes) (m : Manifest) : outcome Manifest :=
  if decide (32 ≤ length privKey)%nat then
    let m' := SignManifest m (NewKeyFromSeed (take 32 privKey)) in
    if decide (16 ≤ String.length (PublisherID m'))%nat then Ok m'
    else Panic "slice bounds out of range"
  else Ok m.

Definition Decode_PublishRequest (body : bytes) : outcome PublishRequest :=
  st ← Decode_strings ["file_path"; "name"] body;
  mret {| req_FilePath := default "" (st !! 0%nat); req_Name := default "" (st !! 1%nat) |}.

(** Everything after the chunk size is known. *)
Definition publish_data (fb : nat → string → fault) (fm : string → fault) (s : Store) (d : Disk) (privKey : bytes)
    (name : string) (data : bytes) (chunkSize : Z) : outcome (reply PublishResponse) * Disk :=
  let failed ctx e d := (Ok (HttpError StatusInternalServerError (ctx +:+ ": " +:+ Error e)), d) in
  match Chunk (NewReader data) chunkSize with
  | Panic w => (Panic w, d)
  | Err e => failed "chunk file" e d
  | Ok blocks =>
      match store_blocks fb s d 0 blocks with
      | (Panic w, d1) => (Panic w, d1)
      | (Err e, d1) => failed "store block" e d1
      | (Ok _, d1) =>
          match sign_if_keyed privKey (BuildManifest name (zlen data) blocks) with
          | Panic w => (Panic w, d1)
          | Err e => failed "sign" e d1
          | Ok manifest =>
              match PutManifest (fm (RootCID manifest)) s d1 manifest with
              | (Panic w, d2) => (Panic w, d2)
              | (Err e, d2) => failed "store manifest" e d2
              | (Ok _, d2) =>
                  (Ok (Reply {| pr_RootCID := RootCID manifest; pr_Name := m_Name manifest;
                                pr_TotalSize := TotalSize manifest; pr_NumChunks := zlen blocks |}), d2)
              end
          end
      end
  end.

(** [readFile]: [os.ReadFile]; [fb], [fm]: the faults of the writes of the
    blocks (by position and identifier) and the manifest.  The announcement to the DHT runs in the
    background and is [ProvideBlocks] of the manifest. *)
Definition handlePublish (cfg : Config) (store : option Store) (d : Disk) (pm : option Manager)
    (peers : list peer_ID) (privKey : bytes) (os : nat → order) (hour : Z)
    (readFile : string → outcome bytes) (fb : nat → string → fault) (fm : string → fault)
    (method : http_method) (body : bytes)
  : Rand (outcome (reply PublishResponse) * Disk * option Manager) :=
  if decide (method = POST) then
    match store with
    | None => mret (Ok no_store, d, pm)
    | Some s =>
        match Decode_PublishRequest body with
        | Panic w => mret (Panic w, d, pm)
        | Err e => mret (Ok (invalid_request e), d, pm)
        | Ok req =>
            match readFile (req_FilePath req) with
            | Panic w => mret (Panic w, d, pm)
            | Err e => mret (Ok (HttpError StatusBadRequest ("read file: " +:+ Error e)), d, pm)
            | Ok data =>
                '(chunkSize, pm1) ← choose_chunk_size cfg pm os hour peers (zlen data);
                mret (publish_data fb fm s d privKey (req_Name req) data chunkSize, pm1)
            end
        end
    end
  else mret (Ok method_not_allowed, d, pm).

(** ** Pins *)

Definition Decode_PinRequest (body : bytes) : outcome string :=
  st ← Decode_strings ["cid"] body; mret (default "" (st !! 0%nat)).

(** The status word and the CID of the reply. *)
Definition handlePin (o : order) (f : fault) (store : option Store) (d : Disk)
    (method : http_method) (body : bytes)
  : outcome (reply (string * string)) * option Store * Disk :=
  match store with
  | None => (Ok no_store, store, d)
  | Some s =>
      let run op status verb :=
        match Decode_PinRequest body with
        | Panic w => (Panic w, store, d)
        | Err e => (Ok (invalid_request e), store, d)
        | Ok cid =>
            if decide (cid = "") then
              (Ok (HttpError StatusBadRequest "missing 'cid' field"), store, d)
            else
              match op o f s d cid : outcome unit * Store * Disk with
              | (Ok _, s', d') => (Ok (Reply (status, cid)), Some s', d')
              | (Err e, s', d') =>
                  (Ok (HttpError StatusInternalServerError (verb +:+ " failed: " +:+ Error e)), Some s', d')
              | (Panic w, s', d') => (Panic w, Some s', d')
              end
        end in
      match method with
      | POST => run Pin "pinned" "pin"
      | DELETE => run Unpin "unpinned" "unpin"
      | _ => (Ok method_not_allowed, store, d)
      end
  end.

Definition handleListPins (o : order) (store : option Store) (method : http_method)
  : reply (list string) :=
  if decide (method = GET) then
    match store with None => no_store | Some s => Reply (ListPinned o s) end
  else method_not_allowed.

(** ** Manifests and providers *)

Definition handleManifest (f : fault) (store : option Store) (d : Disk) (method : http_method)
    (rootCID : string) : outcome (reply ManifestResponse) :=
  if decide (method = GET) then
    match store with
    | None => Ok no_store
    | Some s =>
        if decide (rootCID = "") then Ok (HttpError StatusBadRequest "missing 'cid' parameter")
        else match GetManifest f s d rootCID with
        | Panic w => Panic w
        | Err e => Ok (HttpError StatusNotFound ("manifest not found: " +:+ Error e))
        | Ok m =>
            let signed := negb (bool_decide (Signature m = "")) in
            Ok (Reply {| mr_RootCID := RootCID m; mr_Name := m_Name m; mr_TotalSize := TotalSize m;
                         mr_NumChunks := zlen (ChunkCIDs m); mr_ChunkCIDs := ChunkCIDs m;
                         mr_PublisherID := PublisherID m; mr_Signed := signed;
                         mr_Verified := signed && is_ok (VerifyManifest m) |})
        end
    end
  else Ok method_not_allowed.

(** Each provider's printed ID and addresses. *)
Definition handleFindProviders (router : option DHT) (method : http_method) (cid : string)
  : outcome (reply (list (string * list string))) :=
  if decide (method = GET) then
    match router with
    | None => Ok (HttpError StatusServiceUnavailable "content router not initialized")
    | Some cr =>
        if decide (cid = "") then Ok (HttpError StatusBadRequest "missing 'cid' parameter")
        else match FindProviders cr cid 20 with
        | Panic w => Panic w
        | Err e => Ok (HttpError StatusInternalServerError ("find providers: " +:+ Error e))
        | Ok ps => Ok (Reply ((λ p, (peer_String (ai_ID p), ai_Addrs p)) <$> ps))
        end
    end
  else Ok method_not_allowed.

(** ** Fetching from the network *)

(** What one call of [fetchBlockFromNetwork] sees of the rest of the node: the
    router's answers, the path manager, the peers' filters, the iteration
    orders, the streams and the draws.  Goroutines that run at the same time
    share this state, so each call gets one of its own, with no relation
    assumed between them. *)
Record network_view := {
  nv_router : option DHT;
  nv_manager : option Manager;
  nv_filters : option Bloom.PeerBloomStore;
  nv_metrics : bool;
  nv_orders : nat → order;
  nv_hour : Z;
  nv_arrive : order;
  nv_race : peer_ID → stream_env;
  nv_serial : peer_ID → stream_env;
  nv_rng : rng
}.

(** The network as the goroutine of chunk [n] uses it. *)
Definition network (self : peer_ID) (view : nat → network_view) (n : nat) (chunkCID : string)
  : blocking Block :=
  let v := view n in
  fst (fst (fetchBlockFromNetwork (nv_router v) self (nv_manager v) (nv_filters v) (nv_metrics v)
              (nv_orders v) (nv_hour v) (nv_arrive v) (nv_race v) (nv_serial v) chunkCID (nv_rng v))).

Lemma network_valid self view : net_valid (network self view).
Proof. intros n cid b. apply fetchBlockFromNetwork_served. Qed.

(** ** Lemmas: what a publication leaves on the disk *)

(** Valid blocks only, and the given ones among them. *)
Lemma Put_stores f s d b r d' :
  Store.Put f s d b = (r, d') → r = Ok () → stored s d' (CID b).
Proof.
  unfold Store.Put. destruct (WriteFile f d (blockPath s (CID b)) (Data b)) as [r0 d0] eqn:EW.
  intros [= <- <-] Hr. apply wrap_err_Ok in Hr. subst.
  apply WriteFile_effect in EW as (_ & _ & Hok & _). destruct (Hok eq_refl) as [_ Hf].
  unfold stored. rewrite (Store.Get_file _ _ _ (Data b)); [done|]. rewrite Hf. apply lookup_insert_eq.
Qed.

Lemma WriteFile_keeps f s d p data r d' cid :
  WriteFile f d p data = (r, d') → stored s d cid → stored s d' cid.
Proof.
  intros (_ & Heff & _)%WriteFile_effect Hs. unfold stored in *.
  destruct (Store.Get None s d cid) as [b|e|w] eqn:Eg; [|done|done].
  apply Store.Get_Ok in Eg as (_ & _ & Hf).
  destruct Heff as [Heq|(n & Heq & _)].
  - by rewrite (Store.Get_file _ _ _ (Data b)) by by rewrite Heq.
  - destruct (decide (p = blockPath s cid)) as [->|Hne].
    + rewrite (Store.Get_file _ _ _ (take n data)); [done|]. rewrite Heq. apply lookup_insert_eq.
    + rewrite (Store.Get_file _ _ _ (Data b)); [done|]. rewrite Heq. by rewrite lookup_insert_ne.
Qed.

Lemma Put_keeps f s d b r d' cid : Store.Put f s d b = (r, d') → stored s d cid → stored s d' cid.
Proof.
  unfold Store.Put. destruct (WriteFile f d (blockPath s (CID b)) (Data b)) as [r0 d0] eqn:EW.
  intros [= _ <-]. by eapply WriteFile_keeps.
Qed.

Lemma store_blocks_keeps fb s d i blocks r d' cid :
  store_blocks fb s d i blocks = (r, d') → stored s d cid → stored s d' cid.
Proof.
  revert d i. induction blocks as [|b blocks IH]; intros d i; simpl; [by intros [= _ <-]|].
  destruct (Store.Put (fb i (CID b)) s d b) as [[u|e|w] d1] eqn:EP; intros H Hs.
  - eapply IH; [exact H|]. by eapply Put_keeps.
  - injection H as _ <-. by eapply Put_keeps.
  - injection H as _ <-. by eapply Put_keeps.
Qed.

(** The identifiers whose files no write tears. *)
Context (whole : string → Prop).

Lemma store_blocks_ok fb s d i blocks d' :
  Forall seg_ok (dir s) → valid_disk s whole d → Forall valid_block blocks →
  store_blocks fb s d i blocks = (Ok (), d') →
  valid_disk s whole d' ∧ Forall (λ b, stored s d' (CID b)) blocks.
Proof.
  intros Hdir. revert d i. induction blocks as [|b blocks IH]; intros d i Hd Hv; simpl.
  { intros [= <-]. by split. }
  apply Forall_cons in Hv as [Hb Hv].
  destruct (Store.Put (fb i (CID b)) s d b) as [[u|e|w] d1] eqn:EP; [|done|done]. intros H. destruct u.
  assert (untorn (fb i (CID b))) as Hf.
  { intros e He. unfold Store.Put in EP. rewrite He in EP. by simpl in EP. }
  assert (valid_disk s whole d1) as Hd1.
  { replace d1 with (snd (Store.Put (fb i (CID b)) s d b)) by by rewrite EP. by apply Put_valid. }
  destruct (IH d1 (S i) Hd1 Hv H) as [Hd' Hs]. split; [done|]. constructor; [|done].
  eapply store_blocks_keeps; [exact H|]. by eapply Put_stores.
Qed.

(** Writing a manifest leaves the blocks alone. *)
Lemma manifest_keeps_valid f s d root data r d' :
  Forall seg_ok (dir s) → no_slash root → valid_disk s whole d →
  WriteFile f d (manifestPath s root) data = (r, d') → valid_disk s whole d'.
Proof.
  intros Hdir Hr Hd (_ & Heff & _)%WriteFile_effect cid b Hw Hc Hget.
  apply (Hd cid b Hw Hc). apply Store.Get_Ok in Hget as (_ & Hcid & Hf).
  assert (files d !! blockPath s cid = Some (Data b)) as Hf'.
  { destruct Heff as [Heq|(n & Heq & _)]; rewrite Heq in Hf; [done|].
    by rewrite lookup_insert_ne in Hf by by apply manifest_not_block. }
  rewrite (Store.Get_file _ _ _ _ Hf'). subst. by destruct b.
Qed.

(** ** Publishing, then fetching *)

Context {ELaws : Ed25519Laws E}.

Lemma sign_if_keyed_Ok privKey m m' :
  Signature m = "" → sign_if_keyed privKey m = Ok m' →
  RootCID m' = RootCID m ∧ m_Name m' = m_Name m ∧ TotalSize m' = TotalSize m ∧
  ChunkCIDs m' = ChunkCIDs m ∧
  (m' = m ∨ all_chars is_hex_char (PublisherID m') ∧ all_chars is_hex_char (Signature m')) ∧
  (Signature m' = "" ∨ VerifyManifest m' = Ok ()).
Proof.
  intros Hns. unfold sign_if_keyed. destruct (decide _) as [Hk|Hk].
  - case_decide; [|done]. intros [= <-].
    split_and!; [done..| |right; by apply signature_verifies].
    right. split; apply hex_chars.
  - intros [= <-]. split_and!; try done; by left.
Qed.

Lemma BuildManifest_valid name size blocks :
  valid_string name = true → Forall valid_block blocks →
  manifest_valid (BuildManifest name size blocks) = true.
Proof.
  intros Hn Hv. unfold manifest_valid, BuildManifest. cbn [RootCID m_Name ChunkCIDs PublisherID Signature].
  rewrite Hn, hex_valid by apply hex_chars. rewrite !andb_true_r. simpl.
  apply forallb_forall. intros c (b & -> & Hb)%list_elem_of_In%list_elem_of_fmap.
  rewrite Forall_forall in Hv. rewrite (Hv b Hb). apply hex_valid, hex_chars.
Qed.

Lemma manifest_valid_signed m m' :
  RootCID m' = RootCID m → m_Name m' = m_Name m → ChunkCIDs m' = ChunkCIDs m →
  m' = m ∨ all_chars is_hex_char (PublisherID m') ∧ all_chars is_hex_char (Signature m') →
  manifest_valid m = true → manifest_valid m' = true.
Proof.
  intros Hr Hn Hc [->|[Hp Hs]]; [done|]. unfold manifest_valid. rewrite Hr, Hn, Hc.
  intros [[H _]%andb_true_iff _]%andb_true_iff. by rewrite H, !hex_valid.
Qed.

(** A successful publication, taken apart. *)
Lemma publish_data_Ok fb fm s d privKey name data chunkSize resp d' :
  Forall seg_ok (dir s) → valid_disk s whole d → valid_string name = true → int64_ok (zlen data) →
  publish_data fb fm s d privKey name data chunkSize = (Ok (Reply resp), d') →
  ∃ m blocks, pr_RootCID resp = RootCID m ∧ (RootCID m ≠ "" ∧ no_slash (RootCID m)) ∧ pr_NumChunks resp = zlen blocks ∧
    GetManifest None s d' (RootCID m) = Ok m ∧ (Signature m = "" ∨ VerifyManifest m = Ok ()) ∧
    ChunkCIDs m = CID <$> blocks ∧ concat (Data <$> blocks) = data ∧ Forall valid_block blocks ∧
    valid_disk s whole d' ∧ Forall (λ b, stored s d' (CID b)) blocks.
Proof.
  intros Hdir Hd Hname Hsize. unfold publish_data.
  destruct (Chunk (NewReader data) chunkSize) as [blocks|e|w] eqn:EC; [|done|done].
  apply Chunk_complete in EC as [Hcat Hv].
  destruct (store_blocks fb s d 0 blocks) as [[u|e|w] d1] eqn:ES; [|done|done]. destruct u.
  destruct (store_blocks_ok _ _ _ _ _ _ Hdir Hd Hv ES) as [Hd1 Hst].
  destruct (sign_if_keyed privKey (BuildManifest name (zlen data) blocks)) as [m|e|w] eqn:EK; [|done|done].
  destruct (sign_if_keyed_Ok privKey (BuildManifest name (zlen data) blocks) m eq_refl EK) as (Hr & Hn & Ht & Hc & Hh & Hsig).
  assert (no_slash (RootCID m)) as Hns by (rewrite Hr; apply hex_no_slash, hex_chars).
  unfold PutManifest. destruct (WriteFile (fm (RootCID m)) d1 (manifestPath s (RootCID m)) (Marshal_Manifest m))
    as [r2 d2] eqn:EM.
  destruct (wrap_err "write manifest" r2) as [u|e|w] eqn:Er; [|done|done]. intros [= <- <-].
  destruct u. apply wrap_err_Ok in Er. subst r2.
  exists m, blocks. split_and!; try done; [|..|by eapply manifest_keeps_valid|].
  - rewrite Hr. apply hex_nonempty. intros H0. apply (f_equal length) in H0. by rewrite length_Sum256 in H0.
  - pose proof EM as (_ & _ & Hok & _)%WriteFile_effect. destruct (Hok eq_refl) as [_ Hf].
    unfold GetManifest, ReadFile. rewrite Hf, lookup_insert_eq. simpl.
    rewrite Manifest_round_trip; [rewrite fix_manifest_valid; [done|]|].
    + eapply (manifest_valid_signed (BuildManifest name (zlen data) blocks)); [done..|].
      by apply BuildManifest_valid.
    + by rewrite Ht.
  - eapply Forall_impl; [exact Hst|]. intros b. by eapply WriteFile_keeps.
Qed.

(** A fetch of a manifest all of whose chunks the store has. *)
Lemma handleFetch_local s fw lock net d cache sched m blocks :
  Forall seg_ok (dir s) → GetManifest None s d (RootCID m) = Ok m → RootCID m ≠ "" →
  (Signature m = "" ∨ VerifyManifest m = Ok ()) → ChunkCIDs m = CID <$> blocks →
  Forall (λ b, stored s d (CID b)) blocks → Forall valid_block blocks → Forall (λ b, whole (CID b)) blocks →
  valid_disk s whole d → valid_cache whole cache → (∀ n, fair (sched n)) → (∀ n, lock n = true) →
  ∃ bs st', handleFetch s (λ _, None) fw lock net None d cache sched true (RootCID m)
            = (Ok (Replied (Reply (concat (Data <$> bs)))), st') ∧
    CID <$> bs = CID <$> blocks ∧ Forall valid_block bs.
Proof.
  intros Hdir Hget Hroot Hsig Hc Hst Hv Hw Hd Hcache Hfair Hlock.
  assert (Forall (stored s d) (ChunkCIDs m)) as Hstored by (by rewrite Hc, Forall_fmap).
  assert (Forall (sound_cid whole) (ChunkCIDs m)) as Hns.
  { rewrite Hc, Forall_fmap. rewrite Forall_forall in Hv, Hw |- *. intros b Hb.
    split; [by apply Hw|]. rewrite (Hv b Hb). apply ComputeCID_no_slash. }
  unfold handleFetch. cbn [negb]. rewrite decide_False, Hget by done.
  assert ((if decide (Signature m = "") then Ok () else VerifyManifest m) = Ok ()) as ->.
  { case_decide; [done|]. by destruct Hsig. }
  set (st0 := {| fs_disk := d; fs_cache := cache; fs_err := None; fs_panic := None; fs_workers := [] |}).
  set (silent := λ (_ : nat) (_ : string), now (@Err Block (Errorf ""))).
  set (calm := λ (_ : nat) (_ : string), None : fault).
  rewrite (fetch_batches_local_net s _ fw calm lock net silent (λ _, eq_refl) d) by done.
  pose proof (fetch_batches_complete s (λ _, None) calm lock silent (S (length (ChunkCIDs m))) 0
    (ChunkCIDs m) sched st0 [] ltac:(done) Hfair (Nat.lt_succ_diag_r _) eq_refl) as Hend.
  pose proof (fetch_batches_local s (λ _, None) calm lock silent (λ _, eq_refl) d
    (S (length (ChunkCIDs m))) 0 (ChunkCIDs m) sched st0 [] Hstored eq_refl eq_refl) as Hnoerr.
  pose proof (fetch_batches_ok s (λ _, None) calm lock silent whole Hdir ltac:(done) ltac:(done)
    (S (length (ChunkCIDs m))) 0 (ChunkCIDs m) sched st0 [] Hns Hd Hcache eq_refl) as Hok.
  destruct (fetch_batches _ _ _ _ _ _ _ _ _ _ _) as [r st'].
  destruct Hend as [_ [[bs ->]|(k & c & _ & [[_ Hl]|Hl])]]; [|by rewrite Hlock in Hl|done].
  cbn [snd] in Hnoerr. rewrite Hnoerr. destruct Hok as (_ & _ & Hbs).
  destruct (Hbs bs eq_refl Hnoerr) as (bs' & -> & Hcid & Hvb).
  exists bs', st'. split; [done|]. by rewrite <-Hc.
Qed.

Lemma Decode_PublishRequest_valid body req :
  Decode_PublishRequest body = Ok req → valid_string (req_Name req) = true.
Proof.
  unfold Decode_PublishRequest. intros (st & Hst%Decode_strings_valid & [= <-])%bind_Ok_inv. simpl.
  destruct (st !! 1%nat) as [n|] eqn:En; [|done]. rewrite Forall_forall in Hst.
  by eapply Hst, list_elem_of_lookup_2.
Qed.

(** Publishing and fetching are inverse.  If the publication of a file
    (a name JSON carries, any policy, chunk size and signing key, writes that
    may fail) is answered with success, a fetch of the root CID it returned,
    from the same node with working reads and any valid cache whose lock is
    given, under any schedule that lets every goroutine take its steps, is
    answered with the file's bytes, unless SHA-256 collides; whatever the
    network would do. *)
Theorem publish_then_fetch (cfg : Config) (s : Store) (d d' : Disk) (pm pm' : option Manager)
    (peers : list peer_ID) (privKey : bytes) (os : nat → order) (hour : Z)
    (readFile : string → outcome bytes) (fb fw : nat → string → fault) (fm : string → fault) (body : bytes)
    (req : PublishRequest) (data : bytes) (resp : PublishResponse) (lock : nat → bool)
    (net : nat → string → blocking Block)
    (cache : option LRUCache) (sched : nat → list nat) (g g' : rng) :
  Forall seg_ok (dir s) → (∀ cid, whole cid) → valid_disk s whole d → int64_ok (zlen data) →
  Decode_PublishRequest body = Ok req → readFile (req_FilePath req) = Ok data →
  valid_cache whole cache → (∀ n, fair (sched n)) → (∀ n, lock n = true) →
  handlePublish cfg (Some s) d pm peers privKey os hour readFile fb fm POST body g
    = ((Ok (Reply resp), d', pm'), g') →
  ∃ out st', handleFetch s (λ _, None) fw lock net None d' cache sched true (pr_RootCID resp)
              = (Ok (Replied (Reply out)), st') ∧ (out = data ∨ sha256_collision).
Proof.
  intros Hdir Hw Hd Hsize Hreq Hread Hcache Hfair Hlock. unfold handlePublish.
  rewrite decide_True, Hreq, Hread by done. unfold mbind at 1, Rand_bind.
  destruct (choose_chunk_size cfg pm os hour peers (zlen data) g) as [[cs pm1] g1].
  destruct (publish_data fb fm s d privKey (req_Name req) data cs) as [rep0 d0] eqn:EP.
  intros [= -> -> <- <-].
  destruct (publish_data_Ok _ _ _ _ _ _ _ _ _ _ Hdir Hd (Decode_PublishRequest_valid body req Hreq) Hsize EP)
    as (m & blocks & -> & [Hroot _] & _ & Hget & Hsig & Hc & Hcat & Hv & Hd' & Hst).
  destruct (handleFetch_local s fw lock net d' cache sched m blocks)
    as (bs & st' & EF & Hcid & Hvb); try done; [by apply Forall_forall|].
  exists (concat (Data <$> bs)), st'. split; [done|].
  destruct (fmap_binding bs blocks Hvb Hv) as [->|?]; [congruence|by left|by right].
Qed.

(** C4: integrity of a fetch over the real network client, under every
    interleaving of the goroutines and whatever state of the node, streams,
    peers and filters each of them sees: a body is only ever the
    concatenation of blocks whose identifiers are the manifest's chunk
    identifiers, in order, and which hash to them; the manifest is the stored
    one and unsigned or verified; and however the request ends (a reply, a
    goroutine that waits for ever, a panic) it leaves the store and the cache
    with valid blocks only.  This is for the identifiers without separators
    of a set [whole], which has to hold the manifest's chunks: no write of
    the request tears a block of that set, and the disk and the cache hold it
    only with valid blocks to begin with. *)
Theorem fetch_integrity (s : Store) (fr : nat → fault) (fw : nat → string → fault) (lock : nat → bool)
    (self : peer_ID) (view : nat → network_view)
    (frm : fault) (d : Disk) (cache : option LRUCache) (sched : nat → list nat) (rootCID : string) :
  Forall seg_ok (dir s) → clean_writes fw whole → valid_disk s whole d → valid_cache whole cache →
  (∀ m, GetManifest frm s d rootCID = Ok m → Forall (sound_cid whole) (ChunkCIDs m)) →
  let '(r, st') := handleFetch s fr fw lock (network self view) frm d cache sched true rootCID in
  valid_disk s whole (fs_disk st') ∧ valid_cache whole (fs_cache st') ∧
  ∀ body, r = Ok (Replied (Reply body)) →
  ∃ m blocks, GetManifest frm s d rootCID = Ok m ∧
    (Signature m = "" ∨ VerifyManifest m = Ok ()) ∧
    body = concat (Data <$> blocks) ∧ CID <$> blocks = ChunkCIDs m ∧ Forall valid_block blocks.
Proof.
  intros Hdir Hfw. apply handleFetch_valid; [done|apply network_valid|done].
Qed.

(** The running minimum starts at a default of 10 ms and takes every value
    that follows a 10: a peer measured at exactly 10 ms is forgotten. *)
Lemma rtt_of_10_is_forgotten (x : float64) :
  lower_rtt (lower_rtt (of_int 10) (of_int 10)) x = x.
Proof.
  assert (lower_rtt (of_int 10) (of_int 10) = of_int 10) as ->.
  { unfold lower_rtt. by destruct (_ || _). }
  unfold lower_rtt. assert (feq (of_int 10) (of_int 10) = true) as -> by (vm_compute; reflexivity). done.
Qed.

End api.

(** ** Concrete inputs *)

Section witnesses.
Import Policy.Examples Store.Examples Signing.Examples.

#[local] Instance printed : PeerID := {| peer_String := λ p, "12D3KooW" +:+ p |}.
#[local] Existing Instances coarse_math list_algebra Providers.identity_hash.

Definition seed : bytes := replicate 32 Init.Byte.x01.
Definition upload : PublishRequest := {| req_FilePath := "/tmp/abc"; req_Name := "abc" |}.
Definition upload_body : bytes :=
  Marshal (JObject [("file_path", JString "/tmp/abc"); ("name", JString "abc")]).

Lemma upload_decoded : Decode_PublishRequest upload_body = Ok upload.
Proof. vm_compute. reflexivity. Qed.

Definition three_bytes : bytes := to_bytes "abc".

(** Chunks of two bytes, signed. *)
Definition two_byte_chunks : Config :=
  let c := DefaultConfig ["home"] in
  {| ListenAddrs := ListenAddrs c; BootstrapPeers := BootstrapPeers c; DataDir := DataDir c;
     EnableRelay := EnableRelay c; EnableMDNS := EnableMDNS c; APIAddr := APIAddr c;
     MetricsAddr := MetricsAddr c; PathPolicy := PathPolicy c; CacheMaxBytes := CacheMaxBytes c;
     ChunkSizeBytes := 2; EnableErasure := EnableErasure c; DataShards := DataShards c;
     ParityShards := ParityShards c; AdaptiveChunking := false; MinChunkSize := MinChunkSize c;
     MaxChunkSize := MaxChunkSize c; PathEpsilon := PathEpsilon c;
     DisableBloomExchange := DisableBloomExchange c; cfg_ProbeInterval := cfg_ProbeInterval c;
     cfg_ProbeTimeout := cfg_ProbeTimeout c; LogLevel := LogLevel c |}.

Definition publication : outcome (reply PublishResponse) * Disk :=
  publish_data (λ b, b) (λ _ _, None) (λ _, None) store0 disk0 seed "abc" three_bytes 2.

Definition disk1 : Disk := snd publication.
Definition reply_or {A} (a : A) (r : outcome (reply A)) : A :=
  match r with Ok (Reply a) => a | _ => a end.
Definition answer : PublishResponse :=
  reply_or {| pr_RootCID := ""; pr_Name := ""; pr_TotalSize := 0; pr_NumChunks := 0 |} (fst publication).

Lemma publication_eq : publication = (Ok (Reply answer), disk1).
Proof.
  assert (fst publication = Ok (Reply answer)) as <- by (vm_compute; reflexivity).
  unfold disk1. by destruct publication.
Qed.

Lemma published_eq :
  handlePublish (ML := coarse_math) (LA := list_algebra) (λ b, b) two_byte_chunks (Some store0) disk0
    None [] seed (λ _, id_order) 0 (λ _, Ok three_bytes) (λ _ _, None) (λ _, None) POST upload_body
    (constant_rng f0) = ((Ok (Reply answer), disk1, None), constant_rng f0).
Proof.
  rewrite <-publication_eq. unfold handlePublish. rewrite decide_True by done.
  rewrite upload_decoded. reflexivity.
Qed.

Lemma store0_valid whole : valid_disk store0 whole disk0.
Proof.
  intros cid b _ Hc (_ & _ & Hf)%Store.Get_Ok. exfalso. revert Hf.
  rewrite blockPath_plain by (done || apply store0_dir_ok). simpl. by rewrite lookup_singleton_ne.
Qed.

(** Every goroutine of a batch, four times round. *)
Definition rounds_of_four : list nat := concat (replicate 4 (seq 0 fetchConcurrency)).

Lemma rounds_fair : fair rounds_of_four.
Proof.
  intros i Hi. unfold fetchConcurrency in Hi.
  destruct i as [|[|[|[|i]]]]; [vm_compute; lia..|lia].
Qed.

(** Every write of every file succeeds or leaves it alone. *)
Definition all_whole (cid : string) : Prop := True.

Lemma publish_then_fetch_witness :
  let unreachable_net := λ (_ : nat) (_ : string), now (Err (Errorf "no content router")) in
  ∃ body st', handleFetch store0 (λ _, None) (λ _ _, None) (λ _, true) unreachable_net None disk1 None
         (λ _, rounds_of_four) true (pr_RootCID answer) = (Ok (Replied (Reply body)), st') ∧
    (body = three_bytes ∨ sha256_collision).
Proof.
  intros unreachable_net.
  apply (publish_then_fetch (ML := coarse_math) (LA := list_algebra) (E := keyed_hash) (λ b, b) all_whole
    two_byte_chunks store0
    disk0 disk1 None None [] seed (λ _, id_order) 0 (λ _, Ok three_bytes) (λ _ _, None) (λ _ _, None)
    (λ _, None) upload_body upload three_bytes answer (λ _, true) unreachable_net None (λ _, rounds_of_four)
    (constant_rng f0) (constant_rng f0)).
  - apply store0_dir_ok.
  - done.
  - apply store0_valid.
  - unfold int64_ok. simpl. lia.
  - exact upload_decoded.
  - reflexivity.
  - intros c H. discriminate H.
  - intros n. exact rounds_fair.
  - reflexivity.
  - exact published_eq.
Defined.

(** A shorter schedule is enough here: the file comes back. *)
Definition body_of (r : outcome fetch_end * FetchState) : option bytes :=
  match fst r with Ok (Replied (Reply b)) => Some b | _ => None end.

Lemma body_of_eq r b : body_of r = Some b → fst r = Ok (Replied (Reply b)).
Proof. unfold body_of. destruct (fst r) as [[[]| |]| |]; try done. by intros [= ->]. Qed.

(** A node without a content router. *)
Definition offline : network_view :=
  {| nv_router := None; nv_manager := None; nv_filters := None; nv_metrics := false;
     nv_orders := λ _, id_order; nv_hour := 0; nv_arrive := id_order;
     nv_race := λ _, unreachable; nv_serial := λ _, unreachable; nv_rng := constant_rng f0 |}.

Definition fetch_abc : outcome fetch_end * FetchState :=
  handleFetch store0 (λ _, None) (λ _ _, None) (λ _, true) (network "A" (λ _, offline)) None
    disk1 None (λ _, [0; 1; 1; 0]%nat) true (pr_RootCID answer).

Example fetched_abc : body_of fetch_abc = Some three_bytes.
Proof. vm_compute. reflexivity. Qed.

Lemma disk1_valid : valid_disk store0 all_whole disk1.
Proof.
  destruct (publish_data_Ok (E := keyed_hash) (λ b, b) all_whole (λ _ _, None) (λ _, None) store0 disk0 seed "abc"
    three_bytes 2 answer disk1) as (_ & _ & _ & _ & _ & _ & _ & _ & _ & _ & H & _).
  - apply store0_dir_ok.
  - apply store0_valid.
  - reflexivity.
  - unfold int64_ok. simpl. lia.
  - exact publication_eq.
  - exact H.
Qed.

Lemma fetch_integrity_witness :
  let '(r, st') := fetch_abc in
  valid_disk store0 all_whole (fs_disk st') ∧ valid_cache all_whole (fs_cache st') ∧
  ∀ body, r = Ok (Replied (Reply body)) →
  ∃ m blocks, GetManifest None store0 disk1 (pr_RootCID answer) = Ok m ∧
    (Signature m = "" ∨ VerifyManifest m = Ok ()) ∧
    body = concat (Data <$> blocks) ∧ CID <$> blocks = ChunkCIDs m ∧ Forall valid_block blocks.
Proof.
  unfold fetch_abc.
  apply (fetch_integrity (ML := coarse_math) (LA := list_algebra) all_whole store0 (λ _, None) (λ _ _, None)
    (λ _, true) "A"
    (λ _, offline) None disk1 None (λ _, [0; 1; 1; 0]%nat) (pr_RootCID answer)).
  - apply store0_dir_ok.
  - intros i c _ e H. discriminate H.
  - apply disk1_valid.
  - intros c H. discriminate H.
  - intros m H. vm_compute in H. injection H as <-. repeat constructor; discriminate.
Defined.

(** The node is offline, and every goroutine takes its steps; but with a
    network that never answers, a fetch of content that is not there hangs. *)
Lemma handleFetch_completes_witness :
  let silent := λ (_ : nat) (_ : string), @None (outcome Block) in
  let m := {| RootCID := "r"; m_Name := "n"; TotalSize := 1; ChunkCIDs := ["c"]; PublisherID := "";
              Signature := "" |} in
  let d := snd (PutManifest None store0 disk0 m) in
  (∃ rep, fst (handleFetch store0 (λ _, None) (λ _ _, None) (λ _, true)
      (λ _ _, now (Err (Errorf "no content router"))) None disk1 None (λ _, rounds_of_four) true
      (pr_RootCID answer)) = Ok (Replied rep)) ∧
  ∀ rep, fst (handleFetch store0 (λ _, None) (λ _ _, None) (λ _, true) silent None d
      None (λ _, rounds_of_four) true "r") ≠ Ok (Replied rep).
Proof.
  intros silent m d. split.
  - destruct (handleFetch_completes store0 (λ _, None) (λ _ _, None) (λ _, true)
      (λ _ _, now (Err (Errorf "no content router"))) None disk1 None (λ _, rounds_of_four) true
      (pr_RootCID answer)) as [H _].
    destruct H as [Hr|(_ & _ & n & c & _ & _ & [[Hc _]|Hn])]; [|intros n; exact rounds_fair|exact Hr|discriminate Hc|discriminate Hn].
    intros i cid w H. discriminate H.
  - destruct (handleFetch_completes store0 (λ _, None) (λ _ _, None) (λ _, true) silent None d
      None (λ _, rounds_of_four) true "r") as [_ H].
    apply (H (λ _ _, eq_refl) m "c").
    + discriminate.
    + vm_compute. reflexivity.
    + left. reflexivity.
    + left.
    + vm_compute. reflexivity.
    + intros c Hc. discriminate Hc.
Defined.

End witnesses.
