(* ===== verification/Handlers.v ===== *)
(** * Ping, peers, paths and status ([internal/node/api.go], the queries of
    [internal/node/node.go])

    The HTTP handlers that report the state of the node, the routes of the
    API, and the accessors of the node they use.  Query parameters arrive
    decoded; a missing one is empty.  Peer IDs are decoded by go-libp2p
    ([PeerDecode]); wall-clock times are printed in the host's zone
    ([TimeFormat]). *)

From S2P Require Import Prelude Utf8 Float64 Runtime Path Policy Stream Probe Manager Json Codec Store Node Fetch Providers Api Transport ProbeLoop Lifecycle.

(** [peer.Decode], the inverse of [peer.ID.String]. *)
Class PeerDecode := { peer_Decode : string → outcome peer_ID }.
Class PeerDecodeLaws (PID : PeerID) (PD : PeerDecode) : Prop := {
  Decode_String : ∀ p, peer_Decode (peer_String p) = Ok p;
  Decode_no_panic : ∀ s w, peer_Decode s ≠ Panic w
}.

(** [t.Format(time.RFC3339)] *)
Class TimeFormat := { RFC3339 : Time → string }.

(** ** Standard Library: durations and [strconv.Atoi] *)

(** Decimal digits of [n], at least [width] of them. *)
Definition padded (width : nat) (n : Z) : string :=
  let s := pretty n in
  String.concat "" (replicate (width - String.length s) "0") +:+ s.

(** Without the trailing zeros. *)
Fixpoint trim_zeros (l : bytes) : bytes :=
  match l with
  | [] => []
  | c :: l' =>
      match trim_zeros l' with
      | [] => if byte_eq_dec c Byte.x30 then [] else [c]
      | r => c :: r
      end
  end.

(** [fmtFrac]: the fraction [n mod 10^prec / 10^prec], with its point. *)
Definition fmtFrac (prec : nat) (n : Z) : string :=
  match trim_zeros (to_bytes (padded prec (n mod 10 ^ Z.of_nat prec))) with
  | [] => ""
  | ds => "." +:+ to_string ds
  end.

Definition scaled (prec : nat) (n : Z) : string :=
  pretty (n / 10 ^ Z.of_nat prec) +:+ fmtFrac prec n.

(** [d.String()] *)
Definition Duration_String (d : Duration) : string :=
  let u := Z.abs d in
  let body :=
    if u =? 0 then "0s"
    else if u <? 1000 then pretty u +:+ "ns"
    else if u <? 1000000 then scaled 3 u +:+ "µs"
    else if u <? 1000000000 then scaled 6 u +:+ "ms"
    else
      let sec := u / 1000000000 in
      let s := pretty (sec mod 60) +:+ fmtFrac 9 u +:+ "s" in
      let min := sec / 60 in
      if min =? 0 then s
      else if min / 60 =? 0 then pretty (min mod 60) +:+ "m" +:+ s
      else pretty (min / 60) +:+ "h" +:+ pretty (min mod 60) +:+ "m" +:+ s in
  if d <? 0 then "-" +:+ body else body.

(** [d.Round(m)] for a positive [m]: half away from zero, saturating. *)
Definition Duration_Round (d m : Duration) : Duration :=
  let r := Z.rem d m in
  if d <? 0 then
    if 2 * - r <? m then d - r
    else let d1 := d - m - r in if - 2 ^ 63 <=? d1 then d1 else - 2 ^ 63
  else
    if 2 * r <? m then d - r
    else let d1 := d + m - r in if d1 <? 2 ^ 63 then d1 else 2 ^ 63 - 1.

(** [strconv.Atoi]: an optional sign and decimal digits within [int64];
    [None] is an error. *)
Definition Atoi (s : string) : option Z :=
  let '(neg, ds) := match to_bytes s with
                    | Byte.x2b :: ds => (false, ds)
                    | Byte.x2d :: ds => (true, ds)
                    | ds => (false, ds)
                    end in
  match ds with
  | [] => None
  | _ =>
      v ← digits_value ds;
      let z := if neg : bool then - v else v in
      if (- 2 ^ 63 <=? z) && (z <? 2 ^ 63) then Some z else None
  end.

Example duration_strings :
  Duration_String <$> [0; 7; 1500; 10 * Millisecond; 90 * Second; 3 * Minute + 1; - 2500000] =
  ["0s"; "7ns"; "1.5µs"; "10ms"; "1m30s"; "3m0.000000001s"; "-2.5ms"].
Proof. by vm_compute. Qed.
Example atoi_strings :
  Atoi <$> ["5"; "+7"; "-3"; "007"; ""; "-"; "5x"; "9223372036854775808"] =
  [Some 5; Some 7; Some (-3); Some 7; None; None; None; None].
Proof. by vm_compute. Qed.

(** The text of a number is digits, and is read back. *)
Lemma pretty_N_go_value n s :
  let step acc c := a ← acc; if digit c then Some (10 * a + (code c - 48)) else None in
  foldl step (Some 0) (to_bytes (pretty_N_go n s)) = foldl step (Some (Z.of_N n)) (to_bytes s) ∧
  forallb digit (to_bytes (pretty_N_go n s)) = forallb digit (to_bytes s).
Proof.
  intros step. revert s. induction (N.lt_wf_0 n) as [n _ IH]. intros s.
  destruct (decide (n = 0)%N) as [->|Hn]; [by rewrite pretty_N_go_0|]. rewrite pretty_N_go_step by lia.
  destruct (IH (n `div` 10)%N ltac:(apply N.div_lt; lia) (String (pretty_N_char (n `mod` 10)) s)) as [-> ->].
  pose proof (N.div_mod n 10 ltac:(lia)) as Hdm. pose proof (N.mod_lt n 10 ltac:(lia)) as Hm.
  assert (∀ k, (k < 10)%N → let c := of_code (48 + Z.of_N k) in
    to_bytes (String (pretty_N_char k) s) = c :: to_bytes s ∧ digit c = true ∧ code c = 48 + Z.of_N k) as Hch.
  { intros k Hk c. split_and!; [|apply digit_of; lia|apply code_digit; lia]. subst c.
    assert (k ∈ [0; 1; 2; 3; 4; 5; 6; 7; 8; 9])%N as H by (rewrite !elem_of_cons; lia).
    rewrite !elem_of_cons in H. destruct_or?; subst; try reflexivity. by apply elem_of_nil in H. }
  cbv zeta in Hch. destruct (Hch _ Hm) as (-> & Hd & Hc). cbn [foldl forallb]. rewrite Hd. split; [|done].
  f_equal. unfold step. cbn [mbind option_bind]. rewrite Hd, Hc. f_equal. lia.
Qed.

Lemma pretty_pos_digits z :
  0 < z → ∃ ds, to_bytes (pretty z) = ds ∧ ds ≠ [] ∧ forallb digit ds = true ∧ digits_value ds = Some z.
Proof.
  intros Hz. destruct z as [|p|p]; [lia| |lia]. eexists. split; [done|].
  change (pretty (Z.pos p)) with (pretty_N_go (N.pos p) ""). destruct (pretty_N_go_value (N.pos p) "") as [Hv Hd].
  split_and!; [|exact Hd|exact Hv]. intros Hn. rewrite Hn in Hv. discriminate Hv.
Qed.

Lemma Atoi_pretty z : 0 < z < 2 ^ 63 → Atoi (pretty z) = Some z.
Proof.
  intros Hz. destruct (pretty_pos_digits z ltac:(lia)) as (ds & Hb & Hn & Hd & Hv). unfold Atoi. rewrite Hb.
  destruct ds as [|d ds]; [done|]. cbn [forallb] in Hd. apply andb_true_iff in Hd as [Hd _].
  destruct d; try discriminate Hd; rewrite Hv; cbn [mbind option_bind]; rewrite (proj2 (andb_true_iff _ _)); try done;
    split; [apply Z.leb_le|apply Z.ltb_lt|..]; lia.
Qed.

(** ** Requests, replies and routes *)

Record PeerInfo := { pi_ID : string; pi_Addrs : list string; pi_Protocols : list string }.

Record pingResult := { pg_RTT : string; pg_Error : string }.

Record pathInfoJSON := {
  pj_ID : string;
  pj_Target : string;
  pj_Type : string;
  pj_RelayChain : list string;
  pj_AvgRTT : string;
  pj_HopCount : Z;
  pj_SuccessRate : float64;
  pj_SampleCount : Z;
  pj_LastProbed : string
}.

Record PathsResponse := { ps_Policy : string; ps_Paths : list pathInfoJSON }.

Record StatusResponse := {
  sr_PeerID : string;
  sr_Uptime : string;
  sr_NumPeers : Z;
  sr_Addresses : list string;
  sr_Policy : string
}.

Inductive endpoint :=
  | Peers | Ping | PathsOf | Publish | FetchFile | ManifestOf | FindProvidersOf | PinFile | Pins | Status | Health.

(** The paths the API's multiplexer knows; it matches them exactly. *)
Definition NewAPI : list (string * endpoint) :=
  [("/api/v1/peers", Peers); ("/api/v1/ping", Ping); ("/api/v1/paths", PathsOf); ("/api/v1/publish", Publish);
   ("/api/v1/fetch", FetchFile); ("/api/v1/manifest", ManifestOf); ("/api/v1/find", FindProvidersOf);
   ("/api/v1/pin", PinFile); ("/api/v1/pins", Pins); ("/api/v1/status", Status); ("/health", Health)].

Definition route (urlPath : string) : option endpoint :=
  snd <$> List.find (λ r, bool_decide (fst r = urlPath)) NewAPI.

Section handlers.
Context `{ML : MathLib, LA : LinAlg, PID : PeerID, PD : PeerDecode, TF : TimeFormat, CR : Crypto}.

(** ** The node's accessors *)

(** What the host knows of its peers and of itself. *)
Record NetView := {
  nv_peers : list peer_ID;
  nv_conns : peer_ID → list string;             (* remote addresses, printed *)
  nv_protocols : peer_ID → outcome (list string);
  nv_addrs : list string                        (* the host's own *)
}.

(** A peer whose protocols cannot be read has none; [None] before [Start]. *)
Definition ConnectedPeers (n : Node) (nv : NetView) : option (list PeerInfo) :=
  match n_Host n with
  | None => None
  | Some _ => Some ((λ p, {| pi_ID := peer_String p; pi_Addrs := nv_conns nv p;
                             pi_Protocols := match nv_protocols nv p with Ok l => l | _ => [] end |}) <$> nv_peers nv)
  end.

(** [key]: the peer store's private key of the host, of whatever type; [raw]:
    its [Raw]. *)
Definition Ed25519PrivateKey (n : Node) (key : option PrivKey) (raw : PrivKey → outcome bytes) : bytes :=
  match n_Host n with
  | None => []
  | Some _ => match key with
              | None => []
              | Some k => match raw k with Ok b => b | _ => [] end
              end
  end.

(** ** The handlers *)

Definition handleHealth : list (string * string) := [("status", "ok")].

Definition handlePeers (n : Node) (nv : NetView) (method : http_method) : reply (option (list PeerInfo)) :=
  if decide (method = GET) then Reply (ConnectedPeers n nv) else method_not_allowed.

Definition invalid_peer {A} (e : error) : reply A := HttpError StatusBadRequest ("invalid peer ID: " +:+ Error e).

(** Five, or what the request asks for, from 1 to 100. *)
Definition ping_count (c : string) : Z :=
  if decide (c = "") then 5 else
  match Atoi c with
  | Some parsed => if (0 <? parsed) && (parsed <=? 100) then parsed else 5
  | None => 5
  end.

Definition ping_view (r : PingResult) : pingResult :=
  match ping_Err r with
  | Some e => {| pg_RTT := ""; pg_Error := Error e |}
  | None => {| pg_RTT := Duration_String (ping_RTT r); pg_Error := "" |}
  end.

(** [steps]: the streams and clock of the pings to each peer. *)
Definition handlePing (steps : peer_ID → nat → ping_step) (method : http_method) (peer count : string)
  : outcome (reply (list pingResult)) :=
  if decide (method = GET) then
    if decide (peer = "") then Ok (HttpError StatusBadRequest "missing 'peer' parameter") else
    match peer_Decode peer with
    | Err e => Ok (invalid_peer e)
    | Panic w => Panic w
    | Ok target =>
        Ok (Reply (ping_view <$> SendPings (steps target) target O (Z.to_nat (ping_count count))))
    end
  else Ok method_not_allowed.

Definition pathToJSON (p : Path) : pathInfoJSON :=
  {| pj_ID := path_ID p; pj_Target := peer_String (path_Target p); pj_Type := PathType_string (path_Type p);
     pj_RelayChain := peer_String <$> path_RelayChain p;
     pj_AvgRTT := Duration_String (AvgRTT (path_Metrics p)); pj_HopCount := HopCount (path_Metrics p);
     pj_SuccessRate := SuccessRate (path_Metrics p); pj_SampleCount := SampleCount (path_Metrics p);
     pj_LastProbed := match LastProbed (path_Metrics p) with None => "" | Some t => RFC3339 t end |}.

(** [o]: the order of the targets, [o'] that of the paths of each. *)
Definition handlePaths (o o' : order) (pm : option Manager) (method : http_method) (peer : string)
  : outcome (reply PathsResponse) :=
  if decide (method = GET) then
    match pm with
    | None => Ok (HttpError StatusServiceUnavailable "path manager not initialized")
    | Some m =>
        let respond ps := Ok (Reply {| ps_Policy := active_policy_name m; ps_Paths := pathToJSON <$> ps |}) in
        if decide (peer = "") then
          respond (concat (iter o (snd <$> map_to_list (AllPaths o' m))))
        else match peer_Decode peer with
        | Err e => Ok (invalid_peer e)
        | Panic w => Panic w
        | Ok target => respond (Paths o' m target)
        end
    end
  else Ok method_not_allowed.

(** The handler dereferences the host. *)
Definition handleStatus (n : Node) (nv : NetView) (now : Time) (method : http_method) : outcome (reply StatusResponse) :=
  if decide (method = GET) then
    match n_Host n with
    | None => Panic "nil pointer dereference"
    | Some _ =>
        Ok (Reply {| sr_PeerID := node_PeerID n;
                     sr_Uptime := Duration_String (Duration_Round (Uptime now n) Second);
                     sr_NumPeers := zlen (nv_peers nv); sr_Addresses := nv_addrs nv;
                     sr_Policy := match n_PathManager n with Some m => active_policy_name m | None => "" end |})
    end
  else Ok method_not_allowed.


(** ** Pings *)

Lemma ping_count_range c : 1 ≤ ping_count c ≤ 100.
Proof. unfold ping_count. case_decide; [lia|]. destruct (Atoi c); [|lia]. case_if; zbool; lia. Qed.

Lemma SendPings_nonempty steps target i count :
  (0 < count)%nat → (1 ≤ length (SendPings steps target i count) ≤ count)%nat.
Proof.
  revert i. induction count as [|count IH]; intros i Hc; [lia|]. cbn [SendPings].
  destruct (ps_ctx (steps i)); [cbn; lia|]. destruct count as [|count]; [cbn; lia|].
  specialize (IH (S i) ltac:(lia)). rewrite length_cons. lia.
Qed.

(** A ping request never panics and sends between 1 and 100 pings, the
    number asked for when it is in that range and 5 otherwise, all of them to
    the peer whose printed ID was given; every entry of the reply is either a
    printed round-trip time or the error of its ping. *)
Theorem handlePing_spec {PL : PeerDecodeLaws PID PD} (steps : peer_ID → nat → ping_step)
    (method : http_method) (peer count : string) :
  match handlePing steps method peer count with
  | Panic _ => False
  | Err _ => False
  | Ok (HttpError code _) => method ≠ GET ∧ code = 405 ∨
      method = GET ∧ code = 400 ∧ ∀ p, peer_String p ≠ "" → peer ≠ peer_String p
  | Ok (Reply l) => method = GET ∧ ∃ p, peer_Decode peer = Ok p ∧ 1 ≤ zlen l ≤ 100 ∧
      l = ping_view <$> SendPings (steps p) p 0 (Z.to_nat (ping_count count)) ∧
      (∀ q, peer = peer_String q → q = p) ∧
      ((∀ j, ps_ctx (steps p j) = None) → zlen l = ping_count count)
  end.
Proof.
  unfold handlePing. destruct (decide (method = GET)) as [Hm|Hm]; [|by left].
  destruct (decide (peer = "")) as [->|Hp]; [right; split_and!; [done..|]; intros p Hp; congruence|].
  destruct (peer_Decode peer) as [p|e|w] eqn:E; [|right; split_and!; [done..|]|by apply Decode_no_panic in E].
  - split; [done|]. exists p. pose proof (ping_count_range count) as Hc.
    pose proof (SendPings_nonempty (steps p) p 0 (Z.to_nat (ping_count count)) ltac:(lia)) as Hl.
    rewrite length_fmap. split_and!; [done|lia|lia|done| |].
    + intros q ->. rewrite Decode_String in E. congruence.
    + intros Hctx. destruct (SendPings_length (steps p) p (Z.to_nat (ping_count count))) as (_ & Hlen & _).
      rewrite Hlen by auto. lia.
  - intros q _ ->. by rewrite Decode_String in E.
Qed.

(** ** Paths *)

Lemma paths_of_all o o' m :
  concat (iter o (snd <$> map_to_list (AllPaths o' m))) ≡ₚ
  concat ((λ e, All o' (snd e)) <$> map_to_list (pathSets m)).
Proof.
  rewrite iter_perm. unfold AllPaths. rewrite map_to_list_fmap, <-!list_fmap_compose. done.
Qed.

(** The list of paths without a peer reports every stored path of every
    target exactly once, and with a peer those of that target; nothing else,
    in an order that is not specified. *)
Theorem handlePaths_spec {PL : PeerDecodeLaws PID PD} (o o' : order) (m : Manager) (peer : string) :
  match handlePaths o o' (Some m) GET peer with
  | Panic _ => False
  | Err _ => False
  | Ok (HttpError code _) => code = 400 ∧ ∀ p, peer_String p ≠ "" → peer ≠ peer_String p
  | Ok (Reply r) =>
      ps_Policy r = active_policy_name m ∧
      ∃ sets : list (peer_ID * PathSet),
        NoDup (fst <$> sets) ∧
        (∀ t ps, (t, ps) ∈ sets ↔ pathSets m !! t = Some ps ∧ (peer = "" ∨ peer_Decode peer = Ok t)) ∧
        ps_Paths r ≡ₚ pathToJSON <$> concat ((λ e, All o' (snd e)) <$> sets)
  end.
Proof.
  unfold handlePaths. rewrite decide_True by done.
  destruct (decide (peer = "")) as [->|Hp].
  { split; [done|]. exists (map_to_list (pathSets m)). split_and!; [apply NoDup_fst_map_to_list| |].
    - intros t ps. rewrite elem_of_map_to_list. naive_solver.
    - cbn [ps_Paths]. by rewrite paths_of_all. }
  destruct (peer_Decode peer) as [p|e|w] eqn:E; [|split; [done|]|by apply Decode_no_panic in E].
  - split; [done|]. unfold Paths. destruct (pathSets m !! p) as [ps|] eqn:Eps.
    + exists [(p, ps)]. split_and!; [by apply NoDup_singleton| |cbn; by rewrite app_nil_r].
      intros t ps'. rewrite list_elem_of_singleton. naive_solver.
    + exists []. split_and!; [constructor| |done]. intros t ps'. split; [by intros ?%not_elem_of_nil|naive_solver].
  - intros q _ ->. by rewrite Decode_String in E.
Qed.

(** ** Identity *)

(** The key handed to the signer is the raw form of whatever key the host
    has; nothing checks that it is an Ed25519 key. *)
Lemma Ed25519PrivateKey_any n h k raw b :
  n_Host n = Some h → raw k = Ok b → Ed25519PrivateKey n (Some k) raw = b.
Proof. intros Hh Hr. unfold Ed25519PrivateKey. by rewrite Hh, Hr. Qed.
End handlers.

(** ** Concrete inputs *)

Section witnesses.
Import Policy.Examples.

#[local] Instance plain_ids : PeerID := {| peer_String := λ p, "12D3KooW" +:+ p |}.
#[local] Instance plain_decode : PeerDecode :=
  {| peer_Decode := λ s, if decide (String.prefix "12D3KooW" s) then Ok (String.substring 8 (String.length s - 8) s)
                         else Err (Errorf "failed to parse peer ID") |}.
#[local] Instance plain_laws : PeerDecodeLaws plain_ids plain_decode.
Proof.
  split; [|intros s w; cbn; by case_decide]. intros p. cbn [peer_Decode peer_String plain_decode plain_ids].
  rewrite decide_True; [|by destruct p]. f_equal.
  assert (String.length ("12D3KooW" +:+ p) - 8 = String.length p)%nat as -> by (rewrite string_length_app; cbn; lia).
  change (String.substring 0 (String.length p) p = p).
  induction p as [|c p IH]; [done|]. cbn. by rewrite IH.
Qed.
#[local] Instance utc : TimeFormat := {| RFC3339 := λ t, pretty t |}.

(** Three pings to a peer that answers. *)
Definition steps0 (p : peer_ID) (k : nat) : ping_step :=
  {| ps_ctx := None; ps_env := connected_to PingHandler_handleStream; ps_now := 5; ps_elapsed := 7 |}.

Example three_pings :
  handlePing steps0 GET "12D3KooWbob" "3" = Ok (Reply (replicate 3 {| pg_RTT := "7ns"; pg_Error := "" |})).
Proof. by vm_compute. Qed.
Example too_many_pings : ping_count "101" = 5 ∧ ping_count "0" = 5 ∧ ping_count "1e2" = 5 ∧ ping_count "100" = 100.
Proof. by vm_compute. Qed.

Lemma handlePing_spec_witness :
  match handlePing steps0 GET "12D3KooWbob" "3" with
  | Panic _ => False
  | Err _ => False
  | Ok (HttpError code _) => GET ≠ GET ∧ code = 405 ∨
      GET = GET ∧ code = 400 ∧ ∀ p, peer_String p ≠ "" → "12D3KooWbob" ≠ peer_String p
  | Ok (Reply l) => GET = GET ∧ ∃ p, peer_Decode "12D3KooWbob" = Ok p ∧ 1 ≤ zlen l ≤ 100 ∧
      l = ping_view <$> SendPings (steps0 p) p 0 (Z.to_nat (ping_count "3")) ∧
      (∀ q, "12D3KooWbob" = peer_String q → q = p) ∧
      ((∀ j, ps_ctx (steps0 p j) = None) → zlen l = ping_count "3")
  end.
Proof. apply (handlePing_spec steps0 GET "12D3KooWbob" "3"). Defined.

Lemma handlePaths_spec_witness :
  match handlePaths rev_order id_order (Some sample_manager) GET "12D3KooWT" with
  | Panic _ => False
  | Err _ => False
  | Ok (HttpError code _) => code = 400 ∧ ∀ p, peer_String p ≠ "" → "12D3KooWT" ≠ peer_String p
  | Ok (Reply r) =>
      ps_Policy r = active_policy_name sample_manager ∧
      ∃ sets : list (peer_ID * PathSet),
        NoDup (fst <$> sets) ∧
        (∀ t ps, (t, ps) ∈ sets ↔ pathSets sample_manager !! t = Some ps ∧ ("12D3KooWT" = "" ∨ peer_Decode "12D3KooWT" = Ok t)) ∧
        ps_Paths r ≡ₚ pathToJSON <$> concat ((λ e, All id_order (snd e)) <$> sets)
  end.
Proof. apply (handlePaths_spec rev_order id_order sample_manager "12D3KooWT"). Defined.
End witnesses.
