(* ===== verification/Http.v ===== *)
(** * Requests and replies on the wire ([net/http], [net/url])

    What the commands send to the HTTP API and what the handlers get of it,
    and the other way round: the raw query between the question mark and the
    fragment, its parameters, and replies as a status and a body. *)

From Stdlib Require Import Init.Byte ZifyBool.
From S2P Require Import Prelude Float64 Runtime Stream Sha256 Chunker Utf8 Json Codec Fetch Api.

(** The text of the errors of [net/url]. *)
Class URLErrors := url_error : bytes → error.

(** ** Query parameters *)

(** [strings.Cut] *)
Fixpoint Cut (sep : byte) (s : bytes) : bytes * option bytes :=
  match s with
  | [] => ([], None)
  | c :: s' => if decide (c = sep) then ([], Some s')
               else let '(before, after) := Cut sep s' in (c :: before, after)
  end.

(** The parts of [s] between separators. *)
Fixpoint Split (sep : byte) (s : bytes) : list bytes :=
  match s with
  | [] => [[]]
  | c :: s' => if decide (c = sep) then [] :: Split sep s'
               else match Split sep s' with
                    | part :: parts => (c :: part) :: parts
                    | [] => [[c]]
                    end
  end.

(** [url.QueryUnescape], [None] for a percent sign without two hex digits. *)
Fixpoint QueryUnescape (s : bytes) : option bytes :=
  match s with
  | [] => Some []
  | x25 :: s1 =>
      match s1 with
      | a :: b :: s' =>
          va ← hex_digit_value a; vb ← hex_digit_value b;
          rest ← QueryUnescape s'; Some (of_code (16 * va + vb) :: rest)
      | _ => None
      end
  | x2b :: s' => rest ← QueryUnescape s'; Some (x20 :: rest)
  | c :: s' => rest ← QueryUnescape s'; Some (c :: rest)
  end.

(** One setting of [url.ParseQuery]; those with a semicolon, without a key or
    with a bad escape are left out. *)
Definition parse_setting (s : bytes) : option (bytes * bytes) :=
  if decide (x3b ∈ s ∨ s = []) then None
  else let '(key, value) := Cut x3d s in
       k ← QueryUnescape key; v ← QueryUnescape (default [] value); Some (k, v).

Definition ParseQuery (query : bytes) : list (bytes * bytes) := omap parse_setting (Split x26 query).

(** [r.URL.Query().Get(key)] *)
Definition query_Get (query : bytes) (key : string) : string :=
  match List.find (λ kv, bool_decide (fst kv = to_bytes key)) (ParseQuery query) with
  | Some (_, v) => to_string v
  | None => ""
  end.

(** ** Requests *)

Record http_request := { rq_Method : http_method; rq_Path : string; rq_Query : bytes; rq_Body : bytes }.

Definition ctl (c : byte) : bool := (code c <? 32) || (code c =? 127).

(** [http.NewRequest] of a URL with the given text after the question mark:
    what follows a hash is not sent, but its escapes must be right. *)
Definition NewRequest `{UE : URLErrors} (method : http_method) (path : string) (query body : bytes) : outcome http_request :=
  let '(raw, fragment) := Cut x23 query in
  if existsb ctl raw then Err (url_error query)
  else match QueryUnescape (default [] fragment) with
       | None => Err (url_error query)
       | Some _ => Ok {| rq_Method := method; rq_Path := path; rq_Query := raw; rq_Body := body |}
       end.

(** ** Replies *)

(** A body may break off with an error. *)
Record http_response := { rs_StatusCode : Z; rs_Body : bytes; rs_Error : option error }.

Definition StatusOK : Z := 200.

(** What a client sees of a request: an answer, or a connection that breaks,
    after some time, or nothing at all.  Bodies are on the wire at once. *)
Inductive exchange :=
  | Answered (after : Duration) (r : outcome http_response)
  | Silent.

(** The server's [WriteTimeout]: a handler that takes as long finds its
    connection closed.  [took = None]: it never returns. *)
Definition WriteTimeout : Duration := 30 * Second.
Definition on_the_wire (took : option Duration) (r : outcome http_response) : exchange :=
  match took with
  | None => Silent
  | Some t => Answered t (if WriteTimeout <=? t then Err (Errorf "EOF") else r)
  end.

(** What a handler writes: [http.Error] ends the message with a newline, and so
    does the JSON encoder.  A handler that panics closes the connection. *)
Definition written {A} (encode : A → bytes) (r : outcome (reply A)) : outcome http_response :=
  match r with
  | Ok (Reply a) => Ok {| rs_StatusCode := StatusOK; rs_Body := encode a; rs_Error := None |}
  | Ok (HttpError c msg) =>
      Ok {| rs_StatusCode := c; rs_Body := to_bytes msg ++ [x0a]; rs_Error := None |}
  | Err e => Err e
  | Panic _ => Err (Errorf "EOF")
  end.

(** [json.NewEncoder(w).Encode] *)
Definition Encode_json {A} (to_json : A → json) (a : A) : bytes := Marshal (to_json a) ++ [x0a].

(** The server reads the request line up to the first blank of the URL, and
    answers itself when what follows is not the protocol version. *)
Definition malformed (rq : http_request) : bool := bool_decide (x20 ∈ rq_Query rq).
Definition bad_request : http_response :=
  {| rs_StatusCode := 400; rs_Body := to_bytes "400 Bad Request"; rs_Error := None |}.

(** ** Which arguments arrive *)

(** The bytes that reach the handler as they were typed. *)
Definition query_safe (c : byte) : bool :=
  negb (ctl c) && negb (existsb (λ x, bool_decide (c = x)) [x20; x23; x25; x26; x2b; x3b]).

Lemma Cut_absent sep s : sep ∉ s → Cut sep s = (s, None).
Proof.
  induction s as [|c s IH]; [done|]. intros [Hc Hs]%not_elem_of_cons. cbn [Cut].
  by rewrite decide_False, IH by done.
Qed.

Lemma Cut_app sep s t : sep ∉ s → Cut sep (s ++ sep :: t) = (s, Some t).
Proof.
  induction s as [|c s IH]; cbn [Cut app]; [by rewrite decide_True|].
  intros [Hc Hs]%not_elem_of_cons. by rewrite decide_False, IH by done.
Qed.

Lemma Cut_spec sep s :
  match Cut sep s with
  | (before, Some after) => s = before ++ sep :: after ∧ sep ∉ before
  | (before, None) => before = s ∧ sep ∉ s
  end.
Proof.
  induction s as [|c s IH]; cbn [Cut]; [split; [done|apply not_elem_of_nil]|].
  case_decide as Hc; [subst; split; [done|apply not_elem_of_nil]|].
  destruct (Cut sep s) as [before [after|]], IH as [-> Hn]; (split; [done|]); apply not_elem_of_cons; by split.
Qed.

Lemma Split_absent sep s : sep ∉ s → Split sep s = [s].
Proof.
  induction s as [|c s IH]; [done|]. intros [Hc Hs]%not_elem_of_cons. cbn [Split]. by rewrite decide_False, IH by done.
Qed.

Lemma Split_app sep s t : sep ∉ s → Split sep (s ++ sep :: t) = s :: Split sep t.
Proof.
  induction s as [|c s IH]; cbn [Split app]; [by rewrite decide_True|].
  intros [Hc Hs]%not_elem_of_cons. by rewrite decide_False, IH by done.
Qed.

Lemma QueryUnescape_plain s : x25 ∉ s → x2b ∉ s → QueryUnescape s = Some s.
Proof.
  induction s as [|c s IH]; [done|]. intros [Hc Hs]%not_elem_of_cons [Hp Hq]%not_elem_of_cons.
  cbn [QueryUnescape]. rewrite (IH Hs Hq). by destruct c.
Qed.

(** Unescaping keeps the length only of what has no escapes, and changes
    every plus sign. *)
Lemma QueryUnescape_length s t :
  QueryUnescape s = Some t → (length t ≤ length s)%nat ∧ (x25 ∈ s → (length t < length s)%nat) ∧
  (length t = length s → x2b ∉ t).
Proof.
  revert t. induction s as [s IH] using (induction_ltof1 _ length). unfold ltof in IH. intros t. destruct s as [|c s].
  { intros [= <-]. split_and!; [done|by intros ?%not_elem_of_nil|intros _; apply not_elem_of_nil]. }
  destruct (decide (c = x25)) as [->|Hc].
  { cbn [QueryUnescape]. destruct s as [|a [|b s]]; [done..|].
    intros (va & _ & (vb & _ & (rest & Hr & [= <-])%bind_Some)%bind_Some)%bind_Some.
    apply IH in Hr as (Hl & _ & _); [|simpl; lia]. simpl. split_and!; [lia|intros _; lia|lia]. }
  destruct (decide (c = x2b)) as [->|Hp].
  { cbn [QueryUnescape]. intros (rest & Hr & [= <-])%bind_Some. apply IH in Hr as (Hl & Hx & Hn); [|simpl; lia].
    simpl. split_and!; [lia| |].
    - intros [?|Hin]%elem_of_cons; [done|]. specialize (Hx Hin). lia.
    - intros Hlen. apply not_elem_of_cons. split; [done|]. apply Hn. lia. }
  assert (QueryUnescape (c :: s) = (rest ← QueryUnescape s; Some (c :: rest))) as -> by by destruct c.
  intros (rest & Hr & [= <-])%bind_Some. apply IH in Hr as (Hl & Hx & Hn); [|simpl; lia].
  simpl. split_and!; [lia| |].
  - intros [?|Hin]%elem_of_cons; [by subst|]. specialize (Hx Hin). lia.
  - intros Hlen. apply not_elem_of_cons. split; [done|]. apply Hn. lia.
Qed.

(** What unescapes to itself has neither escapes nor plus signs. *)
Lemma QueryUnescape_fixed s : QueryUnescape s = Some s → x25 ∉ s ∧ x2b ∉ s.
Proof.
  intros (_ & Hx & Hn)%QueryUnescape_length. split; [|by apply Hn]. intros Hin. specialize (Hx Hin). lia.
Qed.

Lemma query_safe_spec s :
  forallb query_safe s = true ↔
  existsb ctl s = false ∧ x20 ∉ s ∧ x23 ∉ s ∧ x25 ∉ s ∧ x26 ∉ s ∧ x2b ∉ s ∧ x3b ∉ s.
Proof.
  induction s as [|c s IH]; cbn [forallb existsb].
  { split; [|done]. intros _. split_and!; [done|apply not_elem_of_nil..]. }
  rewrite andb_true_iff, IH, orb_false_iff, !not_elem_of_cons. unfold query_safe.
  rewrite andb_true_iff, !negb_true_iff. cbn [existsb]. rewrite !orb_false_iff, !bool_decide_eq_false. naive_solver.
Qed.

Lemma Split_length sep s p : p ∈ Split sep s → (length p ≤ length s)%nat ∧ (sep ∈ s → (length p < length s)%nat).
Proof.
  revert p. induction s as [|c s IH]; intros p; cbn [Split].
  { intros ->%list_elem_of_singleton. split; [done|by intros ?%not_elem_of_nil]. }
  case_decide as Hc.
  { intros [->|Hp]%elem_of_cons; [simpl; lia|]. destruct (IH p Hp). simpl. lia. }
  destruct (Split sep s) as [|part parts] eqn:Es.
  { exfalso. revert Es. destruct s as [|c' s]; [done|]. cbn [Split]. case_decide; [done|]. by destruct (Split sep s). }
  intros [->|Hp]%elem_of_cons.
  - destruct (IH part) as [Hl Hs]; [by left|]. simpl. split; [lia|]. intros [?|Hin]%elem_of_cons; [by subst|].
    specialize (Hs Hin). lia.
  - destruct (IH p) as [Hl Hs]; [by right|]. simpl. split; lia.
Qed.

(** A setting is longer than its key and its value. *)
Lemma parse_setting_length s k v :
  parse_setting s = Some (k, v) → v ≠ [] → (length k + 1 + length v ≤ length s)%nat.
Proof.
  unfold parse_setting. case_decide; [done|]. pose proof (Cut_spec x3d s) as Hs.
  destruct (Cut x3d s) as [key [value|]]; cbn [default].
  - destruct Hs as [-> _]. intros (k' & Hk & (v' & Hv & [= <- <-])%bind_Some)%bind_Some _.
    apply QueryUnescape_length in Hk as [Hk _]. apply QueryUnescape_length in Hv as [Hv _].
    rewrite length_app. simpl in *. lia.
  - intros (k' & Hk & (v' & Hv & [= <- <-])%bind_Some)%bind_Some Hne. by injection Hv as <-.
Qed.

(** A name that stands for itself in a query. *)
Definition plain_key (key : string) : bool :=
  forallb query_safe (to_bytes key) && bool_decide (x3d ∉ to_bytes key).

Lemma plain_key_spec key :
  plain_key key = true ↔ forallb query_safe (to_bytes key) = true ∧ x3d ∉ to_bytes key.
Proof. unfold plain_key. by rewrite andb_true_iff, bool_decide_eq_true. Qed.

Lemma parse_setting_key key value :
  plain_key key = true → x3b ∉ value →
  parse_setting (to_bytes key ++ x3d :: value) = (v ← QueryUnescape value; Some (to_bytes key, v)).
Proof.
  intros [Hk He]%plain_key_spec Hv. apply query_safe_spec in Hk as (_ & _ & _ & H25 & _ & H2b & H3b).
  unfold parse_setting. rewrite decide_False.
  - rewrite Cut_app by done. by rewrite (QueryUnescape_plain (to_bytes key)) by done.
  - rewrite elem_of_app, elem_of_cons. intros [Hin|Hn]; [naive_solver|]. by apply app_eq_nil in Hn as [_ ?].
Qed.

Lemma find_setting key l v :
  v ≠ "" →
  match List.find (λ kv : bytes * bytes, bool_decide (fst kv = to_bytes key)) l with
  | Some (_, v') => to_string v' | None => "" end = v →
  (to_bytes key, to_bytes v) ∈ l.
Proof.
  intros Hv. destruct (List.find _ l) as [[k v']|] eqn:Ef; [|congruence]. intros <-.
  apply find_some in Ef as [Hin Hk]. apply bool_decide_eq_true in Hk. simpl in Hk. subst k.
  rewrite to_bytes_to_string. by apply list_elem_of_In.
Qed.

Section arguments.
Context `{UE : URLErrors}.

(** A setting holds none of the separators. *)
Lemma setting_absent key arg c :
  plain_key key = true → forallb query_safe (to_bytes arg) = true → c ∈ [x20; x23; x26] →
  c ∉ to_bytes key ++ x3d :: to_bytes arg.
Proof.
  intros [(_ & K20 & K23 & _ & K26 & _)%query_safe_spec _]%plain_key_spec (_ & A20 & A23 & _ & A26 & _)%query_safe_spec.
  rewrite elem_of_app, !elem_of_cons. intros [->|[->|[->|[]%elem_of_nil]]]; naive_solver.
Qed.

Lemma setting_ctl key arg :
  plain_key key = true → forallb query_safe (to_bytes arg) = true →
  existsb ctl (to_bytes key ++ x3d :: to_bytes arg) = false.
Proof.
  intros [(Kc & _)%query_safe_spec _]%plain_key_spec (Ac & _)%query_safe_spec.
  rewrite existsb_app. cbn [existsb]. by rewrite Kc, Ac.
Qed.

Lemma setting_parsed key arg :
  plain_key key = true → forallb query_safe (to_bytes arg) = true →
  parse_setting (to_bytes key ++ x3d :: to_bytes arg) = Some (to_bytes key, to_bytes arg).
Proof.
  intros Hk (_ & _ & _ & A25 & _ & A2b & A3b)%query_safe_spec. by rewrite parse_setting_key, QueryUnescape_plain.
Qed.

Lemma plain_request path query :
  existsb ctl query = false → x23 ∉ query → x20 ∉ query →
  let rq := {| rq_Method := GET; rq_Path := path; rq_Query := query; rq_Body := [] |} in
  NewRequest GET path query [] = Ok rq ∧ malformed rq = false.
Proof.
  intros Hc H23 H20. split; [|by apply bool_decide_eq_false]. unfold NewRequest. by rewrite Cut_absent, Hc.
Qed.

Lemma safe_arrives path key arg :
  plain_key key = true → forallb query_safe (to_bytes arg) = true →
  let query := to_bytes key ++ x3d :: to_bytes arg in
  let rq := {| rq_Method := GET; rq_Path := path; rq_Query := query; rq_Body := [] |} in
  NewRequest GET path query [] = Ok rq ∧ malformed rq = false ∧ query_Get query key = arg.
Proof.
  intros Hk Ha query rq. subst query rq. apply and_assoc. split.
  - apply plain_request; [by apply setting_ctl|by apply setting_absent; try set_solver..].
  - unfold query_Get, ParseQuery. rewrite Split_absent by (apply setting_absent; set_solver). cbn [omap list_omap].
    rewrite setting_parsed by done. cbn [List.find fst]. rewrite bool_decide_true by done. apply to_string_to_bytes.
Qed.

Lemma two_arrive path key arg key' arg' :
  plain_key key = true → forallb query_safe (to_bytes arg) = true →
  plain_key key' = true → forallb query_safe (to_bytes arg') = true → key ≠ key' →
  let query := (to_bytes key ++ x3d :: to_bytes arg) ++ x26 :: to_bytes key' ++ x3d :: to_bytes arg' in
  let rq := {| rq_Method := GET; rq_Path := path; rq_Query := query; rq_Body := [] |} in
  NewRequest GET path query [] = Ok rq ∧ malformed rq = false ∧ query_Get query key = arg ∧ query_Get query key' = arg'.
Proof.
  intros Hk Ha Hk' Ha' Hne query rq. apply and_assoc. split.
  - assert (∀ c, c ∈ [x20; x23] → c ∉ query) as Hno.
    { intros c Hc. subst query. rewrite elem_of_app, elem_of_cons.
      intros [H|[->|H]]; [eapply setting_absent, H; [done..|set_solver]|set_solver|eapply setting_absent, H; [done..|set_solver]]. }
    apply plain_request; [|apply Hno; set_solver..]. subst query. rewrite existsb_app. cbn [existsb].
    by rewrite !setting_ctl.
  - unfold query_Get, ParseQuery, query. rewrite Split_app by (apply setting_absent; [done..|set_solver]).
    rewrite Split_absent by (apply setting_absent; [done..|set_solver]).
    cbn [omap list_omap]. rewrite !setting_parsed by done. cbn [List.find fst]. rewrite (bool_decide_true (to_bytes key = to_bytes key)) by done.
    rewrite bool_decide_false by (by intros ?%to_bytes_inj). by rewrite bool_decide_true, !to_string_to_bytes.
Qed.

Lemma Split_app_any sep s t : Split sep (s ++ sep :: t) = Split sep s ++ Split sep t.
Proof.
  induction s as [|c s IH]; cbn [Split app]; [by rewrite decide_True|].
  case_decide; [by rewrite IH|]. rewrite IH. destruct (Split sep s) as [|part parts] eqn:Es; [|done].
  exfalso. revert Es. clear. destruct s as [|c' s]; [done|]. cbn [Split]. case_decide; [done|]. by destruct (Split sep s).
Qed.

(** Settings that may follow the argument's own. *)
Definition harmless (key : string) (rest : option bytes) : Prop :=
  match rest with
  | None => True
  | Some r => existsb ctl r = false ∧ x23 ∉ r ∧ ∀ p k v, p ∈ Split x26 r → parse_setting p = Some (k, v) → k ≠ to_bytes key
  end.
Definition followed_by (rest : option bytes) : bytes := match rest with None => [] | Some r => x26 :: r end.

Lemma followed_by_hash key rest : harmless key rest → x23 ∉ followed_by rest.
Proof. destruct rest as [r|]; simpl; [|intros _; apply not_elem_of_nil]. intros (_ & H & _). by apply not_elem_of_cons. Qed.

(** The setting that the handler's value comes from, when there is no hash:
    the argument's own, whole. *)
Lemma own_setting key arg rest p :
  harmless key rest → p ∈ Split x26 ((to_bytes key ++ x3d :: to_bytes arg) ++ followed_by rest) →
  parse_setting p = Some (to_bytes key, to_bytes arg) → arg ≠ "" →
  p = to_bytes key ++ x3d :: to_bytes arg ∧ x26 ∉ p.
Proof.
  intros Hrest Hp Hs Hne. set (own := to_bytes key ++ x3d :: to_bytes arg) in *.
  assert (p ∈ Split x26 own) as Hown.
  { destruct rest as [r|]; cbn [followed_by] in Hp; [|by rewrite app_nil_r in Hp].
    rewrite Split_app_any in Hp. apply elem_of_app in Hp as [?|Hp]; [done|]. destruct Hrest as (_ & _ & H). by destruct (H _ _ _ Hp Hs). }
  assert (to_bytes arg ≠ []) as Hne' by (intros H0; apply Hne; by rewrite <-(to_string_to_bytes arg), H0).
  pose proof (parse_setting_length _ _ _ Hs Hne') as Hlen. apply Split_length in Hown as Hpl.
  assert (length own = length (to_bytes key) + 1 + length (to_bytes arg))%nat as Hl
    by (unfold own; rewrite length_app; simpl; lia).
  assert (x26 ∉ own) as H26 by (intros Hin; destruct Hpl as [_ Hlt]; specialize (Hlt Hin); lia).
  rewrite Split_absent in Hown by done. by apply list_elem_of_singleton in Hown as ->.
Qed.

(** An argument that the handler gets as it was typed is safe. *)
Lemma arrives_only_safe path key arg rest rq :
  plain_key key = true → harmless key rest →
  NewRequest GET path ((to_bytes key ++ x3d :: to_bytes arg) ++ followed_by rest) [] = Ok rq →
  malformed rq = false → query_Get (rq_Query rq) key = arg → forallb query_safe (to_bytes arg) = true.
Proof.
  intros Hk Hrest Hrq H20%bool_decide_eq_false Hget. unfold NewRequest in Hrq.
  pose proof (proj1 (plain_key_spec key) Hk) as [(_ & _ & K23 & _ & K26 & _ & K3b)%query_safe_spec _].
  destruct (decide (arg = "")) as [->|Hne]; [done|]. set (own := to_bytes key ++ x3d :: to_bytes arg) in *.
  pose proof (Cut_spec x23 (own ++ followed_by rest)) as Hc.
  destruct (Cut x23 _) as [raw frag]. destruct (existsb ctl raw) eqn:Ectl; [done|].
  destruct (QueryUnescape _); [|done]. injection Hrq as <-. cbn [rq_Query] in *.
  apply find_setting in Hget; [|done]. unfold ParseQuery in Hget. apply list_elem_of_omap in Hget as (p & Hp & Hs).
  assert (to_bytes arg ≠ []) as Hne' by (intros H0; apply Hne; by rewrite <-(to_string_to_bytes arg), H0).
  pose proof (parse_setting_length _ _ _ Hs Hne') as Hlen. apply Split_length in Hp as Hpl.
  assert (length own = length (to_bytes key) + 1 + length (to_bytes arg))%nat as Hl
    by (unfold own; rewrite length_app; simpl; lia).
  assert (raw = own ++ followed_by rest ∧ x23 ∉ raw) as [-> H23].
  { destruct frag as [frag|]; [|by destruct Hc as [-> ?]]. destruct Hc as [Heq Hraw]. exfalso.
    assert (x23 ∈ own) as Hin.
    { assert (x23 ∈ own ++ followed_by rest) as H by (rewrite Heq, elem_of_app, elem_of_cons; by right; left).
      apply elem_of_app in H as [?|H]; [done|]. by apply followed_by_hash in Hrest. }
    assert (length raw < length own)%nat; [|lia].
    apply list_elem_of_split in Hin as (l1 & l2 & Hown). rewrite Hown in Heq |- *.
    assert (length raw ≤ length l1)%nat; [|rewrite length_app; simpl; lia].
    destruct (decide (length raw ≤ length l1)%nat) as [?|Hgt]; [done|exfalso]. apply Hraw.
    assert (raw !! length l1 = Some x23) as Hx by
      (rewrite <-(lookup_app_l raw (x23 :: frag)), <-Heq, <-app_assoc by lia; by rewrite lookup_app_r, Nat.sub_diag by done).
    by eapply list_elem_of_lookup_2. }
  destruct (own_setting key arg rest p Hrest Hp Hs Hne) as [-> H26]. fold own in H26, Hs.
  assert (x3b ∉ to_bytes arg) as H3b.
  { intros Hin. unfold parse_setting in Hs. rewrite decide_True in Hs; [done|]. left. unfold own.
    rewrite elem_of_app, elem_of_cons. by right; right. }
  unfold own in *. rewrite parse_setting_key in Hs by done. apply bind_Some in Hs as (v & Hv & [= ->]).
  apply QueryUnescape_fixed in Hv as [H25 H2b]. apply query_safe_spec.
  rewrite !existsb_app in Ectl. cbn [existsb] in Ectl. apply orb_false_iff in Ectl as [[_ [_ Ectl]%orb_false_iff]%orb_false_iff _].
  rewrite !elem_of_app, !elem_of_cons in *. naive_solver.
Qed.

End arguments.

Example plus_is_blank : query_Get (to_bytes "cid=a+b") "cid" = "a b".
Proof. reflexivity. Qed.

(** ** JSON bodies *)

Lemma Decode_encoded {A} (to_json : A → json) (a : A) :
  fits maxNestingDepth (to_json a) → Decode (Encode_json to_json a) = Some (sanitize (to_json a)).
Proof. intros Hf. by apply Decode_print. Qed.
