(* ===== verification/Client.v ===== *)
(** * The commands that call the HTTP API ([cmd/])

    Each command sends one request to the daemon, decodes the reply and
    prints it.  A command is a function of what the daemon answers; what it
    prints is the text of a success.  The bodies are those the handlers of
    Api.v and Handlers.v write, so that a command and its handler compose. *)

From Stdlib Require Import Init.Byte.
From S2P Require Import Prelude Utf8 Json Float64 Format Codec Runtime Path Policy Stream Probe Manager Sha256 Chunker Lru Store Signing Replication Node Fetch Providers Transport ProbeLoop Lifecycle Api Handlers Http.

(** ** Bodies, as the handlers write them *)

Definition publish_json (r : PublishResponse) : json :=
  JObject [("root_cid", JString (pr_RootCID r)); ("name", JString (pr_Name r));
           ("total_size", JNumber (FormatInt (pr_TotalSize r))); ("num_chunks", JNumber (FormatInt (pr_NumChunks r)))].

(** The keys of a map are sorted. *)
Definition pin_json (r : string * string) : json :=
  JObject [("cid", JString (snd r)); ("status", JString (fst r))].

Definition provider_json (p : string * list string) : json :=
  JObject [("id", JString (fst p)); ("addrs", strings_json (snd p))].
Definition providers_json (l : list (string * list string)) : json := JArray (provider_json <$> l).

Definition ping_json (l : list pingResult) : json :=
  JObject [("results", JArray ((λ r, JObject (("rtt", JString (pg_RTT r)) :: omitempty "error" (pg_Error r))) <$> l))].

Definition peer_json (p : PeerInfo) : json :=
  JObject ([("id", JString (pi_ID p)); ("addrs", strings_json (pi_Addrs p))] ++
           (if decide (pi_Protocols p = []) then [] else [("protocols", strings_json (pi_Protocols p))])).
Definition peers_json (r : option (list PeerInfo)) : json :=
  match r with None => JNull | Some l => JArray (peer_json <$> l) end.

(** The shortest decimal that reads back as the float; none for NaN and the
    infinities. *)
Class JSONFloats := json_float : float64 → option bytes.

(** A slice that nothing was appended to is [nil]. *)
Definition nil_or (l : list json) : json := match l with [] => JNull | _ => JArray l end.

Definition manifest_response_json (r : ManifestResponse) : json :=
  JObject ([("root_cid", JString (mr_RootCID r)); ("name", JString (mr_Name r));
            ("total_size", JNumber (FormatInt (mr_TotalSize r))); ("num_chunks", JNumber (FormatInt (mr_NumChunks r)));
            ("chunk_cids", strings_json (mr_ChunkCIDs r))] ++ omitempty "publisher_id" (mr_PublisherID r) ++
           [("signed", JBool (mr_Signed r)); ("verified", JBool (mr_Verified r))]).

Definition status_json (r : StatusResponse) : json :=
  JObject [("peer_id", JString (sr_PeerID r)); ("uptime", JString (sr_Uptime r));
           ("num_peers", JNumber (FormatInt (sr_NumPeers r))); ("addresses", nil_or (JString <$> sr_Addresses r));
           ("policy", JString (sr_Policy r))].

Definition health_json (l : list (string * string)) : json := JObject ((λ '(k, v), (k, JString v)) <$> l).

Definition path_info_json `{JSONFloats} (p : pathInfoJSON) : option json :=
  rate ← json_float (pj_SuccessRate p);
  Some (JObject ([("id", JString (pj_ID p)); ("target", JString (pj_Target p)); ("type", JString (pj_Type p))] ++
    (if decide (pj_RelayChain p = []) then [] else [("relay_chain", strings_json (pj_RelayChain p))]) ++
    [("avg_rtt", JString (pj_AvgRTT p)); ("hop_count", JNumber (FormatInt (pj_HopCount p)));
     ("success_rate", JNumber rate); ("sample_count", JNumber (FormatInt (pj_SampleCount p)));
     ("last_probed", JString (pj_LastProbed p))])).
Definition paths_json `{JSONFloats} (r : PathsResponse) : option json :=
  l ← mapM path_info_json (ps_Paths r);
  Some (JObject [("policy", JString (ps_Policy r)); ("paths", nil_or l)]).

(** ** Bodies, as the commands read them *)

(** A slice of structures: its backing array is reused as that of strings. *)
Record slice_of (A : Type) := { sl_backing : list A; sl_visible : nat }.
Arguments sl_backing {A} _.
Arguments sl_visible {A} _.
Definition nil_of {A} : slice_of A := {| sl_backing := []; sl_visible := 0 |}.
Definition items_of {A} (s : slice_of A) : list A := take (sl_visible s) (sl_backing s).

Section slices.
Context {A : Type} (zero : A) (dec : A → json → option A).

Fixpoint decode_items (old : list A) (l : list json) : option (list A) :=
  match l with
  | [] => Some []
  | v :: l' => x ← dec (default zero (head old)) v; rest ← decode_items (tail old) l'; Some (x :: rest)
  end.

Definition decode_slice_of (old : slice_of A) (v : json) : option (slice_of A) :=
  match v with
  | JNull | JArray [] => Some nil_of
  | JArray l =>
      xs ← decode_items (sl_backing old) l;
      Some {| sl_backing := xs ++ drop (length l) (sl_backing old); sl_visible := length l |}
  | _ => None
  end.
End slices.

Definition publish_field (r : PublishResponse) (k : string) (v : json) : option PublishResponse :=
  let set root name size n := {| pr_RootCID := root; pr_Name := name; pr_TotalSize := size; pr_NumChunks := n |} in
  if names "root_cid" k then s ← decode_string (pr_RootCID r) v; Some (set s (pr_Name r) (pr_TotalSize r) (pr_NumChunks r))
  else if names "name" k then s ← decode_string (pr_Name r) v; Some (set (pr_RootCID r) s (pr_TotalSize r) (pr_NumChunks r))
  else if names "total_size" k then n ← decode_int64 (pr_TotalSize r) v; Some (set (pr_RootCID r) (pr_Name r) n (pr_NumChunks r))
  else if names "num_chunks" k then n ← decode_int64 (pr_NumChunks r) v; Some (set (pr_RootCID r) (pr_Name r) (pr_TotalSize r) n)
  else Some r.
Definition decode_publish (v : json) : option PublishResponse :=
  decode_struct publish_field {| pr_RootCID := ""; pr_Name := ""; pr_TotalSize := 0; pr_NumChunks := 0 |} v.

Record findProviderResp := { fp_ID : string; fp_Addrs : slice }.
Definition provider_field (p : findProviderResp) (k : string) (v : json) : option findProviderResp :=
  if names "id" k then s ← decode_string (fp_ID p) v; Some {| fp_ID := s; fp_Addrs := fp_Addrs p |}
  else if names "addrs" k then l ← decode_slice (fp_Addrs p) v; Some {| fp_ID := fp_ID p; fp_Addrs := l |}
  else Some p.
Definition decode_providers (v : json) : option (list findProviderResp) :=
  items_of <$> decode_slice_of {| fp_ID := ""; fp_Addrs := nil_slice |} (decode_struct provider_field) nil_of v.

Record peer_state := { ps_ID : string; ps_Addrs : slice; ps_Protocols : slice }.
Definition peer_field (p : peer_state) (k : string) (v : json) : option peer_state :=
  if names "id" k then s ← decode_string (ps_ID p) v; Some {| ps_ID := s; ps_Addrs := ps_Addrs p; ps_Protocols := ps_Protocols p |}
  else if names "addrs" k then l ← decode_slice (ps_Addrs p) v; Some {| ps_ID := ps_ID p; ps_Addrs := l; ps_Protocols := ps_Protocols p |}
  else if names "protocols" k then l ← decode_slice (ps_Protocols p) v; Some {| ps_ID := ps_ID p; ps_Addrs := ps_Addrs p; ps_Protocols := l |}
  else Some p.
Definition peer_of (p : peer_state) : PeerInfo :=
  {| pi_ID := ps_ID p; pi_Addrs := elements_of (ps_Addrs p); pi_Protocols := elements_of (ps_Protocols p) |}.
Definition decode_peers (v : json) : option (list PeerInfo) :=
  (fmap peer_of ∘ items_of) <$>
    decode_slice_of {| ps_ID := ""; ps_Addrs := nil_slice; ps_Protocols := nil_slice |} (decode_struct peer_field) nil_of v.

Definition ping_field (r : pingResult) (k : string) (v : json) : option pingResult :=
  if names "rtt" k then s ← decode_string (pg_RTT r) v; Some {| pg_RTT := s; pg_Error := pg_Error r |}
  else if names "error" k then s ← decode_string (pg_Error r) v; Some {| pg_RTT := pg_RTT r; pg_Error := s |}
  else Some r.
Definition results_field (l : slice_of pingResult) (k : string) (v : json) : option (slice_of pingResult) :=
  if names "results" k then decode_slice_of {| pg_RTT := ""; pg_Error := "" |} (decode_struct ping_field) l v else Some l.
Definition decode_ping (v : json) : option (list pingResult) := items_of <$> decode_struct results_field nil_of v.

Record pathInfoResp := {
  pa_ID : string; pa_Target : string; pa_Type : string; pa_RelayChain : slice; pa_AvgRTT : string;
  pa_HopCount : Z; pa_SuccessRate : float64; pa_SampleCount : Z; pa_LastProbed : string
}.
Definition no_path_info : pathInfoResp :=
  {| pa_ID := ""; pa_Target := ""; pa_Type := ""; pa_RelayChain := nil_slice; pa_AvgRTT := ""; pa_HopCount := 0;
     pa_SuccessRate := f0; pa_SampleCount := 0; pa_LastProbed := "" |}.
Definition decode_float64 (old : float64) (v : json) : option float64 :=
  match v with JNumber lit => ParseFloat lit | JNull => Some old | _ => None end.
Definition path_field (p : pathInfoResp) (k : string) (v : json) : option pathInfoResp :=
  let set id target ty chain rtt hops rate samples probed :=
    {| pa_ID := id; pa_Target := target; pa_Type := ty; pa_RelayChain := chain; pa_AvgRTT := rtt; pa_HopCount := hops;
       pa_SuccessRate := rate; pa_SampleCount := samples; pa_LastProbed := probed |} in
  let '(i, t, y, c, r, h, s, n, l) := (pa_ID p, pa_Target p, pa_Type p, pa_RelayChain p, pa_AvgRTT p, pa_HopCount p,
                                       pa_SuccessRate p, pa_SampleCount p, pa_LastProbed p) in
  if names "id" k then x ← decode_string i v; Some (set x t y c r h s n l)
  else if names "target" k then x ← decode_string t v; Some (set i x y c r h s n l)
  else if names "type" k then x ← decode_string y v; Some (set i t x c r h s n l)
  else if names "relay_chain" k then x ← decode_slice c v; Some (set i t y x r h s n l)
  else if names "avg_rtt" k then x ← decode_string r v; Some (set i t y c x h s n l)
  else if names "hop_count" k then x ← decode_int64 h v; Some (set i t y c r x s n l)
  else if names "success_rate" k then x ← decode_float64 s v; Some (set i t y c r h x n l)
  else if names "sample_count" k then x ← decode_int64 n v; Some (set i t y c r h s x l)
  else if names "last_probed" k then x ← decode_string l v; Some (set i t y c r h s n x)
  else Some p.
Definition paths_field (r : string * slice_of pathInfoResp) (k : string) (v : json)
  : option (string * slice_of pathInfoResp) :=
  if names "policy" k then s ← decode_string (fst r) v; Some (s, snd r)
  else if names "paths" k then l ← decode_slice_of no_path_info (decode_struct path_field) (snd r) v; Some (fst r, l)
  else Some r.
Definition decode_paths (v : json) : option (string * list pathInfoResp) :=
  (λ '(s, l), (s, items_of l)) <$> decode_struct paths_field ("", nil_of) v.

(** A value of any type: a number must be within the range of [float64].  A
    map keeps the last value of a key. *)
Fixpoint numbers_ok (v : json) : bool :=
  match v with
  | JNumber lit => match ParseFloat lit with Some _ => true | None => false end
  | JArray l => forallb numbers_ok l
  | JObject l => forallb (λ '(_, x), numbers_ok x) l
  | _ => true
  end.
Definition decode_map (v : json) : option (gmap string json) :=
  match v with
  | JObject l => if numbers_ok v then Some (list_to_map (reverse l)) else None
  | JNull => Some ∅
  | _ => None
  end.

(** ** Paths of files *)

Definition is_rooted (p : string) : bool := bool_decide (head (to_bytes p) = Some x2f).
Definition path_text (p : path) : string := "/" +:+ String.concat "/" p.

(** The file a text names from a working directory. *)
Definition located (cwd : path) (p : string) : path := Clean ((if is_rooted p then [] else cwd) ++ split_slash p).

(** [filepath.Abs] *)
Definition Abs (cwd : path) (p : string) : string := path_text (located cwd p).

(** [filepath.Base]: the last component that is not empty. *)
Definition Base (p : string) : string :=
  if decide (p = "") then "."
  else default "/" (last (List.filter (λ c, negb (bool_decide (c = ""))) (split_slash p))).

(** ** The commands *)

Definition newline : string := to_string [x0a].
Definition line (s : string) : string := s +:+ newline.
Definition lines (l : list string) : string := String.concat "" (line <$> l).

Section commands.
Context {JE : JSONErrors} {UE : URLErrors}.

(** What the daemon, if there is one, answers, and when. *)
Context (http : http_request → exchange).

Definition DeadlineExceeded : error := Errorf "context deadline exceeded".

(** [http.DefaultClient.Do] under a context with a timeout: the deadline may
    have passed when the request is made, or pass before the answer is there. *)
Definition Do (timeout : Duration) (rq : http_request) : outcome http_response :=
  if timeout <=? 0 then Err DeadlineExceeded
  else match http rq with
       | Silent => Err DeadlineExceeded
       | Answered t r => if timeout <=? t then Err DeadlineExceeded else r
       end.

Definition request_failed : string := "request failed (is the daemon running?)".

Definition send (timeout : Duration) (failed : string) (method : http_method) (path : string) (query body : bytes)
  : outcome http_response :=
  req ← wrap_err "create request" (NewRequest method path query body);
  wrap_err failed (Do timeout req).

(** A decoder that reads to the end of its value, or to the error the body
    breaks off with. *)
Definition decode_response {A} (dec : json → option A) (resp : http_response) : outcome A :=
  wrap_err "decode response"
    (match Decode (rs_Body resp), rs_Error resp with
     | None, Some e => Err e
     | v, _ => decoded (rs_Body resp) (v ≫= dec)
     end).

(** The status, or the command's message about it. *)
Definition expect_ok (what : string) (resp : http_response) : outcome unit :=
  if rs_StatusCode resp =? StatusOK then Ok ()
  else Err (Errorf (what +:+ " failed with status " +:+ pretty (rs_StatusCode resp))).

Definition cid_body (cid : string) : bytes := Marshal (JObject [("cid", JString cid)]).

Definition run_pin (method : http_method) (what done : string) (cid : string) : outcome string :=
  resp ← send (10 * Second) request_failed method "/api/v1/pin" [] (cid_body cid);
  _ ← expect_ok what resp;
  Ok (line (done +:+ ": " +:+ cid)).
Definition runPin : string → outcome string := run_pin POST "pin" "Pinned".
Definition runUnpin : string → outcome string := run_pin DELETE "unpin" "Unpinned".

Definition decode_pins (v : json) : option (list string) := elements_of <$> decode_slice nil_slice v.

Definition pins_text (pins : list string) : string :=
  if decide (pins = []) then line "No pinned CIDs."
  else lines (("Pinned CIDs: " +:+ pretty (zlen pins)) :: (String.append "  " <$> pins)).

Definition runListPins : outcome string :=
  resp ← send (10 * Second) request_failed GET "/api/v1/pins" [] [];
  _ ← expect_ok "request" resp;
  pins ← decode_response decode_pins resp;
  Ok (pins_text pins).

Definition publish_body (filePath name : string) : bytes :=
  Marshal (JObject [("file_path", JString filePath); ("name", JString name)]).

(** [stat]: whether the path is a directory. *)
Definition runPublish (cwd : path) (stat : string → outcome bool) (filePath : string) : outcome string :=
  isDir ← wrap_err "file not found" (stat filePath);
  if isDir : bool then Err (Errorf (filePath +:+ " is a directory")) else
  resp ← send (60 * Second) request_failed POST "/api/v1/publish" [] (publish_body (Abs cwd filePath) (Base filePath));
  _ ← expect_ok "publish" resp;
  pr ← decode_response decode_publish resp;
  Ok (lines ["Published: " +:+ pr_Name pr; "Root CID: " +:+ pr_RootCID pr;
             "Size:     " +:+ pretty (pr_TotalSize pr) +:+ " bytes"; "Chunks:   " +:+ pretty (pr_NumChunks pr)]).

(** [name=arg], as the commands build it. *)
Definition setting (name arg : string) : bytes := to_bytes name ++ x3d :: to_bytes arg.

(** [os.Create] and [io.Copy]: the fault of the first leaves the file alone. *)
Definition create_and_copy (f : fault) (d : Disk) (p : path) (data : bytes) : outcome unit * Disk :=
  let '(r, d') := WriteFile f d p data in
  (wrap_err (match f ≫= flt_written with Some _ => "write output" | None => "create output file" end) r, d').

(** What goes to the standard output, or into the file [output]. *)
Definition runFetch (f : fault) (d : Disk) (output : option path) (rootCID : string) : outcome bytes * Disk :=
  match send (120 * Second) request_failed GET "/api/v1/fetch" (setting "cid" rootCID) [] with
  | Err e => (Err e, d)
  | Panic w => (Panic w, d)
  | Ok resp =>
      if rs_StatusCode resp =? StatusOK then
        let broken (r : outcome bytes) := match rs_Error resp with Some e => Err (Wrapf "write output" e) | None => r end in
        match output with
        | None => (broken (Ok (rs_Body resp)), d)
        | Some p =>
            match create_and_copy f d p (rs_Body resp) with
            | (Ok _, d') => (broken (Ok []), d')
            | (Err e, d') => (Err e, d')
            | (Panic w, d') => (Panic w, d')
            end
        end
      else (Err (Errorf ("fetch failed with status " +:+ pretty (rs_StatusCode resp) +:+ ": " +:+ to_string (rs_Body resp))), d)
  end.

(** The manifest as a map; whatever the status. *)
Definition fetchManifest (rootCID : string) : outcome (gmap string json) :=
  resp ← send (10 * Second) "request failed" GET "/api/v1/manifest" (setting "cid" rootCID) [];
  decode_response decode_map resp.

Definition truncateCID (cid : string) : string :=
  let b := to_bytes cid in
  if decide (16 < length b)%nat then to_string (take 8 b) +:+ "..." +:+ to_string (drop (length b - 8) b) else cid.
Definition truncatePeerID : string → string := truncateCID.

Definition provider_of (p : findProviderResp) : string * list string := (fp_ID p, elements_of (fp_Addrs p)).

Definition providers_text (cid : string) (providers : list (string * list string)) : string :=
  if decide (length providers = 0%nat) then line "No providers found for this CID."
  else lines (["Found " +:+ pretty (zlen providers) +:+ " provider(s) for CID " +:+ truncateCID cid +:+ ":"; ""] ++
    (p ← providers; ("  Peer: " +:+ truncatePeerID (fst p)) :: (String.append "    " <$> snd p) ++ [""])).

Definition runFind (cid : string) : outcome string :=
  resp ← send (30 * Second) request_failed GET "/api/v1/find" (setting "cid" cid) [];
  _ ← expect_ok "request" resp;
  providers ← decode_response decode_providers resp;
  Ok (providers_text cid (provider_of <$> providers)).

Definition successful (r : pingResult) : bool := bool_decide (pg_Error r = "").
Definition ping_line (i : nat) (r : pingResult) : string :=
  "  ping " +:+ pretty (Z.of_nat i + 1) +:+
  (if successful r then ": rtt=" +:+ pg_RTT r else ": error: " +:+ pg_Error r).

Definition ping_text (pingCount : Z) (peerID : string) (results : list pingResult) : string :=
  lines (("PING " +:+ peerID +:+ " (" +:+ pretty pingCount +:+ " pings)") :: imap ping_line results ++
         ["--- " +:+ pretty (zlen (List.filter successful results)) +:+ "/" +:+ pretty (zlen results) +:+
          " successful ---"]).

Definition runPing (pingCount : Z) (peerID : string) : outcome string :=
  resp ← send (wrap64 (wrap64 (pingCount * 5) * Second)) ("ping " +:+ request_failed) GET "/api/v1/ping"
           (setting "peer" peerID ++ x26 :: setting "count" (pretty pingCount)) [];
  _ ← expect_ok "ping" resp;
  results ← decode_response decode_ping resp;
  Ok (ping_text pingCount peerID results).

Definition runPeers (verbose : bool) : outcome string :=
  resp ← send (10 * Second) request_failed GET "/api/v1/peers" [] [];
  _ ← expect_ok "request" resp;
  peers ← decode_response decode_peers resp;
  Ok (if decide (length peers = 0%nat) then line "No connected peers."
      else lines (("Connected peers: " +:+ pretty (zlen peers)) ::
        (p ← peers; ("  " +:+ pi_ID p) ::
           if verbose then (String.append "    addr: " <$> pi_Addrs p) ++ (String.append "    proto: " <$> pi_Protocols p)
           else []))).

Definition labelled (label text : string) : string := "  " +:+ left_aligned 12 label +:+ " " +:+ text.
Definition path_lines (p : pathInfoResp) : list string :=
  [labelled "Path ID:" (pa_ID p); labelled "Target:" (truncatePeerID (pa_Target p)); labelled "Type:" (pa_Type p)] ++
  (let chain := elements_of (pa_RelayChain p) in
   if decide (chain = []) then []
   else ["  " +:+ left_aligned 12 "Relays:" +:+ String.concat "" ((λ r, " " +:+ truncatePeerID r) <$> chain)]) ++
  [labelled "Avg RTT:" (pa_AvgRTT p); labelled "Hops:" (pretty (pa_HopCount p));
   labelled "Success:" (FormatFixed 1 (fmul (pa_SuccessRate p) (of_int 100)) +:+ "%");
   labelled "Samples:" (pretty (pa_SampleCount p)); ""].

(** Without a peer the URL has no query. *)
Definition runPaths (peer : string) : outcome string :=
  resp ← send (10 * Second) request_failed GET "/api/v1/paths"
           (if decide (peer = "") then [] else setting "peer" peer) [];
  _ ← expect_ok "request" resp;
  '(policy, paths) ← decode_response decode_paths resp;
  Ok (if decide (length paths = 0%nat) then lines ["Policy: " +:+ policy; "No paths discovered yet."]
      else lines (["Policy: " +:+ policy; "Paths: " +:+ pretty (zlen paths); ""] ++ (p ← paths; path_lines p))).

End commands.

(** ** Requests that are answered *)

Lemma NewRequest_plain `{UE : URLErrors} method path body :
  NewRequest method path [] body = Ok {| rq_Method := method; rq_Path := path; rq_Query := []; rq_Body := body |}.
Proof. done. Qed.

Lemma send_eq `{UE : URLErrors} http timeout failed method path query body rq :
  0 < timeout → NewRequest method path query body = Ok rq →
  send http timeout failed method path query body =
  wrap_err failed (match http rq with
                   | Silent => Err DeadlineExceeded
                   | Answered t r => if timeout <=? t then Err DeadlineExceeded else r
                   end).
Proof. intros Ht Hn. unfold send. rewrite Hn. cbn. unfold Do. by destruct (Z.leb_spec timeout 0); [lia|]. Qed.

Lemma send_Ok `{UE : URLErrors} http timeout failed method path query body rq t resp :
  t < timeout → 0 < timeout → NewRequest method path query body = Ok rq → http rq = Answered t (Ok resp) →
  send http timeout failed method path query body = Ok resp.
Proof.
  intros Hlt Ht Hn Hh. rewrite (send_eq _ _ _ _ _ _ _ rq), Hh by done. by rewrite (proj2 (Z.leb_gt timeout t)).
Qed.

(** A request that was answered was answered in time. *)
Lemma send_inv `{UE : URLErrors} http timeout failed method path query body resp :
  send http timeout failed method path query body = Ok resp →
  ∃ rq t, NewRequest method path query body = Ok rq ∧ http rq = Answered t (Ok resp) ∧ t < timeout.
Proof.
  unfold send. intros (rq & Hn%wrap_err_Ok & Hs%wrap_err_Ok)%bind_Ok_inv. unfold Do in Hs.
  destruct (timeout <=? 0); [done|]. destruct (http rq) as [t r'|] eqn:Hh; [|done].
  destruct (Z.leb_spec timeout t) as [?|Hlt]; [done|]. subst r'. by exists rq, t.
Qed.

Lemma expect_ok_Ok what resp : rs_StatusCode resp = 200 → expect_ok what resp = Ok ().
Proof. intros H. unfold expect_ok. by rewrite H. Qed.

(** ** What the commands read is what the handlers wrote *)

(** Ill-formed UTF-8 is replaced on the way. *)
Definition fix_publish (r : PublishResponse) : PublishResponse :=
  {| pr_RootCID := fix_string (pr_RootCID r); pr_Name := fix_string (pr_Name r); pr_TotalSize := pr_TotalSize r;
     pr_NumChunks := pr_NumChunks r |}.

Lemma decode_publish_json r :
  int64_ok (pr_TotalSize r) → int64_ok (pr_NumChunks r) →
  fits 1 (publish_json r) ∧ decode_publish (sanitize (publish_json r)) = Some (fix_publish r).
Proof.
  intros [Hs Ps]%FormatInt_spec [Hn Pn]%FormatInt_spec. split; [by repeat constructor|].
  unfold decode_publish, publish_json. cbn [sanitize List.map decode_struct foldl].
  unfold publish_field. read_names. cbn [mbind option_bind decode_string decode_int64].
  rewrite Ps. cbn [mbind option_bind]. rewrite Pn. done.
Qed.

Lemma fits_up d e v : (d ≤ e)%nat → fits d v → fits e v.
Proof.
  intros Hde. revert d e Hde. induction v as [| | | |l IH|l IH] using json_nested_ind; intros d e Hde Hf;
    [destruct d, e; done..| |]; (destruct d as [|d]; [done|]; destruct e as [|e]; [lia|]; cbn [fits] in * ).
  - apply Forall_forall. intros v Hv. rewrite Forall_forall in IH, Hf. apply (IH v Hv d e); [lia|by apply Hf].
  - apply Forall_forall. intros v Hv. rewrite Forall_forall in IH, Hf. apply (IH v Hv d e); [lia|by apply Hf].
Qed.

Lemma fits_depth d v : (d ≤ 3)%nat → fits d v → fits maxNestingDepth v.
Proof.
  intros Hd. apply fits_up. with_strategy transparent [maxNestingDepth] (unfold maxNestingDepth). lia.
Qed.

Section decoding.
Context {A B : Type} (zero : A) (dec : A → json → option A) (enc : B → json) (g : B → A).
Hypothesis Hdec : ∀ x, dec zero (enc x) = Some (g x).

Lemma decode_items_map l : decode_items zero dec [] (enc <$> l) = Some (g <$> l).
Proof. induction l as [|x l IH]; [done|]. rewrite fmap_cons. cbn [decode_items]. simpl. by rewrite Hdec, IH. Qed.

Lemma decode_slice_map l : items_of <$> decode_slice_of zero dec nil_of (JArray (enc <$> l)) = Some (g <$> l).
Proof.
  destruct l as [|x l]; [done|].
  change (decode_slice_of zero dec nil_of (JArray (enc <$> x :: l)))
    with (xs ← decode_items zero dec [] (enc <$> x :: l);
          Some {| sl_backing := xs ++ drop (length (enc <$> x :: l)) []; sl_visible := length (enc <$> x :: l) |}).
  rewrite decode_items_map. cbn [mbind option_bind fmap option_fmap option_map]. unfold items_of. cbn [sl_visible sl_backing].
  by rewrite drop_nil, app_nil_r, take_ge by (rewrite !length_fmap; lia).
Qed.
End decoding.

Definition fix_provider (p : string * list string) : string * list string := (fix_string (fst p), fix_string <$> snd p).

Lemma sanitize_fmap {A} (f : A → json) l : sanitize (JArray (f <$> l)) = JArray ((sanitize ∘ f) <$> l).
Proof. cbn [sanitize]. f_equal. symmetry. apply (list_fmap_compose f sanitize). Qed.

Lemma provider_field_json p :
  ∃ q, decode_struct provider_field {| fp_ID := ""; fp_Addrs := nil_slice |} (sanitize (provider_json p)) = Some q ∧
       provider_of q = fix_provider p.
Proof.
  pose proof (decode_slice_strings (fix_string <$> snd p)) as (c & Hc & Hec)%fmap_Some.
  unfold provider_json. cbn [sanitize List.map]. rewrite sanitize_strings. cbn [decode_struct foldl].
  unfold provider_field. read_names. cbn [mbind option_bind decode_string fp_Addrs fp_ID]. rewrite Hc.
  eexists. split; [done|]. unfold provider_of, fix_provider. simpl. by rewrite Hec.
Qed.

Lemma fits_provider d p : fits (S (S d)) (provider_json p).
Proof.
  change (Forall (fits (S d)) [JString (fst p); strings_json (snd p)]).
  apply Forall_cons; split; [done|]. apply Forall_singleton, fits_strings.
Qed.

Lemma fits_array {A} d (f : A → json) l : (∀ x, fits d (f x)) → fits (S d) (JArray (f <$> l)).
Proof. intros Hf. change (Forall (fits d) (f <$> l)). apply Forall_fmap, Forall_forall. intros x _. apply Hf. Qed.

Lemma decode_providers_json l :
  fits 3 (providers_json l) ∧
  (λ ps : list findProviderResp, provider_of <$> ps) <$> decode_providers (sanitize (providers_json l)) = Some (fix_provider <$> l).
Proof.
  split; [apply (fits_array 2), fits_provider|].
  unfold decode_providers, providers_json. rewrite sanitize_fmap.
  set (g := λ p, default {| fp_ID := ""; fp_Addrs := nil_slice |}
    (decode_struct provider_field {| fp_ID := ""; fp_Addrs := nil_slice |} (sanitize (provider_json p)))).
  rewrite (decode_slice_map _ _ _ g).
  - cbn [fmap option_fmap option_map]. f_equal. rewrite <-list_fmap_compose. apply list_fmap_ext. intros _ p _.
    unfold compose, g. by destruct (provider_field_json p) as (q & -> & Hq).
  - intros p. unfold g, compose. by destruct (provider_field_json p) as (q & -> & _).
Qed.

Definition fix_result (r : pingResult) : pingResult := {| pg_RTT := fix_string (pg_RTT r); pg_Error := fix_string (pg_Error r) |}.

Lemma decode_ping_json l : fits 3 (ping_json l) ∧ decode_ping (sanitize (ping_json l)) = Some (fix_result <$> l).
Proof.
  split.
  { change (Forall (fits 2) [JArray ((λ r, JObject (("rtt", JString (pg_RTT r)) :: omitempty "error" (pg_Error r))) <$> l)]).
    apply Forall_singleton, (fits_array 1). intros r. unfold omitempty. case_decide; repeat constructor. }
  unfold decode_ping, ping_json. cbn [sanitize List.map decode_struct foldl mbind option_bind].
  unfold results_field. read_names. change (JArray (List.map sanitize ?l)) with (sanitize (JArray l)).
  rewrite sanitize_fmap. rewrite <-(decode_slice_map {| pg_RTT := ""; pg_Error := "" |} (decode_struct ping_field)
    (sanitize ∘ (λ r, JObject (("rtt", JString (pg_RTT r)) :: omitempty "error" (pg_Error r)))) fix_result); [done|].
  intros r. unfold compose. cbn [sanitize List.map]. unfold omitempty. cbn [decode_struct].
  case_decide as He; cbn [List.map foldl]; unfold ping_field; read_names; cbn [mbind option_bind decode_string pg_RTT pg_Error];
    unfold fix_result; [by rewrite He|done].
Qed.

(** ** Which arguments arrive *)

(** A server that fails with the value it gets for a setting. *)
Definition spy (key : string) (rq : http_request) : exchange :=
  Answered 0 (if malformed rq then Ok bad_request else Err (Errorf (query_Get (rq_Query rq) key))).

Section arguments.
Context `{JE : JSONErrors, UE : URLErrors}.

Lemma wrap_err_Err_inv {A} ctx (r : outcome A) e : wrap_err ctx r = Err e → ∃ e', e = Wrapf ctx e'.
Proof. destruct r; [done|intros [= <-]; by eexists|done]. Qed.

(** A command that sends the setting fails with the argument exactly if it
    arrived as it was typed. *)
Lemma send_spy {A} timeout failed path key arg rest (k : http_response → outcome A) :
  0 < timeout → failed ≠ "create request" → plain_key key = true → harmless key rest →
  (forallb query_safe (to_bytes arg) = true →
     ∃ rq, NewRequest GET path ((to_bytes key ++ x3d :: to_bytes arg) ++ followed_by rest) [] = Ok rq ∧
           malformed rq = false ∧ query_Get (rq_Query rq) key = arg) →
  (∀ e, k bad_request ≠ Err (Wrapf failed e)) →
  (resp ← send (spy key) timeout failed GET path ((to_bytes key ++ x3d :: to_bytes arg) ++ followed_by rest) []; k resp)
    = Err (Wrapf failed (Errorf arg)) ↔ forallb query_safe (to_bytes arg) = true.
Proof.
  intros Ht Hf Hk Hrest Hsafe Hbad.
  destruct (NewRequest GET path _ []) as [rq|e|w] eqn:Hn.
  - rewrite (send_eq _ _ _ _ _ _ _ rq) by done. unfold spy. rewrite (proj2 (Z.leb_gt timeout 0)) by done.
    destruct (malformed rq) eqn:Hm.
    + cbn [wrap_err]. rewrite bind_Ok. split; [by intros ?%Hbad|].
      intros (rq' & [= <-] & Hm' & _)%Hsafe. by rewrite Hm in Hm'.
    + cbn [wrap_err]. split.
      * intros H. injection H as Hq. by eapply arrives_only_safe.
      * intros (rq' & [= <-] & _ & ->)%Hsafe. done.
  - unfold send. rewrite Hn. split; [intros [= Hc _]; by symmetry in Hc|by intros (rq & [=] & _)%Hsafe].
  - unfold send. rewrite Hn. split; [done|by intros (rq & [=] & _)%Hsafe].
Qed.

Lemma one_setting path key arg :
  plain_key key = true → forallb query_safe (to_bytes arg) = true →
  ∃ rq, NewRequest GET path ((to_bytes key ++ x3d :: to_bytes arg) ++ followed_by None) [] = Ok rq ∧
        malformed rq = false ∧ query_Get (rq_Query rq) key = arg.
Proof.
  intros Hk Ha. destruct (safe_arrives path key arg Hk Ha) as (H1 & H2 & H3). cbn [followed_by]. rewrite app_nil_r. by eexists.
Qed.

Lemma send_one {A} timeout failed path key arg (k : http_response → outcome A) :
  0 < timeout → failed ≠ "create request" → plain_key key = true → (∀ e, k bad_request ≠ Err (Wrapf failed e)) →
  (resp ← send (spy key) timeout failed GET path (setting key arg) []; k resp) = Err (Wrapf failed (Errorf arg)) ↔
  forallb query_safe (to_bytes arg) = true.
Proof.
  intros Ht Hf Hk Hbad. pose proof (send_spy timeout failed path key arg None k Ht Hf Hk I (one_setting path key arg Hk) Hbad) as H.
  cbn [followed_by] in H. by rewrite app_nil_r in H.
Qed.

Lemma pretty_safe z : 0 < z → forallb query_safe (to_bytes (pretty z)) = true.
Proof.
  intros Hz. destruct (pretty_pos_digits z Hz) as (ds & -> & _ & Hd & _). revert Hd.
  rewrite !forallb_forall. intros Hd x Hx. specialize (Hd x Hx). revert Hd. clear. by destruct x.
Qed.

(** A deadline of [5n] seconds within 64 bits. *)
Lemma ping_deadline c :
  - 1844674407 ≤ c ≤ 1844674407 → wrap64 (wrap64 (c * 5) * Second) = c * 5 * Second.
Proof. intros Hc. rewrite (wrap64_small (c * 5)), wrap64_small; [done|..]; unfold int64_ok, Second; lia. Qed.

(** The count of a ping, after its peer. *)
Lemma count_harmless n : 0 < n → harmless "peer" (Some (setting "count" (pretty n))).
Proof.
  intros Hn. pose proof (pretty_safe n Hn) as Hs. split_and!.
  - by apply setting_ctl.
  - apply setting_absent; [done..|set_solver].
  - intros p k v. unfold setting. rewrite Split_absent by (apply setting_absent; [done..|set_solver]).
    intros ->%list_elem_of_singleton. rewrite setting_parsed by done. by intros [= <- _].
Qed.

(** C32: an argument of a command reaches the daemon as it was typed exactly
    when it holds no control character, blank, hash, percent sign, ampersand,
    plus sign or semicolon: the commands put it into the URL without escaping
    it.  Seen by a daemon that fails with the value its handler gets: the
    commands [fetch], [find] and [paths] (with a peer), the reading of a
    manifest, and [ping] (of a positive count whose deadline fits 64 bits)
    report a failure with the argument itself in exactly those cases. *)
Theorem arguments_arrive_iff (f : fault) (disk : Disk) (output : option path) (count : Z) (arg : string) :
  0 < count ≤ 1844674407 → arg ≠ "" →
  let safe := forallb query_safe (to_bytes arg) = true in
  (fst (runFetch (spy "cid") f disk output arg) = Err (Wrapf request_failed (Errorf arg)) ↔ safe) ∧
  (fetchManifest (spy "cid") arg = Err (Wrapf "request failed" (Errorf arg)) ↔ safe) ∧
  (runFind (spy "cid") arg = Err (Wrapf request_failed (Errorf arg)) ↔ safe) ∧
  (runPaths (spy "peer") arg = Err (Wrapf request_failed (Errorf arg)) ↔ safe) ∧
  (runPing (spy "peer") count arg = Err (Wrapf ("ping " +:+ request_failed) (Errorf arg)) ↔ safe).
Proof.
  intros Hc Hne. cbv zeta. split_and!.
  - rewrite <-(send_one (120 * Second) request_failed "/api/v1/fetch" "cid" arg (λ _, Ok ())) by done.
    unfold runFetch. unfold setting. destruct (send _ _ _ _ _ _ _) as [resp|e|w] eqn:Hs;
      [cbn|by split; intros [= ->]|by split].
    split; [|done]. destruct (_ =? StatusOK); [|done]. destruct output as [p|]; [|by destruct (rs_Error resp)].
    unfold create_and_copy. destruct (WriteFile f disk p _) as [[u|e|w] d']; cbn; [by destruct (rs_Error resp)| |done].
    intros [= Hctx _]. by destruct (f ≫= flt_written).
  - apply send_one; [done..|]. intros e H. unfold decode_response in H. apply wrap_err_Err_inv in H as (e' & [=]).
  - by apply send_one.
  - unfold runPaths. rewrite decide_False by done. by apply send_one.
  - unfold runPing. apply (send_spy _ _ "/api/v1/ping" "peer" arg (Some (setting "count" (pretty count)))); try done.
    + rewrite ping_deadline by lia. unfold Second. lia.
    + apply count_harmless. lia.
    + intros Hs. destruct (two_arrive "/api/v1/ping" "peer" arg "count" (pretty count)) as (H1 & H2 & H3 & _);
        [done|done|done|apply pretty_safe; lia|done|]. by eexists.
Qed.
End arguments.

Lemma arguments_arrive_iff_witness :
  let safe := forallb query_safe (to_bytes "a+b") = true in
  (fst (runFetch (UE := λ _, Errorf "invalid URL") (spy "cid") None {| files := ∅; dirs := ∅ |} None "a+b")
     = Err (Wrapf request_failed (Errorf "a+b")) ↔ safe) ∧
  (fetchManifest (JE := λ _, Errorf "") (UE := λ _, Errorf "invalid URL") (spy "cid") "a+b"
     = Err (Wrapf "request failed" (Errorf "a+b")) ↔ safe) ∧
  (runFind (JE := λ _, Errorf "") (UE := λ _, Errorf "invalid URL") (spy "cid") "a+b"
     = Err (Wrapf request_failed (Errorf "a+b")) ↔ safe) ∧
  (runPaths (JE := λ _, Errorf "") (UE := λ _, Errorf "invalid URL") (spy "peer") "a+b"
     = Err (Wrapf request_failed (Errorf "a+b")) ↔ safe) ∧
  (runPing (JE := λ _, Errorf "") (UE := λ _, Errorf "invalid URL") (spy "peer") 5 "a+b"
     = Err (Wrapf ("ping " +:+ request_failed) (Errorf "a+b")) ↔ safe).
Proof.
  apply (arguments_arrive_iff (JE := λ _, Errorf "") (UE := λ _, Errorf "invalid URL") None {| files := ∅; dirs := ∅ |}
    None 5 "a+b"); [lia|discriminate].
Defined.

(** The plus sign arrives as a blank. *)
Example plus_arrives_as_blank :
  runFind (JE := λ _, Errorf "") (UE := λ _, Errorf "invalid URL") (spy "cid") "a+b"
  = Err (Wrapf request_failed (Errorf "a b")).
Proof. vm_compute. reflexivity. Qed.
