(* ===== verification/Root.v ===== *)
(** * The root command and the program's exit ([cmd/root.go], [main.go])

    The level of the log, the configuration file and the exit code.  No code
    calls [LoadConfigFile]. *)

From S2P Require Import Prelude Json Codec Float64 Format Store Fetch Api Handlers Http Client.

(** ** Logging *)

Inductive Level := LevelDebug | LevelInfo | LevelWarn | LevelError.

Definition setupLogging (level : string) : Level :=
  if decide (level = "debug") then LevelDebug
  else if decide (level = "warn") then LevelWarn
  else if decide (level = "error") then LevelError
  else LevelInfo.

(** ** The configuration file *)

Section config.
Context (d : Disk) (cwd : path) (home : outcome path).

Definition exists_ (p : path) : bool := bool_decide (p ∈ dom (files d) ∨ p ∈ dirs d).

Definition local_config : string := "pathaware-libp2p.json".

(** The file named by the flag, the one in the home directory, the one in the
    working directory. *)
Definition config_path (cfgFile : string) : option path :=
  if decide (cfgFile = "") then
    let from_home := match home with
                     | Ok h => let p := Join h [".pathaware-libp2p"; "config.json"] in if exists_ p then Some p else None
                     | _ => None
                     end in
    match from_home with
    | Some p => Some p
    | None => let p := located cwd local_config in if exists_ p then Some p else None
    end
  else Some (located cwd cfgFile).

(** [None] is the nil map: no file, one that cannot be read, one that is not
    a JSON object. *)
Definition LoadConfigFile (f : fault) (cfgFile : string) : option (gmap string json) :=
  p ← config_path cfgFile;
  match ReadFile f d p with
  | Ok data => v ← Parse data; match v with JNull => None | _ => decode_map v end
  | _ => None
  end.

(** A configuration file that is named hides the default ones, even when it
    cannot be read. *)
Lemma named_file_only f cfgFile :
  cfgFile ≠ "" →
  LoadConfigFile f cfgFile = match ReadFile f d (located cwd cfgFile) with
                             | Ok data => v ← Parse data; match v with JNull => None | _ => decode_map v end
                             | _ => None
                             end.
Proof. intros Hc. unfold LoadConfigFile, config_path. by rewrite decide_False. Qed.
End config.

(** ** The exit code *)

Definition main (execute : outcome unit) : Z := match execute with Ok _ => 0 | Err _ => 1 | Panic _ => 2 end.
