(* ===== verification/System.v ===== *)
(** * The content of a running node

    The handlers of the HTTP API, the stream handlers of the block protocols
    and the replication cycle run at the same time and share the disk, the
    pins and the block cache.  Each touches them only in operations that the
    store's and the cache's locks make atomic.  Here these operations are the
    steps of a transition system, every handler is a sequence of them, and the
    invariants hold in every state that any interleaving reaches. *)

From Stdlib Require Import Ascii.
From S2P Require Import Prelude Utf8 Json Codec Float64 Runtime Path Policy Stream Probe Manager Sha256 Chunker Lru Bloom Store Signing Replication Erasure BlockTransfer CacheSummary Node Fetch Providers Transport ProbeLoop Lifecycle Api.
#[local] Open Scope Z_scope.

(** ** Paths *)

Lemma Clean_seg_ok p : Forall seg_ok (Clean p).
Proof.
  unfold Clean. assert (∀ acc, Forall seg_ok acc → Forall seg_ok (foldl clean_step acc p)) as H; [|by apply H].
  induction p as [|c p IH]; intros acc Ha; [done|]. simpl. apply IH. unfold clean_step.
  case_decide as H1; [done|]. case_decide; [by apply Forall_take|].
  apply Forall_app. split; [done|]. constructor; [|done]. unfold seg_ok. tauto.
Qed.

(** A file name is the last component of its path. *)
Lemma Join_last p c : seg_ok c → no_slash c → ∃ q, Join p [c] = q ++ [c].
Proof.
  intros (H1 & H2 & H3) Hs. exists (Clean p). unfold Join. simpl.
  rewrite split_slash_plain, app_nil_r, Clean_app by done. cbn [foldl]. unfold clean_step at 1.
  by rewrite decide_False, decide_False by tauto.
Qed.

(** A path that is neither a block's nor a manifest's. *)
Definition elsewhere (s : Store) (p : path) : Prop :=
  ∀ cid, no_slash cid → p ≠ blockPath s cid ∧ p ≠ manifestPath s cid.

Lemma suffix_last (c t : string) x : last (to_bytes t) = Some x → last (to_bytes (c +:+ t)) = Some x.
Proof. intros H. by rewrite to_bytes_app, last_app, H. Qed.

(** Names told apart from block and manifest files by their last letter, or
    by their length. *)
Definition other_name (c : string) : Prop :=
  seg_ok c ∧ no_slash c ∧ last (to_bytes c) ≠ last (to_bytes "k") ∧
  (last (to_bytes c) ≠ last (to_bytes "n") ∨ (length (to_bytes c) < 14)%nat).

Lemma other_name_elsewhere s p c : Forall seg_ok (dir s) → other_name c → elsewhere s (Join p [c]).
Proof.
  intros Hd (Hc & Hs & Hk & Hn) cid Hcid. destruct (Join_last p c Hc Hs) as [q ->].
  rewrite blockPath_plain, manifestPath_plain by done.
  split; intros [_ [= Heq]]%app_inj_2; try done; subst c.
  - apply Hk. by rewrite (suffix_last _ ".block" _ eq_refl).
  - destruct Hn as [Hn|Hn].
    + apply Hn. by rewrite (suffix_last _ ".manifest.json" _ eq_refl).
    + rewrite to_bytes_app, length_app in Hn. simpl in Hn. lia.
Qed.

Lemma pins_name : other_name "pins.json".
Proof. split_and!; [apply seg_ok_long; simpl; lia|by repeat split|done|right; simpl; lia]. Qed.
Lemma key_name : other_name keyFileName.
Proof. split_and!; [apply seg_ok_long; simpl; lia|by repeat split|done|by left]. Qed.

Lemma no_slash_digit n : pretty_N_char n ≠ "/"%char.
Proof. unfold pretty_N_char. destruct n as [|p]; [done|]. by repeat (destruct p; try done). Qed.

Lemma no_slash_pretty_go n s : no_slash s → no_slash (pretty_N_go n s).
Proof.
  revert s. induction (N.lt_wf_0 n) as [n _ IH]. intros s Hs.
  destruct (decide (n = 0)%N) as [->|Hn]; [by rewrite pretty_N_go_0|].
  rewrite pretty_N_go_step by lia. apply IH; [apply N.div_lt; lia|]. split; [apply no_slash_digit|done].
Qed.

Lemma no_slash_pretty (z : Z) : no_slash (pretty z).
Proof.
  assert (∀ n : N, no_slash (pretty n)) as Hn.
  { intros n. unfold pretty, pretty_N. case_decide; [by repeat split|by apply no_slash_pretty_go]. }
  destruct z as [|p|p]; [by repeat split|apply (Hn (Npos p))|]. split; [done|apply (Hn (Npos p))].
Qed.

Lemma frag_other_name i : other_name (frag_name i).
Proof.
  unfold frag_name. split_and!.
  - apply seg_ok_long. rewrite string_length_app. simpl. lia.
  - apply no_slash_app; [apply no_slash_pretty|by repeat split].
  - by rewrite (suffix_last _ ".frag" _ eq_refl).
  - left. by rewrite (suffix_last _ ".frag" _ eq_refl).
Qed.

(** ** The invariant *)

Section content.
Context `{JE : JSONErrors, E : Ed25519}.

(** A manifest as [handlePublish] writes it: its root binds its chunks, and
    it is not signed or verifies. *)
Record published (m : Manifest) : Prop := {
  pb_root : RootCID m = hex (Sum256 (concat (to_bytes <$> ChunkCIDs m)));
  pb_chunks : Forall (λ c, ∃ data, c = ComputeCID data) (ChunkCIDs m);
  pb_signature : Signature m = "" ∨ VerifyManifest m = Ok ();
  pb_valid : manifest_valid m = true;
  pb_size : int64_ok (TotalSize m)
}.

(** The identifiers whose files, a block's or a manifest's, no write tears: a
    write that fails part way, or is cut short by a crash, leaves a truncated
    file that is then served ([Store.torn_write_is_served]).  Nothing is
    assumed of the other identifiers, and the set may be empty. *)
Context (whole : string → Prop).

(** Every manifest that can be read under a whole name without separators is
    published, under its root. *)
Definition valid_manifests (s : Store) (d : Disk) : Prop :=
  ∀ root m, whole root → no_slash root → GetManifest None s d root = Ok m → RootCID m = root ∧ published m.

Record content_ok (st : Serving) : Prop := {
  co_dir : Forall seg_ok (dir (sv_store st));
  co_pinFile : elsewhere (sv_store st) (pinFile (sv_store st));
  co_disk : valid_disk (sv_store st) whole (sv_disk st);
  co_manifests : valid_manifests (sv_store st) (sv_disk st);
  co_cache : valid_cache whole (sv_cache st)
}.

(** ** Atomic operations

    A write may tear the file of any identifier that is not whole.  A block
    with a whole identifier without separators that goes to the cache hashes
    to it. *)
Definition set_pins (st : Serving) (s : Store) (d : Disk) : Serving :=
  {| sv_store := s; sv_disk := d; sv_cache := sv_cache st |}.

Inductive atom : Serving → Serving → Prop :=
  | CacheGet st c k : sv_cache st = Some c → atom st (set_cache st (snd (Lru.Get c k)))
  | CachePut st c fuel b c' :
      sv_cache st = Some c → (whole (CID b) → no_slash (CID b) → valid_block b) → total c + block_size b < 2 ^ 63 →
      Lru.Put (IsPinned (sv_store st)) fuel c b = Some c' → atom st (set_cache st c')
  | StorePut st f b :
      valid_block b → (whole (CID b) → untorn f) → atom st (set_disk st (snd (Store.Put f (sv_store st) (sv_disk st) b)))
  | StoreManifest st f m :
      published m → (whole (RootCID m) → untorn f) → atom st (set_disk st (snd (PutManifest f (sv_store st) (sv_disk st) m)))
  | StoreFragment st fmk fwr parentCID i data :
      atom st (set_disk st (snd (PutFragment fmk fwr (sv_store st) (sv_disk st) parentCID i data)))
  | StorePin st o f cid r s' d' :
      Pin o f (sv_store st) (sv_disk st) cid = (r, s', d') → atom st (set_pins st s' d')
  | StoreUnpin st o f cid r s' d' :
      Unpin o f (sv_store st) (sv_disk st) cid = (r, s', d') → atom st (set_pins st s' d').

Lemma published_root_no_slash m : published m → no_slash (RootCID m).
Proof. intros [-> _ _ _ _]. apply hex_no_slash, hex_chars. Qed.

(** A write elsewhere leaves blocks and manifests as they are. *)
Lemma write_elsewhere f s d p data cid :
  elsewhere s p → no_slash cid →
  files (snd (WriteFile f d p data)) !! blockPath s cid = files d !! blockPath s cid ∧
  files (snd (WriteFile f d p data)) !! manifestPath s cid = files d !! manifestPath s cid.
Proof.
  intros Hp Hc. destruct (Hp cid Hc) as [Hb Hm]. destruct (WriteFile f d p data) as [r d'] eqn:EW. cbn [snd].
  apply WriteFile_effect in EW as (_ & [->|(n & -> & _)] & _); [done|]. by rewrite !lookup_insert_ne.
Qed.

(** Two disks that agree on blocks and manifests. *)
Definition agree (s : Store) (d d' : Disk) : Prop :=
  ∀ cid, no_slash cid → files d' !! blockPath s cid = files d !! blockPath s cid ∧
                        files d' !! manifestPath s cid = files d !! manifestPath s cid.

Lemma GetManifest_file s d root m :
  GetManifest None s d root = Ok m ↔
  ∃ data, files d !! manifestPath s root = Some data ∧ Unmarshal_Manifest data = Ok m.
Proof.
  unfold GetManifest, ReadFile. destruct (files d !! manifestPath s root) as [data|]; simpl.
  - split.
    + intros H%wrap_err_Ok. by exists data.
    + intros (data' & [= <-] & ->). done.
  - split; [by case_decide|by intros (data & ? & _)].
Qed.

Lemma agree_valid s d d' :
  agree s d d' → valid_disk s whole d ∧ valid_manifests s d → valid_disk s whole d' ∧ valid_manifests s d'.
Proof.
  intros Ha [Hd Hm]. split.
  - intros cid b Hw Hc (_ & Hcid & Hf)%Store.Get_Ok. destruct (Ha cid Hc) as [Hb _]. rewrite Hb in Hf.
    apply (Hd cid b Hw Hc). rewrite (Store.Get_file _ _ _ _ Hf). subst cid. by destruct b.
  - intros root m Hw Hr (data & Hf & Hu)%GetManifest_file. apply (Hm root m Hw Hr).
    apply GetManifest_file. exists data. split; [|done]. by rewrite <-(proj2 (Ha root Hr)).
Qed.

Lemma agree_write f s d p data : elsewhere s p → agree s d (snd (WriteFile f d p data)).
Proof. intros Hp cid Hc. by apply write_elsewhere. Qed.

Lemma agree_fragment fmk fwr s d parentCID i data :
  Forall seg_ok (dir s) → agree s d (snd (PutFragment fmk fwr s d parentCID i data)).
Proof.
  intros Hd cid Hc. unfold PutFragment, MkdirAll. destruct fmk as [e|]; [done|].
  destruct (write_elsewhere fwr s {| files := files d; dirs := list_to_set (prefixes (fragDir s parentCID)) ∪ dirs d |}
    (Join (fragDir s parentCID) [frag_name i]) data cid) as [H1 H2]; [|done|done].
  apply other_name_elsewhere; [done|apply frag_other_name].
Qed.

(** *** Blocks and manifests *)

Lemma Put_keeps_manifests f s d b :
  Forall seg_ok (dir s) → valid_block b → valid_manifests s d →
  valid_manifests s (snd (Store.Put f s d b)).
Proof.
  intros Hdir Hb Hm root m Hw Hr (data & Hf & Hu)%GetManifest_file. apply (Hm root m Hw Hr), GetManifest_file.
  exists data. split; [|done]. revert Hf. unfold Store.Put.
  destruct (WriteFile f d (blockPath s (CID b)) (Data b)) as [r d'] eqn:EW. simpl.
  apply WriteFile_effect in EW as (_ & [->|(n & -> & _)] & _); [done|].
  rewrite lookup_insert_ne; [done|]. apply not_eq_sym, manifest_not_block; [done..|].
  rewrite Hb. apply ComputeCID_no_slash.
Qed.

(** What is read after a manifest was written: what was read before, or the
    manifest. *)
Lemma PutManifest_read f s d m root :
  Forall seg_ok (dir s) → published m → (whole (RootCID m) → untorn f) → whole root → no_slash root →
  let d' := snd (PutManifest f s d m) in
  GetManifest None s d' root = GetManifest None s d root ∨
  (RootCID m = root ∧ GetManifest None s d' root = Ok m).
Proof.
  intros Hdir Hp Hf Hw Hr. pose proof (published_root_no_slash m Hp) as Hns. unfold PutManifest.
  destruct (WriteFile f d (manifestPath s (RootCID m)) (Marshal_Manifest m)) as [r d'] eqn:EW. cbn [snd].
  apply WriteFile_effect in EW as (Hdirs & [Heff|(n & Heff & Htorn)] & _);
    unfold GetManifest, ReadFile; rewrite Hdirs, Heff; [by left|].
  destruct (decide (root = RootCID m)) as [->|Hne]; [right|left].
  - rewrite lookup_insert_eq, take_ge.
    + simpl. rewrite Manifest_round_trip, fix_manifest_valid by apply Hp. done.
    + destruct (decide (length (Marshal_Manifest m) ≤ n)%nat); [done|].
      destruct Htorn as (e & He & Hw'); [lia|]. by rewrite (Hf Hw e He) in Hw'.
  - rewrite lookup_insert_ne; [done|]. rewrite !manifestPath_plain by done.
    intros [_ [= H]]%app_inj_2; [|done]. by apply string_app_inj_r in H.
Qed.

Lemma PutManifest_keeps f s d m :
  Forall seg_ok (dir s) → published m → (whole (RootCID m) → untorn f) →
  valid_disk s whole d → valid_manifests s d →
  valid_disk s whole (snd (PutManifest f s d m)) ∧ valid_manifests s (snd (PutManifest f s d m)).
Proof.
  intros Hdir Hp Hf Hd Hm. pose proof (published_root_no_slash m Hp) as Hns. split.
  - unfold PutManifest. destruct (WriteFile f d _ _) as [r d'] eqn:EW. by eapply manifest_keeps_valid.
  - intros root m' Hw Hr. destruct (PutManifest_read f s d m root Hdir Hp Hf Hw Hr) as [->|[Heq ->]]; [by apply Hm|].
    by intros [= <-].
Qed.

(** ** Every operation keeps the content valid *)

Lemma valid_cache_Put pins fuel c b c' :
  valid_cache whole (Some c) → (whole (CID b) → no_slash (CID b) → valid_block b) →
  total c + block_size b < 2 ^ 63 → Lru.Put pins fuel c b = Some c' → valid_cache whole (Some c').
Proof.
  intros Hc Hb Hov HP c0 [= <-]. destruct (Hc c eq_refl) as [Hwf Hv].
  split; [by eapply Put_wf|]. apply Forall_forall. intros x Hx.
  destruct (Put_blocks _ _ _ _ _ _ Hwf Hov HP Hx) as [->|Hin]; [done|].
  rewrite Forall_forall in Hv. by apply Hv.
Qed.

Lemma co_files st d :
  content_ok st → valid_disk (sv_store st) whole d ∧ valid_manifests (sv_store st) d → content_ok (set_disk st d).
Proof. intros [H1 H2 _ _ H5] [H3 H4]. by split. Qed.

Lemma co_agree st d : content_ok st → agree (sv_store st) (sv_disk st) d → content_ok (set_disk st d).
Proof. intros Hok Ha. apply co_files; [done|]. eapply agree_valid; [exact Ha|]. by split; apply Hok. Qed.

Lemma co_cached st c : content_ok st → valid_cache whole (Some c) → content_ok (set_cache st c).
Proof. intros [H1 H2 H3 H4 _] Hc. by split. Qed.

(** Pinning rewrites the pin file only. *)
Lemma agree_pins st p o f :
  content_ok st → agree (sv_store st) (sv_disk st) (snd (savePins o f (with_pins (sv_store st) p) (sv_disk st))).
Proof. intros Hok. apply (agree_write f (sv_store st)), Hok. Qed.

Lemma co_pinned st p o f :
  content_ok st → content_ok (set_pins st (with_pins (sv_store st) p)
    (snd (savePins o f (with_pins (sv_store st) p) (sv_disk st)))).
Proof. intros Hok. destruct (co_agree st _ Hok (agree_pins st p o f Hok)) as [H1 H2 H3 H4 H5]. by split. Qed.

Lemma atom_ok st st' : atom st st' → content_ok st → content_ok st'.
Proof.
  intros Ha Hok. destruct Ha as [st c k Hc|st c fuel b c' Hc Hb Hov HP|st f b Hb Hf|st f m Hm Hf
    |st fmk fwr p i data|st o f cid r s' d' HP|st o f cid r s' d' HP].
  - apply co_cached; [done|]. apply cache_Get_valid. rewrite <-Hc. apply Hok.
  - apply co_cached; [done|]. eapply valid_cache_Put; [|done..]. rewrite <-Hc. apply Hok.
  - apply co_files; [done|]. split; [apply Put_valid|apply Put_keeps_manifests]; by try apply Hok.
  - apply co_files; [done|]. apply PutManifest_keeps; by try apply Hok.
  - apply co_agree; [done|]. apply agree_fragment, Hok.
  - unfold Pin in HP. pose proof (co_pinned st ({[cid]} ∪ pins (sv_store st)) o f Hok) as H.
    destruct (savePins _ _ _ _) as [r0 d0]. by injection HP as <- <- <-.
  - unfold Unpin in HP. pose proof (co_pinned st (pins (sv_store st) ∖ {[cid]}) o f Hok) as H.
    destruct (savePins _ _ _ _) as [r0 d0]. by injection HP as <- <- <-.
Qed.

Lemma atoms_ok st st' : rtc atom st st' → content_ok st → content_ok st'.
Proof. induction 1 as [|st st1 st2 Ha _ IH]; [done|]. intros Hok. by eapply IH, atom_ok. Qed.

(** ** What stays *)

(** The manifest of a root with its chunks, all in the store. *)
Definition holds_content (st : Serving) (root : string) (cids : list string) : Prop :=
  (∃ m, GetManifest None (sv_store st) (sv_disk st) root = Ok m ∧ ChunkCIDs m = cids) ∧
  Forall (stored (sv_store st) (sv_disk st)) cids.

Lemma published_binds m m' :
  published m → published m' → RootCID m = RootCID m' → ChunkCIDs m = ChunkCIDs m' ∨ sha256_collision.
Proof.
  intros [Hr Hc _ _ _] [Hr' Hc' _ _ _] Heq. rewrite Hr, Hr' in Heq.
  apply ComputeCID_binding in Heq as [Heq|?]; [left|by right].
  apply (inj (fmap to_bytes)), (concat_inj_fixed 64); [lia|..|done]; rewrite Forall_fmap;
    (eapply Forall_impl; [eassumption|]); intros c [data ->]; apply length_ComputeCID.
Qed.

Lemma stored_file s d cid : stored s d cid ↔ is_Some (files d !! blockPath s cid).
Proof.
  unfold stored. split.
  - intros H. destruct (Store.Get None s d cid) as [b|e|w] eqn:Eg; [|done..].
    apply Store.Get_Ok in Eg as (_ & _ & ->). by eexists.
  - intros [data Hd]. by rewrite (Store.Get_file _ _ _ _ Hd).
Qed.

Lemma holds_agree st s' d' root cids :
  dir s' = dir (sv_store st) → Forall no_slash (root :: cids) → agree (sv_store st) (sv_disk st) d' →
  holds_content st root cids → holds_content (set_pins st s' d') root cids.
Proof.
  intros Hs [Hr Hns]%Forall_cons Ha [(m & Hm & Hc) Hst].
  assert (∀ c, blockPath s' c = blockPath (sv_store st) c ∧ manifestPath s' c = manifestPath (sv_store st) c) as Hp
    by (intros c; unfold blockPath, manifestPath; by rewrite Hs).
  apply GetManifest_file in Hm as (data & Hf & Hu). split.
  - exists m. split; [|done]. apply GetManifest_file. exists data. cbn [sv_store sv_disk set_pins].
    by rewrite (proj2 (Hp root)), (proj2 (Ha root Hr)).
  - rewrite Forall_forall in Hns, Hst |- *. intros c Hin. apply stored_file. cbn [sv_store sv_disk set_pins].
    rewrite (proj1 (Hp c)), (proj1 (Ha c (Hns c Hin))). by apply stored_file, Hst.
Qed.

Lemma set_pins_same st d : set_pins st (sv_store st) d = set_disk st d.
Proof. done. Qed.

Lemma Put_holds f st b root cids :
  content_ok st → valid_block b → no_slash root → holds_content st root cids →
  holds_content (set_disk st (snd (Store.Put f (sv_store st) (sv_disk st) b))) root cids.
Proof.
  intros Hok Hb Hr [(m & Hm & Hc) Hst]. unfold holds_content. cbn [set_disk sv_store sv_disk].
  destruct (Store.Put f (sv_store st) (sv_disk st) b) as [r d'] eqn:EP. split.
  - exists m. split; [|done]. apply GetManifest_file in Hm as (data & Hd & Hu). apply GetManifest_file.
    exists data. split; [|done]. unfold Store.Put in EP. destruct (WriteFile _ _ _ _) as [r1 d1] eqn:EW.
    injection EP as _ <-. cbn [snd]. apply WriteFile_effect in EW as (_ & [->|(n & -> & _)] & _); [done|].
    rewrite lookup_insert_ne; [done|]. apply not_eq_sym, manifest_not_block; [apply Hok|done|].
    rewrite Hb. apply ComputeCID_no_slash.
  - eapply Forall_impl; [exact Hst|]. intros c Hs. by eapply Put_keeps.
Qed.

(** Writing a manifest of the same root changes it for one with the same
    chunks. *)
Lemma PutManifest_holds f st m root cids :
  content_ok st → published m → (whole (RootCID m) → untorn f) → whole root → no_slash root →
  holds_content st root cids →
  holds_content (set_disk st (snd (PutManifest f (sv_store st) (sv_disk st) m))) root cids ∨ sha256_collision.
Proof.
  intros Hok Hp Hf Hw Hr [(m0 & Hm0 & Hc0) Hst].
  assert (Forall (stored (sv_store st) (snd (PutManifest f (sv_store st) (sv_disk st) m))) cids) as Hst'.
  { eapply Forall_impl; [exact Hst|]. intros c Hs. unfold PutManifest.
    destruct (WriteFile _ _ _ _) as [r d'] eqn:EW. by eapply WriteFile_keeps. }
  destruct (PutManifest_read f (sv_store st) (sv_disk st) m root (co_dir st Hok) Hp Hf Hw Hr) as [Heq|[Heq Hm]].
  - left. split; [|done]. exists m0. split; [|done]. cbn [set_disk sv_store sv_disk]. by rewrite Heq.
  - destruct (co_manifests st Hok root m0 Hw Hr Hm0) as [Hr0 Hp0].
    destruct (published_binds m m0 Hp Hp0) as [Hc|?]; [congruence|left|by right].
    split; [|done]. exists m. split; [done|congruence].
Qed.

(** No operation takes published content away. *)
Lemma atom_holds st st' root cids :
  atom st st' → content_ok st → whole root → Forall no_slash (root :: cids) → holds_content st root cids →
  holds_content st' root cids ∨ sha256_collision.
Proof.
  intros Ha Hok Hw Hns Hh. destruct Ha as [st c k Hc|st c fuel b c' Hc Hb Hov HP|st f b Hb Hf|st f m Hm Hf
    |st fmk fwr p i data|st o f cid r s' d' HP|st o f cid r s' d' HP]; [by left|by left|left|..].
  - by apply Put_holds; [| |apply Forall_inv in Hns|].
  - apply PutManifest_holds; [done..|by apply Forall_inv in Hns|done].
  - left. rewrite <-set_pins_same. apply holds_agree; [done|done|apply agree_fragment, Hok|done].
  - left. unfold Pin in HP. pose proof (agree_pins st ({[cid]} ∪ pins (sv_store st)) o f Hok) as H.
    destruct (savePins _ _ _ _) as [r0 d0]. injection HP as _ <- <-. by apply holds_agree.
  - left. unfold Unpin in HP. pose proof (agree_pins st (pins (sv_store st) ∖ {[cid]}) o f Hok) as H.
    destruct (savePins _ _ _ _) as [r0 d0]. injection HP as _ <- <-. by apply holds_agree.
Qed.

(** ** Handlers are sequences of atomic operations *)

Lemma set_disk_same st : set_disk st (sv_disk st) = st.
Proof. by destruct st. Qed.

Lemma store_blocks_atoms fb st i blocks r d' :
  clean_writes fb whole → Forall valid_block blocks →
  store_blocks fb (sv_store st) (sv_disk st) i blocks = (r, d') → rtc atom st (set_disk st d').
Proof.
  intros Hf. revert st i. induction blocks as [|b blocks IH]; intros st i Hv; simpl.
  { intros [= _ <-]. by rewrite set_disk_same. }
  apply Forall_cons in Hv as [Hb Hv]. pose proof (StorePut st (fb i (CID b)) b Hb (Hf i (CID b))) as Ha.
  destruct (Store.Put (fb i (CID b)) (sv_store st) (sv_disk st) b) as [[u|e|w] d1] eqn:EP;
    [|intros [= _ <-]; by apply rtc_once..].
  intros H. eapply rtc_l; [exact Ha|]. by eapply (IH (set_disk st d1)).
Qed.

Lemma BuildManifest_published name size blocks privKey m {ELaws : Ed25519Laws E} NewKey :
  valid_string name = true → int64_ok size → Forall valid_block blocks →
  sign_if_keyed NewKey privKey (BuildManifest name size blocks) = Ok m → published m.
Proof.
  intros Hn Hs Hv Hk.
  destruct (sign_if_keyed_Ok NewKey privKey (BuildManifest name size blocks) m eq_refl Hk) as (Hr & Hn' & Ht & Hc & Hh & Hsig).
  split; [by rewrite Hr, Hc| |done| |by rewrite Ht].
  - rewrite Hc. apply Forall_fmap. eapply Forall_impl; [exact Hv|]. intros b Hb. by exists (Data b).
  - eapply (manifest_valid_signed (BuildManifest name size blocks)); [done..|]. by apply BuildManifest_valid.
Qed.

Lemma publish_data_atoms {ELaws : Ed25519Laws E} NewKey fb fm st privKey name data chunkSize r d' :
  clean_writes fb whole → (∀ root, whole root → untorn (fm root)) → valid_string name = true → int64_ok (zlen data) →
  publish_data NewKey fb fm (sv_store st) (sv_disk st) privKey name data chunkSize = (r, d') →
  rtc atom st (set_disk st d').
Proof.
  intros Hfb Hfm Hn Hs. unfold publish_data.
  destruct (Chunk (NewReader data) chunkSize) as [blocks|e|w] eqn:EC;
    [|intros [= _ <-]; by rewrite set_disk_same..].
  apply Chunk_complete in EC as [_ Hv].
  destruct (store_blocks fb (sv_store st) (sv_disk st) 0 blocks) as [r1 d1] eqn:ES.
  pose proof (store_blocks_atoms fb st 0 blocks r1 d1 Hfb Hv ES) as H1.
  destruct r1 as [u|e|w]; [|by intros [= _ <-]..].
  destruct (sign_if_keyed NewKey privKey _) as [m|e|w] eqn:EK; [|by intros [= _ <-]..].
  pose proof (BuildManifest_published _ _ _ _ _ NewKey Hn Hs Hv EK) as Hp.
  pose proof (StoreManifest (set_disk st d1) (fm (RootCID m)) m Hp (Hfm (RootCID m))) as Ha. cbn [set_disk sv_store sv_disk] in Ha.
  destruct (PutManifest (fm (RootCID m)) (sv_store st) d1 m) as [r2 d2]. intros H.
  assert (d' = d2) as -> by (destruct r2; by injection H as _ <-).
  eapply rtc_r; [exact H1|exact Ha].
Qed.

(** *** Fetching *)

Definition serving_of (s : Store) (fs : FetchState) : Serving :=
  {| sv_store := s; sv_disk := fs_disk fs; sv_cache := fs_cache fs |}.

(** A goroutine about to write holds a valid block. *)
Definition put_ok (w : worker) : Prop := match w with AtPut b => valid_block b | _ => True end.

Section fetching.
Context (s : Store) (fr : nat → fault) (fw : nat → string → fault) (lock : nat → bool)
  (net : nat → string → blocking Block).
Context (Hnet : net_valid net) (Hfw : clean_writes fw whole).

Lemma worker_step_atoms n cids i fs :
  Forall put_ok (fs_workers fs) →
  rtc atom (serving_of s fs) (serving_of s (worker_step s fr fw lock net n cids i fs)) ∧
  Forall put_ok (fs_workers (worker_step s fr fw lock net n cids i fs)).
Proof.
  intros Hw. unfold worker_step. destruct (fs_panic fs); [done|].
  destruct (fs_workers fs !! i) as [w|] eqn:Ew; [|done].
  destruct (cids !! i) as [c|] eqn:Ec; [|done].
  destruct w as [| | |b|r].
  - destruct (fs_cache fs) as [ch|] eqn:Ech.
    + destruct (lock (n + i)); [|done]. pose proof (CacheGet (serving_of s fs) ch c Ech) as Ha.
      destruct (Lru.Get ch c) as [[b|] c'];
        (split; [by apply rtc_once|by apply Forall_insert]).
    + split; [|by apply Forall_insert]. unfold serving_of. simpl. by rewrite Ech.
  - destruct (Store.Get _ s (fs_disk fs) c) as [b|e|v]; (split; [done|]); [by apply Forall_insert..|done].
  - destruct (net (n + i) c) as [[b|e|v]|] eqn:En; [| |done|done]; (split; [done|apply Forall_insert; [done|]]); [|done].
    by apply (Hnet (n + i)%nat c b).
  - pose proof (Forall_lookup_1 _ _ _ _ Hw Ew : valid_block b) as Hb.
    pose proof (StorePut (serving_of s fs) (fw (n + i)%nat (CID b)) b Hb (Hfw (n + i)%nat (CID b))) as Ha.
    cbn [serving_of sv_store sv_disk] in Ha. destruct (Store.Put _ s (fs_disk fs) b) as [r d'].
    split; [by apply rtc_once|by apply Forall_insert].
  - done.
Qed.

Lemma run_workers_atoms n cids sched fs :
  Forall put_ok (fs_workers fs) →
  rtc atom (serving_of s fs) (serving_of s (run_workers s fr fw lock net n cids sched fs)).
Proof.
  revert fs. induction sched as [|i sched IH]; intros fs Hw; [done|].
  destruct (worker_step_atoms n cids i fs Hw) as [Ha Hw1]. etrans; [exact Ha|]. by apply IH.
Qed.

Lemma fetch_batches_atoms fuel n cids sched fs acc :
  rtc atom (serving_of s fs) (serving_of s (snd (fetch_batches s fr fw lock net fuel n cids sched fs acc))).
Proof.
  revert n cids fs acc. induction fuel as [|fuel IH]; intros n cids fs acc; [done|].
  cbn [fetch_batches]. case_decide as Hnil; [done|]. set (batch := take fetchConcurrency cids).
  pose proof (run_workers_atoms n batch (sched n) (start_batch fs batch)) as Hrun.
  set (fs1 := run_workers _ _ _ _ _ _ _ _ _) in *.
  assert (rtc atom (serving_of s fs) (serving_of s fs1)) as Ha by (apply Hrun; by apply Forall_replicate).
  destruct (fs_panic fs1); [done|]. destruct (mapM result_of (fs_workers fs1)) as [bs1|]; [|done].
  destruct (fs_err fs1); [done|]. etrans; [exact Ha|apply IH].
Qed.

Lemma handleFetch_atoms frm d cache sched get root :
  rtc atom {| sv_store := s; sv_disk := d; sv_cache := cache |}
    (serving_of s (snd (handleFetch s fr fw lock net frm d cache sched get root))).
Proof.
  unfold handleFetch. destruct get; cbn [negb]; [|done].
  case_decide as Hroot; [done|]. destruct (GetManifest _ _ _ _) as [m|e|w]; [|done..].
  destruct (if decide (Signature m = "") then Ok () else VerifyManifest m) as [u|e|w]; [|done..].
  pose proof (fetch_batches_atoms (S (length (ChunkCIDs m))) 0 (ChunkCIDs m) sched
    {| fs_disk := d; fs_cache := cache; fs_err := None; fs_panic := None; fs_workers := [] |} []) as Hb.
  destruct (fetch_batches _ _ _ _ _ _ _ _ _ _ _) as [[bs|] fs1]; [|exact Hb]. by destruct (fs_err fs1).
Qed.

End fetching.

(** *** Serving and receiving blocks *)

(** What is in memory together: the cache, a file, a message. *)
Definition small (st : Serving) : Prop :=
  (∀ c, sv_cache st = Some c → total c < 2 ^ 62) ∧
  (∀ p data, files (sv_disk st) !! p = Some data → zlen data < 2 ^ 62).

Lemma Get_total c k : wf c → total (snd (Lru.Get c k)) = total c.
Proof.
  intros Hwf. pose proof (Lru.Get_spec c k Hwf) as H. destruct (Lru.Get c k) as [r c'].
  destruct H as (_ & _ & _ & Hp & _). unfold total. simpl. by rewrite Hp.
Qed.

Lemma block_size_total c b : b ∈ blocks c → block_size b ≤ total c.
Proof.
  intros (l1 & l2 & Hb)%list_elem_of_split. unfold total. rewrite Hb, zsum_app, zsum_cons.
  pose proof (zsum_block_nonneg l1). pose proof (zsum_block_nonneg l2). lia.
Qed.

Lemma cache_put_atoms fuel st b st' :
  (whole (CID b) → no_slash (CID b) → valid_block b) → (∀ c, sv_cache st = Some c → total c + block_size b < 2 ^ 63) →
  cache_put fuel st b = Some st' → rtc atom st st'.
Proof.
  intros Hb Hs. unfold cache_put. destruct (sv_cache st) as [c|] eqn:Ec; [|by intros [= <-]].
  intros (c' & HP & ->)%fmap_Some. apply rtc_once. apply (CachePut st c fuel b c'); [done..|by apply Hs|done].
Qed.

Lemma lookupBlock_atoms f st cid r st' :
  content_ok st → small st → lookupBlock f st cid = (r, st') →
  rtc atom st st' ∧ ∀ b, r = Some b →
    CID b = cid ∧ (whole cid → no_slash cid → valid_block b) ∧ ∀ c, sv_cache st' = Some c → total c + block_size b < 2 ^ 63.
Proof.
  intros Hok [Hsc Hsd]. unfold lookupBlock.
  assert (∀ st1, sv_store st1 = sv_store st → sv_disk st1 = sv_disk st →
    (∀ c, sv_cache st1 = Some c → total c < 2 ^ 62) → rtc atom st st1 →
    (match Store.Get f (sv_store st1) (sv_disk st1) cid with Ok b => (Some b, st1) | _ => (None, st1) end) = (r, st') →
    rtc atom st st' ∧ ∀ b, r = Some b → CID b = cid ∧ (whole cid → no_slash cid → valid_block b) ∧
      ∀ c, sv_cache st' = Some c → total c + block_size b < 2 ^ 63) as Hdisk.
  { intros st1 Hst Hd1 Hc1 Ha. rewrite Hst, Hd1. destruct (Store.Get f _ _ cid) as [b|e|w] eqn:Eg;
      intros [= <- <-]; (split; [done|]); intros b' [= <-].
    pose proof Eg as (-> & Hcid & Hf)%Store.Get_Ok. apply Hsd in Hf. split_and!; [done| |].
    - intros Hw Hns. by apply (co_disk st Hok cid b Hw Hns).
    - intros c Hc. specialize (Hc1 c Hc). unfold block_size. lia. }
  destruct (sv_cache st) as [c|] eqn:Ec; [|by apply Hdisk; [..|rewrite Ec|]].
  destruct (cache_Get_valid whole c cid) as [_ Hb]; [rewrite <-Ec; apply Hok|].
  destruct (co_cache st Hok c Ec) as [Hwf _]. pose proof (Get_total c cid Hwf) as Ht. specialize (Hsc c eq_refl).
  pose proof (CacheGet st c cid Ec) as Ha. pose proof (Get_cached c cid) as Hg.
  destruct (Lru.Get c cid) as [[b|] c']; cbn [snd fst] in *.
  - intros [= <- <-]. split; [by apply rtc_once|]. intros b' [= <-]. destruct (Hb b eq_refl) as [Hc Hv].
    split_and!; [done|done|]. intros c0 [= <-]. symmetry in Hg. apply cached_Some in Hg as [Hin _]; [|done].
    apply block_size_total in Hin. lia.
  - apply Hdisk; [done|done| |by apply rtc_once]. intros c0 [= <-]. lia.
Qed.

Lemma serve_atoms fuel f st sm st' sm' :
  content_ok st → small st → BlockTransferHandler_handleStream fuel f st sm = Some (st', sm') → rtc atom st st'.
Proof.
  intros Hok Hs. unfold BlockTransferHandler_handleStream.
  destruct (read_cid sm) as [[cid|e|w] s1]; [|by intros [= <- _]..].
  destruct (lookupBlock f st cid) as [r st1] eqn:El.
  destruct (lookupBlock_atoms _ _ _ _ _ Hok Hs El) as [Ha Hb].
  destruct r as [b|]; [|by intros [= <- _]].
  intros (st2 & HP & [= <- _])%bind_Some. destruct (Hb b eq_refl) as (<- & Hv & Hov).
  eapply rtc_trans; [exact Ha|]. by eapply cache_put_atoms.
Qed.

Lemma read_push_size sm cid data s1 : read_push sm = (Ok (cid, data), s1) → zlen data < 2 ^ 62.
Proof.
  unfold read_push. intros (c & s2 & _ & H)%Stream_bind_Ok. apply Stream_bind_Ok in H as (n & s3 & _ & H).
  destruct (Z.ltb_spec maxPushSize n) as [_|Hn]; [done|].
  apply Stream_bind_Ok in H as (b & s4 & Hb%Read_Ok & [= _ <- _]).
  unfold maxPushSize in Hn. destruct Hb as [Hl _]. lia.
Qed.

Lemma receive_atoms fuel fw st sm st' sm' :
  content_ok st → small st → (∀ cid, whole cid → untorn (fw cid)) →
  BlockPushHandler_handleStream fuel fw st sm = Some (st', sm') → rtc atom st st'.
Proof.
  intros Hok Hs Hf. unfold BlockPushHandler_handleStream.
  destruct (read_push sm) as [[[cid data]|e|w] s1] eqn:Er; [|by intros [= <- _]..].
  case_decide as Hc; [|by intros [= <- _]].
  set (b := {| CID := cid; Data := data |}). assert (valid_block b) as Hb by done.
  pose proof (StorePut st (fw cid) b Hb (Hf cid)) as Ha.
  destruct (Store.Put (fw cid) (sv_store st) (sv_disk st) b) as [r d'] eqn:EP.
  intros (st2 & HP & [= <- _])%bind_Some. eapply rtc_l; [exact Ha|].
  eapply (cache_put_atoms fuel (set_disk st d') b); [done| |exact HP].
  intros c Hc'. apply read_push_size in Er. destruct Hs as [Hsc _]. specialize (Hsc c Hc').
  unfold block_size. simpl. lia.
Qed.

(** *** Pinning *)

Lemma handlePin_atoms o f st method body rep s' d' :
  handlePin o f (Some (sv_store st)) (sv_disk st) method body = (rep, Some s', d') →
  rtc atom st (set_pins st s' d').
Proof.
  assert (∀ r, (r, Some (sv_store st), sv_disk st) = (rep, Some s', d') → rtc atom st (set_pins st s' d')) as Hstay.
  { intros r [= _ <- <-]. by destruct st. }
  unfold handlePin. destruct (Decode_PinRequest body) as [cid|e|w], method; try apply Hstay;
    case_decide; try apply Hstay.
  - destruct (Pin o f (sv_store st) (sv_disk st) cid) as [[r s1] d1] eqn:HP.
    destruct r; intros [= _ <- <-]; by apply rtc_once, (StorePin st o f cid _ _ _ HP).
  - destruct (Unpin o f (sv_store st) (sv_disk st) cid) as [[r s1] d1] eqn:HP.
    destruct r; intros [= _ <- <-]; by apply rtc_once, (StoreUnpin st o f cid _ _ _ HP).
Qed.

(** *** Replicating *)

Section replicating.
Context `{PID : PeerID, RS : ReedSolomon}.
Context (self : peer_ID) (env : peer_ID → Block → stream_env).

Lemma store_fragments_atoms fmk fwr st cid i fs :
  rtc atom st (set_disk st (snd (store_fragments fmk fwr (sv_store st) (sv_disk st) cid i fs))).
Proof.
  revert st i. induction fs as [|f fs IH]; intros st i; cbn [store_fragments]; [by rewrite set_disk_same|].
  pose proof (StoreFragment st (fmk i) (fwr i) cid (Index f) (frag_Data f)) as Ha.
  destruct (PutFragment _ _ _ _ _ _ _) as [[u|e|w] d1].
  - eapply rtc_l; [exact Ha|]. apply (IH (set_disk st d1)).
  - destruct (log_cid cid); [eapply rtc_l; [exact Ha|]; apply (IH (set_disk st d1))|by apply rtc_once..].
  - by apply rtc_once.
Qed.

Lemma replicate_block_atoms cfg fmk fwr st peers cid block :
  rtc atom st (set_disk st (snd
    (replicate_block_erasure self env cfg fmk fwr (sv_store st) (sv_disk st) peers cid block))).
Proof.
  unfold replicate_block_erasure. destruct (Encode _ _ _ _) as [fs|e|w]; [|by rewrite set_disk_same..].
  pose proof (store_fragments_atoms fmk fwr st cid 0 fs) as H.
  by destruct (store_fragments _ _ _ _ _ _ _) as [[u|e|w] d1].
Qed.

Lemma replicateWithErasure_atoms cfg fr fmk fwr st peers i popular :
  rtc atom st (set_disk st (snd
    (replicateWithErasure self env cfg fr fmk fwr (sv_store st) (sv_disk st) peers i popular))).
Proof.
  revert st i. induction popular as [|cid popular IH]; intros st i; cbn [replicateWithErasure].
  { by rewrite set_disk_same. }
  match goal with |- context [let '(r, d') := ?body in _] => set (first := body) end.
  assert (rtc atom st (set_disk st (snd first))) as Ha.
  { unfold first. destruct (Store.Get _ _ _ _) as [block|e|w]; [apply replicate_block_atoms|by rewrite set_disk_same..]. }
  destruct first as [[[pushes|e|w]|] d1]; try exact Ha. etrans; [exact Ha|].
  pose proof (IH (set_disk st d1) (S i)) as H. cbn [set_disk sv_store sv_disk] in H.
  by destruct (replicateWithErasure _ _ _ _ _ _ _ _ _ _ _) as [rest d2].
Qed.

Lemma replicatePopularBlocks_atoms o cfg rt fr fmk fwr st peers :
  rtc atom st (set_disk st (snd
    (replicatePopularBlocks self env o cfg rt fr fmk fwr (sv_store st) (sv_disk st) peers))).
Proof.
  unfold replicatePopularBlocks. repeat case_decide; [by rewrite set_disk_same..|].
  destruct (EnableErasure cfg); [apply replicateWithErasure_atoms|by rewrite set_disk_same].
Qed.

End replicating.
End content.

(** ** Starting and restarting *)

Section start.
Context (whole : string → Prop).
Context `{ML : MathLib, LA : LinAlg, PID : PeerID, MA : Multiaddrs, MF : Multiformats, JE : JSONErrors, E : Ed25519, CR : Crypto}.

(** What the handlers of a started node share. *)
Definition serving (w : world) : option Serving :=
  s ← n_ContentStore (w_node w);
  Some {| sv_store := s; sv_disk := w_disk w; sv_cache := n_BlockCache (w_node w) |}.

(** The store of a data directory, before its pins are read. *)
Definition store_of (cfg : Config) : Store :=
  {| dir := Join (DataDir cfg) ["blocks"]; pins := ∅; pinFile := Join (DataDir cfg) ["pins.json"] |}.

Lemma key_agree fmk frd fwr gen cfg d r d' :
  loadOrGenerateKey fmk frd fwr gen d (DataDir cfg) = (r, d') → agree (store_of cfg) d d'.
Proof.
  assert (elsewhere (store_of cfg) (keyPath (DataDir cfg))) as Hk
    by (apply other_name_elsewhere; [apply Clean_seg_ok|apply key_name]).
  assert (∀ d0 r d', generate_key fwr gen d0 (DataDir cfg) = (r, d') → agree (store_of cfg) d0 d') as Hg.
  { intros d0 r0 d0'. unfold generate_key. destruct (wrap_err _ gen) as [k|e|w]; [|by intros [= _ <-]..].
    destruct (wrap_err _ (MarshalPrivateKey k)) as [raw|e|w]; [|by intros [= _ <-]..].
    pose proof (agree_write fwr (store_of cfg) d0 _ raw Hk) as Ha.
    destruct (WriteFile fwr d0 _ raw) as [r1 d1]. by intros [= _ <-]. }
  unfold loadOrGenerateKey, MkdirAll. destruct fmk as [e|]; [by intros [= _ <-]|].
  set (d1 := {| files := files d; dirs := _ |}). intros H.
  assert (agree (store_of cfg) d1 d') as Ha; [|exact Ha].
  destruct (ReadFile frd d1 _) as [data|e|w]; [|by eapply Hg|by injection H as _ <-].
  destruct (UnmarshalPrivateKey data) as [priv|e|w]; [by injection H as _ <-|by eapply Hg|by injection H as _ <-].
Qed.

(** A start leaves blocks and manifests as they are; its store is that of the
    data directory, its cache is empty. *)
Lemma Start_serving se cfg d w :
  Start se (fresh cfg d) = (Ok (), w) →
  ∃ p, serving w = Some {| sv_store := with_pins (store_of cfg) p; sv_disk := w_disk w; sv_cache := Some (new_cache cfg) |} ∧
    agree (store_of cfg) d (w_disk w).
Proof.
  intros (h & d1 & s & d2 & peers & dht & m & Hh & Hs & _ & _ & _ & ->)%Start_Ok.
  pose proof (NewStore_paths _ _ _ _ _ _ Hs) as [Hs1 Hs2]. exists (pins s). unfold ok_node. split.
  - unfold serving. destruct s as [sd sp sf]. simpl in Hs1, Hs2. subst sd sf. by destruct (mdns_on se cfg).
  - cbn [w_disk]. apply NewHost_disk in Hh as (k & Hk & _). apply key_agree in Hk.
    intros cid Hc. rewrite (NewStore_files _ _ _ _ _ _ Hs). by apply Hk.
Qed.

(** A node that stops, however it does, and starts again over its data
    directory. *)
Definition restart (st st' : Serving) : Prop :=
  ∃ se cfg w, dir (sv_store st) = dir (store_of cfg) ∧
    Start se (fresh cfg (sv_disk st)) = (Ok (), w) ∧ serving w = Some st'.

Definition disk_valid (cfg : Config) (d : Disk) : Prop :=
  valid_disk (store_of cfg) whole d ∧ valid_manifests whole (store_of cfg) d.

Lemma Start_content_ok se cfg d w st :
  Start se (fresh cfg d) = (Ok (), w) → serving w = Some st → disk_valid cfg d → content_ok whole st.
Proof.
  intros (p & -> & Ha)%Start_serving [= <-] Hd. destruct (agree_valid _ _ _ _ Ha Hd) as [Hd1 Hd2]. split; [..|done|done|].
  - apply Clean_seg_ok.
  - apply other_name_elsewhere; [apply Clean_seg_ok|apply pins_name].
  - intros c [= <-]. split; [apply new_cache_wf|done].
Qed.

Lemma restart_ok st st' : restart st st' → content_ok whole st → content_ok whole st'.
Proof.
  intros (se & cfg & w & Hdir & Hs & Hw) Hok. eapply Start_content_ok; [exact Hs|exact Hw|].
  unfold disk_valid. destruct (co_agree whole st (sv_disk st) Hok) as [_ _ Hd Hm _]; [done|].
  unfold valid_disk, valid_manifests, Store.Get, GetManifest, blockPath, manifestPath in *. rewrite <-Hdir. by split.
Qed.

Lemma restart_holds st st' root cids :
  restart st st' → Forall no_slash (root :: cids) → holds_content st root cids → holds_content st' root cids.
Proof.
  intros (se & cfg & w & Hdir & (p & Hw' & Ha)%Start_serving & Hw) Hns Hh. rewrite Hw' in Hw. injection Hw as <-.
  apply (holds_agree st (with_pins (store_of cfg) p) (w_disk w)) in Hh; [exact Hh|by rewrite Hdir|done|].
  intros cid Hc. unfold blockPath, manifestPath. rewrite Hdir. by apply Ha.
Qed.

(** The life of a data directory: operations and restarts. *)
Definition step (st st' : Serving) : Prop := atom whole st st' ∨ restart st st'.

Lemma steps_ok st st' : rtc step st st' → content_ok whole st → content_ok whole st'.
Proof.
  induction 1 as [|st st1 st2 [Ha|Hr] _ IH]; [done|..]; intros Hok; apply IH;
    [by eapply atom_ok|by eapply restart_ok].
Qed.

Lemma steps_hold st st' root cids :
  rtc step st st' → content_ok whole st → whole root → Forall no_slash (root :: cids) → holds_content st root cids →
  holds_content st' root cids ∨ sha256_collision.
Proof.
  induction 1 as [st|st st1 st2 [Ha|Hr] _ IH]; intros Hok Hw Hns Hh; [by left|..].
  - destruct (atom_holds whole st st1 root cids Ha Hok Hw Hns Hh) as [Hh1|?]; [|by right].
    apply IH; [by eapply atom_ok|done..].
  - apply IH; [by eapply restart_ok|done|done|by eapply restart_holds].
Qed.

End start.

(** ** Requests *)

Section system.
Context (whole : string → Prop).
Context `{ML : MathLib, LA : LinAlg, PID : PeerID, MA : Multiaddrs, MF : Multiformats, JE : JSONErrors, E : Ed25519, CR : Crypto, RS : ReedSolomon}.
Context {ELaws : Ed25519Laws E}.
Context (NewKeyFromSeed : bytes → PrivateKey).

(** What the node does for its clients, its peers and itself, each with
    whatever it sees of the rest of the node and of the network, and however
    far it gets: a fetch or a replication cycle that waits for a silent peer,
    or that a panic ends, counts with what it has done. *)
Inductive request (st : Serving) : Serving → Prop :=
  | Publish cfg pm peers privKey os hour readFile fb fm method body g rep d' pm' g' :
      clean_writes fb whole → (∀ root, whole root → untorn (fm root)) →
      (∀ p data, readFile p = Ok data → int64_ok (zlen data)) →
      handlePublish NewKeyFromSeed cfg (Some (sv_store st)) (sv_disk st) pm peers privKey os hour readFile fb fm
        method body g = ((rep, d', pm'), g') → request st (set_disk st d')
  | FetchContent self view fr fw lock frm sched get root :
      clean_writes fw whole →
      request st (serving_of (sv_store st) (snd (handleFetch (sv_store st) fr fw lock (network self view) frm
                                                   (sv_disk st) (sv_cache st) sched get root)))
  | PinContent o f method body rep s' d' :
      handlePin o f (Some (sv_store st)) (sv_disk st) method body = (rep, Some s', d') →
      request st (set_pins st s' d')
  | ServeBlock fuel f sm st' sm' :
      small st → BlockTransferHandler_handleStream fuel f st sm = Some (st', sm') → request st st'
  | ReceiveBlock fuel fw sm st' sm' :
      small st → (∀ cid, whole cid → untorn (fw cid)) →
      BlockPushHandler_handleStream fuel fw st sm = Some (st', sm') → request st st'
  | ReplicationCycle self env o cfg rt fr fmk fwr peers :
      request st (set_disk st (snd (replicatePopularBlocks self env o cfg rt fr fmk fwr (sv_store st) (sv_disk st) peers))).

Lemma request_atoms (st st' : Serving) :
  content_ok whole st → request st st' → rtc (atom whole) st st'.
Proof.
  intros Hok [cfg pm peers privKey os hour readFile fb fm method body g rep d' pm' g' Hfb Hfm Hrd HP
    |self view fr fw lock frm sched get root Hfw|o f method body rep s' d' HP|fuel f sm st2 sm' Hs HB
    |fuel fw sm st2 sm' Hs Hf HB|self env o cfg rt fr fmk fwr peers].
  - assert (∀ r, (r, sv_disk st, pm, g) = (rep, d', pm', g') → rtc (atom whole) st (set_disk st d')) as Hstay.
    { intros r [= _ <- _ _]. by rewrite set_disk_same. }
    unfold handlePublish in HP. case_decide; [|by eapply Hstay].
    destruct (Decode_PublishRequest body) as [req|e|w] eqn:Hq; [|by eapply Hstay..].
    destruct (readFile (req_FilePath req)) as [data|e|w] eqn:Hr; [|by eapply Hstay..].
    unfold mbind, Rand_bind in HP. destruct (choose_chunk_size _ _ _ _ _ _ g) as [[cs pm1] g1].
    destruct (publish_data _ _ _ _ _ _ _ _) as [rep1 d1] eqn:ED. injection HP as <- <- <- <-.
    eapply (publish_data_atoms whole); [exact Hfb|exact Hfm|by eapply Decode_PublishRequest_valid|by eapply Hrd|exact ED].
  - pose proof (handleFetch_atoms whole (sv_store st) fr fw lock (network self view) (network_valid self view) Hfw
      frm (sv_disk st) (sv_cache st) sched get root) as H. by destruct st.
  - by eapply handlePin_atoms.
  - by eapply serve_atoms.
  - by eapply receive_atoms.
  - apply replicatePopularBlocks_atoms.
Qed.

(** C5: every handler of the HTTP API and of the block protocols, and the
    replication cycle, changes disk, pins and cache only by a sequence of
    atomic operations that keep the content valid: publishing, fetching over
    the real network client under any interleaving of its goroutines and
    however it ends, pinning, serving, receiving and replicating refine the
    transition system of these operations.  Writes may fail, and tear the
    files of any identifier outside of the set [whole], which may be empty;
    the content is valid, to begin with and afterwards, for the identifiers of
    this set.  A published file fits an [int64], and the cache, a file and a
    message are below 2^62 bytes; a handler that hangs in the cache's eviction
    loop does not get that far. *)
Theorem requests_refine_atoms (st st' : Serving) :
  content_ok whole st → request st st' → rtc (atom whole) st st'.
Proof. apply request_atoms. Qed.

(** ** What a node keeps *)

(** A root that was read from valid content, and its chunks, hold no
    separators. *)
Lemma published_no_slash m : published m → Forall no_slash (RootCID m :: ChunkCIDs m).
Proof.
  intros Hp. constructor; [by apply published_root_no_slash|].
  eapply Forall_impl; [apply (pb_chunks m Hp)|]. intros c [data ->]. apply ComputeCID_no_slash.
Qed.

(** A publication that succeeds has had no fault. *)
Lemma store_blocks_calm fb s d i blocks u d' :
  store_blocks fb s d i blocks = (Ok u, d') → store_blocks (λ _ _, None) s d i blocks = (Ok u, d').
Proof.
  revert d i. induction blocks as [|b blocks IH]; intros d i; simpl; [done|].
  destruct (fb i (CID b)) as [e|] eqn:Ef.
  - destruct (Store.Put (Some e) s d b) as [[v|e'|w] d1] eqn:EP; [|done..]. unfold Store.Put in EP. by simpl in EP.
  - destruct (Store.Put None s d b) as [[v|e|w] d1]; [apply IH|done..].
Qed.

Lemma publish_data_calm fb fm s d privKey name data chunkSize resp d' :
  publish_data NewKeyFromSeed fb fm s d privKey name data chunkSize = (Ok (Reply resp), d') →
  publish_data NewKeyFromSeed (λ _ _, None) (λ _, None) s d privKey name data chunkSize = (Ok (Reply resp), d').
Proof.
  unfold publish_data. destruct (Chunk _ _) as [blocks|e|w]; [|done..].
  destruct (store_blocks fb s d 0 blocks) as [[u|e|w] d1] eqn:ES; [|done..].
  rewrite (store_blocks_calm _ _ _ _ _ _ _ ES). destruct (sign_if_keyed _ _ _) as [m|e|w]; [|done..].
  destruct (fm (RootCID m)) as [e|] eqn:Ef; [|done]. by unfold PutManifest.
Qed.

Lemma publish_holds cfg st pm pm' peers privKey os hour readFile fb fm body req data resp d' g g' :
  content_ok whole st → int64_ok (zlen data) →
  Decode_PublishRequest body = Ok req → readFile (req_FilePath req) = Ok data →
  handlePublish NewKeyFromSeed cfg (Some (sv_store st)) (sv_disk st) pm peers privKey os hour readFile fb fm
    POST body g = ((Ok (Reply resp), d', pm'), g') →
  rtc (atom whole) st (set_disk st d') ∧ ∃ blocks, concat (Data <$> blocks) = data ∧ Forall valid_block blocks ∧
    Forall no_slash (pr_RootCID resp :: (CID <$> blocks)) ∧
    (∃ m, GetManifest None (sv_store st) d' (pr_RootCID resp) = Ok m ∧ ChunkCIDs m = CID <$> blocks) ∧
    holds_content (set_disk st d') (pr_RootCID resp) (CID <$> blocks).
Proof.
  intros Hok Hs Hq Hr. unfold handlePublish. rewrite decide_True, Hq, Hr by done.
  unfold mbind, Rand_bind. destruct (choose_chunk_size _ _ _ _ _ _ g) as [[cs pm1] g1].
  destruct (publish_data _ _ _ _ _ _ _ _) as [rep1 d1] eqn:ED. intros [= -> <- <- <-].
  pose proof (Decode_PublishRequest_valid body req Hq) as Hn. apply publish_data_calm in ED.
  split; [by eapply (publish_data_atoms whole); [| | | |exact ED]|].
  apply (publish_data_Ok NewKeyFromSeed whole) in ED
    as (m & blocks & -> & [_ Hns] & _ & Hget & _ & Hc & Hcat & Hv & _ & Hst); [|apply Hok|apply Hok|done|done].
  exists blocks. split_and!; [done|done| |by exists m|].
  - constructor; [done|]. apply Forall_fmap. eapply Forall_impl; [exact Hv|]. intros b Hb. simpl. rewrite Hb.
    apply ComputeCID_no_slash.
  - split; [by exists m|]. by apply Forall_fmap.
Qed.

(** The identifiers of a publication, as its manifest on the disk lists them. *)
Definition all_of (s : Store) (d : Disk) (root : string) : Prop :=
  whole root ∧ ∀ m, GetManifest None s d root = Ok m → Forall whole (ChunkCIDs m).

Lemma published_fetchable (cfg : Config) (st st' : Serving) (d' : Disk) (pm pm' : option Manager)
    (peers : list peer_ID) (privKey : bytes) (os : nat → order) (hour : Z) (readFile : string → outcome bytes)
    (fb fw : nat → string → fault) (fm : string → fault) (body : bytes) (req : PublishRequest) (data : bytes)
    (resp : PublishResponse) (lock : nat → bool) (net : nat → string → blocking Block)
    (sched : nat → list nat) (g g' : rng) :
  content_ok whole st → int64_ok (zlen data) →
  Decode_PublishRequest body = Ok req → readFile (req_FilePath req) = Ok data →
  handlePublish NewKeyFromSeed cfg (Some (sv_store st)) (sv_disk st) pm peers privKey os hour readFile fb fm
    POST body g = ((Ok (Reply resp), d', pm'), g') →
  all_of (sv_store st) d' (pr_RootCID resp) →
  rtc (step whole) (set_disk st d') st' → (∀ n, fair (sched n)) → (∀ n, lock n = true) →
  sha256_collision ∨
  fst (handleFetch (sv_store st') (λ _, None) fw lock net None (sv_disk st') (sv_cache st') sched true
         (pr_RootCID resp)) = Ok (Replied (Reply data)).
Proof.
  intros Hok Hs Hq Hr HP [Hwr Hwc] Hsteps Hfair Hlock.
  destruct (publish_holds _ _ _ _ _ _ _ _ _ _ _ _ _ _ _ _ _ _ Hok Hs Hq Hr HP)
    as (Ha & blocks & <- & Hv & Hns & (m1 & Hm1 & Hc1) & Hh).
  specialize (Hwc m1 Hm1). rewrite Hc1, Forall_fmap in Hwc.
  pose proof (atoms_ok whole _ _ Ha Hok) as Hok1. pose proof (steps_ok whole _ _ Hsteps Hok1) as Hok2.
  destruct (steps_hold whole _ _ _ _ Hsteps Hok1 Hwr Hns Hh) as [[(m & Hm & Hc) Hst]|?]; [|by left].
  apply Forall_cons in Hns as [Hroot _].
  destruct (co_manifests whole st' Hok2 _ _ Hwr Hroot Hm) as [Hr0 Hp]. rewrite <-Hr0 in *.
  destruct (handleFetch_local whole (sv_store st') fw lock net (sv_disk st') (sv_cache st') sched m blocks)
    as (bs & fs' & EF & Hcid & Hvb); [apply Hok2|done| |apply Hp|done|by rewrite Forall_fmap in Hst|done|done
      |apply Hok2|apply Hok2|done|done|].
  { rewrite (pb_root m Hp). apply hex_nonempty. intros H0. apply (f_equal length) in H0. by rewrite length_Sum256 in H0. }
  destruct (fmap_binding bs blocks Hvb Hv Hcid) as [->|?]; [right|by left]. by rewrite EF.
Qed.


(** A node over a data directory of valid content, in any state of its life. *)
Definition node_of (cfg : Config) (d : Disk) (st : Serving) : Prop :=
  disk_valid whole cfg d ∧ ∃ se w st0, Start se (fresh cfg d) = (Ok (), w) ∧ serving w = Some st0 ∧
    rtc (step whole) st0 st.

Lemma node_of_ok cfg d st : node_of cfg d st → content_ok whole st.
Proof.
  intros (Hd & se & w & st0 & Hs & Hw & Hr). eapply steps_ok; [exact Hr|]. by eapply Start_content_ok.
Qed.

(** The root, and the chunks of every manifest published under it. *)
Definition content_whole (root : string) : Prop :=
  whole root ∧ ∀ m, published m → RootCID m = root → Forall whole (ChunkCIDs m).

(** What a fetch answers is the content of a published manifest of its root. *)
Lemma fetch_published cfg d st fr fw lock self view frm sched root body :
  node_of cfg d st → clean_writes fw whole → no_slash root → content_whole root →
  fst (handleFetch (sv_store st) fr fw lock (network self view) frm (sv_disk st) (sv_cache st) sched true root)
    = Ok (Replied (Reply body)) →
  ∃ m blocks, published m ∧ RootCID m = root ∧ body = concat (Data <$> blocks) ∧
    CID <$> blocks = ChunkCIDs m ∧ Forall valid_block blocks.
Proof.
  intros Hok%node_of_ok Hfw Hr [Hwr Hwc] HF.
  assert (∀ m, GetManifest frm (sv_store st) (sv_disk st) root = Ok m → RootCID m = root ∧ published m) as Hm.
  { intros m Hm. apply (co_manifests whole st Hok); [done..|]. destruct frm as [e|]; [|done].
    unfold GetManifest, ReadFile in Hm. by simpl in Hm. }
  pose proof (handleFetch_valid (sv_store st) fr fw lock (network self view) whole (co_dir whole st Hok)
    (network_valid self view) Hfw frm (sv_disk st) (sv_cache st) sched root (co_disk whole st Hok)
    (co_cache whole st Hok)) as H.
  destruct (handleFetch _ _ _ _ _ _ _ _ _ _ _) as [rep fs']. simpl in HF. subst rep.
  destruct H as (_ & _ & H).
  { intros m Hget. destruct (Hm m Hget) as [Hroot Hp]. specialize (Hwc m Hp Hroot).
    apply published_no_slash, Forall_cons_1 in Hp as [_ Hns]. rewrite Forall_forall in Hwc, Hns |- *.
    intros c Hc. split; [by apply Hwc|by apply Hns]. }
  destruct (H body eq_refl) as (m & blocks & Hget & _ & -> & Hc & Hv).
  destruct (Hm m Hget) as [Hroot Hp]. by exists m, blocks.
Qed.


(** C17: what a node serves to its peers is what they asked for: in any state
    of the life of a node started over a valid data directory, a block found
    in cache or store for an identifier without separators hashes to it, if
    no write of this block's file is ever torn (the identifier is in the set
    [whole]).  Without this the store serves whatever a torn write has left
    ([Store.torn_write_is_served]), and for an identifier with separators it
    may read, send and cache any file that ends in [.block]; the client's own
    check rejects both. *)
Theorem served_blocks_valid (cfg : Config) (d : Disk) (st st' : Serving) (f : fault) (cid : string) (b : Block) :
  node_of cfg d st → whole cid → no_slash cid → lookupBlock f st cid = (Some b, st') →
  CID b = cid ∧ valid_block b.
Proof.
  intros Hok%node_of_ok Hw Hns. unfold lookupBlock.
  assert (∀ st1, sv_store st1 = sv_store st → sv_disk st1 = sv_disk st →
    match Store.Get f (sv_store st1) (sv_disk st1) cid with Ok b => (Some b, st1) | _ => (None, st1) end = (Some b, st') →
    CID b = cid ∧ valid_block b) as Hdisk.
  { intros st1 -> ->. destruct (Store.Get f _ _ cid) as [b'|e|w] eqn:Eg; intros [= -> _].
    pose proof Eg as (-> & Hcid & _)%Store.Get_Ok. split; [done|]. by apply (co_disk whole st Hok cid b Hw Hns). }
  destruct (sv_cache st) as [c|] eqn:Ec; [|by apply Hdisk].
  destruct (cache_Get_valid whole c cid) as [_ Hb]; [rewrite <-Ec; apply Hok|].
  destruct (Lru.Get c cid) as [[b'|] c']; [|by apply Hdisk].
  intros [= -> _]. destruct (Hb b eq_refl) as [? Hv]. split; [done|by apply Hv].
Qed.

End system.

(** ** Concrete inputs *)

Section witnesses.
Import Policy.Examples Store.Examples Signing.Examples Transport.Examples Erasure.Examples.

#[local] Instance printed : PeerID := {| peer_String := λ p, "12D3KooW" +:+ p |}.
#[local] Existing Instances coarse_math list_algebra Providers.identity_hash.

(** A node over the data directory ["data"], with an empty cache. *)
Definition data_config : Config :=
  daemon_config ["home"] {| f_listen := []; f_bootstrap := []; f_dataDir := Some ["data"]; f_enableRelay := false;
    f_enableMDNS := false; f_apiAddr := ""; f_metricsAddr := ""; f_policy := "reliability"; f_epsilon := lit 1 10 |}.
Definition idle : Serving :=
  {| sv_store := store0; sv_disk := disk0; sv_cache := Some (NewLRUCache 100) |}.

Lemma disk0_manifests : valid_manifests (E := keyed_hash) all_whole store0 disk0.
Proof.
  intros root m _ Hr (data & Hf & _)%GetManifest_file. exfalso. revert Hf.
  rewrite manifestPath_plain by (done || apply store0_dir_ok). simpl. by rewrite lookup_singleton_ne.
Qed.

Lemma idle_ok : content_ok (E := keyed_hash) all_whole idle.
Proof.
  split; [apply store0_dir_ok| |apply store0_valid|apply disk0_manifests|].
  - apply (other_name_elsewhere store0 ["data"] "pins.json"); [apply store0_dir_ok|apply pins_name].
  - intros c [= <-]. split; [apply NewLRUCache_wf|constructor].
Qed.

Lemma publish_abc : request (E := keyed_hash) all_whole (λ b, b) idle (set_disk idle Api.disk1).
Proof.
  eapply (Publish (E := keyed_hash) all_whole (λ b, b) idle two_byte_chunks None [] seed (λ _, id_order) 0 (λ _, Ok three_bytes)
    (λ _ _, None) (λ _, None) POST upload_body (constant_rng f0)); [by intros ? ? ? ?|by intros ? ? ?| |exact published_eq].
  intros p data [= <-]. unfold int64_ok. simpl. lia.
Qed.

Lemma requests_refine_atoms_witness : rtc (atom (E := keyed_hash) all_whole) idle (set_disk idle Api.disk1).
Proof. apply (requests_refine_atoms (E := keyed_hash) all_whole (λ b, b) idle (set_disk idle Api.disk1)); [apply idle_ok|apply publish_abc]. Defined.

(** The published node pins a block, stops and starts again. *)
Definition pinned_abc : Serving :=
  let '(_, s', d') := Pin id_order None store0 Api.disk1 "abc" in set_pins (set_disk idle Api.disk1) s' d'.
Definition started_over (d : Disk) : outcome unit * world := Start (env0 key_a (Ok ())) (fresh data_config d).
Definition served_over (d : Disk) : Serving := default idle (serving (snd (started_over d))).

Lemma started_serving d : fst (started_over d) = Ok () →
  Start (env0 key_a (Ok ())) (fresh data_config d) = (Ok (), snd (started_over d)) ∧
  serving (snd (started_over d)) = Some (served_over d).
Proof.
  intros H. assert (started_over d = (Ok (), snd (started_over d))) as Hs
    by (rewrite <-H; apply surjective_pairing).
  split; [exact Hs|]. destruct (Start_serving _ _ _ _ Hs) as (p & Hp & _). unfold served_over. by rewrite Hp.
Qed.

Lemma published_steps : rtc (step (E := keyed_hash) all_whole) (set_disk idle Api.disk1) (served_over (sv_disk pinned_abc)).
Proof.
  apply (rtc_l _ _ pinned_abc); [left|eapply rtc_l; [right|apply rtc_refl]].
  - unfold pinned_abc. destruct (Pin id_order None store0 Api.disk1 "abc") as [[r s'] d'] eqn:HP.
    apply (StorePin all_whole (set_disk idle Api.disk1) id_order None "abc" r s' d' HP).
  - destruct (started_serving (sv_disk pinned_abc)) as [Hs Hw]; [vm_compute; reflexivity|].
    exists (env0 key_a (Ok ())), data_config, (snd (started_over (sv_disk pinned_abc))).
    split_and!; [reflexivity|exact Hs|exact Hw].
Qed.


(** A node started over the disk of the published one, and started again. *)
Lemma disk1_valid_content : disk_valid (E := keyed_hash) all_whole data_config Api.disk1.
Proof.
  destruct (publish_holds (E := keyed_hash) all_whole (λ b, b) two_byte_chunks idle None None [] seed (λ _, id_order) 0
    (λ _, Ok three_bytes) (λ _ _, None) (λ _, None) upload_body upload three_bytes answer Api.disk1 (constant_rng f0)
    (constant_rng f0)) as [Ha _]; [apply idle_ok|unfold int64_ok; simpl; lia
    |exact upload_decoded|reflexivity|exact published_eq|].
  destruct (atoms_ok _ _ _ Ha idle_ok) as [_ _ Hd Hm _]. by split.
Qed.

Lemma disk1_node : node_of (E := keyed_hash) all_whole data_config Api.disk1 (served_over Api.disk1).
Proof.
  split; [apply disk1_valid_content|]. destruct (started_serving Api.disk1) as [Hs Hw]; [vm_compute; reflexivity|].
  exists (env0 key_a (Ok ())), (snd (started_over Api.disk1)), (served_over Api.disk1). split_and!; [exact Hs|exact Hw|done].
Qed.

Definition disk2 : Disk := sv_disk (served_over Api.disk1).
Lemma disk2_node : node_of (E := keyed_hash) all_whole data_config Api.disk1 (served_over disk2).
Proof.
  destruct disk1_node as (Hd & se & w & st0 & Hs & Hw & Hr). split; [done|]. exists se, w, st0. split_and!; [done..|].
  eapply rtc_r; [exact Hr|]. right. destruct (started_serving disk2) as [Hs' Hw']; [vm_compute; reflexivity|].
  exists (env0 key_a (Ok ())), data_config, (snd (started_over disk2)). split_and!; [vm_compute; reflexivity|exact Hs'|exact Hw'].
Qed.

Definition fetch_from (st : Serving) : outcome fetch_end * FetchState :=
  handleFetch (E := keyed_hash) (sv_store st) (λ _, None) (λ _ _, None) (λ _, true) (network "A" (λ _, offline)) None (sv_disk st)
    (sv_cache st) (λ _, [0; 1; 1; 0; 0; 1]%nat) true (pr_RootCID answer).

Lemma answer_no_slash : no_slash (pr_RootCID answer).
Proof. vm_compute. repeat split; discriminate. Qed.


Definition block_ab : Block := block_of (take 2 three_bytes).
Definition lookup_ab : option Block * Serving := lookupBlock None (served_over Api.disk1) (CID block_ab).

Lemma served_blocks_valid_witness : CID block_ab = CID block_ab ∧ valid_block block_ab.
Proof.
  apply (served_blocks_valid (E := keyed_hash) all_whole data_config Api.disk1 (served_over Api.disk1) (snd lookup_ab) None
    (CID block_ab)).
  - exact disk1_node.
  - exact I.
  - apply ComputeCID_no_slash.
  - assert (fst lookup_ab = Some block_ab) as <- by (vm_compute; reflexivity). apply surjective_pairing.
Defined.

(** Identifiers with separators are another matter: a peer that asks for
    ["../x"] gets the file next to the block directory, and the node's cache
    holds it from then on. *)
Example escaping_request_is_cached :
  (λ r, (λ c, cached c "../x") <$> sv_cache (fst r)) <$>
    BlockTransferHandler_handleStream 10 None idle (accept no_faults (NewReader (fetch_request "../x")))
  = Some (Some (Some {| CID := "../x"; Data := [Init.Byte.x61] |})).
Proof. vm_compute. reflexivity. Qed.

End witnesses.
