(* ===== verification/Daemon.v ===== *)
(** * The daemon behind its HTTP API, and the commands in front of it

    One request at a time: the multiplexer finds the handler, the handler
    changes what the node serves, and its reply goes on the wire, if it has
    one, before the server's write deadline.  Together
    with the commands of Client.v this is the program as its user sees it:
    [publish] and then [fetch], [pin] and then [pins]. *)

From Stdlib Require Import Init.Byte.
From S2P Require Import Prelude Utf8 Json Float64 Format Codec Runtime Path Policy Stream Probe Manager Sha256 Chunker Lru Bloom Store Signing Replication Erasure BlockTransfer CacheSummary Node Fetch Providers Transport ProbeLoop Lifecycle Api Handlers Http Client System.

(** Whatever a handler sees that is not in the request and not in the content
    of the node: its configuration, its peers, the libraries' answers, the
    faults of the disk, clocks, draws and schedules; whether it is given the
    lock of the cache; and how long it takes, [None] if it never returns. *)
Record surroundings `{LA : LinAlg, PID : PeerID} := {
  su_node : Node;
  su_view : NetView;
  su_now : Time;
  su_orders : nat → order;
  su_hour : Z;
  su_rng : rng;
  su_privKey : bytes;
  su_readFile : string → outcome bytes;
  su_block_faults : nat → string → fault;
  su_manifest_fault : string → fault;
  su_manifest_read : fault;
  su_read_faults : nat → fault;
  su_write_faults : nat → string → fault;
  su_lock : nat → bool;
  su_pin_fault : fault;
  su_network : nat → network_view;
  su_sched : nat → list nat;
  su_router : option DHT;
  su_pings : peer_ID → nat → ping_step;
  su_took : http_request → option Duration
}.

Section daemon.
Context `{ML : MathLib, LA : LinAlg, PID : PeerID, PD : PeerDecode, TF : TimeFormat, MA : Multiaddrs, MF : Multiformats,
          JE : JSONErrors, JF : JSONFloats, E : Ed25519, CR : Crypto, RS : ReedSolomon}.
Context (NewKeyFromSeed : bytes → PrivateKey).

Definition not_found : outcome http_response :=
  Ok {| rs_StatusCode := 404; rs_Body := to_bytes "404 page not found" ++ [x0a]; rs_Error := None |}.

(** A value the encoder refuses leaves the body empty. *)
Definition Encode_option {A} (to_json : A → option json) (a : A) : bytes :=
  match to_json a with Some v => Encode_json id v | None => [] end.

Definition self_of (su : surroundings) : peer_ID :=
  default "" (n_Host (su_node su)).

(** [handleFetch]: a request whose goroutines wait for ever is not answered,
    and a goroutine that panics takes the process down; either way the node
    keeps what the goroutines have done.  (After a panic the next request is
    one to a node that was started again, a step of [System.restart].) *)
Definition answer_fetch (su : surroundings) (st : Serving) (rq : http_request) : blocking http_response * Serving :=
  let '(r, fs) := handleFetch (sv_store st) (su_read_faults su) (su_write_faults su) (su_lock su)
                    (network (self_of su) (su_network su)) (su_manifest_read su) (sv_disk st) (sv_cache st)
                    (su_sched su) (bool_decide (rq_Method rq = GET)) (query_Get (rq_Query rq) "cid") in
  (match r with
   | Ok (Replied rep) => now (written id (Ok rep))
   | Ok Waiting => None
   | Ok (Crashed _) => now (Err (Errorf "EOF"))
   | Err e => now (Err e)
   | Panic _ => now (Err (Errorf "EOF"))
   end, serving_of (sv_store st) fs).

Definition answer (su : surroundings) (st : Serving) (rq : http_request) : blocking http_response * Serving :=
  let param := query_Get (rq_Query rq) in
  let method := rq_Method rq in
  let os := su_orders su in
  let reply r := (now r, st) in
  match route (rq_Path rq) with
  | None => reply not_found
  | Some Handlers.Publish =>
      let '((rep, d, _), _) := handlePublish NewKeyFromSeed (n_Cfg (su_node su)) (Some (sv_store st)) (sv_disk st)
        (n_PathManager (su_node su)) (nv_peers (su_view su)) (su_privKey su) os (su_hour su) (su_readFile su)
        (su_block_faults su) (su_manifest_fault su) method (rq_Body rq) (su_rng su) in
      (now (written (Encode_json publish_json) rep), set_disk st d)
  | Some FetchFile => answer_fetch su st rq
  | Some PinFile =>
      let '(rep, s, d) := handlePin (os 0%nat) (su_pin_fault su) (Some (sv_store st)) (sv_disk st) method (rq_Body rq) in
      (now (written (Encode_json pin_json) rep), set_pins st (default (sv_store st) s) d)
  | Some Pins => reply (written (Encode_json strings_json) (Ok (handleListPins (os 0%nat) (Some (sv_store st)) method)))
  | Some ManifestOf =>
      reply (written (Encode_json manifest_response_json)
               (handleManifest (su_manifest_read su) (Some (sv_store st)) (sv_disk st) method (param "cid")))
  | Some FindProvidersOf =>
      reply (written (Encode_json providers_json) (handleFindProviders (su_router su) method (param "cid")))
  | Some Ping => reply (written (Encode_json ping_json) (handlePing (su_pings su) method (param "peer") (param "count")))
  | Some Peers => reply (written (Encode_json peers_json) (Ok (handlePeers (su_node su) (su_view su) method)))
  | Some PathsOf =>
      reply (written (Encode_option paths_json)
               (handlePaths (os 0%nat) (os 1%nat) (n_PathManager (su_node su)) method (param "peer")))
  | Some Status => reply (written (Encode_json status_json) (handleStatus (su_node su) (su_view su) (su_now su) method))
  | Some Health => reply (written (Encode_json health_json) (Ok (Reply handleHealth)))
  end.

(** The daemon's reply to a request, if its handler gets to one, and what it
    serves afterwards. *)
Definition daemon (su : surroundings) (st : Serving) (rq : http_request) : blocking http_response * Serving :=
  if malformed rq then (now (Ok bad_request), st) else answer su st rq.

(** What the client sees of it. *)
Definition reply_to (su : surroundings) (st : Serving) (rq : http_request) : exchange :=
  match fst (daemon su st rq) with
  | None => Silent
  | Some r => on_the_wire (su_took su rq) r
  end.

(** The handler returns within [limit]. *)
Definition within (limit : Duration) (su : surroundings) (rq : http_request) : Prop :=
  ∃ t, su_took su rq = Some t ∧ t < limit.

Lemma reply_to_within limit su st rq r :
  limit ≤ WriteTimeout → within limit su rq → fst (daemon su st rq) = Some r →
  ∃ t, t < limit ∧ reply_to su st rq = Answered t r.
Proof.
  intros Hl (t & Ht & Hlt) Hr. exists t. split; [done|]. unfold reply_to, on_the_wire. rewrite Hr, Ht.
  by rewrite (proj2 (Z.leb_gt WriteTimeout t)) by lia.
Qed.

(** A reply with a status came from the handler. *)
Lemma reply_to_Ok su st rq t resp : reply_to su st rq = Answered t (Ok resp) → fst (daemon su st rq) = Some (Ok resp).
Proof.
  unfold reply_to, on_the_wire. destruct (fst (daemon su st rq)) as [r|]; [|done].
  destruct (su_took su rq) as [t'|]; [|done]. destruct (WriteTimeout <=? t'); [done|]. by intros [= _ ->].
Qed.

(** ** The daemon keeps its content valid *)

(** Writes tear no file of a set of identifiers, and files fit the sizes of
    Go. *)
Record calm (whole : string → Prop) (su : surroundings) : Prop := {
  calm_blocks : clean_writes (su_block_faults su) whole;
  calm_manifest : ∀ root, whole root → untorn (su_manifest_fault su root);
  calm_files : ∀ p data, su_readFile su p = Ok data → int64_ok (zlen data);
  calm_writes : clean_writes (su_write_faults su) whole
}.

Context {ELaws : Ed25519Laws E}.

Lemma handlePin_store o f s d method body :
  ∃ s', snd (fst (handlePin o f (Some s) d method body)) = Some s'.
Proof.
  unfold handlePin. destruct method; try (by eexists); destruct (Decode_PinRequest body); try (by eexists);
    case_decide; try (by eexists).
  - destruct (Pin o f s d a) as [[[] s'] d']; by eexists.
  - destruct (Unpin o f s d a) as [[[] s'] d']; by eexists.
Qed.

Lemma daemon_request whole su st rq :
  calm whole su → snd (daemon su st rq) = st ∨ request whole NewKeyFromSeed st (snd (daemon su st rq)).
Proof.
  intros [Hfb Hfm Hrd Hfw]. unfold daemon. destruct (malformed rq); [by left|]. unfold answer.
  destruct (route (rq_Path rq)) as [[]|]; try (by left).
  - right. destruct (handlePublish _ _ _ _ _ _ _ _ _ _ _ _ _ _ _) as [[[rep d] pm] g] eqn:HP.
    by eapply Publish, HP.
  - right. unfold answer_fetch.
    pose proof (FetchContent whole NewKeyFromSeed st (self_of su) (su_network su) (su_read_faults su) (su_write_faults su)
      (su_lock su) (su_manifest_read su) (su_sched su) (bool_decide (rq_Method rq = GET)) (query_Get (rq_Query rq) "cid")
      Hfw) as H.
    by destruct (handleFetch _ _ _ _ _ _ _ _ _ _ _) as [r fs].
  - right. destruct (handlePin_store (su_orders su 0%nat) (su_pin_fault su) (sv_store st) (sv_disk st) (rq_Method rq)
      (rq_Body rq)) as [s' Hs].
    destruct (handlePin _ _ _ _ _ _) as [[rep s] d] eqn:HP. simpl in Hs. subst s. by eapply PinContent, HP.
Qed.

(** C6: whatever is asked of it, the daemon changes the disk, the pins and the
    cache only by the atomic operations that keep its content valid: every
    request, whatever its method, path, query and body, and whether it is
    answered, kept waiting or ended by a panic, leaves a valid state valid.
    Valid is meant for a set [whole] of identifiers: the surroundings are calm
    in that no write of the request tears a file of this set (others may be
    torn), and that published files fit an [int64]. *)
Theorem daemon_keeps_content (whole : string → Prop) (su : surroundings) (st : Serving) (rq : http_request) :
  calm whole su → content_ok whole st →
  rtc (atom whole) st (snd (daemon su st rq)) ∧ content_ok whole (snd (daemon su st rq)).
Proof.
  intros Hc Hok. assert (rtc (atom whole) st (snd (daemon su st rq))) as Ha.
  { destruct (daemon_request whole su st rq Hc) as [->|H]; [done|]. by apply (request_atoms whole NewKeyFromSeed). }
  split; [done|]. by eapply atoms_ok.
Qed.

(** ** Publishing *)

Lemma publish_data_reply fb fm s d privKey name data chunkSize r d' :
  publish_data NewKeyFromSeed fb fm s d privKey name data chunkSize = (Ok (Reply r), d') →
  pr_Name r = name ∧ pr_TotalSize r = zlen data ∧ 0 ≤ pr_NumChunks r ≤ zlen data ∧ ∃ b, pr_RootCID r = hex b.
Proof.
  unfold publish_data. destruct (Chunk _ _) as [blocks|e|w] eqn:EC; [|done..]. apply Chunk_count in EC.
  destruct (store_blocks _ _ _ _ _) as [[u|e|w] d1]; [|done..].
  destruct (sign_if_keyed _ _ _) as [m|e|w] eqn:EK; [|done..].
  destruct (sign_if_keyed_Ok NewKeyFromSeed privKey (BuildManifest name (zlen data) blocks) m eq_refl EK) as (Hr & Hn & Ht & _).
  destruct (PutManifest _ _ _ _) as [[u2|e|w] d2]; [|done..]. intros [= <- <-]. simpl. rewrite Hn, Ht.
  split_and!; [done|done|lia|done|]. rewrite Hr. by eexists.
Qed.

Lemma publish_data_code fb fm s d privKey name data chunkSize c msg d' :
  publish_data NewKeyFromSeed fb fm s d privKey name data chunkSize = (Ok (HttpError c msg), d') → c = 500.
Proof.
  unfold publish_data. destruct (Chunk _ _) as [blocks|e|w]; [|by intros [= <- _ _]|done].
  destruct (store_blocks _ _ _ _ _) as [[u|e|w] d1]; [|by intros [= <- _ _]|done].
  destruct (sign_if_keyed _ _ _) as [m|e|w]; [|by intros [= <- _ _]|done].
  by destruct (PutManifest _ _ _ _) as [[u2|e|w] d2]; [|intros [= <- _ _]|].
Qed.

(** What a publication that is answered with status 200 did. *)
Lemma handlePublish_reply cfg st pm peers privKey os hour readFile fb fm body req rep d' pm' g g' :
  Decode_PublishRequest body = Ok req →
  handlePublish NewKeyFromSeed cfg (Some (sv_store st)) (sv_disk st) pm peers privKey os hour readFile fb fm POST body g
    = ((rep, d', pm'), g') →
  match rep with
  | Ok (Reply r) => ∃ data, readFile (req_FilePath req) = Ok data ∧ pr_Name r = req_Name req ∧
                            pr_TotalSize r = zlen data ∧ 0 ≤ pr_NumChunks r ≤ zlen data ∧ ∃ b, pr_RootCID r = hex b
  | Ok (HttpError c _) => c ≠ 200
  | _ => True
  end.
Proof.
  intros Hq. unfold handlePublish. rewrite decide_True, Hq by done.
  destruct (readFile (req_FilePath req)) as [data|e|w]; [|by intros [= <- _ _ _]..].
  unfold mbind, Rand_bind. destruct (choose_chunk_size _ _ _ _ _ _ g) as [[cs pm1] g1].
  destruct (publish_data _ _ _ _ _ _ _ _) as [rep1 d1] eqn:ED. intros [= -> _ _ _].
  destruct rep as [[c m|r]|e|w]; [|by apply publish_data_reply in ED; eauto|done..].
  by apply publish_data_code in ED as ->.
Qed.

Lemma Decode_publish_body filePath name :
  valid_string filePath = true →
  Decode_PublishRequest (publish_body filePath name) = Ok {| req_FilePath := filePath; req_Name := fix_string name |}.
Proof.
  intros Hv. unfold Decode_PublishRequest, publish_body. rewrite Decode_strings_two by done.
  cbn. by rewrite (fix_string_valid filePath).
Qed.

Context {UE : URLErrors}.

Definition publish_request (cwd : path) (file : string) : http_request :=
  {| rq_Method := POST; rq_Path := "/api/v1/publish"; rq_Query := []; rq_Body := publish_body (Abs cwd file) (Base file) |}.

(** What a command gets from a body that a handler encoded. *)
Lemma decode_written {A B} (enc : A → json) (dec : json → option B) (a : A) (b : B) :
  fits maxNestingDepth (enc a) → dec (sanitize (enc a)) = Some b →
  decode_response dec {| rs_StatusCode := StatusOK; rs_Body := Encode_json enc a; rs_Error := None |} = Ok b.
Proof.
  intros Hf Hd. unfold decode_response. cbn [rs_Body rs_Error]. rewrite Decode_encoded by done.
  cbn [mbind option_bind]. by rewrite Hd.
Qed.

Lemma runPublish_request http cwd stat file out :
  runPublish http cwd stat file = Ok out →
  ∃ t resp pr, http (publish_request cwd file) = Answered t (Ok resp) ∧ rs_StatusCode resp = 200 ∧
    decode_response decode_publish resp = Ok pr ∧
    out = lines ["Published: " +:+ pr_Name pr; "Root CID: " +:+ pr_RootCID pr;
                 "Size:     " +:+ pretty (pr_TotalSize pr) +:+ " bytes"; "Chunks:   " +:+ pretty (pr_NumChunks pr)].
Proof.
  unfold runPublish. intros ([] & _ & H)%bind_Ok_inv; [done|]. apply bind_Ok_inv in H as (resp & Hs & H).
  apply bind_Ok_inv in H as ([] & He & H). apply bind_Ok_inv in H as (pr & Hd & [= <-]).
  apply send_inv in Hs as (rq & t & [= <-] & Hh & _).
  exists t, resp, pr. split_and!; [exact Hh| |done|done]. unfold expect_ok in He. case_match eqn:Ec; [|done]. by apply Z.eqb_eq in Ec.
Qed.

(** A publication through the command, down to the handler. *)
Lemma runPublish_handled su st cwd stat file data out :
  valid_string (Abs cwd file) = true → su_readFile su (Abs cwd file) = Ok data → int64_ok (zlen data) →
  runPublish (reply_to su st) cwd stat file = Ok out →
  ∃ r d' pm' g', handlePublish NewKeyFromSeed (n_Cfg (su_node su)) (Some (sv_store st)) (sv_disk st)
      (n_PathManager (su_node su)) (nv_peers (su_view su)) (su_privKey su) (su_orders su) (su_hour su) (su_readFile su)
      (su_block_faults su) (su_manifest_fault su) POST (rq_Body (publish_request cwd file)) (su_rng su)
      = ((Ok (Reply r), d', pm'), g') ∧
    snd (daemon su st (publish_request cwd file)) = set_disk st d' ∧ (∃ b, pr_RootCID r = hex b) ∧
    out = lines ["Published: " +:+ fix_string (Base file); "Root CID: " +:+ pr_RootCID r;
                 "Size:     " +:+ pretty (zlen data) +:+ " bytes"; "Chunks:   " +:+ pretty (pr_NumChunks r)].
Proof.
  intros Hv Hr Hsize (t & resp & pr & Hresp%reply_to_Ok & Hcode & Hdec & ->)%runPublish_request.
  unfold daemon, answer in *. cbn [malformed rq_Query publish_request] in *.
  change (route (rq_Path (publish_request cwd file))) with (Some Handlers.Publish) in *.
  destruct (handlePublish _ _ _ _ _ _ _ _ _ _ _ _ _ _ _) as [[[rep d] pm] g] eqn:HP. cbn [fst snd] in *.
  pose proof (handlePublish_reply _ _ _ _ _ _ _ _ _ _ _ _ _ _ _ _ _ (Decode_publish_body (Abs cwd file) (Base file) Hv) HP) as H.
  destruct rep as [[c m|r]|e|w]; unfold now in Hresp; cbn [written] in Hresp; [|..|done|done].
  { injection Hresp as <-. by destruct H. }
  destruct H as (data' & Hr' & Hname & Htotal & Hn & Hhex). cbn [req_FilePath req_Name] in *. rewrite Hr in Hr'. injection Hr' as <-.
  exists r, d, pm, g. split_and!; [done|done|done|]. injection Hresp as <-.
  assert (int64_ok (pr_TotalSize r) ∧ int64_ok (pr_NumChunks r)) as [Ht1 Hn1].
  { rewrite Htotal. split; [done|]. unfold int64_ok in *. lia. }
  destruct (decode_publish_json r Ht1 Hn1) as [Hf Hj]. apply (fits_depth 1) in Hf; [|lia].
  rewrite (decode_written publish_json decode_publish r _ Hf Hj) in Hdec. injection Hdec as <-.
  unfold fix_publish. cbn. rewrite Hname, Htotal. destruct Hhex as [b ->].
  by rewrite (fix_string_valid (fix_string (Base file))), (fix_string_valid (hex b)) by (apply fix_string_is_valid || apply hex_valid, hex_chars).
Qed.

Lemma hex_query_safe b : forallb query_safe (to_bytes (hex b)) = true.
Proof. induction b as [|x b IH]; [done|]. destruct x; exact IH. Qed.

Definition fetch_command (cid : string) : http_request :=
  {| rq_Method := GET; rq_Path := "/api/v1/fetch"; rq_Query := setting "cid" cid; rq_Body := [] |}.

Lemma runFetch_reply http disk cid t body :
  forallb query_safe (to_bytes cid) = true → t < WriteTimeout →
  http (fetch_command cid) = Answered t (Ok {| rs_StatusCode := StatusOK; rs_Body := body; rs_Error := None |}) →
  runFetch http None disk None cid = (Ok body, disk).
Proof.
  intros Hs Ht Hh. unfold runFetch. destruct (safe_arrives "/api/v1/fetch" "cid" cid eq_refl Hs) as (Hn & _ & _).
  erewrite send_Ok; [|unfold WriteTimeout in Ht; transitivity (30 * Second); [exact Ht|done]|done|exact Hn|exact Hh]. done.
Qed.


(** ** Pinning *)

Definition pin_request (pin : bool) (cid : string) : http_request :=
  {| rq_Method := if pin then POST else DELETE; rq_Path := "/api/v1/pin"; rq_Query := []; rq_Body := cid_body cid |}.

Lemma Decode_pin_body cid : valid_string cid = true → Decode_PinRequest (cid_body cid) = Ok cid.
Proof.
  intros Hv. unfold Decode_PinRequest, cid_body. rewrite Decode_strings_one by done. cbn. by rewrite fix_string_valid.
Qed.

(** The handler, for a body that the command wrote. *)
Lemma answer_pin su st (pin : bool) cid :
  valid_string cid = true → cid ≠ "" →
  daemon su st (pin_request pin cid) =
    let '(r, s, d) := (if pin then Pin else Unpin) (su_orders su 0%nat) (su_pin_fault su) (sv_store st) (sv_disk st) cid in
    (now (written (Encode_json pin_json)
       (match r with
        | Ok _ => Ok (Reply (if pin then "pinned" else "unpinned", cid))
        | Err e => Ok (HttpError StatusInternalServerError ((if pin then "pin" else "unpin") +:+ " failed: " +:+ Error e))
        | Panic w => Panic w
        end)), set_pins st s d).
Proof.
  intros Hv Hne. unfold daemon, answer. cbn [malformed rq_Query pin_request].
  change (route (rq_Path (pin_request pin cid))) with (Some PinFile). unfold handlePin. cbn [rq_Body rq_Method pin_request].
  rewrite Decode_pin_body by done. rewrite !decide_False by done.
  destruct pin; [destruct (Pin _ _ _ _ _) as [[[] s] d]|destruct (Unpin _ _ _ _ _) as [[[] s] d]]; reflexivity.
Qed.

Definition pins_request : http_request :=
  {| rq_Method := GET; rq_Path := "/api/v1/pins"; rq_Query := []; rq_Body := [] |}.

Lemma runListPins_body http t body l :
  t < 10 * Second →
  http pins_request = Answered t (Ok {| rs_StatusCode := StatusOK; rs_Body := body; rs_Error := None |}) →
  decode_response decode_pins {| rs_StatusCode := StatusOK; rs_Body := body; rs_Error := None |} = Ok l →
  runListPins http = Ok (pins_text l).
Proof.
  intros Ht Hh Hd. unfold runListPins.
  erewrite send_Ok; [|exact Ht|done|apply NewRequest_plain|exact Hh].
  rewrite bind_Ok, expect_ok_Ok by done. by rewrite bind_Ok, Hd.
Qed.

Lemma runListPins_reply su st :
  within (10 * Second) su pins_request → (∀ c, c ∈ pins (sv_store st) → valid_string c = true) →
  runListPins (reply_to su st) = Ok (pins_text (ListPinned (su_orders su 0%nat) (sv_store st))).
Proof.
  intros Hw Hv. set (l := ListPinned _ _). assert (fix_string <$> l = l) as Hl.
  { apply fix_strings_valid, forallb_forall. intros x Hx%list_elem_of_In. apply Hv. subst l. unfold ListPinned in Hx.
    by rewrite elem_of_iter, elem_of_elements in Hx. }
  destruct (reply_to_within (10 * Second) su st pins_request
    (Ok {| rs_StatusCode := StatusOK; rs_Body := Encode_json strings_json l; rs_Error := None |})) as (t & Ht & Hr); [done|done|done|].
  apply (runListPins_body _ t (Encode_json strings_json l)); [exact Ht|exact Hr|].
  apply decode_written.
  - apply (fits_depth 1), fits_strings. lia.
  - rewrite sanitize_strings, Hl. unfold decode_pins. apply decode_slice_strings.
Qed.

(** C11: the commands [pin] and [unpin] do what they print.  On a disk that
    works, [pin] (or [unpin]) of a CID succeeds and changes that one pin, when
    the daemon answers within the command's 10 seconds; a daemon started
    afterwards over the same directory has the same pins, and the command
    [pins], answered in that time, then lists exactly those. *)
Theorem pin_command_lasts (su : surroundings) (st : Serving) (base : path) (pin : bool) (cid : string) :
  laid_out base (sv_store st) (sv_disk st) → (∀ c, c ∈ pins (sv_store st) → valid_string c = true) →
  valid_string cid = true → cid ≠ "" → su_pin_fault su = None → within (10 * Second) su (pin_request pin cid) →
  let after := snd (daemon su st (pin_request pin cid)) in
  let now := if pin then {[cid]} ∪ pins (sv_store st) else pins (sv_store st) ∖ {[cid]} in
  (if pin then runPin else runUnpin) (reply_to su st) cid = Ok (line ((if pin then "Pinned: " else "Unpinned: ") +:+ cid)) ∧
  ∃ s', fst (NewStore None None (sv_disk after) base) = Ok s' ∧ pins s' = now ∧
    ∀ su' st', sv_store st' = s' → within (10 * Second) su' pins_request →
      ∃ l, l ≡ₚ elements now ∧ runListPins (reply_to su' st') = Ok (pins_text l).
Proof.
  intros Hl Hpins Hv Hne Hf Hw. pose proof (pins_reopened (su_orders su 0%nat) base (sv_store st) (sv_disk st) cid pin Hl Hpins Hv) as H.
  pose proof (answer_pin su st pin cid Hv Hne) as Ha. rewrite Hf in Ha.
  destruct ((if pin then Pin else Unpin) _ _ _ _ _) as [[r s] d] eqn:HP. destruct H as (-> & Hp & Hn). split.
  - apply (f_equal fst) in Ha. destruct (reply_to_within (10 * Second) su st _ _ ltac:(done) Hw Ha) as (t & Ht & Hr).
    destruct pin; (unfold runPin, runUnpin, run_pin;
      (erewrite send_Ok; [|exact Ht|done|apply NewRequest_plain|exact Hr]);
      by rewrite bind_Ok, expect_ok_Ok).
  - rewrite Ha. cbn [snd set_pins sv_disk]. exists s. split; [done|].
    assert (pins s = if pin then {[cid]} ∪ pins (sv_store st) else pins (sv_store st) ∖ {[cid]}) as Hs.
    { apply set_eq. intros c. specialize (Hp c). unfold IsPinned in Hp.
      rewrite <-(bool_decide_eq_true (c ∈ pins s)), Hp. destruct pin; case_decide; subst; rewrite ?bool_decide_eq_true; set_solver. }
    split; [done|]. intros su' st' <- Hw'. exists (ListPinned (su_orders su' 0%nat) (sv_store st')). split.
    + unfold ListPinned. by rewrite iter_perm, Hs.
    + apply runListPins_reply; [done|]. rewrite Hs. destruct pin; set_solver.
Qed.

(** ** Pings and providers *)

Definition ping_request (peer : string) (count : Z) : http_request :=
  {| rq_Method := GET; rq_Path := "/api/v1/ping"; rq_Body := [];
     rq_Query := setting "peer" peer ++ x26 :: setting "count" (pretty count) |}.

Lemma answer_ping su st peer count :
  forallb query_safe (to_bytes peer) = true → 0 < count →
  NewRequest GET "/api/v1/ping" (rq_Query (ping_request peer count)) [] = Ok (ping_request peer count) ∧
  fst (daemon su st (ping_request peer count)) =
    Some (written (Encode_json ping_json) (handlePing (su_pings su) GET peer (pretty count))).
Proof.
  intros Hs Hc. destruct (two_arrive "/api/v1/ping" "peer" peer "count" (pretty count)) as (Hn & H20 & Hp & Hq);
    [done|done|done|by apply pretty_safe|done|]. split; [exact Hn|].
  unfold daemon. unfold ping_request, setting in *. rewrite H20. unfold answer. cbn [rq_Path rq_Query rq_Method].
  change (route "/api/v1/ping") with (Some Ping). by rewrite Hp, Hq.
Qed.

(** What the handler replies to the request of the command. *)
Lemma handlePing_command pings peer target count :
  0 < count ≤ 1844674407 → peer ≠ "" → peer_Decode peer = Ok target →
  handlePing pings GET peer (pretty count) =
    Ok (Reply (ping_view <$> SendPings (pings target) target 0 (Z.to_nat (if count <=? 100 then count else 5)))).
Proof.
  intros Hc Hne Hd. assert (ping_count (pretty count) = if count <=? 100 then count else 5) as Hcount.
  { unfold ping_count. rewrite decide_False by (intros Hp; pose proof (Atoi_pretty count ltac:(lia)) as Ha; by rewrite Hp in Ha).
    rewrite Atoi_pretty by lia. by rewrite (proj2 (Z.ltb_lt 0 count)) by lia. }
  unfold handlePing. rewrite decide_True, decide_False, Hd, Hcount by done. done.
Qed.

(** The command, by the time the handler takes. *)
Lemma runPing_timed su st count peer results :
  0 < count ≤ 1844674407 → forallb query_safe (to_bytes peer) = true →
  handlePing (su_pings su) GET peer (pretty count) = Ok (Reply results) →
  runPing (reply_to su st) count peer =
  match su_took su (ping_request peer count) with
  | None => Err (Wrapf ("ping " +:+ request_failed) DeadlineExceeded)
  | Some t => if count * 5 * Second <=? t then Err (Wrapf ("ping " +:+ request_failed) DeadlineExceeded)
              else if WriteTimeout <=? t then Err (Wrapf ("ping " +:+ request_failed) (Errorf "EOF"))
              else Ok (ping_text count peer (fix_result <$> results))
  end.
Proof.
  intros Hc Hs Hh. destruct (answer_ping su st peer count Hs ltac:(lia)) as [Hn Hr]. rewrite Hh in Hr.
  unfold runPing. unfold ping_request in Hn. rewrite ping_deadline by lia.
  erewrite send_eq; [|unfold Second; lia|exact Hn].
  change (reply_to su st _) with (reply_to su st (ping_request peer count)). unfold reply_to. rewrite Hr.
  unfold on_the_wire. destruct (su_took su _) as [t|]; [|done].
  destruct (_ <=? t); [done|]. destruct (WriteTimeout <=? t); [done|]. cbn [written wrap_err].
  rewrite bind_Ok, expect_ok_Ok by done. rewrite bind_Ok. destruct (decode_ping_json results) as [Hf Hj].
  by rewrite (decode_written ping_json decode_ping results _ (fits_depth _ _ (le_n 3) Hf) Hj).
Qed.

(** C33: [ping -c n] of a peer ID that decodes, up to where its deadline of
    [5n] seconds overflows ([n] below 1,844,674,408).  For an [n] that is not
    positive it fails, whatever the daemon would answer, as its deadline has
    passed.  Otherwise the daemon is asked for the [n] pings announced when [n]
    is at most 100, and for five for a larger [n]; and what the command prints
    depends on how long the daemon takes over them: if it never gets to a
    reply, or takes the [5n] seconds of the command, the deadline is reported;
    if it takes the 30 seconds of the server's write deadline, the connection
    is closed and no result is printed; otherwise a line is printed for each
    result, in order: at least one, at most as many as asked for, and all of
    them if no ping's context ends. *)
Theorem ping_command_sends (su : surroundings) (st : Serving) (count : Z) (peer : string) (target : peer_ID) :
  - 1844674407 ≤ count ≤ 1844674407 → forallb query_safe (to_bytes peer) = true → peer ≠ "" →
  peer_Decode peer = Ok target →
  if count <=? 0 then is_ok (runPing (reply_to su st) count peer) = false
  else let sent := if count <=? 100 then count else 5 in
    let results := fix_result <$> (ping_view <$> SendPings (su_pings su target) target 0 (Z.to_nat sent)) in
    1 ≤ zlen results ≤ sent ∧ ((∀ j, ps_ctx (su_pings su target j) = None) → zlen results = sent) ∧
    runPing (reply_to su st) count peer =
    match su_took su (ping_request peer count) with
    | None => Err (Wrapf ("ping " +:+ request_failed) DeadlineExceeded)
    | Some t => if count * 5 * Second <=? t then Err (Wrapf ("ping " +:+ request_failed) DeadlineExceeded)
                else if 30 * Second <=? t then Err (Wrapf ("ping " +:+ request_failed) (Errorf "EOF"))
                else Ok (ping_text count peer results)
    end.
Proof.
  intros Hc Hs Hne Hd. destruct (Z.leb_spec count 0) as [Hle|Hpos].
  - unfold runPing, send. destruct (NewRequest _ _ _ _) as [rq|e|w]; [|done..]. cbn [wrap_err mbind outcome_bind].
    unfold Do. rewrite ping_deadline by done. by rewrite (proj2 (Z.leb_le _ _)) by (unfold Second; lia).
  - pose proof (handlePing_command (su_pings su) peer target count ltac:(lia) Hne Hd) as Hh.
    intros sent results. assert (1 ≤ sent) as Hsent by (subst sent; case_match; lia). subst results. rewrite !length_fmap. split_and!.
    + pose proof (SendPings_nonempty (su_pings su target) target 0 (Z.to_nat sent) ltac:(lia)). lia.
    + pose proof (SendPings_nonempty (su_pings su target) target 0 (Z.to_nat sent) ltac:(lia)). lia.
    + intros Hctx. destruct (SendPings_length (su_pings su target) target (Z.to_nat sent)) as (_ & Hlen & _).
      rewrite Hlen by done. lia.
    + exact (runPing_timed su st count peer _ ltac:(lia) Hs Hh).
Qed.

Definition find_request (cid : string) : http_request :=
  {| rq_Method := GET; rq_Path := "/api/v1/find"; rq_Query := setting "cid" cid; rq_Body := [] |}.

(** [find], answered in time, prints the providers the content routing
    returned, all of them, with all their addresses, in order (repaired to valid
    UTF-8), and the status of its error otherwise. *)
Theorem find_command_prints (su : surroundings) (st : Serving) (cid : string) :
  forallb query_safe (to_bytes cid) = true → within (30 * Second) su (find_request cid) →
  runFind (reply_to su st) cid =
  match handleFindProviders (su_router su) GET cid with
  | Ok (Reply l) => Ok (providers_text cid (fix_provider <$> l))
  | Ok (HttpError code _) =>
      Err (Errorf ("request failed with status " +:+ pretty code))
  | Err e => Err (Wrapf request_failed e)
  | Panic _ => Err (Wrapf request_failed (Errorf "EOF"))
  end.
Proof.
  intros Hs Hw. destruct (safe_arrives "/api/v1/find" "cid" cid eq_refl Hs) as (Hn & H20 & Hg).
  assert (fst (daemon su st (find_request cid))
          = Some (written (Encode_json providers_json) (handleFindProviders (su_router su) GET cid))) as Hr.
  { unfold daemon. unfold find_request, setting. rewrite H20. unfold answer. cbn [rq_Path rq_Query rq_Method].
    change (route "/api/v1/find") with (Some FindProvidersOf). by rewrite Hg. }
  unfold runFind. erewrite send_eq; [|done|exact Hn]. change (reply_to su st _) with (reply_to su st (find_request cid)).
  destruct (reply_to_within (30 * Second) su st _ _ ltac:(done) Hw Hr) as (t & Ht & ->). rewrite (proj2 (Z.leb_gt (30 * Second) t)) by done.
  destruct (handleFindProviders _ _ _) as [[code msg|l]|e|w] eqn:Eh; [| |done..].
  - assert (code ≠ 200) as Hc.
    { unfold handleFindProviders in Eh. repeat case_match; simplify_eq; try done. }
    cbn [written wrap_err]. rewrite bind_Ok. unfold expect_ok. cbn [rs_StatusCode].
    by rewrite (proj2 (Z.eqb_neq code StatusOK)).
  - cbn [written wrap_err]. rewrite bind_Ok, expect_ok_Ok by done. rewrite bind_Ok.
    destruct (decode_providers_json l) as [Hf Hj]. apply fmap_Some in Hj as (ps & Hj & ->).
    by rewrite (decode_written providers_json decode_providers l _ (fits_depth _ _ (le_n 3) Hf) Hj).
Qed.

End daemon.

(** ** Concrete inputs *)

Section witnesses.
Import Policy.Examples Store.Examples Signing.Examples Transport.Examples Erasure.Examples.

#[local] Existing Instances coarse_math list_algebra System.printed Providers.identity_hash Handlers.utc Handlers.plain_decode.
#[local] Instance rounded_floats : JSONFloats := λ _, None.
#[local] Instance plain_url_errors : URLErrors := λ _, Errorf "invalid URL".

Definition stopped (cfg : Config) : Node :=
  {| n_Cfg := cfg; n_Host := Some "A"; n_DHT := None; n_Metrics := false; n_PathManager := None;
     n_ContentStore := None; n_ContentRouter := None; n_BlockCache := None; n_ReplicationTracker := None;
     n_PeerBlooms := None; n_cancel := false; n_mdns := false; n_startedAt := None |}.

(** A daemon with one file to publish, ["/home/abc"]. *)
Definition calm_day : surroundings :=
  {| su_node := stopped two_byte_chunks;
     su_view := {| nv_peers := []; nv_conns := λ _, []; nv_protocols := λ _, Ok []; nv_addrs := [] |};
     su_now := 0; su_orders := λ _, id_order; su_hour := 0; su_rng := constant_rng f0; su_privKey := seed;
     su_readFile := λ p, if decide (p = "/home/abc") then Ok three_bytes else Err (Errorf "no such file");
     su_block_faults := λ _ _, None; su_manifest_fault := λ _, None; su_manifest_read := None; su_read_faults := λ _, None;
     su_write_faults := λ _ _, None; su_lock := λ _, true; su_took := λ _, Some 0; su_pin_fault := None; su_network := λ _, offline; su_sched := λ _, rounds_of_four;
     su_router := Some Providers.dht_ab;
     su_pings := Handlers.steps0 |}.

Lemma calm_day_calm : calm all_whole calm_day.
Proof.
  split; [by intros ? ? ?|by intros ? ?| |by intros ? ? ?].
  intros p data. cbn. case_decide; [|done]. intros [= <-]. unfold int64_ok. simpl. lia.
Qed.

Definition daemon0 (st : Serving) (rq : http_request) : blocking http_response * Serving :=
  daemon (E := keyed_hash) (λ b, b) calm_day st rq.
Definition abc_request : http_request := publish_request ["home"] "abc".
Definition published_abc : Serving := snd (daemon0 idle abc_request).

Lemma daemon_keeps_content_witness :
  rtc (atom (E := keyed_hash) all_whole) idle published_abc ∧ content_ok (E := keyed_hash) all_whole published_abc.
Proof.
  unfold published_abc, daemon0.
  apply (daemon_keeps_content (E := keyed_hash) (λ b, b) all_whole calm_day idle abc_request); [exact calm_day_calm|apply idle_ok].
Defined.

Definition publish_output : string :=
  match runPublish (reply_to (E := keyed_hash) (λ b, b) calm_day idle) ["home"] (λ _, Ok false) "abc" with
  | Ok out => out
  | _ => ""
  end.

Lemma published_output :
  runPublish (reply_to (E := keyed_hash) (λ b, b) calm_day idle) ["home"] (λ _, Ok false) "abc" = Ok publish_output.
Proof. vm_compute. reflexivity. Qed.

(** The daemon is stopped and started before the file is fetched. *)
Definition restarted_abc : Serving := served_over (sv_disk published_abc).

Lemma restarted_steps : rtc (step (E := keyed_hash) all_whole) published_abc restarted_abc.
Proof.
  eapply rtc_l; [right|apply rtc_refl]. destruct (started_serving (sv_disk published_abc)) as [Hs Hw]; [vm_compute; reflexivity|].
  exists (env0 key_a (Ok ())), data_config, (snd (started_over (sv_disk published_abc))).
  split_and!; [vm_compute; reflexivity|exact Hs|exact Hw].
Qed.


Lemma pin_command_lasts_witness :
  runPin (reply_to (E := keyed_hash) (λ b, b) calm_day idle) "cid" = Ok (line ("Pinned: " +:+ "cid")) ∧
  ∃ s', fst (NewStore None None (sv_disk (snd (daemon0 idle (pin_request true "cid")))) base) = Ok s' ∧
    pins s' = {["cid"]} ∪ {["k"]} ∧
    ∀ su' st', sv_store st' = s' → within (10 * Second) su' pins_request → ∃ l, l ≡ₚ elements ({["cid"]} ∪ {["k"]} : gset string) ∧
      runListPins (reply_to (E := keyed_hash) (λ b, b) su' st') = Ok (pins_text l).
Proof.
  apply (pin_command_lasts (E := keyed_hash) (λ b, b) calm_day idle base true "cid").
  - split_and!; [apply segs_ok; repeat constructor|done|done|set_solver|].
    unfold idle, disk0, store0. simpl. set_solver.
  - intros c. unfold idle, store0. simpl. by intros ->%elem_of_singleton.
  - done.
  - done.
  - done.
  - by exists 0.
Defined.

Definition abc_serves : http_request → exchange := reply_to (E := keyed_hash) (λ b, b) calm_day idle.

Lemma ping_command_sends_witness :
  let sent := 5 in
  let results := fix_result <$> (ping_view <$> SendPings (Handlers.steps0 "bob") "bob" 0 (Z.to_nat sent)) in
  1 ≤ zlen results ≤ sent ∧ ((∀ j, ps_ctx (Handlers.steps0 "bob" j) = None) → zlen results = sent) ∧
  runPing abc_serves 101 "12D3KooWbob" = Ok (ping_text 101 "12D3KooWbob" results).
Proof.
  pose proof (ping_command_sends (E := keyed_hash) (λ b, b) calm_day idle 101 "12D3KooWbob" "bob" ltac:(lia) eq_refl ltac:(done)
    eq_refl) as H.
  change (101 <=? 0) with false in H. change (101 <=? 100) with false in H. cbv zeta iota in H.
  change (su_took calm_day _) with (Some 0) in H. change (101 * 5 * Second <=? 0) with false in H.
  change (30 * Second <=? 0) with false in H. change (su_pings calm_day) with Handlers.steps0 in H. exact H.
Defined.

Lemma find_command_prints_witness :
  runFind abc_serves "abc" =
  match handleFindProviders (su_router calm_day) GET "abc" with
  | Ok (Reply l) => Ok (providers_text "abc" (fix_provider <$> l))
  | Ok (HttpError code _) => Err (Errorf ("request failed with status " +:+ pretty code))
  | Err e => Err (Wrapf request_failed e)
  | Panic _ => Err (Wrapf request_failed (Errorf "EOF"))
  end.
Proof.
  apply (find_command_prints (E := keyed_hash) (λ b, b) calm_day idle "abc"); [reflexivity|by exists 0].
Defined.

Example found : handleFindProviders (su_router calm_day) GET "abc" = Ok (Reply [("12D3KooWA", []); ("12D3KooWB", [])]).
Proof. vm_compute. reflexivity. Qed.

End witnesses.
