(* ===== verification/Bench.v ===== *)
(** * The benchmark harness ([internal/bench/bench.go])

    Every experiment makes a cluster of nodes in one process, publishes random
    content on node 0, lets the other nodes fetch its blocks in turn, and
    summarises the latencies it measured.  What the network, the clock, the
    random generators and the file system answer is an argument; everything
    else, with the nodes' own stores, caches and handlers, is as in the rest
    of the library.  Suite.v repeats the experiments, Report.v writes the
    results. *)

From Stdlib Require Import Init.Byte.
From S2P Require Import Prelude Utf8 Json Codec Float64 FloatExact Runtime Path Policy Stream Probe Manager Sha256 Chunker Lru Bloom Store Stats Signing Replication Erasure BlockTransfer CacheSummary Node Fetch Providers Transport ProbeLoop Lifecycle Api Cluster.

(** ** Configurations and results *)

Record BenchConfig := {
  NodeCount : Z; ContentSize : Z; Requests : Z; ChunkSize : Z; b_Policy : string; b_Epsilon : float64;
  b_TimeSeriesDir : string                          (* empty: no series are written *)
}.

Record LatencyResult := {
  AvgLatencyMs : float64; P50LatencyMs : float64; P95LatencyMs : float64; P99LatencyMs : float64;
  MinLatencyMs : float64; MaxLatencyMs : float64; ThroughputMBs : float64; FairnessIndex : float64;
  Samples : Z; AllMs : list float64; Timestamps : list float64
}.

Record CacheResult := { CacheHits : Z; CacheMisses : Z; HitRatio : float64 }.
Record ResilienceResult := { TotalBlocks : Z; AvailableBlocks : Z; Availability : float64; NodesKilled : Z }.
Record Results := {
  res_Config : BenchConfig; res_Latency : LatencyResult; res_Cache : CacheResult; res_Resilience : ResilienceResult;
  res_TotalDuration : string
}.

(** ** The laboratory *)

(** Programs over a state: a result, an error or a panic; or, as a node waits
    for another without a deadline, nothing ever. *)
Definition Prog (S A : Type) : Type := S → blocking A * S.
#[local] Instance Prog_ret S : MRet (Prog S) := λ A a st, (now (Ok a), st).
#[local] Instance Prog_bind S : MBind (Prog S) := λ A B k m st,
  match m st with
  | (Some (Ok a), st') => k a st'
  | (Some (Err e), st') => (now (Err e), st')
  | (Some (Panic w), st') => (now (Panic w), st')
  | (None, st') => (None, st')
  end.

Definition lift {S A} (r : outcome A) : Prog S A := λ st, (now r, st).
(** The error of a call, handled by the caller. *)
Definition try_ {S A} (m : Prog S A) : Prog S (option A) := λ st,
  match m st with
  | (Some (Ok a), st') => (now (Ok (Some a)), st')
  | (Some (Err _), st') => (now (Ok None), st')
  | (Some (Panic w), st') => (now (Panic w), st')
  | (None, st') => (None, st')
  end.
Definition wrapping {S A} (ctx : string) (m : Prog S A) : Prog S A := λ st,
  let '(r, st') := m st in (wrap_err ctx <$> r, st').

Section bench.
Context `{ML : MathLib, LA : LinAlg, PID : PeerID, MF : Multiformats, JE : JSONErrors, CR : Crypto, MA : Multiaddrs}.

(** The running cluster: the disk, the nodes, the hosts an experiment has
    closed, and how many blocks were asked for over the network and how many
    calls of a node's own store were made. *)
Record Lab := {
  lab_disk : Disk; lab_nodes : list Node; lab_closed : gset Z; lab_calls : nat; lab_stores : nat
}.

(** By number of the call: whether a stream opens, the faults of a provider's
    reads, and those of a node's own store; and the fuel of the caches'
    eviction loops. *)
Record network := { nw_dial : nat → option error; nw_read : nat → fault; nw_store : nat → fault; nw_fuel : nat }.

Record Run := { r_latencies : list float64; r_stamps : list float64; r_bytes : Z; r_errors : Z }.
Definition no_run : Run := {| r_latencies := []; r_stamps := []; r_bytes := 0; r_errors := 0 |}.

(** A request of a run: its number, the node that sends it and what the run
    had come to before it and after it (in bytes and in failures). *)
Record moment := { mo_request : Z; mo_sender : Z; mo_before : Run; mo_after : Run }.

(** The clock, which may depend on the hosts that are closed: how long a
    request took, when it ended, and how long all of a run took. *)
Record timings := {
  tm_elapsed : gset Z → moment → Duration; tm_stamp : gset Z → moment → Duration; tm_total : gset Z → Run → Duration
}.

(** [math/rand] from a seed: the bytes, the floats, the Zipf numbers below 8. *)
Record random := { rd_Read : Z → nat → bytes; rd_Float64 : Z → nat → float64; rd_Zipf : Z → nat → nat }.

Abbreviation Bench := (Prog Lab).

Definition called (nodes : list Node) (st : Lab) : Lab :=
  {| lab_disk := lab_disk st; lab_nodes := nodes; lab_closed := lab_closed st; lab_calls := S (lab_calls st);
     lab_stores := lab_stores st |}.
Definition wrote (d : Disk) (st : Lab) : Lab :=
  {| lab_disk := d; lab_nodes := lab_nodes st; lab_closed := lab_closed st; lab_calls := lab_calls st;
     lab_stores := S (lab_stores st) |}.

(** [cluster.Nodes[i]] and what its handlers share. *)
Definition node_at (i : Z) : Bench Node := λ st, (now (index (lab_nodes st) i), st).
Definition node_serving (d : Disk) (n : Node) : option Serving :=
  s ← n_ContentStore n; Some {| sv_store := s; sv_disk := d; sv_cache := n_BlockCache n |}.
Definition after_serving (n : Node) (sv : Serving) : Node :=
  match sv_cache sv with Some c => set_store (sv_store sv) c n | None => n end.

(** [cluster.Nodes[i].Host.Close()] *)
Definition close_host (i : Z) : Bench unit :=
  _ ← node_at i;
  ((λ st, (now (Ok ()), {| lab_disk := lab_disk st; lab_nodes := lab_nodes st; lab_closed := {[i]} ∪ lab_closed st;
                     lab_calls := lab_calls st; lab_stores := lab_stores st |})) : Bench unit).

Context (nw : network) (tm : timings) (rd : random).

Definition host_closed : error := Errorf "host is closed".
Definition no_store_error : error := Errorf "protocols not supported".

(** The client's request reaches the handler whole, and the client reads what
    the handler wrote; it waits for a handler that never returns. *)
Definition answered (r : option (Serving * stream)) : stream_env :=
  {| env_open := None; env_write := no_faults; env_closeWrite := None; env_peer := λ _, reply_of r |}.

(** [protocol.FetchBlock] from the host of one node to another, whose handler
    answers. *)
Definition fetch_block (fetcher publisher : Z) (cid : string) : Bench Block :=
  _ ← node_at fetcher;
  pub ← node_at publisher;
  ((λ st,
    let failed e := (now (Err (Wrapf "open stream" e)), called (lab_nodes st) st) in
    if decide (fetcher ∈ lab_closed st ∨ publisher ∈ lab_closed st) then failed host_closed
    else match nw_dial nw (lab_calls st), node_serving (lab_disk st) pub with
    | Some e, _ => failed e
    | None, None => failed no_store_error
    | None, Some sv =>
        let r := BlockTransferHandler_handleStream (nw_fuel nw) (nw_read nw (lab_calls st)) sv
                   (accept no_faults (NewReader (fetch_request cid))) in
        (FetchBlock (answered r) cid,
         called match r with
                | Some (sv', _) => <[Z.to_nat publisher := after_serving pub sv']> (lab_nodes st)
                | None => lab_nodes st
                end st)
    end) : Bench Block).

(** A call of the content store of a node. *)
Definition on_store {A} (i : Z) (f : fault → Store → Disk → outcome A * Disk) : Bench A :=
  n ← node_at i;
  ((λ st, match n_ContentStore n with
          | Some s => let '(r, d') := f (nw_store nw (lab_stores st)) s (lab_disk st) in (now r, wrote d' st)
          | None => (now (Panic "nil pointer dereference"), st)
          end) : Bench A).
Definition put_block (i : Z) (b : Block) : Bench unit := on_store i (λ f s d, Store.Put f s d b).
Definition delete_block (i : Z) (cid : string) : Bench unit := on_store i (λ f s d, Store.Delete f s d cid).
Definition get_block (i : Z) (cid : string) : Bench Block := on_store i (λ f s d, (Store.Get f s d cid, d)).

Fixpoint for_each {A} (l : list A) (body : A → Bench unit) : Bench unit :=
  match l with [] => mret () | x :: l' => _ ← body x; for_each l' body end.

(** [for i := a; i < b; i++] *)
Definition ints (a b : Z) : list Z := (λ k, a + Z.of_nat k) <$> seq 0 (Z.to_nat (b - a)).

(** ** Content *)

(** Seed 42, always. *)
Definition generateTestData (size : Z) : outcome bytes :=
  if size <? 0 then Panic "makeslice: len out of range" else Ok (rd_Read rd 42 (Z.to_nat size)).

Definition publishContent (nodeIdx : Z) (data : bytes) (chunkSize : Z) : Bench (list Block * Manifest) :=
  let chunkSize := if chunkSize <=? 0 then 256 * 1024 else chunkSize in
  blocks ← lift (Chunk (NewReader data) chunkSize);
  _ ← for_each blocks (put_block nodeIdx);
  let manifest := BuildManifest "bench-data" (zlen data) blocks in
  _ ← on_store nodeIdx (λ f s d, PutManifest f s d manifest);
  mret (blocks, manifest).

(** Errors are ignored. *)
Definition replicate_to_all (n : Z) (blocks : list Block) : Bench unit :=
  for_each (ints 1 n) (λ i, for_each blocks (λ b, _ ← try_ (put_block i b); mret ())).

(** ** Requests and their latencies *)

Definition count_fetch (r : option Block) (acc : Run) : Run :=
  match r with
  | Some b => {| r_latencies := r_latencies acc; r_stamps := r_stamps acc;
                 r_bytes := wrap64 (r_bytes acc + zlen (Data b)); r_errors := r_errors acc |}
  | None => {| r_latencies := r_latencies acc; r_stamps := r_stamps acc; r_bytes := r_bytes acc;
               r_errors := wrap64 (r_errors acc + 1) |}
  end.

(** All chunks, from node 0. *)
Fixpoint fetch_all (fetcher : Z) (cids : list string) (acc : Run) : Bench Run :=
  match cids with
  | [] => mret acc
  | cid :: cids' =>
      r ← try_ (fetch_block fetcher 0 cid);
      fetch_all fetcher cids' (count_fetch r acc)
  end.

(** Request [i] of node [f] is over. *)
Definition timed (i f : Z) (before after : Run) : Bench Run := λ st,
  let m := {| mo_request := i; mo_sender := f; mo_before := before; mo_after := after |} in
  (now (Ok {| r_latencies := r_latencies after ++ [of_int (Z.quot (tm_elapsed tm (lab_closed st) m) Millisecond)];
              r_stamps := r_stamps after ++ [Seconds (tm_stamp tm (lab_closed st) m)];
              r_bytes := r_bytes after; r_errors := r_errors after |}), st).

(** The requests [i], [i + 1], ...: what happens before one, and who sends
    it. *)
Fixpoint requests (before : Z → Bench unit) (fetcherIdx : Z → outcome Z) (cids : list string) (i : Z) (todo : nat)
    (acc : Run) : Bench Run :=
  match todo with
  | O => mret acc
  | S todo' =>
      _ ← before i;
      f ← lift (fetcherIdx i);
      _ ← node_at f;
      acc' ← fetch_all f cids acc;
      acc'' ← timed i f acc acc';
      requests before fetcherIdx cids (i + 1) todo' acc''
  end.

Definition nothing : Z → Bench unit := λ _, mret ().

(** Go's remainder. *)
Definition modulo (a b : Z) : outcome Z := if b =? 0 then Panic "integer divide by zero" else Ok (Z.rem a b).
(** Every node but node 0 in turn. *)
Definition in_turn (nodeCount i : Z) : outcome Z := r ← modulo i (nodeCount - 1); Ok (r + 1).

(** [sort.Float64s] of milliseconds, of which equal ones are the same. *)
Definition sort_floats (l : list float64) : list float64 := foldr (insert_sorted (λ x y, fle x y)) [] l.

Definition latency_result (total : Duration) (r : Run) : outcome LatencyResult :=
  let latencies := r_latencies r in
  let sorted := sort_floats latencies in
  let secs := Seconds total in
  let throughput := if fgt secs f0 then fdiv (fdiv (of_int (r_bytes r)) secs) (of_int (1024 * 1024)) else f0 in
  let result lo hi p50 p95 p99 avg :=
    {| AvgLatencyMs := avg; P50LatencyMs := p50; P95LatencyMs := p95; P99LatencyMs := p99; MinLatencyMs := lo;
       MaxLatencyMs := hi; ThroughputMBs := throughput; FairnessIndex := jainFairness latencies;
       Samples := zlen latencies; AllMs := latencies; Timestamps := r_stamps r |} in
  if decide (latencies = []) then Ok (result f0 f0 f0 f0 f0 f0)
  else
    lo ← index sorted 0;
    hi ← index sorted (zlen sorted - 1);
    p50 ← percentile sorted (lit 50 100);
    p95 ← percentile sorted (lit 95 100);
    p99 ← percentile sorted (lit 99 100);
    Ok (result lo hi p50 p95 p99 (fdiv (sum_of latencies) (of_int (zlen latencies)))).

(** The total is taken when the last request is over. *)
Definition measured (r : Run) : Bench LatencyResult := λ st,
  (now (latency_result (tm_total tm (lab_closed st) r) r), st).

(** ** The experiments on one cluster *)

Definition runLatencyBenchWithCluster (cfg : BenchConfig) : Bench LatencyResult :=
  testData ← lift (generateTestData (ContentSize cfg));
  '(_, manifest) ← wrapping "publish" (publishContent 0 testData (ChunkSize cfg));
  r ← requests nothing (in_turn (NodeCount cfg)) (ChunkCIDs manifest) 0 (Z.to_nat (Requests cfg)) no_run;
  measured r.

Definition numItems : Z := 8.

(** Eight contents, "to compete for the cache". *)
Fixpoint publish_items (cfg : BenchConfig) (i : Z) (todo : nat) : Bench (list (list string)) :=
  match todo with
  | O => mret []
  | S todo' =>
      testData ← lift (generateTestData (Z.quot (ContentSize cfg) numItems));
      '(_, manifest) ← wrapping ("publish item " +:+ pretty i) (publishContent 0 testData (ChunkSize cfg));
      rest ← publish_items cfg (i + 1) todo';
      mret (ChunkCIDs manifest :: rest)
  end.

Fixpoint popular_requests (cfg : BenchConfig) (items : list (list string)) (i : Z) (todo : nat) : Bench unit :=
  match todo with
  | O => mret ()
  | S todo' =>
      f ← lift (in_turn (NodeCount cfg) i);
      _ ← node_at f;
      cids ← lift (index items (Z.of_nat (rd_Zipf rd 42 (Z.to_nat i))));
      _ ← fetch_all f cids no_run;
      popular_requests cfg items (i + 1) todo'
  end.

Definition runCacheBenchWithCluster (cfg : BenchConfig) : Bench CacheResult :=
  items ← publish_items cfg 0 (Z.to_nat numItems);
  let numRequests := if Requests cfg <? 20 then 50 else Requests cfg in
  _ ← popular_requests cfg items 0 (Z.to_nat numRequests);
  n ← node_at 0;
  match n_BlockCache n with
  | None => lift (Panic "nil pointer dereference")
  | Some c =>
      let total := wrap64 (hits c + misses c) in
      mret {| CacheHits := hits c; CacheMisses := misses c;
              HitRatio := if 0 <? total then fdiv (of_int (hits c)) (of_int total) else f0 |}
  end.

(** The highest nodes, but never node 0. *)
Definition highest (n count : Z) : list Z := rev (ints (Z.max 1 (n - count)) n).

(** A block counts as available if node 0 has it, or one of the nodes
    1, ..., [m] - 1 serves it. *)
Fixpoint served_by_any (cid : string) (js : list Z) : Bench bool :=
  match js with
  | [] => mret false
  | j :: js' => r ← try_ (fetch_block 0 j cid);
                match r with Some _ => mret true | None => served_by_any cid js' end
  end.

Fixpoint count_available (m : Z) (blocks : list Block) (acc : Z) : Bench Z :=
  match blocks with
  | [] => mret acc
  | b :: blocks' =>
      own ← try_ (get_block 0 (CID b));
      found ← (match own with Some _ => mret true | None => served_by_any (CID b) (ints 1 m) end);
      count_available m blocks' (if found : bool then acc + 1 else acc)
  end.

Definition resilience (cfg : BenchConfig) (kill : list Z → Bench unit) : Bench ResilienceResult :=
  testData ← lift (generateTestData (ContentSize cfg));
  '(blocks, _) ← wrapping "publish" (publishContent 0 testData (ChunkSize cfg));
  _ ← replicate_to_all (NodeCount cfg) blocks;
  let killed := highest (NodeCount cfg) (Z.max 1 (Z.quot (NodeCount cfg) 3)) in
  _ ← kill killed;
  available ← count_available (NodeCount cfg - zlen killed) blocks 0;
  mret {| TotalBlocks := zlen blocks; AvailableBlocks := available; NodesKilled := zlen killed;
          Availability := if decide (blocks = []) then f0 else fdiv (of_int available) (of_int (zlen blocks)) |}.

Definition runResilience (cfg : BenchConfig) : Bench ResilienceResult :=
  resilience cfg (λ killed, for_each killed close_host).

(** ** Fault injection *)

Definition availability (requests_ chunks errors : Z) : float64 :=
  let total := wrap64 (requests_ * chunks) in
  fdiv (of_int (wrap64 (total - errors))) (of_int total).

(** Content that every node holds. *)
Definition publish_everywhere (cfg : BenchConfig) : Bench Manifest :=
  testData ← lift (generateTestData (ContentSize cfg));
  '(_, manifest) ← wrapping "publish" (publishContent 0 testData (ChunkSize cfg));
  again ← try_ (publishContent 0 testData (ChunkSize cfg));
  _ ← replicate_to_all (NodeCount cfg) (match again with Some (blocks, _) => blocks | None => [] end);
  mret manifest.

(** A third of the nodes is closed before request [Requests / 2]. *)
Definition kill_count (n : Z) : Z := Z.max 1 (Z.quot n 3).
Definition kill_before (cfg : BenchConfig) (i : Z) : Bench unit :=
  if i =? Z.quot (Requests cfg) 2
  then for_each (highest (NodeCount cfg) (kill_count (NodeCount cfg))) close_host
  else mret ().
Definition kill_fetcher (cfg : BenchConfig) (i : Z) : outcome Z :=
  r ← modulo i (Z.max 1 (NodeCount cfg - 1 - kill_count (NodeCount cfg))); Ok (r + 1).

Definition node_kill (cfg : BenchConfig) (before : Z → Bench unit) : Bench (LatencyResult * float64 * Z) :=
  manifest ← publish_everywhere cfg;
  r ← requests before (kill_fetcher cfg) (ChunkCIDs manifest) 0 (Z.to_nat (Requests cfg)) no_run;
  result ← measured r;
  mret (result, if 0 <? Requests cfg then availability (Requests cfg) (zlen (ChunkCIDs manifest)) (r_errors r)
                else f1, r_errors r).
Definition runNodeKill (cfg : BenchConfig) : Bench (LatencyResult * float64 * Z) := node_kill cfg (kill_before cfg).

(** The first nodes are closed every 25 requests. *)
Definition churn_nodes (n : Z) : Z := Z.min 2 (n - 2).
Definition churn_before (cfg : BenchConfig) (i : Z) : Bench unit :=
  if (0 <? churn_nodes (NodeCount cfg)) && (0 <? i) && (Z.rem i 25 =? 0)
  then for_each (ints 1 (churn_nodes (NodeCount cfg) + 1)) close_host
  else mret ().
Definition churn_fetcher (cfg : BenchConfig) (i : Z) : outcome Z :=
  r ← modulo i (NodeCount cfg - 1 - churn_nodes (NodeCount cfg));
  let f := r + churn_nodes (NodeCount cfg) + 1 in
  Ok (if NodeCount cfg <=? f then 1 else f).

Definition churn (cfg : BenchConfig) (before : Z → Bench unit) : Bench (LatencyResult * float64 * Z) :=
  manifest ← publish_everywhere cfg;
  r ← requests before (churn_fetcher cfg) (ChunkCIDs manifest) 0 (Z.to_nat (Requests cfg)) no_run;
  result ← measured r;
  mret (result, f1, r_errors r).
Definition runChurn (cfg : BenchConfig) : Bench (LatencyResult * float64 * Z) := churn cfg (churn_before cfg).

(** Blocks are deleted from all nodes but node 0: draw [k] decides about the
    [k]-th. *)
Fixpoint lose_blocks (i : Z) (blocks : list Block) (k : nat) : Bench nat :=
  match blocks with
  | [] => mret k
  | b :: blocks' =>
      _ ← (if flt (rd_Float64 rd 99 k) (lit 1 2) then _ ← try_ (delete_block i (CID b)); mret () else mret ());
      lose_blocks i blocks' (S k)
  end.
Fixpoint lose_on_nodes (others : list Z) (blocks : list Block) (k : nat) : Bench unit :=
  match others with
  | [] => mret ()
  | i :: others' => k' ← lose_blocks i blocks k; lose_on_nodes others' blocks k'
  end.

Definition data_loss (cfg : BenchConfig) (lose : list Block → Bench unit) : Bench (LatencyResult * float64 * Z) :=
  testData ← lift (generateTestData (ContentSize cfg));
  '(blocks, manifest) ← wrapping "publish" (publishContent 0 testData (ChunkSize cfg));
  _ ← replicate_to_all (NodeCount cfg) blocks;
  _ ← lose blocks;
  r ← requests nothing (in_turn (NodeCount cfg)) (ChunkCIDs manifest) 0 (Z.to_nat (Requests cfg)) no_run;
  result ← measured r;
  let total := wrap64 (Requests cfg * zlen (ChunkCIDs manifest)) in
  mret (result, if 0 <? total then availability (Requests cfg) (zlen (ChunkCIDs manifest)) (r_errors r) else f1,
        r_errors r).
Definition runDataLoss (cfg : BenchConfig) : Bench (LatencyResult * float64 * Z) :=
  data_loss cfg (λ blocks, lose_on_nodes (ints 1 (NodeCount cfg)) blocks 0).

Definition runClean (cfg : BenchConfig) : Bench (LatencyResult * float64 * Z) :=
  result ← runLatencyBenchWithCluster cfg; mret (result, f1, 0).

End bench.

(** ** Closing hosts nobody talks to *)

Section equivalence.
Context `{ML : MathLib, LA : LinAlg, PID : PeerID, MF : Multiformats, JE : JSONErrors, CR : Crypto, MA : Multiaddrs}.
Context (nw : network) (tm : timings) (rd : random).
Abbreviation Bench := (Prog Lab).
#[local] Existing Instances Prog_ret Prog_bind.

(** The closed hosts take no time from the requests of the others. *)
Definition unaware : Prop :=
  ∀ K K', (∀ m, tm_elapsed tm K m = tm_elapsed tm K' m ∧ tm_stamp tm K m = tm_stamp tm K' m) ∧
          ∀ r, tm_total tm K r = tm_total tm K' r.

(** Two laboratories of [n] nodes that differ at most in which hosts of [K]
    are closed. *)
Record alike (n : Z) (K : gset Z) (st st' : Lab) : Prop := {
  al_disk : lab_disk st = lab_disk st';
  al_nodes : lab_nodes st = lab_nodes st';
  al_calls : lab_calls st = lab_calls st';
  al_stores : lab_stores st = lab_stores st';
  al_count : zlen (lab_nodes st) = n;
  al_closed : ∀ i, i ∉ K → i ∈ lab_closed st ↔ i ∈ lab_closed st'
}.

(** Two programs that cannot tell such laboratories apart. *)
Definition indifferent (n : Z) (K : gset Z) {A} (m m' : Bench A) : Prop :=
  ∀ st st', alike n K st st' → fst (m st) = fst (m' st') ∧ alike n K (snd (m st)) (snd (m' st')).

Section programs.
Context (n : Z) (K : gset Z).

Lemma ind_bind {A B} (m m' : Bench A) (k k' : A → Bench B) :
  indifferent n K m m' → (∀ a, indifferent n K (k a) (k' a)) → indifferent n K (m ≫= k) (m' ≫= k').
Proof.
  intros Hm Hk st st' Hst. destruct (Hm st st' Hst) as [Hr Ht]. unfold mbind, Prog_bind.
  destruct (m st) as [r t], (m' st') as [r' t']; simpl in Hr, Ht; subst r'.
  destruct r as [[a|e|w]|]; [by apply Hk|done..].
Qed.

Lemma ind_ret {A} (a : A) : indifferent n K (mret a) (mret a).
Proof. by intros st st' Hst. Qed.

Lemma ind_lift {A} (r : outcome A) : indifferent n K (lift r) (lift r).
Proof. by intros st st' Hst. Qed.

Lemma ind_bind_lift {A B} (r : outcome A) (k k' : A → Bench B) :
  (∀ a, r = Ok a → indifferent n K (k a) (k' a)) → indifferent n K (lift r ≫= k) (lift r ≫= k').
Proof. intros Hk st st' Hst. destruct r as [a|e|w]; [by apply (Hk a eq_refl)|done|done]. Qed.

Lemma ind_try {A} (m m' : Bench A) : indifferent n K m m' → indifferent n K (try_ m) (try_ m').
Proof.
  intros Hm st st' Hst. destruct (Hm st st' Hst) as [Hr Ht]. unfold try_.
  destruct (m st) as [r t], (m' st') as [r' t']; simpl in Hr, Ht; subst r'. by destruct r as [[]|].
Qed.

Lemma ind_wrapping {A} ctx (m m' : Bench A) : indifferent n K m m' → indifferent n K (wrapping ctx m) (wrapping ctx m').
Proof.
  intros Hm st st' Hst. destruct (Hm st st' Hst) as [Hr Ht]. unfold wrapping.
  destruct (m st) as [r t], (m' st') as [r' t']; simpl in Hr, Ht; by subst r'.
Qed.

Lemma ind_node_at i : indifferent n K (node_at i) (node_at i).
Proof. intros st st' Hst. split; [|done]. unfold node_at. simpl. by rewrite (al_nodes _ _ _ _ Hst). Qed.

Lemma ind_on_store {A} i (f : fault → Store → Disk → outcome A * Disk) :
  indifferent n K (on_store nw i f) (on_store nw i f).
Proof.
  apply ind_bind; [apply ind_node_at|]. intros nd st st' [Hd Hn Hc Hs Hl Hk].
  destruct (n_ContentStore nd) as [s|]; [|split; [done|by constructor]].
  rewrite Hs, Hd. destruct (f _ s _) as [r d']. split; [done|]. by constructor; simpl; rewrite ?Hs.
Qed.

Lemma ind_for_each {A} (l : list A) (f f' : A → Bench unit) :
  (∀ x, x ∈ l → indifferent n K (f x) (f' x)) → indifferent n K (for_each l f) (for_each l f').
Proof.
  induction l as [|x l IH]; intros Hf; [apply ind_ret|]. cbn [for_each].
  apply ind_bind; [apply Hf; by left|]. intros _. apply IH. intros y Hy. apply Hf. by right.
Qed.

(** Closing a host of [K] is as good as closing none. *)
Lemma ind_close i : i ∈ K → 0 ≤ i < n → indifferent n K (close_host i) (mret ()).
Proof.
  intros Hi Hb st st' [Hd Hn Hc Hs Hl Hk]. unfold close_host, node_at, mbind, Prog_bind, index.
  rewrite (proj2 (Z.ltb_ge i 0)) by lia. destruct (lookup_lt_is_Some_2 (lab_nodes st) (Z.to_nat i)) as [nd ->]; [lia|].
  split; [done|]. constructor; simpl; try done. intros j Hj. rewrite <-(Hk j Hj). set_solver.
Qed.

Lemma ind_close_all l :
  Forall (λ i, i ∈ K ∧ 0 ≤ i < n) l → indifferent n K (for_each l close_host) (mret ()).
Proof.
  induction 1 as [|i l [Hi Hb] _ IH]; [apply ind_ret|]. cbn [for_each].
  intros st st' Hst. destruct (ind_close i Hi Hb st st' Hst) as [Hr Ht]. unfold mbind, Prog_bind.
  destruct (close_host i st) as [r t]. simpl in Hr, Ht. subst r. by apply IH.
Qed.

Lemma zlen_insert {A} i (x : A) l : zlen (<[i:=x]> l) = zlen l.
Proof. by rewrite length_insert. Qed.

Lemma ind_fetch f p cid : f ∉ K → p ∉ K → indifferent n K (fetch_block nw f p cid) (fetch_block nw f p cid).
Proof.
  intros Hf Hp. apply ind_bind; [apply ind_node_at|]. intros _. apply ind_bind; [apply ind_node_at|].
  intros pub st st' [Hd Hn Hc Hs Hl Hk].
  assert (alike n K (called (lab_nodes st) st) (called (lab_nodes st') st')) as Hcalled.
  { constructor; simpl; by rewrite ?Hc. }
  destruct (decide _) as [H1|H1], (decide (f ∈ lab_closed st' ∨ _)) as [H2|H2];
    [done|exfalso; apply H2|exfalso; apply H1|]; rewrite ?(Hk _ Hf), ?(Hk _ Hp) in *; try done.
  rewrite Hc, Hd. destruct (nw_dial nw _) as [e|]; [done|].
  destruct (node_serving _ pub) as [sv|]; [|done].
  destruct (BlockTransferHandler_handleStream _ _ sv _) as [[sv' s']|]; split; try done.
  constructor; simpl; rewrite ?Hn, ?Hc; try done. rewrite zlen_insert. by rewrite <-Hn.
Qed.

Lemma ind_publish i data chunkSize :
  indifferent n K (publishContent nw i data chunkSize) (publishContent nw i data chunkSize).
Proof.
  apply ind_bind; [apply ind_lift|]. intros blocks. apply ind_bind.
  - apply ind_for_each. intros b _. apply ind_on_store.
  - intros _. apply ind_bind; [apply ind_on_store|]. intros _. apply ind_ret.
Qed.

Lemma ind_replicate k blocks : indifferent n K (replicate_to_all nw k blocks) (replicate_to_all nw k blocks).
Proof.
  apply ind_for_each. intros i _. apply ind_for_each. intros b _.
  apply ind_bind; [apply ind_try, ind_on_store|]. intros _. apply ind_ret.
Qed.

Lemma ind_publish_everywhere cfg : indifferent n K (publish_everywhere nw rd cfg) (publish_everywhere nw rd cfg).
Proof.
  apply ind_bind; [apply ind_lift|]. intros data. apply ind_bind; [apply ind_wrapping, ind_publish|]. intros [bs m].
  apply ind_bind; [apply ind_try, ind_publish|]. intros again. apply ind_bind; [apply ind_replicate|].
  intros _. apply ind_ret.
Qed.

Lemma ind_fetch_all f cids acc : f ∉ K → 0 ∉ K → indifferent n K (fetch_all nw f cids acc) (fetch_all nw f cids acc).
Proof.
  intros Hf H0. revert acc. induction cids as [|cid cids IH]; intros acc; [apply ind_ret|]. cbn [fetch_all].
  apply ind_bind; [by apply ind_try, ind_fetch|]. intros r. apply IH.
Qed.

Lemma ind_timed i f acc acc' : unaware → indifferent n K (timed tm i f acc acc') (timed tm i f acc acc').
Proof.
  intros Hu st st' Hst. split; [|done]. destruct (Hu (lab_closed st) (lab_closed st')) as [Hm _].
  unfold timed. cbn [fst]. by destruct (Hm {| mo_request := i; mo_sender := f; mo_before := acc; mo_after := acc' |}) as [-> ->].
Qed.

Lemma ind_measured r : unaware → indifferent n K (measured tm r) (measured tm r).
Proof.
  intros Hu st st' Hst. split; [|done]. destruct (Hu (lab_closed st) (lab_closed st')) as [_ Ht].
  unfold measured. cbn [fst]. by rewrite Ht.
Qed.

Lemma ind_requests before before' fetcher cids i todo acc :
  unaware → 0 ∉ K → 0 ≤ i → (∀ j, 0 ≤ j → indifferent n K (before j) (before' j)) →
  (∀ j f, 0 ≤ j → fetcher j = Ok f → f ∉ K) →
  indifferent n K (requests nw tm before fetcher cids i todo acc) (requests nw tm before' fetcher cids i todo acc).
Proof.
  intros Hu H0 Hi Hb Hf. revert i acc Hi. induction todo as [|todo IH]; intros i acc Hi; [apply ind_ret|].
  cbn [requests]. apply ind_bind; [by apply Hb|]. intros _.
  apply ind_bind_lift. intros f Ef. apply ind_bind; [apply ind_node_at|]. intros _.
  apply ind_bind; [apply ind_fetch_all; [by eapply Hf|done]|]. intros acc'.
  apply ind_bind; [by apply ind_timed|]. intros acc''. apply IH. lia.
Qed.

End programs.

Lemma elem_of_ints a b i : i ∈ ints a b ↔ a ≤ i < b.
Proof.
  unfold ints. rewrite list_elem_of_fmap. split.
  - intros (k & -> & Hk%elem_of_seq). lia.
  - intros Hi. exists (Z.to_nat (i - a)). split; [lia|]. apply elem_of_seq. lia.
Qed.

Lemma elem_of_highest n count i : i ∈ highest n count ↔ Z.max 1 (n - count) ≤ i < n.
Proof. unfold highest. rewrite list_elem_of_In, <-in_rev, <-list_elem_of_In. apply elem_of_ints. Qed.

Lemma kill_count_bounds n : 3 ≤ n → 1 ≤ kill_count n ≤ n - 2.
Proof. intros Hn. unfold kill_count. Z.to_euclidean_division_equations; lia. Qed.

Lemma modulo_Ok a b r : modulo a b = Ok r → 0 ≤ a → 0 < b → 0 ≤ r < b.
Proof. unfold modulo. destruct (Z.eqb_spec b 0); [done|]. intros [= <-] Ha Hb. apply Z.rem_bound_pos; lia. Qed.

Lemma ind_node_kill cfg : unaware → 3 ≤ NodeCount cfg →
  ∃ K, indifferent (NodeCount cfg) K (runNodeKill nw tm rd cfg) (node_kill nw tm rd cfg nothing).
Proof.
  intros Hu Hn. pose proof (kill_count_bounds _ Hn) as Hkc. set (kc := kill_count (NodeCount cfg)) in *.
  set (K := list_to_set (highest (NodeCount cfg) kc) : gset Z). exists K.
  assert (∀ i, i ∈ K ↔ NodeCount cfg - kc ≤ i < NodeCount cfg) as HK.
  { intros i. subst K. rewrite elem_of_list_to_set, elem_of_highest. lia. }
  apply ind_bind; [apply ind_publish_everywhere|]. intros m. apply ind_bind.
  - apply ind_requests; [done|rewrite HK; lia|lia| |].
    + intros j _. unfold kill_before. case_match; [|apply ind_ret]. apply ind_close_all, Forall_forall.
      intros i Hi. rewrite HK. revert Hi. rewrite elem_of_highest. fold kc. lia.
    + intros j f Hj (r & Hr%modulo_Ok & [= <-])%bind_Ok_inv; rewrite ?HK; fold kc in Hr |- *; lia.
  - intros r. apply ind_bind; [by apply ind_measured|]. intros. apply ind_ret.
Qed.

Lemma ind_churn cfg : unaware → 3 ≤ NodeCount cfg →
  ∃ K, indifferent (NodeCount cfg) K (runChurn nw tm rd cfg) (churn nw tm rd cfg nothing).
Proof.
  intros Hu Hn. set (cn := churn_nodes (NodeCount cfg)).
  assert (1 ≤ cn ≤ NodeCount cfg - 2) as Hcn by (subst cn; unfold churn_nodes; lia).
  set (K := list_to_set (ints 1 (cn + 1)) : gset Z). exists K.
  assert (∀ i, i ∈ K ↔ 1 ≤ i < cn + 1) as HK.
  { intros i. subst K. by rewrite elem_of_list_to_set, elem_of_ints. }
  apply ind_bind; [apply ind_publish_everywhere|]. intros m. apply ind_bind.
  - apply ind_requests; [done|rewrite HK; lia|lia| |].
    + intros j _. unfold churn_before. case_match; [|apply ind_ret]. apply ind_close_all, Forall_forall.
      intros i Hi. rewrite HK. revert Hi. fold cn. rewrite elem_of_ints. lia.
    + intros j f Hj (r & Hr%modulo_Ok & Hf)%bind_Ok_inv; [|lia|fold cn; lia]. cbv zeta in Hf; fold cn in Hr, Hf.
      destruct (Z.leb_spec (NodeCount cfg) (r + cn + 1)); [lia|]. injection Hf as <-. intros Hin%HK. lia.
  - intros r. apply ind_bind; [by apply ind_measured|]. intros. apply ind_ret.
Qed.

(** What [indifferent] says of one laboratory. *)
Lemma ind_result {A} n K (m m' : Bench A) st :
  indifferent n K m m' → zlen (lab_nodes st) = n →
  fst (m st) = fst (m' st) ∧ lab_disk (snd (m st)) = lab_disk (snd (m' st)) ∧ lab_nodes (snd (m st)) = lab_nodes (snd (m' st)).
Proof. intros H Hl. destruct (H st st) as [Hr []]; [by constructor|done]. Qed.

Lemma length_ints a b : a ≤ b → zlen (ints a b) = b - a.
Proof. intros Hab. unfold ints. rewrite length_fmap, length_seq. lia. Qed.

Lemma length_highest n count : 0 ≤ count < n → zlen (highest n count) = count.
Proof. intros Hc. unfold highest. rewrite length_rev, length_ints; lia. Qed.

Lemma ind_served_by_any n K cid js :
  0 ∉ K → Forall (λ j, j ∉ K) js → indifferent n K (served_by_any nw cid js) (served_by_any nw cid js).
Proof.
  intros H0. induction 1 as [|j js Hj _ IH]; [apply ind_ret|]. cbn [served_by_any].
  apply ind_bind; [by apply ind_try, ind_fetch|]. intros [b|]; [apply ind_ret|apply IH].
Qed.

Lemma ind_count_available n K m blocks acc :
  0 ∉ K → (∀ j, 1 ≤ j < m → j ∉ K) →
  indifferent n K (count_available nw m blocks acc) (count_available nw m blocks acc).
Proof.
  intros H0 Hm. revert acc. induction blocks as [|b bs IH]; intros acc; [apply ind_ret|]. cbn [count_available].
  apply ind_bind; [apply ind_try, ind_on_store|]. intros own. apply ind_bind; [|intros found; apply IH].
  destruct own; [apply ind_ret|]. apply ind_served_by_any; [done|]. apply Forall_forall. intros j Hj%elem_of_ints. by apply Hm.
Qed.

Lemma ind_resilience cfg : 3 ≤ NodeCount cfg →
  ∃ K, indifferent (NodeCount cfg) K (runResilience nw rd cfg) (resilience nw rd cfg (λ _, mret ())).
Proof.
  intros Hn. pose proof (kill_count_bounds _ Hn) as Hkc. unfold kill_count in Hkc.
  set (kc := Z.max 1 (Z.quot (NodeCount cfg) 3)) in *.
  set (K := list_to_set (highest (NodeCount cfg) kc) : gset Z). exists K.
  assert (∀ i, i ∈ K ↔ NodeCount cfg - kc ≤ i < NodeCount cfg) as HK.
  { intros i. subst K. rewrite elem_of_list_to_set, elem_of_highest. lia. }
  apply ind_bind; [apply ind_lift|]. intros data. apply ind_bind; [apply ind_wrapping, ind_publish|]. intros [bs m].
  apply ind_bind; [apply ind_replicate|]. intros _. fold kc. apply ind_bind.
  - apply ind_close_all, Forall_forall. intros i. rewrite HK, elem_of_highest. lia.
  - intros _. apply ind_bind; [|intros; apply ind_ret]. rewrite length_highest by lia.
    apply ind_count_available; intros; rewrite HK; lia.
Qed.

(** The experiment that "kills 30% of nodes mid-benchmark" measures what
    it would measure if nothing was killed.  With three nodes or more the
    nodes that are closed neither send requests nor serve them, so the
    latencies, the availability, the errors, the disk and the nodes' caches
    are those of the same run without any fault, whatever the network does, if
    the closed hosts take no time from the requests of the others. *)
Theorem runNodeKill_kills_in_vain (cfg : BenchConfig) (st : Lab) :
  unaware → 3 ≤ NodeCount cfg → zlen (lab_nodes st) = NodeCount cfg →
  let '(r, st1) := runNodeKill nw tm rd cfg st in
  let '(r', st2) := node_kill nw tm rd cfg nothing st in
  r = r' ∧ lab_disk st1 = lab_disk st2 ∧ lab_nodes st1 = lab_nodes st2.
Proof.
  intros Hu Hn Hl. rewrite (surjective_pairing (runNodeKill _ _ _ _ _)), (surjective_pairing (node_kill _ _ _ _ _ _)).
  destruct (ind_node_kill cfg Hu Hn) as [K HK]. by apply (ind_result _ K _ _ st HK).
Qed.

(** Nor does the churn experiment see the nodes it closes: with three
    nodes or more, none of them sends or serves a request, and what it
    measures is what the same run without churn measures, if the closed hosts
    take no time from the requests of the others. *)
Theorem runChurn_churns_in_vain (cfg : BenchConfig) (st : Lab) :
  unaware → 3 ≤ NodeCount cfg → zlen (lab_nodes st) = NodeCount cfg →
  let '(r, st1) := runChurn nw tm rd cfg st in
  let '(r', st2) := churn nw tm rd cfg nothing st in
  r = r' ∧ lab_disk st1 = lab_disk st2 ∧ lab_nodes st1 = lab_nodes st2.
Proof.
  intros Hu Hn Hl. rewrite (surjective_pairing (runChurn _ _ _ _ _)), (surjective_pairing (churn _ _ _ _ _ _)).
  destruct (ind_churn cfg Hu Hn) as [K HK]. by apply (ind_result _ K _ _ st HK).
Qed.

(** The resilience experiment does not depend on the nodes it kills: the
    blocks it counts as available are those it would count if all nodes were
    alive, since it reads them from node 0 and asks only nodes it did not
    close. *)
Theorem runResilience_kills_in_vain (cfg : BenchConfig) (st : Lab) :
  3 ≤ NodeCount cfg → zlen (lab_nodes st) = NodeCount cfg →
  let '(r, st1) := runResilience nw rd cfg st in
  let '(r', st2) := resilience nw rd cfg (λ _, mret ()) st in
  r = r' ∧ lab_disk st1 = lab_disk st2 ∧ lab_nodes st1 = lab_nodes st2.
Proof.
  intros Hn Hl. rewrite (surjective_pairing (runResilience _ _ _ _)), (surjective_pairing (resilience _ _ _ _ _)).
  destruct (ind_resilience cfg Hn) as [K HK]. by apply (ind_result _ K _ _ st HK).
Qed.

End equivalence.

(** ** The eight contents of the cache experiment *)

Section contents.
Context `{ML : MathLib, LA : LinAlg, PID : PeerID, MF : Multiformats, JE : JSONErrors, CR : Crypto, MA : Multiaddrs}.
Context (nw : network).
#[local] Existing Instances Prog_ret Prog_bind.

Lemma Prog_bind_inv {S A B} (m : Prog S A) (k : A → Prog S B) st b st' :
  (m ≫= k) st = (Some (Ok b), st') → ∃ a t, m st = (Some (Ok a), t) ∧ k a t = (Some (Ok b), st').
Proof. unfold mbind, Prog_bind. destruct (m st) as [[[a|e|w]|] t]; intros H; [by exists a, t|done..]. Qed.

Lemma wrapping_inv {S A} ctx (m : Prog S A) st a st' : wrapping ctx m st = (Some (Ok a), st') → m st = (Some (Ok a), st').
Proof. unfold wrapping. destruct (m st) as [[[]|]]; by intros [= <- <-]. Qed.

Lemma publishContent_CIDs i data cs st bs m st' :
  publishContent nw i data cs st = (Some (Ok (bs, m)), st') →
  Chunk (NewReader data) (if cs <=? 0 then 256 * 1024 else cs) = Ok bs ∧ ChunkCIDs m = CID <$> bs.
Proof.
  unfold publishContent. intros (bs1 & t1 & [= Hc <-] & H)%Prog_bind_inv. apply Prog_bind_inv in H as ([] & t2 & _ & H).
  apply Prog_bind_inv in H as ([] & t3 & _ & H). injection H as <- <- <-. by split.
Qed.

Lemma publish_items_same rd cfg i k st items st' :
  publish_items nw rd cfg i k st = (Some (Ok items), st') → ∃ cids, items = replicate k cids.
Proof.
  set (data := rd_Read rd 42 (Z.to_nat (Z.quot (ContentSize cfg) numItems))).
  set (chunks := Chunk (NewReader data) (if ChunkSize cfg <=? 0 then 256 * 1024 else ChunkSize cfg)).
  assert (∀ l st1 st2, publish_items nw rd cfg i k st1 = (Some (Ok l), st2) →
    l = replicate k (CID <$> default [] (match chunks with Ok bs => Some bs | _ => None end))) as H.
  { clear st st'. revert i. induction k as [|k IH]; intros i l st1 st2; [by intros [= <- _]|]. cbn [publish_items].
    intros (data' & t1 & [= Hd <-] & H)%Prog_bind_inv. unfold generateTestData in Hd. case_match; [done|].
    injection Hd as <-. fold data in H. apply Prog_bind_inv in H as ([bs m] & t2 & Hp%wrapping_inv & H).
    apply publishContent_CIDs in Hp as [Hc Hm]. fold chunks in Hc. rewrite Hc in IH |- *.
    apply Prog_bind_inv in H as (rest & t3 & Hr%IH & [= <- _]). by rewrite Hr, Hm. }
  intros Hi%H. eauto.
Qed.

(** C39: the popularity of the contents has no effect on the cache
    experiment: its eight contents "to compete for the cache" are one and the
    same, as every one is generated from seed 42, so any two sequences of Zipf
    numbers below eight give the same hits, misses and final state. *)
Theorem popularity_in_vain (rd rd' : random) (cfg : BenchConfig) (st : Lab) :
  (∀ seed n, rd_Read rd seed n = rd_Read rd' seed n) →
  (∀ seed k, (rd_Zipf rd seed k < 8)%nat) → (∀ seed k, (rd_Zipf rd' seed k < 8)%nat) →
  runCacheBenchWithCluster nw rd cfg st = runCacheBenchWithCluster nw rd' cfg st.
Proof.
  intros Hr Hz Hz'. unfold runCacheBenchWithCluster.
  assert (∀ i k st, publish_items nw rd cfg i k st = publish_items nw rd' cfg i k st) as Hp.
  { intros i k. revert i. induction k as [|k IH]; intros i st1; [done|]. cbn [publish_items].
    unfold generateTestData, mbind, Prog_bind. rewrite Hr. destruct (lift _ st1) as [[[d| |]|] t]; [|done..].
    destruct (wrapping _ _ t) as [[[[bs m]| |]|] t2]; [|done..]. by rewrite IH. }
  unfold mbind at 1, Prog_bind at 1. unfold mbind at 3, Prog_bind at 3. rewrite <-Hp.
  destruct (publish_items nw rd cfg 0 _ st) as [[[items|e|w]|] t] eqn:Eitems; [|done..].
  apply publish_items_same in Eitems as [cids ->].
  assert (∀ i k st, popular_requests nw rd cfg (replicate 8 cids) i k st =
                    popular_requests nw rd' cfg (replicate 8 cids) i k st) as Hq.
  { intros i k. revert i. induction k as [|k IH]; intros i st1; [done|]. cbn [popular_requests].
    assert (∀ z, (z < 8)%nat → index (replicate 8 cids) (Z.of_nat z) = Ok cids) as Hidx.
    { intros z Hlt. unfold index. rewrite (proj2 (Z.ltb_ge _ _)) by lia. rewrite Nat2Z.id, lookup_replicate_2 by done. done. }
    rewrite !Hidx by done. unfold mbind, Prog_bind. destruct (lift (in_turn _ _) st1) as [[[f| |]|] t1]; [|done..].
    destruct (node_at f t1) as [[[nd| |]|] t2]; [|done..]. cbn [lift now].
    destruct (fetch_all nw f cids no_run t2) as [[[r| |]|] t3]; [|done..]. apply IH. }
  unfold mbind, Prog_bind. by rewrite Hq.
Qed.

End contents.

(** ** Concrete inputs *)

Section witnesses.
Import Policy.Examples Store.Examples Transport.Examples.
#[local] Existing Instances Prog_ret Prog_bind.

#[local] Instance printed : PeerID := {| peer_String := λ p, "12D3KooW" +:+ p |}.
#[local] Existing Instances coarse_math list_algebra.

(** Three nodes that have just started. *)
Definition three_nodes : outcome cluster_result :=
  NewClusterWithOptions 4242 (λ _, env0 key_a (Ok ())) tmp_dirs 3 bench_options empty_disk.
Definition lab0 : Lab :=
  match three_nodes with
  | Ok (Made c _ d) =>
      {| lab_disk := d; lab_nodes := mb_node <$> Nodes c; lab_closed := ∅; lab_calls := 0; lab_stores := 0 |}
  | _ => {| lab_disk := empty_disk; lab_nodes := []; lab_closed := ∅; lab_calls := 0; lab_stores := 0 |}
  end.

Definition quiet : network :=
  {| nw_dial := λ _, None; nw_read := λ _, None; nw_store := λ _, None; nw_fuel := 10 |}.
Definition constant : timings :=
  {| tm_elapsed := λ _ _, 2 * Millisecond; tm_stamp := λ _ m, mo_request m * 2 * Millisecond; tm_total := λ _ _, Second |}.

Lemma constant_unaware : unaware constant.
Proof. by intros K K'. Qed.
Definition counting : random :=
  {| rd_Read := λ _ n, (λ k, default x00 (Byte.of_N (N.of_nat k))) <$> seq 0 n;
     rd_Float64 := λ _ k, if Nat.even k then f0 else lit 3 4; rd_Zipf := λ _ k, (k `mod` 8)%nat |}.
Definition unpopular : random :=
  {| rd_Read := rd_Read counting; rd_Float64 := rd_Float64 counting; rd_Zipf := λ _ _, 7%nat |}.
Definition small : BenchConfig :=
  {| NodeCount := 3; ContentSize := 8; Requests := 2; ChunkSize := 4; b_Policy := "ucb1"; b_Epsilon := f0;
     b_TimeSeriesDir := "" |}.

Lemma lab0_count : zlen (lab_nodes lab0) = 3.
Proof. vm_compute. reflexivity. Qed.

(** The run with a node killed ends without an error. *)
Example node_kill_ends :
  match fst (runNodeKill quiet constant counting small lab0) with
  | Some (Ok (l, a, errors)) => Samples l = 2 ∧ a = f1 ∧ errors = 0
  | _ => False
  end.
Proof. vm_compute. done. Qed.

Lemma runNodeKill_kills_in_vain_witness :
  let '(r, st1) := runNodeKill quiet constant counting small lab0 in
  let '(r', st2) := node_kill quiet constant counting small nothing lab0 in
  r = r' ∧ lab_disk st1 = lab_disk st2 ∧ lab_nodes st1 = lab_nodes st2.
Proof. apply (runNodeKill_kills_in_vain quiet constant counting small lab0); [apply constant_unaware|done|apply lab0_count]. Defined.

Lemma runChurn_churns_in_vain_witness :
  let '(r, st1) := runChurn quiet constant counting small lab0 in
  let '(r', st2) := churn quiet constant counting small nothing lab0 in
  r = r' ∧ lab_disk st1 = lab_disk st2 ∧ lab_nodes st1 = lab_nodes st2.
Proof. apply (runChurn_churns_in_vain quiet constant counting small lab0); [apply constant_unaware|done|apply lab0_count]. Defined.

Example everything_available :
  match fst (runResilience quiet counting small lab0) with
  | Some (Ok r) => AvailableBlocks r = 2 ∧ TotalBlocks r = 2 ∧ Availability r = f1 ∧ NodesKilled r = 1
  | _ => False
  end.
Proof. vm_compute. done. Qed.

Lemma runResilience_kills_in_vain_witness :
  let '(r, st1) := runResilience quiet counting small lab0 in
  let '(r', st2) := resilience quiet counting small (λ _, mret ()) lab0 in
  r = r' ∧ lab_disk st1 = lab_disk st2 ∧ lab_nodes st1 = lab_nodes st2.
Proof. apply (runResilience_kills_in_vain quiet counting small lab0); [done|apply lab0_count]. Defined.

(** Twenty requests for what are said to be eight contents miss once. *)
Definition twenty : BenchConfig :=
  {| NodeCount := 3; ContentSize := 8; Requests := 20; ChunkSize := 4; b_Policy := "ucb1"; b_Epsilon := f0;
     b_TimeSeriesDir := "" |}.
Example one_miss :
  match fst (runCacheBenchWithCluster quiet counting twenty lab0) with
  | Some (Ok r) => CacheHits r = 19 ∧ CacheMisses r = 1
  | _ => False
  end.
Proof. vm_compute. done. Qed.

Lemma popularity_in_vain_witness :
  runCacheBenchWithCluster quiet counting small lab0 = runCacheBenchWithCluster quiet unpopular small lab0.
Proof.
  apply (popularity_in_vain quiet counting unpopular small lab0); [done| |].
  - intros seed k. cbn [rd_Zipf counting]. apply Nat.mod_upper_bound. done.
  - intros seed k. cbn. lia.
Defined.

End witnesses.
