(* ===== verification/Suite.v ===== *)
(** * The benchmark suites ([internal/bench/bench.go])

    The suites make a cluster for every run of an experiment of Bench.v, clean
    it up, and turn the results of the runs into the rows of a table.  A run
    that fails is logged and left out.  The series of latencies of each run go
    to a file when a directory for them is named.  The logs are not modelled. *)

From S2P Require Import Prelude Utf8 Json Codec Float64 FloatExact Format Runtime Path Policy Stream Probe Manager Sha256 Chunker Lru Bloom Store Csv Stats Signing Replication Erasure BlockTransfer CacheSummary Node Fetch Providers Transport ProbeLoop Lifecycle Api Handlers Http Client Cluster Bench.

(** ** Rows *)

Record ComparisonEntry := {
  ce_Policy : string; ce_Epsilon : float64; ce_NodeCount : Z; ce_AvgLatencyMs : float64; ce_P50LatencyMs : float64;
  ce_P95LatencyMs : float64; ce_P99LatencyMs : float64; ce_ThroughputMBs : float64; ce_CacheHitRatio : float64;
  ce_Availability : float64; ce_FairnessIndex : float64; ce_StddevLatMs : float64; ce_CI95Lower : float64;
  ce_CI95Upper : float64
}.

Record AblationEntry := {
  ae_Configuration : string; ae_AvgLatencyMs : float64; ae_P95LatencyMs : float64; ae_ThroughputMBs : float64;
  ae_CacheHitRatio : float64; ae_Availability : float64; ae_FairnessIndex : float64; ae_StddevLatMs : float64;
  ae_DeltaAvgPct : float64; ae_CI95Lower : float64; ae_CI95Upper : float64
}.

Record FaultInjectionEntry := {
  fe_Scenario : string; fe_AvgLatencyMs : float64; fe_P95LatencyMs : float64; fe_Availability : float64;
  fe_ErrorCount : Z; fe_StddevLatMs : float64; fe_DeltaAvgPct : float64; fe_CI95Lower : float64;
  fe_CI95Upper : float64
}.

(** The runs of one row, none when all failed. *)
Definition comparison_entry (nodeCount : Z) (pol : string * float64) (runs : list Results) : list ComparisonEntry :=
  let over (f : Results → float64) := f <$> runs in
  let avgLats := over (λ r, AvgLatencyMs (res_Latency r)) in
  if decide (runs = []) then [] else
  [{| ce_Policy := fst pol; ce_Epsilon := snd pol; ce_NodeCount := nodeCount;
      ce_AvgLatencyMs := mean avgLats;
      ce_P50LatencyMs := mean (over (λ r, P50LatencyMs (res_Latency r)));
      ce_P95LatencyMs := mean (over (λ r, P95LatencyMs (res_Latency r)));
      ce_P99LatencyMs := mean (over (λ r, P99LatencyMs (res_Latency r)));
      ce_ThroughputMBs := mean (over (λ r, ThroughputMBs (res_Latency r)));
      ce_CacheHitRatio := mean (over (λ r, HitRatio (res_Cache r)));
      ce_Availability := mean (over (λ r, Availability (res_Resilience r)));
      ce_FairnessIndex := mean (over (λ r, FairnessIndex (res_Latency r)));
      ce_StddevLatMs := stddev avgLats;
      ce_CI95Lower := fst (confidenceInterval95 avgLats);
      ce_CI95Upper := snd (confidenceInterval95 avgLats) |}].

(** The change against the first row, in percent: the first row that has
    runs sets the baseline only when it is the first of the table. *)
Definition delta (first : bool) (baseline avg : float64) : float64 :=
  if first then f0 else if fgt baseline f0 then fmul (fdiv (fsub avg baseline) baseline) (of_int 100) else f0.

Definition ablation_entry (first : bool) (baseline : float64) (name : string) (runs : list (LatencyResult * CacheResult))
  : list AblationEntry :=
  let over (f : LatencyResult * CacheResult → float64) := f <$> runs in
  let avgLats := over (λ r, AvgLatencyMs (fst r)) in
  let avg := mean avgLats in
  if decide (runs = []) then [] else
  [{| ae_Configuration := name; ae_AvgLatencyMs := avg;
      ae_P95LatencyMs := mean (over (λ r, P95LatencyMs (fst r)));
      ae_ThroughputMBs := mean (over (λ r, ThroughputMBs (fst r)));
      ae_CacheHitRatio := mean (over (λ r, HitRatio (snd r)));
      ae_Availability := mean (over (λ _, f1));
      ae_FairnessIndex := mean (over (λ r, FairnessIndex (fst r)));
      ae_StddevLatMs := stddev avgLats;
      ae_DeltaAvgPct := delta first baseline avg;
      ae_CI95Lower := fst (confidenceInterval95 avgLats);
      ae_CI95Upper := snd (confidenceInterval95 avgLats) |}].

Definition fault_entry (first : bool) (baseline : float64) (name : string) (runs : list (LatencyResult * float64 * Z))
  : list FaultInjectionEntry :=
  let avgLats := (λ r, AvgLatencyMs (fst (fst r))) <$> runs in
  let avg := mean avgLats in
  let totalErrors := foldl (λ n r, wrap64 (n + snd r)) 0 runs in
  if decide (runs = []) then [] else
  [{| fe_Scenario := name; fe_AvgLatencyMs := avg;
      fe_P95LatencyMs := mean ((λ r, P95LatencyMs (fst (fst r))) <$> runs);
      fe_Availability := f1;
      fe_ErrorCount := Z.quot totalErrors (zlen avgLats);
      fe_StddevLatMs := stddev avgLats;
      fe_DeltaAvgPct := delta first baseline avg;
      fe_CI95Lower := fst (confidenceInterval95 avgLats);
      fe_CI95Upper := snd (confidenceInterval95 avgLats) |}].

Definition policies : list (string * float64) :=
  [("epsilon-greedy", lit 1 10); ("decaying-epsilon", f0); ("ucb1", f0); ("thompson", f0); ("contextual", f0);
   ("latency", f0); ("random", f0)].

Record ablationConfig := { ac_name : string; ac_policy : string; ac_epsilon : float64; ac_disableCache : bool;
  ac_disableBloom : bool }.

Definition full_system : string :=
  to_string (to_bytes "Full system (" ++ [Byte.xce; Byte.xb5] ++ to_bytes "-greedy)").
Definition ablation_configs : list ablationConfig :=
  [{| ac_name := full_system; ac_policy := "epsilon-greedy"; ac_epsilon := lit 1 10;
      ac_disableCache := false; ac_disableBloom := false |};
   {| ac_name := "No bandits (greedy)"; ac_policy := "latency"; ac_epsilon := f0;
      ac_disableCache := false; ac_disableBloom := false |};
   {| ac_name := "No cache"; ac_policy := "epsilon-greedy"; ac_epsilon := lit 1 10;
      ac_disableCache := true; ac_disableBloom := false |};
   {| ac_name := "No Bloom exchange"; ac_policy := "epsilon-greedy"; ac_epsilon := lit 1 10;
      ac_disableCache := false; ac_disableBloom := true |};
   {| ac_name := "Random baseline"; ac_policy := "random"; ac_epsilon := f0;
      ac_disableCache := false; ac_disableBloom := false |}].

(** ** Series of latencies *)

Definition series_header : list string := ["request_index"; "elapsed_s"; "latency_ms"].

(** A missing time is printed as zero. *)
Definition series_row (r : LatencyResult) (i : nat) (ms : float64) : list string :=
  [pretty (Z.of_nat i); FormatFixed 3 (default f0 (Timestamps r !! i)); FormatFixed 2 ms].

Definition WriteTimeSeriesCSV (f : fault) (d : Disk) (p : path) (r : LatencyResult) : outcome unit * Disk :=
  write_rows f d p (series_header :: imap (series_row r) (AllMs r)).

Definition series_name (cfg : BenchConfig) : string :=
  b_TimeSeriesDir cfg +:+ "/timeseries_" +:+ b_Policy cfg +:+ "_" +:+ pretty (NodeCount cfg) +:+ ".csv".

(** ** Clusters *)

Section suite.
Context `{ML : MathLib, LA : LinAlg, PID : PeerID, MF : Multiformats, JE : JSONErrors, CR : Crypto, MA : Multiaddrs}.
#[local] Existing Instances Prog_ret Prog_bind.

(** The machine the suites run on: how many clusters it has made, and its
    disk. *)
Record Machine := { m_made : nat; m_disk : Disk }.
Abbreviation Harness := (Prog Machine).

(** What answers the [k]-th cluster. *)
Record bed := {
  bed_pid : Z; bed_start : nat → StartEnv; bed_tmp : nat → option path; bed_close : nat → StopEnv;
  bed_net : network; bed_times : timings
}.
Context (beds : nat → bed) (rd : random).

(** The working directory; the faults of the writes of series, and the times
    whole runs take, by the number of clusters made before. *)
Record desk := { dk_cwd : path; dk_fault : nat → fault; dk_total : nat → Duration }.
Context (dk : desk).

Definition lab_of (c : Cluster) (d : Disk) : Lab :=
  {| lab_disk := d; lab_nodes := mb_node <$> Nodes c; lab_closed := ∅; lab_calls := 0; lab_stores := 0 |}.
Definition cluster_after (c : Cluster) (lab : Lab) : Cluster :=
  {| Nodes := zip_with (λ m n, {| mb_node := n; mb_trace := mb_trace m |}) (Nodes c) (lab_nodes lab);
     BasePort := BasePort c; tmpDirs := tmpDirs c |}.

(** Make a cluster, run an experiment, clean up.  An experiment that never
    ends is not cleaned up. *)
Definition with_cluster {A} (n : Z) (opts : ClusterOptions) (body : network → timings → Prog Lab A) : Harness A := λ st,
  let b := beds (m_made st) in
  let after d := {| m_made := S (m_made st); m_disk := d |} in
  match NewClusterWithOptions (bed_pid b) (bed_start b) (bed_tmp b) (Z.to_nat n) opts (m_disk st) with
  | Ok (Made c _ d) =>
      match body (bed_net b) (bed_times b) (lab_of c d) with
      | (None, lab) => (None, after (lab_disk lab))
      | (Some r, lab) => (now r, after (snd (Cleanup (bed_close b) (cluster_after c lab) (lab_disk lab))))
      end
  | Ok (NotMade _ d) => (now (Err (Errorf "failed to create cluster")), after d)
  | Err e => (now (Err e), after (m_disk st))
  | Panic w => (now (Panic w), after (m_disk st))
  end.

Definition cluster_options (policy : string) (epsilon : float64) (disableCache disableBloom : bool) : ClusterOptions :=
  {| opt_Policy := policy; opt_Epsilon := epsilon; opt_DisableMDNS := true; opt_ProbeInterval := 3 * Second;
     opt_DisableCache := disableCache; opt_DisableBloom := disableBloom |}.

Definition createBenchCluster {A} (cfg : BenchConfig) (body : network → timings → Prog Lab A) : Harness A :=
  with_cluster (NodeCount cfg) (cluster_options (b_Policy cfg) (b_Epsilon cfg) false false) body.

(** ** The suites *)

Definition runLatencyBench (cfg : BenchConfig) : Harness LatencyResult :=
  createBenchCluster cfg (λ nw tm, runLatencyBenchWithCluster nw tm rd cfg).
Definition runCacheBench (cfg : BenchConfig) : Harness CacheResult :=
  createBenchCluster cfg (λ nw _, runCacheBenchWithCluster nw rd cfg).
Definition runResilienceBench (cfg : BenchConfig) : Harness ResilienceResult :=
  if NodeCount cfg <? 3
  then mret {| TotalBlocks := 0; AvailableBlocks := 0; Availability := f0; NodesKilled := 0 |}
  else createBenchCluster cfg (λ nw _, runResilience nw rd cfg).

(** The series of a run; a failure is logged. *)
Definition write_series (cfg : BenchConfig) (lat : LatencyResult) : Harness unit := λ st,
  if decide (b_TimeSeriesDir cfg = "") then (now (Ok ()), st)
  else let '(_, d) := WriteTimeSeriesCSV (dk_fault dk (m_made st)) (m_disk st) (located (dk_cwd dk) (series_name cfg)) lat in
       (now (Ok ()), {| m_made := m_made st; m_disk := d |}).

Definition total_duration : Harness string := λ st, (now (Ok (Duration_String (dk_total dk (m_made st)))), st).

Definition RunSuite (cfg : BenchConfig) : Harness Results :=
  lat ← wrapping "latency bench" (runLatencyBench cfg);
  _ ← write_series cfg lat;
  cache ← wrapping "cache bench" (runCacheBench cfg);
  res ← wrapping "resilience bench" (runResilienceBench cfg);
  total ← total_duration;
  mret {| res_Config := cfg; res_Latency := lat; res_Cache := cache; res_Resilience := res; res_TotalDuration := total |}.

(** The results of the runs that succeed. *)
Fixpoint collect {A} (runs : nat) (m : Harness A) : Harness (list A) :=
  match runs with
  | O => mret []
  | S runs' => r ← try_ m; rest ← collect runs' m; mret (option_list r ++ rest)
  end.

Definition workload (nodeCount contentSize requests_ chunkSize : Z) (policy : string) (epsilon : float64) (dir : string)
  : BenchConfig :=
  {| NodeCount := nodeCount; ContentSize := contentSize; Requests := requests_; ChunkSize := chunkSize;
     b_Policy := policy; b_Epsilon := epsilon; b_TimeSeriesDir := dir |}.

Fixpoint compare_policies (pols : list (string * float64)) (nodeCount contentSize requests_ chunkSize : Z) (runs : nat)
    (dir : string) : Harness (list ComparisonEntry) :=
  match pols with
  | [] => mret []
  | pol :: pols' =>
      res ← collect runs (RunSuite (workload nodeCount contentSize requests_ chunkSize (fst pol) (snd pol) dir));
      rest ← compare_policies pols' nodeCount contentSize requests_ chunkSize runs dir;
      mret (comparison_entry nodeCount pol res ++ rest)
  end.

Definition RunComparisonWithRuns (nodeCount contentSize requests_ chunkSize runs : Z) (dir : string)
  : Harness (list ComparisonEntry) :=
  compare_policies policies nodeCount contentSize requests_ chunkSize (Z.to_nat (if runs <? 1 then 1 else runs)) dir.
Definition RunComparison (nodeCount contentSize requests_ chunkSize : Z) : Harness (list ComparisonEntry) :=
  RunComparisonWithRuns nodeCount contentSize requests_ chunkSize 1 "".

Fixpoint RunScalability (nodeCounts : list Z) (contentSize requests_ chunkSize runs : Z) (dir : string)
  : Harness (list ComparisonEntry) :=
  match nodeCounts with
  | [] => mret []
  | n :: ns =>
      comp ← try_ (RunComparisonWithRuns n contentSize requests_ chunkSize runs dir);
      rest ← RunScalability ns contentSize requests_ chunkSize runs dir;
      mret (default [] comp ++ rest)
  end.

(** The baseline for the rows after this one. *)
Definition baseline_of {A} (first : bool) (baseline : float64) (avg : A → float64) (row : list A) : float64 :=
  match row with e :: _ => if first then avg e else baseline | [] => baseline end.

Definition ablation_run (nodeCount contentSize requests_ chunkSize : Z) (ac : ablationConfig)
  : Harness (LatencyResult * CacheResult) :=
  let cfg := workload nodeCount contentSize requests_ chunkSize (ac_policy ac) (ac_epsilon ac) "" in
  with_cluster nodeCount (cluster_options (ac_policy ac) (ac_epsilon ac) (ac_disableCache ac) (ac_disableBloom ac))
    (λ nw tm, lat ← runLatencyBenchWithCluster nw tm rd cfg;
              cache ← runCacheBenchWithCluster nw rd cfg;
              mret (lat, cache)).

Fixpoint ablation_rows (run : ablationConfig → Harness (LatencyResult * CacheResult)) (runs : nat)
    (first : bool) (baseline : float64) (configs : list ablationConfig) : Harness (list AblationEntry) :=
  match configs with
  | [] => mret []
  | ac :: configs' =>
      res ← collect runs (run ac);
      let row := ablation_entry first baseline (ac_name ac) res in
      rest ← ablation_rows run runs false (baseline_of first baseline ae_AvgLatencyMs row) configs';
      mret (row ++ rest)
  end.

Definition RunAblation (nodeCount contentSize requests_ chunkSize runs : Z) : Harness (list AblationEntry) :=
  ablation_rows (ablation_run nodeCount contentSize requests_ chunkSize) (Z.to_nat runs) true f0 ablation_configs.

(** The scenarios share the policy. *)
Definition scenario : Type := string * (network → timings → Prog Lab (LatencyResult * float64 * Z)).
Definition scenarios (cfg : BenchConfig) : list scenario :=
  [("Clean (no faults)", λ nw tm, runClean nw tm rd cfg);
   ("Mid-run node kill (30%)", λ nw tm, runNodeKill nw tm rd cfg);
   ("High churn (cycle 2 nodes)", λ nw tm, runChurn nw tm rd cfg);
   ("Partial data loss (50%)", λ nw tm, runDataLoss nw tm rd cfg)].

Fixpoint fault_rows (cfg : BenchConfig) (runs : nat) (first : bool) (baseline : float64) (scs : list scenario)
  : Harness (list FaultInjectionEntry) :=
  match scs with
  | [] => mret []
  | (name, run) :: scs' =>
      res ← collect runs (createBenchCluster cfg run);
      let row := fault_entry first baseline name res in
      rest ← fault_rows cfg runs false (baseline_of first baseline fe_AvgLatencyMs row) scs';
      mret (row ++ rest)
  end.

Definition RunFaultInjection (nodeCount contentSize requests_ chunkSize runs : Z) : Harness (list FaultInjectionEntry) :=
  let cfg := workload nodeCount contentSize requests_ chunkSize "epsilon-greedy" (lit 1 10) "" in
  fault_rows cfg (Z.to_nat runs) true f0 (scenarios cfg).

(** ** Faults nobody meets *)

Lemma cluster_disk_after close c lab d :
  snd (Cleanup close (cluster_after c lab) d) = RemoveAll (tmpDirs c) d.
Proof. done. Qed.

(** Experiments that cannot be told apart on a cluster cannot be told apart by
    their results. *)
Lemma with_cluster_ext {A} n opts (body body' : network → timings → Prog Lab A) st :
  (∀ k nw tm lab, nw = bed_net (beds k) → tm = bed_times (beds k) → zlen (lab_nodes lab) = Z.of_nat (Z.to_nat n) →
     fst (body nw tm lab) = fst (body' nw tm lab) ∧
     lab_disk (snd (body nw tm lab)) = lab_disk (snd (body' nw tm lab))) →
  with_cluster n opts body st = with_cluster n opts body' st.
Proof.
  intros Hb. unfold with_cluster. destruct (NewClusterWithOptions _ _ _ _ _ _) as [[c l d|l d]| |] eqn:Ec; [|done..].
  assert (zlen (lab_nodes (lab_of c d)) = Z.of_nat (Z.to_nat n)) as Hl.
  { apply make_cluster_started in Ec as (_ & _ & Hl & _). unfold lab_of. cbn [lab_nodes]. rewrite length_fmap. lia. }
  destruct (Hb (m_made st) _ _ _ eq_refl eq_refl Hl) as [Hr Hd].
  destruct (body _ _ _) as [r lab], (body' _ _ _) as [r' lab']. cbn [fst snd] in *. subst r'.
  destruct r; by rewrite ?cluster_disk_after, Hd.
Qed.

Lemma collect_ext {A} k (m m' : Harness A) st : (∀ st, m st = m' st) → collect k m st = collect k m' st.
Proof.
  intros Hm. revert st. induction k as [|k IH]; intros st; [done|]. cbn [collect].
  unfold mbind, Prog_bind, try_. rewrite Hm. destruct (m' st) as [[[a|e|w]|] t]; [by rewrite IH..|done|done].
Qed.

Lemma fault_rows_ext cfg k first baseline scs scs' st :
  Forall2 (λ sc sc', fst sc = fst sc' ∧ ∀ st, createBenchCluster cfg (snd sc) st = createBenchCluster cfg (snd sc') st)
    scs scs' →
  fault_rows cfg k first baseline scs st = fault_rows cfg k first baseline scs' st.
Proof.
  intros H. revert first baseline st. induction H as [|[name run] [name' run'] scs scs' [Hn Hr] _ IH];
    intros first baseline st; [done|]. simpl in Hn, Hr. subst name'. cbn [fault_rows].
  unfold mbind at 1, Prog_bind at 1. unfold mbind at 2, Prog_bind at 2. rewrite (collect_ext _ _ _ _ Hr).
  destruct (collect k _ st) as [[[res|e|w]|] t]; [|done..]. unfold mbind, Prog_bind. by rewrite IH.
Qed.

(** The scenarios with the kills and the churn left out. *)
Definition harmless (cfg : BenchConfig) : list scenario :=
  [("Clean (no faults)", λ nw tm, runClean nw tm rd cfg);
   ("Mid-run node kill (30%)", λ nw tm, node_kill nw tm rd cfg nothing);
   ("High churn (cycle 2 nodes)", λ nw tm, churn nw tm rd cfg nothing);
   ("Partial data loss (50%)", λ nw tm, runDataLoss nw tm rd cfg)].

(** C38: the fault-injection table is the table of runs in which no node is
    killed and none leaves.  With three nodes or more, every row, every
    number in it and the disk in the end are those of the scenarios without
    their kills and their churn, whatever the network and the nodes do: the
    scenarios address only nodes they do not close.  The times are those of any
    clocks, on which the failures, the transfers, the senders and the numbers
    of the requests may have an effect, but not the hosts that are closed. *)
Theorem RunFaultInjection_kills_in_vain (nodeCount contentSize requests_ chunkSize runs : Z) (st : Machine) :
  3 ≤ nodeCount → (∀ k, unaware (bed_times (beds k))) →
  let cfg := workload nodeCount contentSize requests_ chunkSize "epsilon-greedy" (lit 1 10) "" in
  RunFaultInjection nodeCount contentSize requests_ chunkSize runs st =
  fault_rows cfg (Z.to_nat runs) true f0 (harmless cfg) st.
Proof.
  intros Hn Hu cfg. apply fault_rows_ext. repeat constructor; try done; intros st'; apply with_cluster_ext;
    intros k nw tm lab -> -> Hl; rewrite Z2Nat.id in Hl by (cbn; lia); cbn [snd].
  - destruct (ind_node_kill (bed_net (beds k)) (bed_times (beds k)) rd cfg (Hu k) Hn) as [K HK]. by destruct (ind_result _ K _ _ lab HK Hl) as (? & ? & _).
  - destruct (ind_churn (bed_net (beds k)) (bed_times (beds k)) rd cfg (Hu k) Hn) as [K HK]. by destruct (ind_result _ K _ _ lab HK Hl) as (? & ? & _).
Qed.

(** ** What the tables hold *)

Lemma collect_no_err {A} k (m : Harness A) st e t : collect k m st ≠ (Some (Err e), t).
Proof.
  revert st t. induction k as [|k IH]; intros st t; [done|]. cbn [collect]. unfold mbind, Prog_bind, try_.
  destruct (m st) as [[[a|e'|w]|] t1]; [| |done|done];
    (destruct (collect k m t1) as [[[l|e1|w1]|] t2] eqn:Ec; try done); intros [= -> ->]; by apply IH in Ec.
Qed.

Lemma collect_length {A} k (m : Harness A) st l t : collect k m st = (Some (Ok l), t) → (length l ≤ k)%nat.
Proof.
  revert st l t. induction k as [|k IH]; intros st l t; [by intros [= <- _]|]. cbn [collect].
  intros (r & t1 & _ & (rest & t2 & Hr%IH & [= <- _])%Prog_bind_inv)%Prog_bind_inv.
  rewrite length_app. destruct r; simpl; lia.
Qed.

Lemma comparison_entry_row n pol runs :
  comparison_entry n pol runs = [] ∨
  ∃ e, comparison_entry n pol runs = [e] ∧ (ce_Policy e, ce_Epsilon e, ce_NodeCount e) = (pol, n).
Proof.
  unfold comparison_entry. case_decide; [by left|right]. eexists. split; [done|]. simpl. by destruct pol.
Qed.

Lemma compare_policies_spec pols n contentSize requests_ chunkSize k dir st :
  match compare_policies pols n contentSize requests_ chunkSize k dir st with
  | (Some (Ok entries), _) =>
      ((λ e, (ce_Policy e, ce_Epsilon e)) <$> entries) `sublist_of` pols ∧ Forall (λ e, ce_NodeCount e = n) entries
  | (Some (Err _), _) => False
  | _ => True
  end.
Proof.
  revert st. induction pols as [|pol pols IH]; intros st; [by cbn; split; [constructor|]|]. cbn [compare_policies].
  unfold mbind, Prog_bind. destruct (collect k _ st) as [[[res|e|w]|] t] eqn:Ec; [|by apply collect_no_err in Ec|done|done].
  specialize (IH t). destruct (compare_policies _ _ _ _ _ _ _ t) as [[[rest|e|w]|] t2]; [|done..]. destruct IH as [IH1 IH2].
  unfold mret, Prog_ret. destruct (comparison_entry_row n pol res) as [->|(e & -> & He)]; simpl.
  - by split; [constructor|].
  - injection He as He1 He2. split; [|by constructor]. replace (ce_Policy e, ce_Epsilon e) with pol by done. by constructor.
Qed.

(** A comparison never fails: whatever happens to the runs, if it returns (a
    run that never ends keeps it waiting) it returns a
    row for each policy that had a run that succeeded, in the order of the
    seven policies and at most once each, all for the node count asked for. *)
Theorem RunComparison_rows (nodeCount contentSize requests_ chunkSize runs : Z) (dir : string) (st : Machine) :
  match fst (RunComparisonWithRuns nodeCount contentSize requests_ chunkSize runs dir st) with
  | Some (Ok entries) => ((λ e, (ce_Policy e, ce_Epsilon e)) <$> entries) `sublist_of` policies ∧
                  Forall (λ e, ce_NodeCount e = nodeCount) entries
  | Some (Err _) => False
  | _ => True
  end.
Proof.
  unfold RunComparisonWithRuns.
  pose proof (compare_policies_spec policies nodeCount contentSize requests_ chunkSize
    (Z.to_nat (if runs <? 1 then 1 else runs)) dir st) as H.
  by destruct (compare_policies _ _ _ _ _ _ _ st) as [[[]|] ?].
Qed.

Lemma fault_rows_available cfg k first baseline scs st l t :
  fault_rows cfg k first baseline scs st = (Some (Ok l), t) → Forall (λ e, fe_Availability e = f1) l.
Proof.
  revert first baseline st l t. induction scs as [|[name run] scs IH]; intros first baseline st l t; [by intros [= <- _]|].
  cbn [fault_rows]. intros (res & t1 & _ & (rest & t2 & Hr%IH & [= <- _])%Prog_bind_inv)%Prog_bind_inv.
  apply Forall_app. split; [|done]. unfold fault_entry. case_decide; [constructor|]. by repeat constructor.
Qed.

(** The table reports full availability for every scenario, whatever the
    runs measured. *)
Theorem RunFaultInjection_available (nodeCount contentSize requests_ chunkSize runs : Z) (st : Machine) :
  match fst (RunFaultInjection nodeCount contentSize requests_ chunkSize runs st) with
  | Some (Ok rows) => Forall (λ e, fe_Availability e = f1) rows
  | _ => True
  end.
Proof.
  destruct (RunFaultInjection _ _ _ _ _ st) as [[[rows| |]|] st'] eqn:Er; [|done..].
  by apply fault_rows_available in Er.
Qed.

Lemma ablation_rows_no_baseline run k configs st l t :
  ablation_rows run k false f0 configs st = (Some (Ok l), t) → Forall (λ e, ae_DeltaAvgPct e = f0) l.
Proof.
  revert st l t. induction configs as [|ac configs IH]; intros st l t; [by intros [= <- _]|].
  cbn [ablation_rows]. intros (res & t1 & _ & (rest & t2 & Hr & [= <- _])%Prog_bind_inv)%Prog_bind_inv.
  apply Forall_app. split.
  - unfold ablation_entry. case_decide; [constructor|]. repeat constructor.
  - eapply IH. rewrite <-Hr. f_equal. by destruct (ablation_entry _ _ _ _).
Qed.

Lemma ablation_rows_no_first run k ac configs st l t :
  ablation_rows run k true f0 (ac :: configs) st = (Some (Ok l), t) → Forall (λ e, ae_Configuration e ≠ ac_name ac) l →
  Forall (λ e, ae_DeltaAvgPct e = f0) l.
Proof.
  cbn [ablation_rows]. intros (res & t1 & _ & (rest & t2 & Hr & [= <- _])%Prog_bind_inv)%Prog_bind_inv [Hf _]%Forall_app.
  unfold ablation_entry in *. case_decide; [|by apply Forall_cons in Hf as [[] _]].
  by apply (ablation_rows_no_baseline _ _ _ _ _ _ Hr).
Qed.

(** Without a row for the full system no change is reported: if all its
    runs fail, the other configurations are given a change of zero percent. *)
Theorem RunAblation_no_baseline (nodeCount contentSize requests_ chunkSize runs : Z) (st : Machine) :
  match fst (RunAblation nodeCount contentSize requests_ chunkSize runs st) with
  | Some (Ok rows) => full_system ∈ (ae_Configuration <$> rows) ∨ Forall (λ e, ae_DeltaAvgPct e = f0) rows
  | _ => True
  end.
Proof.
  destruct (RunAblation _ _ _ _ _ st) as [[[rows| |]|] st'] eqn:Er; [|done..]. cbn [fst].
  destruct (decide (full_system ∈ (ae_Configuration <$> rows))) as [Hin|Hout]; [by left|right].
  apply ablation_rows_no_first in Er; [done|]. apply Forall_forall. intros e He Heq. apply Hout.
  apply list_elem_of_fmap. by exists e.
Qed.

End suite.

(** ** Concrete inputs *)

Section witnesses.
Import Policy.Examples Store.Examples Transport.Examples.
#[local] Existing Instances coarse_math list_algebra Bench.printed.

(** The first cluster, when it is said to fail, finds no bootstrap peers. *)
Definition bed_of (good : bool) : bed :=
  {| bed_pid := 4242; bed_start := λ _, env0 key_a (if good then Ok () else Err (Errorf "no addresses"));
     bed_tmp := tmp_dirs; bed_close := λ _, clean_stop; bed_net := quiet; bed_times := constant |}.
Definition beds0 (first_good : bool) (k : nat) : bed := bed_of (first_good || negb (k =? 0)%nat).
Definition machine0 : Machine := {| m_made := 0; m_disk := empty_disk |}.

Lemma RunFaultInjection_kills_in_vain_witness :
  let cfg := workload 3 1 1 4 "epsilon-greedy" (lit 1 10) "" in
  RunFaultInjection (beds0 true) counting 3 1 1 4 1 machine0 =
  fault_rows (beds0 true) cfg (Z.to_nat 1) true f0 (harmless counting cfg) machine0.
Proof.
  apply (RunFaultInjection_kills_in_vain (beds0 true) counting 3 1 1 4 1 machine0); [done|].
  intros k. exact constant_unaware.
Defined.

(** The four rows of the table, and the ones that are left when the run of the
    full system fails. *)
Example four_rows :
  match fst (RunFaultInjection (beds0 true) counting 3 1 1 4 1 machine0) with
  | Some (Ok rows) => fe_ErrorCount <$> rows = [0; 0; 0; 0]
  | _ => False
  end.
Proof. vm_compute. done. Qed.

Example no_first_row :
  match fst (RunAblation (beds0 false) counting 3 1 1 4 1 machine0) with
  | Some (Ok rows) => ae_Configuration <$> rows = ["No bandits (greedy)"; "No cache"; "No Bloom exchange"; "Random baseline"]
  | _ => False
  end.
Proof. vm_compute. done. Qed.

End witnesses.
