(* ===== verification/Report.v ===== *)
(** * Tables and files of the benchmarks ([internal/bench/bench.go], [cmd/bench.go])

    The rows of Suite.v as CSV records, as JSON and as the tables the command
    [bench] prints; the command itself, over the suites and the disk they
    run on. *)

From Stdlib Require Import Init.Byte.
From S2P Require Import Prelude Utf8 Json Codec Float64 FloatExact Format Runtime Path Policy Stream Probe Manager Sha256 Chunker Lru Bloom Store Csv Stats Signing Replication Erasure BlockTransfer CacheSummary Node Fetch Providers Transport ProbeLoop Lifecycle Api Handlers Http Client Cluster Bench Suite.

(** ** CSV *)

Definition comparison_header : list string :=
  ["policy"; "epsilon"; "node_count"; "avg_latency_ms"; "p50_latency_ms"; "p95_latency_ms"; "p99_latency_ms";
   "throughput_mbs"; "cache_hit_ratio"; "availability"; "fairness_index"; "stddev_latency_ms"; "ci95_lower"; "ci95_upper"].
Definition comparison_row (e : ComparisonEntry) : list string :=
  [ce_Policy e; FormatFixed 2 (ce_Epsilon e); pretty (ce_NodeCount e); FormatFixed 2 (ce_AvgLatencyMs e);
   FormatFixed 2 (ce_P50LatencyMs e); FormatFixed 2 (ce_P95LatencyMs e); FormatFixed 2 (ce_P99LatencyMs e);
   FormatFixed 4 (ce_ThroughputMBs e); FormatFixed 4 (ce_CacheHitRatio e); FormatFixed 4 (ce_Availability e);
   FormatFixed 4 (ce_FairnessIndex e); FormatFixed 2 (ce_StddevLatMs e); FormatFixed 2 (ce_CI95Lower e);
   FormatFixed 2 (ce_CI95Upper e)].
Definition comparison_records (entries : list ComparisonEntry) : list (list string) :=
  comparison_header :: (comparison_row <$> entries).

Definition ablation_header : list string :=
  ["configuration"; "avg_latency_ms"; "p95_latency_ms"; "throughput_mbs"; "cache_hit_ratio"; "availability";
   "fairness_index"; "stddev_latency_ms"; "delta_avg_pct"; "ci95_lower"; "ci95_upper"].
Definition ablation_row (e : AblationEntry) : list string :=
  [ae_Configuration e; FormatFixed 2 (ae_AvgLatencyMs e); FormatFixed 2 (ae_P95LatencyMs e);
   FormatFixed 4 (ae_ThroughputMBs e); FormatFixed 4 (ae_CacheHitRatio e); FormatFixed 4 (ae_Availability e);
   FormatFixed 4 (ae_FairnessIndex e); FormatFixed 2 (ae_StddevLatMs e); FormatFixed 1 (ae_DeltaAvgPct e);
   FormatFixed 2 (ae_CI95Lower e); FormatFixed 2 (ae_CI95Upper e)].
Definition ablation_records (entries : list AblationEntry) : list (list string) :=
  ablation_header :: (ablation_row <$> entries).

Definition fault_header : list string :=
  ["scenario"; "avg_latency_ms"; "p95_latency_ms"; "availability"; "error_count"; "stddev_latency_ms"; "delta_avg_pct";
   "ci95_lower"; "ci95_upper"].
Definition fault_row (e : FaultInjectionEntry) : list string :=
  [fe_Scenario e; FormatFixed 2 (fe_AvgLatencyMs e); FormatFixed 2 (fe_P95LatencyMs e);
   FormatFixed 4 (fe_Availability e); pretty (fe_ErrorCount e); FormatFixed 2 (fe_StddevLatMs e);
   FormatFixed 1 (fe_DeltaAvgPct e); FormatFixed 2 (fe_CI95Lower e); FormatFixed 2 (fe_CI95Upper e)].
Definition fault_records (entries : list FaultInjectionEntry) : list (list string) :=
  fault_header :: (fault_row <$> entries).

Definition Comparison_WriteCSV (f : fault) (d : Disk) (p : path) (r : list ComparisonEntry) : outcome unit * Disk :=
  write_rows f d p (comparison_records r).
Definition Ablation_WriteCSV (f : fault) (d : Disk) (p : path) (r : list AblationEntry) : outcome unit * Disk :=
  write_rows f d p (ablation_records r).
Definition FaultInjection_WriteCSV (f : fault) (d : Disk) (p : path) (r : list FaultInjectionEntry) : outcome unit * Disk :=
  write_rows f d p (fault_records r).

(** ** JSON *)

Section json.
Context {JF : JSONFloats}.

(** NaN and the infinities have no JSON text. *)
Definition float_json (x : float64) : outcome json :=
  match json_float x with
  | Some b => Ok (JNumber b)
  | None => Err (Errorf ("json: unsupported value: " +:+ FormatFixed 0 x))
  end.
Definition int_json (n : Z) : outcome json := Ok (JNumber (FormatInt n)).
Definition string_json (s : string) : outcome json := Ok (JString s).

(** In order, up to the first value that cannot be written. *)
Fixpoint sequence {A} (l : list (outcome A)) : outcome (list A) :=
  match l with
  | [] => Ok []
  | m :: l' => a ← m; rest ← sequence l'; Ok (a :: rest)
  end.

Definition struct_json (fields : list (string * outcome json)) : outcome json :=
  vs ← sequence (snd <$> fields);
  Ok (JObject (zip (fst <$> fields) vs)).
Definition slice_json {A} (f : A → outcome json) (l : list A) : outcome json :=
  match l with [] => Ok JNull | _ => JArray <$> sequence (f <$> l) end.

Definition omit_zero (name : string) (x : float64) : list (string * outcome json) :=
  if feq x f0 then [] else [(name, float_json x)].
Definition omit_empty {A} (name : string) (f : A → outcome json) (l : list A) : list (string * outcome json) :=
  match l with [] => [] | _ => [(name, slice_json f l)] end.

Definition config_json (c : BenchConfig) : outcome json :=
  struct_json ([("node_count", int_json (NodeCount c)); ("content_size_bytes", int_json (ContentSize c));
    ("requests", int_json (Requests c)); ("chunk_size_bytes", int_json (ChunkSize c));
    ("policy", string_json (b_Policy c)); ("epsilon", float_json (b_Epsilon c))] ++
    (if decide (b_TimeSeriesDir c = "") then [] else [("timeseries_dir", string_json (b_TimeSeriesDir c))])).

Definition latency_json (r : LatencyResult) : outcome json :=
  struct_json ([("avg_latency_ms", float_json (AvgLatencyMs r)); ("p50_latency_ms", float_json (P50LatencyMs r));
    ("p95_latency_ms", float_json (P95LatencyMs r)); ("p99_latency_ms", float_json (P99LatencyMs r));
    ("min_latency_ms", float_json (MinLatencyMs r)); ("max_latency_ms", float_json (MaxLatencyMs r));
    ("throughput_mbs", float_json (ThroughputMBs r)); ("fairness_index", float_json (FairnessIndex r));
    ("samples", int_json (Samples r)); ("all_ms", slice_json float_json (AllMs r))] ++
    omit_empty "timestamps_s" float_json (Timestamps r)).

Definition results_json (r : Results) : outcome json :=
  struct_json [("config", config_json (res_Config r)); ("latency", latency_json (res_Latency r));
    ("cache_comparison", struct_json [("cache_hits", int_json (CacheHits (res_Cache r)));
       ("cache_misses", int_json (CacheMisses (res_Cache r))); ("hit_ratio", float_json (HitRatio (res_Cache r)))]);
    ("resilience", struct_json [("total_blocks", int_json (TotalBlocks (res_Resilience r)));
       ("available_blocks", int_json (AvailableBlocks (res_Resilience r)));
       ("availability", float_json (Availability (res_Resilience r)));
       ("nodes_killed", int_json (NodesKilled (res_Resilience r)))]);
    ("total_duration", string_json (res_TotalDuration r))].

Definition comparison_json (r : list ComparisonEntry) : outcome json :=
  struct_json [("configs", slice_json (λ e, struct_json (
    [("policy", string_json (ce_Policy e))] ++ omit_zero "epsilon" (ce_Epsilon e) ++
    [("node_count", int_json (ce_NodeCount e)); ("avg_latency_ms", float_json (ce_AvgLatencyMs e));
     ("p50_latency_ms", float_json (ce_P50LatencyMs e)); ("p95_latency_ms", float_json (ce_P95LatencyMs e));
     ("p99_latency_ms", float_json (ce_P99LatencyMs e)); ("throughput_mbs", float_json (ce_ThroughputMBs e));
     ("cache_hit_ratio", float_json (ce_CacheHitRatio e)); ("availability", float_json (ce_Availability e));
     ("fairness_index", float_json (ce_FairnessIndex e)); ("stddev_lat_ms", float_json (ce_StddevLatMs e));
     ("ci95_lower", float_json (ce_CI95Lower e)); ("ci95_upper", float_json (ce_CI95Upper e))])) r)].

Definition ablation_json (r : list AblationEntry) : outcome json :=
  struct_json [("entries", slice_json (λ e, struct_json
    [("configuration", string_json (ae_Configuration e)); ("avg_latency_ms", float_json (ae_AvgLatencyMs e));
     ("p95_latency_ms", float_json (ae_P95LatencyMs e)); ("throughput_mbs", float_json (ae_ThroughputMBs e));
     ("cache_hit_ratio", float_json (ae_CacheHitRatio e)); ("availability", float_json (ae_Availability e));
     ("fairness_index", float_json (ae_FairnessIndex e)); ("stddev_lat_ms", float_json (ae_StddevLatMs e));
     ("delta_avg_pct", float_json (ae_DeltaAvgPct e)); ("ci95_lower", float_json (ae_CI95Lower e));
     ("ci95_upper", float_json (ae_CI95Upper e))]) r)].

Definition fault_json (r : list FaultInjectionEntry) : outcome json :=
  struct_json [("entries", slice_json (λ e, struct_json
    [("scenario", string_json (fe_Scenario e)); ("avg_latency_ms", float_json (fe_AvgLatencyMs e));
     ("p95_latency_ms", float_json (fe_P95LatencyMs e)); ("availability", float_json (fe_Availability e));
     ("error_count", int_json (fe_ErrorCount e)); ("stddev_lat_ms", float_json (fe_StddevLatMs e));
     ("delta_avg_pct", float_json (fe_DeltaAvgPct e)); ("ci95_lower", float_json (fe_CI95Lower e));
     ("ci95_upper", float_json (fe_CI95Upper e))]) r)].

Definition WriteJSON (f : fault) (d : Disk) (p : path) (r : outcome json) : outcome unit * Disk :=
  match r with
  | Ok v => WriteFile f d p (MarshalIndent v)
  | Err e => (Err e, d)
  | Panic w => (Panic w, d)
  end.
End json.

(** ** The command [bench] *)

Record bench_flags := {
  benchNodes : Z; benchContentSize : Z; benchRequests : Z; benchChunkSize : Z; benchPolicy : string;
  benchEpsilon : float64; benchExperiment : string; benchOutputJSON : string; benchOutputCSV : string;
  benchRuns : Z; benchTimeSeriesDir : string
}.
Definition default_bench : bench_flags :=
  {| benchNodes := 5; benchContentSize := 1024 * 1024; benchRequests := 10; benchChunkSize := 256 * 1024;
     benchPolicy := "epsilon-greedy"; benchEpsilon := lit 1 10; benchExperiment := "compare"; benchOutputJSON := "";
     benchOutputCSV := ""; benchRuns := 1; benchTimeSeriesDir := "" |}.

(** [%w.pf], [%w.pf%%] of a ratio, [%+w.pf%%] *)
Definition fixed (w prec : nat) (x : float64) : string := right_aligned w (FormatFixed prec x).
Definition percent (x : float64) : float64 := fmul x (of_int 100).
Definition percent_cell (w : nat) (x : float64) : string := fixed w 1 (percent x) +:+ "%".
Definition change_cell (w : nat) (x : float64) : string := right_aligned w (with_plus 1 x) +:+ "%".
Definition cells (l : list string) : string := String.concat " " l.
Definition rule (n : nat) : string := to_string (replicate n x2d).

Definition comparison_heading : string :=
  cells [left_aligned 16 "Policy"; right_aligned 5 "Nodes"; right_aligned 8 "Avg(ms)"; right_aligned 8 "P50(ms)";
         right_aligned 8 "P95(ms)"; right_aligned 8 "P99(ms)"; right_aligned 10 "MB/s"; right_aligned 8 "Cache%";
         right_aligned 8 "Avail%"].
Definition comparison_line (e : ComparisonEntry) : string :=
  cells [left_aligned 16 (ce_Policy e); right_aligned 5 (pretty (ce_NodeCount e)); fixed 8 1 (ce_AvgLatencyMs e);
         fixed 8 1 (ce_P50LatencyMs e); fixed 8 1 (ce_P95LatencyMs e); fixed 8 1 (ce_P99LatencyMs e);
         fixed 10 2 (ce_ThroughputMBs e); percent_cell 7 (ce_CacheHitRatio e); percent_cell 7 (ce_Availability e)].
Definition printComparisonTable (entries : list ComparisonEntry) : string :=
  lines ([""; "=== Comparison Results ==="; comparison_heading; rule 90] ++ (comparison_line <$> entries)).

Definition ablation_table (entries : list AblationEntry) : string :=
  lines ([""; "=== Ablation Study ===";
    cells [left_aligned 28 "Configuration"; right_aligned 8 "Avg(ms)"; right_aligned 8 "±σ"; right_aligned 8 "P95(ms)";
           right_aligned 8 "Cache%"; right_aligned 8 "Δ Avg%"; right_aligned 10 "95% CI"];
    rule 90] ++
    ((λ e, cells [left_aligned 28 (ae_Configuration e); fixed 8 2 (ae_AvgLatencyMs e); fixed 8 2 (ae_StddevLatMs e);
                  fixed 8 2 (ae_P95LatencyMs e); percent_cell 7 (ae_CacheHitRatio e); change_cell 8 (ae_DeltaAvgPct e);
                  "[" +:+ FormatFixed 2 (ae_CI95Lower e) +:+ "," +:+ FormatFixed 2 (ae_CI95Upper e) +:+ "]"]) <$> entries)).

Definition fault_table (entries : list FaultInjectionEntry) : string :=
  lines ([""; "=== Fault Injection Results ===";
    cells [left_aligned 30 "Scenario"; right_aligned 8 "Avg(ms)"; right_aligned 8 "±σ"; right_aligned 8 "P95(ms)";
           right_aligned 8 "Errors"; right_aligned 10 "Δ Avg%"];
    rule 82] ++
    ((λ e, cells [left_aligned 30 (fe_Scenario e); fixed 8 2 (fe_AvgLatencyMs e); fixed 8 2 (fe_StddevLatMs e);
                  fixed 8 2 (fe_P95LatencyMs e); right_aligned 8 (pretty (fe_ErrorCount e));
                  change_cell 9 (fe_DeltaAvgPct e)]) <$> entries)).

Definition single_report (cfg : BenchConfig) (r : Results) : string :=
  let l := res_Latency r in
  let v := res_Resilience r in
  lines [""; "=== Benchmark Results ==="; "Policy:     " +:+ b_Policy cfg; "Nodes:      " +:+ pretty (NodeCount cfg);
    "Duration:   " +:+ res_TotalDuration r; ""; "Latency:";
    "  Avg:  " +:+ FormatFixed 1 (AvgLatencyMs l) +:+ " ms"; "  P50:  " +:+ FormatFixed 1 (P50LatencyMs l) +:+ " ms";
    "  P95:  " +:+ FormatFixed 1 (P95LatencyMs l) +:+ " ms"; "  P99:  " +:+ FormatFixed 1 (P99LatencyMs l) +:+ " ms";
    "  Throughput: " +:+ FormatFixed 2 (ThroughputMBs l) +:+ " MB/s"; ""; "Cache:";
    "  Hit Ratio: " +:+ FormatFixed 1 (percent (HitRatio (res_Cache r))) +:+ "%"; ""; "Resilience:";
    "  Availability: " +:+ FormatFixed 1 (percent (Availability v)) +:+ "% (" +:+ pretty (AvailableBlocks v) +:+ "/" +:+
      pretty (TotalBlocks v) +:+ " blocks, " +:+ pretty (NodesKilled v) +:+ " nodes killed)"].

(** ** Reading a table *)

(** The words of a line, between blanks. *)
Definition words (s : string) : list string := to_string <$> filter (λ w, w ≠ []) (Split x20 (to_bytes s)).

(** What stands under a name. *)
Definition column (name : string) (names values : list string) : option string :=
  snd <$> List.find (λ p, bool_decide (fst p = name)) (zip names values).

(** A text of one word. *)
Definition dense (s : string) : Prop := s ≠ "" ∧ x20 ∉ to_bytes s.

Lemma string_append_nil (s : string) : s +:+ "" = s.
Proof. induction s as [|c s IH]; [done|]. change (String c (s +:+ "") = String c s). by rewrite IH. Qed.

Lemma string_append_assoc (r s t : string) : r +:+ s +:+ t = (r +:+ s) +:+ t.
Proof. induction r as [|c r IH]; [done|]. change (String c (r +:+ s +:+ t) = String c ((r +:+ s) +:+ t)). by rewrite IH. Qed.

Lemma lines_app k l : lines (k ++ l) = lines k +:+ lines l.
Proof.
  assert (∀ x l, lines (x :: l) = line x +:+ lines l) as Hc.
  { intros x l'. unfold lines. rewrite fmap_cons. destruct l'; [symmetry; apply string_append_nil|done]. }
  induction k as [|x k IH]; [done|]. cbn [app]. by rewrite !Hc, IH, string_append_assoc.
Qed.

Lemma words_app a b : words (a +:+ " " +:+ b) = words a ++ words b.
Proof.
  unfold words. rewrite !to_bytes_app. change (to_bytes " " ++ to_bytes b) with (x20 :: to_bytes b).
  by rewrite Split_app_any, filter_app, fmap_app.
Qed.

Lemma words_blanks w s : words (to_string (replicate w x20) +:+ s) = words s.
Proof.
  unfold words. rewrite to_bytes_app, to_bytes_to_string. induction w as [|w IH]; [done|].
  cbn [replicate app Split]. rewrite decide_True, filter_cons_False by (done || naive_solver). exact IH.
Qed.

Lemma words_dense s : dense s → words s = [s].
Proof.
  intros [Hne Hno]. unfold words. rewrite Split_absent, filter_cons_True, filter_nil by (done || by destruct s).
  simpl. by rewrite to_string_to_bytes.
Qed.

Lemma words_left w s : dense s → words (left_aligned w s) = [s].
Proof.
  intros Hd. rewrite <-(words_dense s Hd). unfold left_aligned, blanks. generalize (w - length (runes (to_bytes s)))%nat.
  intros k. destruct k as [|k]; [by rewrite string_append_nil|].
  replace (s +:+ to_string (replicate (S k) x20)) with (s +:+ " " +:+ to_string (replicate k x20) +:+ "")
    by by rewrite string_append_nil.
  by rewrite words_app, words_blanks, app_nil_r.
Qed.

Lemma words_right w s : dense s → words (right_aligned w s) = [s].
Proof. intros Hd. unfold right_aligned, blanks. by rewrite words_blanks, words_dense. Qed.

Lemma words_cells cs ws : Forall2 (λ c w, words c = [w]) cs ws → words (cells cs) = ws.
Proof.
  induction 1 as [|c w cs ws Hc Hcs IH]; [done|]. unfold cells. destruct cs as [|c' cs].
  - inversion Hcs. exact Hc.
  - change (words (c +:+ " " +:+ cells (c' :: cs)) = w :: ws). by rewrite words_app, Hc, IH.
Qed.

(** Numbers are words. *)
Lemma digits_no_blank ds : forallb digit ds = true → x20 ∉ ds.
Proof. rewrite forallb_forall. intros Hd Hin%list_elem_of_In. by apply Hd in Hin. Qed.

Lemma FormatFixed_dense prec x : dense (FormatFixed prec x).
Proof.
  assert (∀ s u, 0 ≤ u → dense (to_string ((if s : bool then [x2d] else []) ++ fraction_text prec u))) as H.
  { intros s u Hu. unfold fraction_text. destruct (digits_spec (u / 10 ^ Z.of_nat prec)) as (d & ds & -> & Hd & _).
    { apply Z.div_pos; [done|]. apply Z.pow_pos_nonneg; lia. }
    split; [by destruct s|]. rewrite to_bytes_to_string, !not_elem_of_app. split_and!.
    - destruct s; [by intros [=]%list_elem_of_singleton|apply not_elem_of_nil].
    - by apply digits_no_blank.
    - case_decide; [apply not_elem_of_nil|]. rewrite not_elem_of_cons. split; [done|].
      apply digits_no_blank, last_digits_digit. }
  destruct x as [s|s| |s m e]; try (apply H, fixed_units_nonneg); [destruct s|]; (split; [done|]); cbn; set_solver.
Qed.

Lemma pretty_dense (z : Z) : dense (pretty z).
Proof.
  assert (∀ p, x20 ∉ to_bytes (pretty (Z.pos p)) ∧ pretty (Z.pos p) ≠ "") as Hp.
  { intros p. destruct (pretty_pos_digits (Z.pos p) ltac:(lia)) as (ds & Hb & Hn & Hd & _). split.
    - rewrite Hb. by apply digits_no_blank.
    - intros H0. rewrite H0 in Hb. by subst ds. }
  destruct z as [|p|p]; [split; [done|]; cbn; set_solver|by destruct (Hp p)|].
  change (pretty (Z.neg p)) with ("-" +:+ pretty (Z.pos p)). split; [done|]. rewrite to_bytes_app, not_elem_of_app.
  split; [cbn; set_solver|]. apply Hp.
Qed.

Lemma percent_dense x : dense (FormatFixed 1 x +:+ "%").
Proof.
  destruct (FormatFixed_dense 1 x) as [Hne Hno]. split; [by destruct (FormatFixed 1 x)|].
  rewrite to_bytes_app, not_elem_of_app. split; [done|]. cbn. set_solver.
Qed.

Lemma words_percent w x : words (percent_cell w x) = [FormatFixed 1 (percent x) +:+ "%"].
Proof.
  unfold percent_cell, fixed, right_aligned, blanks. rewrite <-string_append_assoc, words_blanks.
  apply words_dense, percent_dense.
Qed.

(** The words of the printed heading and of a line under it. *)
Lemma heading_words :
  words comparison_heading = ["Policy"; "Nodes"; "Avg(ms)"; "P50(ms)"; "P95(ms)"; "P99(ms)"; "MB/s"; "Cache%"; "Avail%"].
Proof. vm_compute. reflexivity. Qed.

Lemma line_words e :
  dense (ce_Policy e) →
  words (comparison_line e) =
    [ce_Policy e; pretty (ce_NodeCount e); FormatFixed 1 (ce_AvgLatencyMs e); FormatFixed 1 (ce_P50LatencyMs e);
     FormatFixed 1 (ce_P95LatencyMs e); FormatFixed 1 (ce_P99LatencyMs e); FormatFixed 2 (ce_ThroughputMBs e);
     FormatFixed 1 (percent (ce_CacheHitRatio e)) +:+ "%"; FormatFixed 1 (percent (ce_Availability e)) +:+ "%"].
Proof.
  intros Hd. apply words_cells. repeat constructor; try apply words_percent;
    try (apply words_right; apply pretty_dense || apply FormatFixed_dense). by apply words_left.
Qed.

(** The columns of a line and of a record. *)
Lemma columns_agree e :
  let printed name := column name ["Policy"; "Nodes"; "Avg(ms)"; "P50(ms)"; "P95(ms)"; "P99(ms)"; "MB/s"; "Cache%"; "Avail%"]
    [ce_Policy e; pretty (ce_NodeCount e); FormatFixed 1 (ce_AvgLatencyMs e); FormatFixed 1 (ce_P50LatencyMs e);
     FormatFixed 1 (ce_P95LatencyMs e); FormatFixed 1 (ce_P99LatencyMs e); FormatFixed 2 (ce_ThroughputMBs e);
     FormatFixed 1 (percent (ce_CacheHitRatio e)) +:+ "%"; FormatFixed 1 (percent (ce_Availability e)) +:+ "%"] in
  let written name := column name comparison_header (comparison_row e) in
  (printed "Policy" = Some (ce_Policy e) ∧ written "policy" = Some (ce_Policy e)) ∧
  (printed "Nodes" = Some (pretty (ce_NodeCount e)) ∧ written "node_count" = Some (pretty (ce_NodeCount e))) ∧
  (printed "Avg(ms)" = Some (FormatFixed 1 (ce_AvgLatencyMs e)) ∧
   written "avg_latency_ms" = Some (FormatFixed 2 (ce_AvgLatencyMs e))) ∧
  (printed "P50(ms)" = Some (FormatFixed 1 (ce_P50LatencyMs e)) ∧
   written "p50_latency_ms" = Some (FormatFixed 2 (ce_P50LatencyMs e))) ∧
  (printed "P95(ms)" = Some (FormatFixed 1 (ce_P95LatencyMs e)) ∧
   written "p95_latency_ms" = Some (FormatFixed 2 (ce_P95LatencyMs e))) ∧
  (printed "P99(ms)" = Some (FormatFixed 1 (ce_P99LatencyMs e)) ∧
   written "p99_latency_ms" = Some (FormatFixed 2 (ce_P99LatencyMs e))) ∧
  (printed "MB/s" = Some (FormatFixed 2 (ce_ThroughputMBs e)) ∧
   written "throughput_mbs" = Some (FormatFixed 4 (ce_ThroughputMBs e))) ∧
  (printed "Cache%" = Some (FormatFixed 1 (fmul (ce_CacheHitRatio e) (of_int 100)) +:+ "%") ∧
   written "cache_hit_ratio" = Some (FormatFixed 4 (ce_CacheHitRatio e))) ∧
  (printed "Avail%" = Some (FormatFixed 1 (fmul (ce_Availability e) (of_int 100)) +:+ "%") ∧
   written "availability" = Some (FormatFixed 4 (ce_Availability e))) ∧
  written "epsilon" = Some (FormatFixed 2 (ce_Epsilon e)) ∧
  written "fairness_index" = Some (FormatFixed 4 (ce_FairnessIndex e)) ∧
  written "stddev_latency_ms" = Some (FormatFixed 2 (ce_StddevLatMs e)) ∧
  written "ci95_lower" = Some (FormatFixed 2 (ce_CI95Lower e)) ∧
  written "ci95_upper" = Some (FormatFixed 2 (ce_CI95Upper e)).
Proof. intros printed written. split_and!; reflexivity. Qed.

Lemma Forall3_fmap_same {A B C} (P : A → B → C → Prop) (f : A → B) (g : A → C) l :
  Forall (λ a, P a (f a) (g a)) l → Forall3 P l (f <$> l) (g <$> l).
Proof. induction 1; constructor; done. Qed.

Lemma policies_dense p : p ∈ policies → dense (fst p).
Proof.
  intros Hp. assert (forallb (λ p, bool_decide (fst p ≠ "" ∧ x20 ∉ to_bytes (fst p))) policies = true) as H
    by (vm_compute; reflexivity).
  rewrite forallb_forall in H. apply list_elem_of_In, H in Hp. by apply bool_decide_eq_true in Hp.
Qed.

Section command.
Context `{ML : MathLib, LA : LinAlg, PID : PeerID, MF : Multiformats, JE : JSONErrors, CR : Crypto, MA : Multiaddrs,
          JF : JSONFloats}.
Context (beds : nat → bed) (rd : random) (dk : desk).
(** The faults of the two output files and of the directory of the series. *)
Context (fcsv fjson fdir : fault) (flags : bench_flags).
#[local] Existing Instances Prog_ret Prog_bind.
Abbreviation Harness := (Prog Machine).

Definition on_disk {A} (op : Disk → outcome A * Disk) : Harness A := λ st,
  let '(r, d) := op (m_disk st) in (now r, {| m_made := m_made st; m_disk := d |}).

(** A failure is ignored here, and met again by the writes of the series. *)
Definition make_series_dir : Harness unit :=
  if decide (benchTimeSeriesDir flags = "") then mret ()
  else _ ← try_ (on_disk (λ d, MkdirAll fdir d (located (dk_cwd dk) (benchTimeSeriesDir flags)))); mret ().

(** An output file, when one is named, and the line about it. *)
Definition output (name what : string) (op : Disk → path → outcome unit * Disk) (note : string) : Harness string :=
  if decide (name = "") then mret ""
  else _ ← wrapping what (on_disk (λ d, op d (located (dk_cwd dk) name))); mret (line (note +:+ " written to " +:+ name)).

(** The table, then the two files. *)
Definition publish_results {A} (table : A → string) (csv : fault → Disk → path → A → outcome unit * Disk)
    (to_json : A → outcome json) (r : A) : Harness string :=
  csv_note ← output (benchOutputCSV flags) "write CSV" (λ d p, csv fcsv d p r) (newline +:+ "CSV results");
  json_note ← output (benchOutputJSON flags) "write JSON" (λ d p, WriteJSON fjson d p (to_json r)) "JSON results";
  mret (table r +:+ csv_note +:+ json_note).

Definition runSingleBench : Harness string :=
  _ ← make_series_dir;
  let cfg := workload (benchNodes flags) (benchContentSize flags) (benchRequests flags) (benchChunkSize flags)
               (benchPolicy flags) (benchEpsilon flags) (benchTimeSeriesDir flags) in
  results ← wrapping "benchmark failed" (RunSuite beds rd dk cfg);
  note ← output (benchOutputJSON flags) "write JSON" (λ d p, WriteJSON fjson d p (results_json results))
           (newline +:+ "Results");
  mret (single_report cfg results +:+ note).

Definition runCompareBench : Harness string :=
  _ ← make_series_dir;
  results ← wrapping "comparison failed" (RunComparisonWithRuns beds rd dk (benchNodes flags) (benchContentSize flags)
              (benchRequests flags) (benchChunkSize flags) (benchRuns flags) (benchTimeSeriesDir flags));
  publish_results printComparisonTable Comparison_WriteCSV comparison_json results.

Definition runScalabilityBench : Harness string :=
  _ ← make_series_dir;
  results ← wrapping "scalability experiment failed" (RunScalability beds rd dk [5; 10; 25] (benchContentSize flags)
              (benchRequests flags) (benchChunkSize flags) (benchRuns flags) (benchTimeSeriesDir flags));
  publish_results printComparisonTable Comparison_WriteCSV comparison_json results.

(** Fewer than three runs are made ten. *)
Definition enough_runs : Z := if benchRuns flags <? 3 then 10 else benchRuns flags.

Definition runAblationBench : Harness string :=
  results ← wrapping "ablation failed" (RunAblation beds rd (benchNodes flags) (benchContentSize flags)
              (benchRequests flags) (benchChunkSize flags) enough_runs);
  publish_results ablation_table Ablation_WriteCSV ablation_json results.

Definition runFaultInjectionBench : Harness string :=
  results ← wrapping "fault injection failed" (RunFaultInjection beds rd (benchNodes flags) (benchContentSize flags)
              (benchRequests flags) (benchChunkSize flags) enough_runs);
  publish_results fault_table FaultInjection_WriteCSV fault_json results.

Definition runBench : Harness string :=
  let e := ToLower (benchExperiment flags) in
  if decide (e = "single") then runSingleBench
  else if decide (e = "compare") then runCompareBench
  else if decide (e = "scalability") then runScalabilityBench
  else if decide (e = "ablation") then runAblationBench
  else if decide (e = "fault" ∨ e = "fault-injection") then runFaultInjectionBench
  else lift (Err (Errorf ("unknown experiment: " +:+ benchExperiment flags +:+
                          " (valid: single, compare, scalability, ablation, fault)"))).

(** ** What the command leaves behind *)

Lemma comparison_records_rows entries : Forall (λ row, row ≠ []) (comparison_records entries).
Proof. constructor; [done|]. apply Forall_fmap, Forall_forall. by intros. Qed.

Lemma output_Ok name what op note out st st' :
  name ≠ "" → output name what op note st = (Some (Ok out), st') →
  op (m_disk st) (located (dk_cwd dk) name) = (Ok (), m_disk st') ∧ out = line (note +:+ " written to " +:+ name).
Proof.
  intros Hn. unfold output. rewrite decide_False by done. intros (u & t & H1 & [= <- <-])%Prog_bind_inv.
  unfold wrapping, on_disk in H1. destruct (op _ _) as [[[]|e|w] d]; [|done..]. by injection H1 as <- <-.
Qed.

(** A comparison that succeeds, step by step. *)
Lemma runCompareBench_Ok st st' out :
  benchOutputCSV flags ≠ "" → benchOutputJSON flags = "" → runCompareBench st = (Some (Ok out), st') →
  ∃ entries t1,
    RunComparisonWithRuns beds rd dk (benchNodes flags) (benchContentSize flags) (benchRequests flags)
      (benchChunkSize flags) (benchRuns flags) (benchTimeSeriesDir flags) (snd (make_series_dir st))
      = (Some (Ok entries), t1) ∧
    Comparison_WriteCSV fcsv (m_disk t1) (located (dk_cwd dk) (benchOutputCSV flags)) entries = (Ok (), m_disk st') ∧
    out = printComparisonTable entries +:+ line (newline +:+ "CSV results written to " +:+ benchOutputCSV flags).
Proof.
  intros Hc Hj. unfold runCompareBench. intros (u & t & Hm & H)%Prog_bind_inv.
  apply Prog_bind_inv in H as (entries & t1 & Hr & H). unfold wrapping in Hr. rewrite Hm. cbn [snd].
  destruct (RunComparisonWithRuns _ _ _ _ _ _ _ _ _ t) as [[[es|e|w]|] t2] eqn:ER; [|done..]. injection Hr as -> ->.
  unfold publish_results in H. apply Prog_bind_inv in H as (note & t3 & Ho & H). rewrite Hj in H.
  apply Prog_bind_inv in H as (note' & t4 & [= <- <-] & [= <- <-]). apply output_Ok in Ho as [Hw ->]; [|done].
  exists entries, t1. split_and!; [done|done|]. f_equal. by rewrite string_append_nil.
Qed.

(** C36: what the command prints and what it writes are the same table.  If
    [bench --experiment compare --output-csv] succeeds on a disk that works,
    there is a line of the printed table and a record of the file it names
    (read by the grammar of RFC 4180) for each entry of the comparison that
    was run, in order; and the words of the line, under the words of the printed
    heading, are the policy, the nodes, the latencies to one decimal, the
    throughput to two and the two ratios in percent of the same entry of which
    the fields of the record, under the names in the file's first record, are
    the policy, the nodes and all numbers to their two or four decimals.  The
    entries are for some of the seven policies, in their order and at most once
    each, all for the number of nodes that was asked for. *)
Theorem compare_command_file (st st' : Machine) (out : string) :
  benchOutputCSV flags ≠ "" → benchOutputJSON flags = "" → fcsv = None →
  runCompareBench st = (Some (Ok out), st') →
  ∃ entries heading rows text header records,
    fst (RunComparisonWithRuns beds rd dk (benchNodes flags) (benchContentSize flags) (benchRequests flags)
      (benchChunkSize flags) (benchRuns flags) (benchTimeSeriesDir flags) (snd (make_series_dir st)))
      = Some (Ok entries) ∧
    ((λ e, (ce_Policy e, ce_Epsilon e)) <$> entries) `sublist_of` policies ∧
    out = lines (["";  "=== Comparison Results ==="; heading; rule 90] ++ rows ++
                 [""; "CSV results written to " +:+ benchOutputCSV flags]) ∧
    files (m_disk st') !! located (dk_cwd dk) (benchOutputCSV flags) = Some text ∧
    read_csv text = Some (header :: records) ∧
    Forall3 (λ e row record,
      let printed name := column name (words heading) (words row) in
      let written name := column name header record in
      ce_NodeCount e = benchNodes flags ∧
      (printed "Policy" = Some (ce_Policy e) ∧ written "policy" = Some (ce_Policy e)) ∧
      (printed "Nodes" = Some (pretty (benchNodes flags)) ∧ written "node_count" = Some (pretty (benchNodes flags))) ∧
      (printed "Avg(ms)" = Some (FormatFixed 1 (ce_AvgLatencyMs e)) ∧
       written "avg_latency_ms" = Some (FormatFixed 2 (ce_AvgLatencyMs e))) ∧
      (printed "P50(ms)" = Some (FormatFixed 1 (ce_P50LatencyMs e)) ∧
       written "p50_latency_ms" = Some (FormatFixed 2 (ce_P50LatencyMs e))) ∧
      (printed "P95(ms)" = Some (FormatFixed 1 (ce_P95LatencyMs e)) ∧
       written "p95_latency_ms" = Some (FormatFixed 2 (ce_P95LatencyMs e))) ∧
      (printed "P99(ms)" = Some (FormatFixed 1 (ce_P99LatencyMs e)) ∧
       written "p99_latency_ms" = Some (FormatFixed 2 (ce_P99LatencyMs e))) ∧
      (printed "MB/s" = Some (FormatFixed 2 (ce_ThroughputMBs e)) ∧
       written "throughput_mbs" = Some (FormatFixed 4 (ce_ThroughputMBs e))) ∧
      (printed "Cache%" = Some (FormatFixed 1 (fmul (ce_CacheHitRatio e) (of_int 100)) +:+ "%") ∧
       written "cache_hit_ratio" = Some (FormatFixed 4 (ce_CacheHitRatio e))) ∧
      (printed "Avail%" = Some (FormatFixed 1 (fmul (ce_Availability e) (of_int 100)) +:+ "%") ∧
       written "availability" = Some (FormatFixed 4 (ce_Availability e))) ∧
      written "epsilon" = Some (FormatFixed 2 (ce_Epsilon e)) ∧
      written "fairness_index" = Some (FormatFixed 4 (ce_FairnessIndex e)) ∧
      written "stddev_latency_ms" = Some (FormatFixed 2 (ce_StddevLatMs e)) ∧
      written "ci95_lower" = Some (FormatFixed 2 (ce_CI95Lower e)) ∧
      written "ci95_upper" = Some (FormatFixed 2 (ce_CI95Upper e)))
      entries rows records.
Proof.
  intros Hc Hj Hf (entries & t1 & HR & Hw & ->)%runCompareBench_Ok; [|done..]. rewrite Hf in Hw.
  pose proof (compare_policies_spec beds rd dk policies (benchNodes flags) (benchContentSize flags) (benchRequests flags)
    (benchChunkSize flags) (Z.to_nat (if benchRuns flags <? 1 then 1 else benchRuns flags)) (benchTimeSeriesDir flags)
    (snd (make_series_dir st))) as Hs.
  rewrite HR. unfold RunComparisonWithRuns in HR. rewrite HR in Hs. destruct Hs as [Hsub Hn].
  exists entries, comparison_heading, (comparison_line <$> entries), (csv_text (comparison_records entries)),
    comparison_header, (comparison_row <$> entries).
  split_and!; [done|done| | | |].
  - unfold printComparisonTable. rewrite app_assoc, (lines_app (_ ++ _)). done.
  - by apply (write_rows_Ok (m_disk t1)).
  - apply read_csv_text, comparison_records_rows.
  - apply Forall3_fmap_same, Forall_forall. intros e He. rewrite Forall_forall in Hn.
    assert (dense (ce_Policy e)) as Hd.
    { apply (list_elem_of_fmap_2 (λ e, (ce_Policy e, ce_Epsilon e))) in He.
      apply (policies_dense (ce_Policy e, ce_Epsilon e)). by eapply elem_of_sublist. }
    rewrite <-(Hn e He). split; [done|]. rewrite heading_words, line_words by done. exact (columns_agree e).
Qed.

End command.

(** ** Concrete inputs *)

Section witnesses.
Import Policy.Examples Store.Examples Transport.Examples.
#[local] Existing Instances coarse_math list_algebra Bench.printed.
#[local] Instance no_floats : JSONFloats := λ _, None.

(** Only the three clusters of the first policy start. *)
Definition beds1 (k : nat) : bed := bed_of (k <? 3)%nat.
Definition desk0 : desk := {| dk_cwd := ["work"]; dk_fault := λ _, None; dk_total := λ _, Second |}.
Definition flags0 : bench_flags :=
  {| benchNodes := 3; benchContentSize := 1; benchRequests := 1; benchChunkSize := 4; benchPolicy := "ucb1";
     benchEpsilon := f0; benchExperiment := "Compare"; benchOutputJSON := ""; benchOutputCSV := "results.csv";
     benchRuns := 1; benchTimeSeriesDir := "" |}.
Definition machine1 : Machine :=
  {| m_made := 0; m_disk := {| files := files empty_disk; dirs := {[ ["work"] ]} ∪ dirs empty_disk |} |}.

Definition compared : blocking string * Machine := runCompareBench beds1 counting desk0 None None None flags0 machine1.
Definition compared_text : string := match fst compared with Some (Ok out) => out | _ => "" end.

Lemma compared_Ok : compared = (Some (Ok compared_text), snd compared).
Proof.
  assert (succeeded (fst compared) = true) as H by (vm_compute; reflexivity).
  unfold compared_text. destruct compared as [[[out|e|w]|] st]; done.
Qed.

(** The file that is written. *)
Definition compared_file : bytes := default [] (files (m_disk (snd compared)) !! ["work"; "results.csv"]).

Lemma compare_command_file_witness :
  ∃ entries heading rows,
    ((λ e, (ce_Policy e, ce_Epsilon e)) <$> entries) `sublist_of` policies ∧
    compared_text = lines (["";  "=== Comparison Results ==="; heading; rule 90] ++ rows ++
                           [""; "CSV results written to results.csv"]) ∧
    ∃ header records, read_csv compared_file = Some (header :: records) ∧
      Forall3 (λ e row record,
        column "P50(ms)" (words heading) (words row) = Some (FormatFixed 1 (ce_P50LatencyMs e)) ∧
        column "p50_latency_ms" header record = Some (FormatFixed 2 (ce_P50LatencyMs e))) entries rows records.
Proof.
  destruct (compare_command_file beds1 counting desk0 None None None flags0 machine1 (snd compared) compared_text)
    as (entries & heading & rows & text & header & records & _ & Hsub & Hout & Htext & Hread & Hall);
    [done|done|done|exact compared_Ok|].
  exists entries, heading, rows. split; [exact Hsub|]. split; [exact Hout|]. exists header, records. split.
  - unfold compared_file. change (files (m_disk (snd compared)) !! ["work"; "results.csv"] = Some text) in Htext.
    rewrite Htext. exact Hread.
  - eapply Forall3_impl; [exact Hall|]. intros e row record H. split; apply H.
Defined.

(** What the table and the writer made of the one run that succeeded. *)
Example compared_columns :
  match read_csv compared_file with
  | Some [header; record] => column "policy" header record = Some "epsilon-greedy" ∧
                             column "p50_latency_ms" header record = Some "2.00"
  | _ => False
  end.
Proof. vm_compute. done. Qed.

(** The experiment's name is read without regard to case. *)
Example compare_by_name :
  runBench beds1 counting desk0 None None None flags0 machine1 = compared.
Proof. reflexivity. Qed.

End witnesses.
